(* ===== verification/_CoqProject ===== *)
-Q . S2P
Prelude.v
GoLib.v
Backoff.v
Json.v
Messages.v
Store.v
Pool.v
Kafka.v
Routing.v
Strategy.v
Recovery.v
Lifecycle.v
Connect.v
Queue.v
Sessions.v
SessionProps.v
Heap.v
Reminders.v
Bindings.v
ActorState.v
DebugParser.v
Commands.v
CommandProps.v
Routes.v
Debugger.v
DebugRoutes.v
Events.v
Deadlock.v
KarServer.v
KarQuery.v
KarClient.v
KarMain.v
Config.v
Injection.v
Tickers.v
Keyspace.v
LogAnalyzer.v
Router.v
HttpClient.v
Cli.v
Checker.v
