(* ===== verification/Prelude.v ===== *)
(** * KAR: a verification library for the KAR runtime (IBM/kar)

    KAR runs an application as a set of processes, each with a sidecar.  Sidecars
    exchange requests and responses over one Kafka topic, one partition per
    sidecar, partition 0 reserved; requests go to services, to sessions (the
    actors) or to nodes.  The placement of actors, their state, reminders and
    subscriptions are in Redis.  When a sidecar fails, the others rebalance: a
    leader is given the partitions of the dead and sends their pending requests
    again.  This library models the core of the sidecar, src/core, and proves what
    makes it correct.

    ** Files

    - [Prelude] (this file): Go errors and results, the state monad with early
      return [M], frame conditions, lists.
    - [GoLib]: what the sources use of Go's packages strconv, strings and time, and
      the iteration over maps, whose order is arbitrary ([MapIter]).
    - [Backoff]: the package that repeats operations ([BackoffOps], [BackoffLaws]),
      which [HttpClient], [Pool] and [Connect] use.
    - [Messages]: pkg/rpc/messages.go.  Messages, targets and the headers of the
      Kafka records; decoding inverts encoding.
    - [Store]: pkg/store/store.go and the key mangling of
      internal/runtime/runtime-main.go.  The Redis commands as functions of a
      client [Redis] with its documented laws [RedisLaws]; [MiniRedis] is an
      instance.  CAS is an atomic compare-and-set.
    - [Pool]: the connections of pkg/store/store.go: their options, the pool with its
      retries, [doRaw] and [Dial].  A pool ([PoolOps]) and the server behind it
      implement [Redis].
    - [Kafka]: the producer and the logs, a class with laws and an instance.
    - [Routing]: pkg/rpc/send.go and query.go.  [world] is a sidecar's tables, its
      clients, its random choices and what the other sidecars do to Redis before
      each of its commands.
    - [Strategy]: pkg/rpc/strategy.go.  The partition plan and the routing tables.
    - [Recovery]: pkg/rpc/transport.go.  The consumer group's handler: the scan
      of the partitions, the resending of pending requests, the consumption of
      messages and the write mutex.
    - [Lifecycle]: the loop of pkg/rpc/dial.go with the callbacks of [Recovery], the
      plans of [Strategy] and the senders of [Routing], which share the tables under
      the mutex, as a step relation ([step]).
    - [Connect]: dial.go up to that loop, pkg/rpc/topics.go and connect of requests.go:
      the configurations of the clients, Dial, topics and publishers, against the
      interface [SaramaOps].
    - [Queue], [Sessions], [SessionProps]: pkg/rpc/requests.go.  [Sessions] has a
      task per goroutine; a critical section and an operation on a channel is one
      step ([exec]), and runs are sequences of steps.  [Queue] is the abstract
      specification of the locks, which [Sessions] refines ([sim_exec]);
      [SessionProps] has the properties.
    - [Heap], [Reminders]: internal/runtime/reminder_queue.go and reminders.go, with
      the loops of Go's package heap behind the class [HeapItem].
    - [Bindings]: internal/runtime/bindings.go, against the interface [Bindings] of a
      collection, which the reminder queue and the sources of events implement.
    - [Json]: the values of encoding/json, the class [Json] of the package with its
      laws [JsonLaws], the answers of HTTP; [MiniJson] is an instance.
    - [ActorState]: internal/runtime/routes-state.go, the state of actors in Redis,
      and its refinement of a map of keys and sub-keys.
    - [DebugParser]: internal/runtime/debug-parser.go, the conditions of breakpoints
      and the edits of responses on decoded JSON.
    - [Commands], [CommandProps]: internal/runtime/commands.go and actors.go.  The
      callers' functions, and the handlers that run in the sidecar of the target,
      against the interfaces [RpcOps] (the rpc package), [AppOps] (the
      application), [BindingOps], [SidecarOps] and [Hooks] (the debugger).
    - [Routes]: routes-invoke.go, routes-reminders.go, routes-events.go and
      routes-system.go: requests of HTTP as commands, outcomes as answers.
    - [Debugger]: the debugger's part of commands.go: breakpoints, pauses, and the
      goroutines that wait for them as the step system [pstep], among which
      each command and each breakpoint takes the ones it says ([pauses_as_told]).
    - [DebugRoutes]: routes-debug.go, the commands of the debuggers' websockets.
    - [Events]: internal/runtime/events.go and the subscriber of pkg/rpc/topics.go.
    - [Deadlock], [KarServer], [KarQuery]: cmd/kar-debugger/kar-debugger.go.  The
      search for deadlocks, the server that keeps the state of the debugger between
      the sidecar and the clients, and the summary of the records of Kafka with the
      arguments of the clients.
    - [KarClient]: the commands of the client of cmd/kar-debugger and what it prints,
      against the connection [Conn].
    - [KarMain]: the rest of cmd/kar-debugger: main, the framing of messages and the
      connection of a client, the connection to Kafka and the readers of partitions.
    - [Tickers]: the loops of commands.go over time: the rounds of reminders among the
      operations of the other goroutines, the bindings after each rebalance, the
      collection of idle sessions.
    - [Config]: internal/config/config.go and pkg/logger.  The flags
      of each command, their parsing, and the settings; the variables of the package
      are a record of maps, what the process reads is the class [Host].
    - [Injection]: internal/sidecar/injection.go and cmd/kar-injector/main.go.  The
      patches of a pod and the answers of the admission controller.
    - [HttpClient]: internal/runtime/http_client.go.  The requests to the application
      and their repetition ([HttpOps]).
    - [Router]: the table of routes of internal/runtime/runtime-main.go, against the
      interface [HttpRouter] of the router.
    - [Cli]: the main function of runtime-main.go, the commands of repl.go and
      launcher.go, against [StoreOps], [KafkaOps] and [ProcessOps].
    - [Keyspace]: the keys of all components together, and Purge on them.
    - [LogAnalyzer]: cmd/kar-log-analyzer/main.go.  [Checker]: pkg/checker, the checks of
      an output, the runs of a test and the connection of its client.

    A request goes through them in this order: [Routes] makes it a command of
    [Commands], which [Sessions] (calls and answers), [Routing] and [Messages] carry
    to the sidecar of its target, whose [Sessions] give it to a handler of
    [Commands]; the handlers use [Bindings], [ActorState] and [Debugger], and all of
    them [Store].  The interfaces are classes, so each part is proved on its own.

    ** What is proved

    - Messaging: the round trip of messages, the precision of deadlines, one record
      per send, the errors of unreachable targets, termination of the placement of
      actors in spite of concurrent sidecars, and their agreement on it while it is
      not deleted.
    - Rebalancing and recovery: plans give distinct free partitions to all members, or
      the non-empty ones to the leader, or ask for enough partitions; recovery loses no
      request to a service or a session that can be restarted, repeats none, keeps the
      completions of requests that stay, and empties dead partitions only; consumption
      is exactly once across rebalances.
    - Connections: from connecting to disconnecting the mutex brackets every change of
      the routing tables, does not block a session that has started, and messages are sent by the tables
      of the session they are sent in ([mutex_protocol]); how connecting ends, and what
      a failure after the mutex was taken leaves; the topic of the application exists
      then; the pool of connections implements the store's interface and gets every
      connection back; the debugger's server connects as a sidecar of the same
      environment, and frames arrive as they were sent.
    - Sessions: mutual exclusion, queue order, absence of blocking and of panics,
      progress, ownership of flows, one answer per request, deactivations that strand no
      exclusive request, and refinement of the queue specification.
    - Reminders and bindings: heap order and gauges, the round that fires due
      reminders, cancellation, persistence across restarts, replacement; over time the
      queue is a set of independent timers; the consumer groups that run are those of
      the subscriptions; what a claim consumes and commits.
    - State of actors: every route refines a map of keys and sub-keys, page by page
      where it scans, up to what Redis replies twice and the panic of a clear without
      entries; what a report and an update contain.
    - Commands: a call is activated, invoked and replied to, a tail call continues
      where it says, a PUT of a binding reaches the collection of the actor's
      sidecar; failures of the application that are lost.
    - Debugger: no interleaving of pauses and waits panics, waiters are woken when
      they wait alone and may wait for ever when not, commands and breakpoints pause and
      wake what they say, breakpoints are matched in
      their order and set on every sidecar that can be reached; replacing along a
      path is the recursive replacement.  The debugger's server finds exactly the
      deadlocks of a report and its indirect pauses, and counts pauses right; what a
      query of old requests shows, and why the client's shows nothing.  A breakpoint
      of the command line is the one that the sidecars are told.
    - Process: each setting comes from the first source that has one; the arguments
      that the injector writes are read back as what the annotations say, and the
      patches apply; no accepted command line makes a command panic; a request to
      the application ends with its complete answer, a time-out or an error; at most
      one route matches a request, and the location of a new entry of an actor, when its
      names need no escape, leads back to it.
    - Redis as a whole: every key has the type of its prefix whatever operations run
      ([keyspace_typed]); purging deletes all keys of the application, draining none.
    - Tools: the outages of a log partition its failures; the check of an output is
      exact.

    ** Loops and fuel

    Loops over slices are structural.  The placement loop of [Routing] and the
    resending of [Recovery] take fuel; the theorems give the amount that is enough
    (the number of interferences of other sidecars plus two) and state that the
    result is then a result of the code.  The heap loops and the reminder loops
    take the length of the queue, with which they never run out.  [exec] and
    [pstep] are one step of one goroutine, so nothing bounds the runs.  The scan of
    a sub-map, [subMapScan], takes fuel for the pages; the theorems ask for as many
    as the scan of Redis ends with ([ScanLaws]).  A goroutine that a breakpoint
    makes spin for ever has the outcome [OutOfFuel].  The search for deadlocks takes
    a level of fuel per actor of the report, the marking of indirect pauses one per
    request.  [Purge] takes fuel for the pages of SCAN ([KeyScanLaws]), the
    correlation of logs one level per failure.  The attempts of [HttpClient] are
    counted by the package that repeats them: [Retry] ends with a sequence of attempts
    ([retried]) of any length.  The readers of partitions in [KarQuery] and [KarMain]
    have the outcome [OutOfFuel] when they wait for a record that does not come;
    [read_partitions_ends] says when they end.

    ** Assumptions

    Redis, Kafka, JSON, HTTP and the clock are parameters; their laws are fields of
    the classes [RedisLaws], [ScanLaws], [KeyScanLaws], [ReadLaws], [KafkaLaws],
    [JsonLaws], [CommandJsonLaws], [ServerJson], [BackoffLaws], [BodyLaws], [PoolLaws],
    [AdminLaws],
    [HttpRouter], [MapIter], [ActorIter], [PauseIter], [EdgeIter] and [TimeTextLaws],
    or hypotheses of the theorems, and each property is applied to a concrete instance
    in a module [Witness].  Integers of Go that are compared and counted are [Z]; their
    width is written out where the code parses or converts them.  Instants are
    nanoseconds.  [Sessions] assumes ([allowed]) that a request that names a
    deferred lock is for the session that left it, and that lock identifiers are
    fresh; its log of messages has those that were handed to [Send].  The laws of JSON are
    for texts in valid UTF-8 (encoding/json replaces other bytes when it marshals).

    ** Not modelled

    The clients of Kafka and Redis themselves (sarama, redigo); the transport of HTTP and
    the websockets; the listeners, signals and the start of the background goroutines
    of runtime-main.go, with the waiting at its end; the grammar of conditions, which a
    third-party package parses; the types that exist for the generated documentation
    (routes-docs.go); the decoders of Kubernetes (scheme.go); the texts of usage; and
    cmd/kar-debugger/parser.go, a copy of debug-parser.go without the edits.
    The order of the calls of a consumer group's callbacks is the one that the client of
    Kafka documents; whether it cleans up after a Setup that failed is a parameter of
    [Lifecycle], since its documentation does not say.
    Logging statements are left out, the functions of the logger apart. *)

From Stdlib Require Export ZArith Lia Ascii String.
From stdpp Require Export base tactics numbers list fin_maps gmap sets strings.

(* ---------------------------------------------------------------------- *)
(** ** Go errors and results *)

(** The sentinel errors the sources compare against, and any other error by
    its text. [ECtx] is [ctx.Err()] of a cancelled context. *)
Inductive gerror : Type :=
| ECtx
| EUnavailable
| EErrNil
| ETooFewPartitions
| EMsg (msg : string).

#[export] Instance gerror_eq_dec : EqDecision gerror.
Proof. solve_decision. Defined.

(** What a Go call gives back: a value, an error value, or a panic.
    [OutOfFuel] is the model's own outcome of a loop that was given too little
    fuel; the theorems about loops show when it cannot occur. *)
Inductive res (A : Type) : Type :=
| Ok (a : A)
| Err (e : gerror)
| Panic (why : string)
| OutOfFuel.
Arguments Ok {A} a.
Arguments Err {A} e.
Arguments Panic {A} why.
Arguments OutOfFuel {A}.

#[export] Instance res_eq_dec {A} `{EqDecision A} : EqDecision (res A).
Proof. solve_decision. Defined.

Definition is_Ok {A} (r : res A) : Prop := ∃ a, r = Ok a.

(* ---------------------------------------------------------------------- *)
(** ** Stateful calls: explicit state passing with early return *)

Definition M (W A : Type) : Type := W → res A * W.

Definition ret {W A} (a : A) : M W A := λ w, (Ok a, w).

Definition throw {W A} (e : gerror) : M W A := λ w, (Err e, w).

Definition bind {W A B} (m : M W A) (k : A → M W B) : M W B := λ w,
  match m w with
  | (Ok a, w') => k a w'
  | (Err e, w') => (Err e, w')
  | (Panic s, w') => (Panic s, w')
  | (OutOfFuel, w') => (OutOfFuel, w')
  end.

(** [attempt m] is a call whose error value the code inspects instead of
    returning it: a panic still propagates. *)
Definition attempt {W A} (m : M W A) : M W (A + gerror) := λ w,
  match m w with
  | (Ok a, w') => (Ok (inl a), w')
  | (Err e, w') => (Ok (inr e), w')
  | (Panic s, w') => (Panic s, w')
  | (OutOfFuel, w') => (OutOfFuel, w')
  end.

(** [finally m cleanup] is [m] with a deferred call: it runs however [m] ends. *)
Definition finally {W A} (m : M W A) (cleanup : M W unit) : M W A := λ w,
  let '(r, w') := m w in
  match cleanup w' with
  | (Ok _, w'') => (r, w'')
  | (Err e, w'') => (Err e, w'')
  | (Panic s, w'') => (Panic s, w'')
  | (OutOfFuel, w'') => (OutOfFuel, w'')
  end.

Definition get {W} : M W W := λ w, (Ok w, w).

Definition modify {W} (f : W → W) : M W unit := λ w, (Ok tt, f w).

(** A relation between the state before and after every run of a call. *)
Definition preserves {W A} (rel : W → W → Prop) (m : M W A) : Prop := ∀ w, rel w (m w).2.

(** A pure call inside a stateful one. *)
Definition of_res {W A} (r : res A) : M W A := λ w, (r, w).

(** A pure call on each element of a slice, stopping at the first failure. *)
Fixpoint map_res {A B} (f : A → res B) (l : list A) : res (list B) :=
  match l with
  | [] => Ok []
  | a :: l' =>
      match f a with
      | Ok b => match map_res f l' with
                | Ok bs => Ok (b :: bs)
                | r => r
                end
      | Err e => Err e
      | Panic s => Panic s
      | OutOfFuel => OutOfFuel
      end
  end.

Declare Scope go_scope.
Delimit Scope go_scope with go.
Notation "'let*' x ':=' m 'in' k" := (bind m (λ x, k))
  (at level 10, x name, m at level 100, k at level 200) : go_scope.
Notation "'let*' ' p ':=' m 'in' k" := (bind m (λ x, match x with p => k end))
  (at level 10, p pattern, m at level 100, k at level 200) : go_scope.
Notation "m1 ;;* m2" := (bind m1 (λ _, m2))
  (at level 100, right associativity) : go_scope.

Lemma map_res_Ok {A B} (f : A → res B) (g : A → B) (l : list A) :
  (∀ a, a ∈ l → f a = Ok (g a)) → map_res f l = Ok (g <$> l).
Proof.
  induction l as [|a l IH]; intros Hf; [done|]. simpl.
  rewrite Hf by set_solver. by rewrite IH by set_solver.
Qed.

Lemma filter_ext_in {A} (P Q : A → Prop) `{∀ x, Decision (P x)} `{∀ x, Decision (Q x)} (l : list A) :
  (∀ x, x ∈ l → P x ↔ Q x) → filter P l = filter Q l.
Proof.
  induction l as [|x l IH]; intros HPQ; [done|]. rewrite !filter_cons, IH by set_solver.
  specialize (HPQ x (list_elem_of_here x l)). repeat case_decide; tauto.
Qed.

Lemma filter_all {A} (P : A → Prop) `{∀ x, Decision (P x)} (l : list A) :
  (∀ x, x ∈ l → P x) → filter P l = l.
Proof.
  induction l as [|x l IH]; intros HP; [done|]. rewrite filter_cons, decide_True by set_solver.
  rewrite IH; set_solver.
Qed.

Lemma filter_none {A} (P : A → Prop) `{∀ x, Decision (P x)} (l : list A) :
  (∀ x, x ∈ l → ¬ P x) → filter P l = [].
Proof.
  induction l as [|x l IH]; intros HP; [done|]. rewrite filter_cons, decide_False by set_solver.
  apply IH. set_solver.
Qed.

(** A function that is injective on a finite set keeps its size. *)
Lemma size_image `{Countable A, Countable B} (f : A → B) (X : gset A) :
  (∀ x y, x ∈ X → y ∈ X → f x = f y → x = y) → size (set_map f X : gset B) = size X.
Proof.
  induction X as [|x X Hx IH] using set_ind_L; intros Hinj.
  - by rewrite set_map_empty, !size_empty.
  - rewrite set_map_union_L, set_map_singleton_L, !size_union, !size_singleton.
    + rewrite IH; [done|]. set_solver.
    + set_solver.
    + intros g Hg%elem_of_singleton (y & -> & Hy)%elem_of_map. apply Hx.
      rewrite (Hinj x y); set_solver.
Qed.

Lemma size_list_to_set_le `{Countable A} (l : list A) :
  (size (list_to_set l : gset A) ≤ length l)%nat.
Proof.
  induction l as [|x l IH]; [done|].
  change (list_to_set (x :: l) : gset A) with ({[x]} ∪ list_to_set l : gset A).
  rewrite size_union_alt, size_singleton. simpl.
  pose proof (subseteq_size (list_to_set l ∖ {[x]} : gset A) (list_to_set l) ltac:(set_solver)). lia.
Qed.

(* ---------------------------------------------------------------------- *)
(** ** Frame conditions of stateful calls *)

Create HintDb frame.

Section frame.
Context {W : Type} (rel : W → W → Prop) `{!PreOrder rel}.

Lemma preserves_ret {A} (a : A) : preserves rel (ret a).
Proof. intros w. simpl. reflexivity. Qed.

Lemma preserves_throw {A} e : preserves rel (throw (A:=A) e).
Proof. intros w. simpl. reflexivity. Qed.

Lemma preserves_of_res {A} (r : res A) : preserves rel (of_res r).
Proof. intros w. simpl. reflexivity. Qed.

Lemma preserves_bind {A B} (m : M W A) (k : A → M W B) :
  preserves rel m → (∀ a, preserves rel (k a)) → preserves rel (bind m k).
Proof.
  intros Hm Hk w. specialize (Hm w). unfold bind.
  destruct (m w) as [[a|e|s|] w']; simpl in *; [|done..].
  etrans; [done|apply Hk].
Qed.

Lemma preserves_attempt {A} (m : M W A) : preserves rel m → preserves rel (attempt m).
Proof.
  intros Hm w. specialize (Hm w). unfold attempt.
  by destruct (m w) as [[a|e|s|] w'].
Qed.

Lemma preserves_if {A} (b : bool) (m1 m2 : M W A) :
  preserves rel m1 → preserves rel m2 → preserves rel (if b then m1 else m2).
Proof. by destruct b. Qed.
End frame.

#[export] Hint Resolve preserves_ret preserves_throw preserves_of_res preserves_bind
  preserves_attempt preserves_if : frame.

Lemma append_assoc (p q r : string) : ((p ++ q) ++ r = p ++ (q ++ r))%string.
Proof. induction p as [|c p IH]; [done|exact (f_equal (String c) IH)]. Qed.

Lemma append_empty_r (s : string) : (s ++ "")%string = s.
Proof. induction s as [|c s IH]; [done|exact (f_equal (String c) IH)]. Qed.

Lemma length_append (p q : string) : String.length (p ++ q)%string = (String.length p + String.length q)%nat.
Proof. induction p as [|c p IH]; [done|exact (f_equal S IH)]. Qed.

(** Running a sequence of calls one call at a time. *)
Lemma bind_ret {W A B} (m : M W A) (k : A → M W B) w a w' : m w = (Ok a, w') → bind m k w = k a w'.
Proof. intros E. unfold bind. by rewrite E. Qed.

Lemma attempt_inl {W A} (m : M W A) w a w' : m w = (Ok a, w') → attempt m w = (Ok (inl a), w').
Proof. intros E. unfold attempt. by rewrite E. Qed.

Lemma attempt_inr {W A} (m : M W A) w e w' : m w = (Err e, w') → attempt m w = (Ok (inr e), w').
Proof. intros E. unfold attempt. by rewrite E. Qed.

Ltac run_step := erewrite bind_ret by (first [eassumption | reflexivity]); cbv beta iota.

Lemma bind_Ok {W A B} (m : M W A) (k : A → M W B) w b w' :
  bind m k w = (Ok b, w') → ∃ a w1, m w = (Ok a, w1) ∧ k a w1 = (Ok b, w').
Proof. unfold bind. destruct (m w) as [[a|e|s|] w1]; [eauto|done..]. Qed.

Lemma attempt_Ok {W A} (m : M W A) w x w' :
  attempt m w = (Ok x, w') →
  match x with inl a => m w = (Ok a, w') | inr e => m w = (Err e, w') end.
Proof. unfold attempt. destruct (m w) as [[a|e|s|] w1]; intros; simplify_eq; done. Qed.

(** Invert a successful run of a sequence of calls. *)
Ltac inv_ok :=
  repeat match goal with
  | H : bind _ _ _ = (Ok _, _) |- _ =>
      apply bind_Ok in H; destruct H as (? & ? & ? & H)
  | H : ret _ _ = (Ok _, _) |- _ => unfold ret in H; simplify_eq
  | H : throw _ _ = (Ok _, _) |- _ => discriminate H
  end.
