(* ===== verification/GoLib.v ===== *)
(** * GoLib: the parts of Go's standard library the KAR sources rely on

    Package [strconv] (decimal integers at their machine width), package
    [strings] (splitting and joining on a one-character separator, prefixes,
    containment) and package [time] (instants as nanoseconds).  Each function
    returns what Go documents on every input, errors included; the lemmas are
    the round trips the components use. *)

From S2P Require Import Prelude.
Open Scope Z_scope.

(* ---------------------------------------------------------------------- *)
(** ** strconv *)

Inductive numerr : Type := ErrSyntax | ErrRange.

Definition digit_ascii (d : Z) : Ascii.ascii := Ascii.ascii_of_N (Z.to_N (48 + d)).

Definition digit_val (c : Ascii.ascii) : option Z :=
  let n := Z.of_N (Ascii.N_of_ascii c) in
  if (48 <=? n) && (n <=? 57) then Some (n - 48) else None.

Fixpoint fmt_digits (fuel : nat) (n : Z) (acc : string) : string :=
  if n <? 10 then String (digit_ascii n) acc
  else match fuel with
       | O => acc
       | S f => fmt_digits f (n / 10) (String (digit_ascii (n mod 10)) acc)
       end.

Definition fmt_uint (n : Z) : string := fmt_digits (Z.to_nat (Z.log2 n)) n "".

(** [strconv.FormatInt(z, 10)] and [strconv.Itoa]. *)
Definition FormatInt (z : Z) : string :=
  if z <? 0 then String "-"%char (fmt_uint (- z)) else fmt_uint z.

Definition Itoa : Z → string := FormatInt.

(** The digit loop of [strconv.ParseUint]: a non-digit is a syntax error with
    value 0, an overflow a range error with the largest value. *)
Fixpoint parse_digits (maxVal n : Z) (s : string) : Z * option numerr :=
  match s with
  | EmptyString => (n, None)
  | String c s' =>
      match digit_val c with
      | None => (0, Some ErrSyntax)
      | Some d =>
          let n1 := n * 10 + d in
          if maxVal <? n1 then (maxVal, Some ErrRange) else parse_digits maxVal n1 s'
      end
  end.

Definition ParseUint (bits : Z) (s : string) : Z * option numerr :=
  match s with
  | EmptyString => (0, Some ErrSyntax)
  | _ => parse_digits (2 ^ bits - 1) 0 s
  end.

(** [strconv.ParseInt(s, 10, bits)]: optional sign, digits, then the value is
    clamped to the signed range with a range error. *)
Definition ParseInt (bits : Z) (s : string) : Z * option numerr :=
  let '(neg, digits) :=
    match s with
    | String "+"%char s' => (false, s')
    | String "-"%char s' => (true, s')
    | _ => (false, s)
    end in
  match ParseUint bits digits with
  | (_, Some ErrSyntax) => (0, Some ErrSyntax)
  | (un, _) =>
      let cutoff := 2 ^ (bits - 1) in
      if negb neg && (cutoff <=? un) then (cutoff - 1, Some ErrRange)
      else if neg && (cutoff <? un) then (- cutoff, Some ErrRange)
      else ((if neg then - un else un), None)
  end.

(** [strconv.Atoi] on a 64-bit platform. *)
Definition Atoi (s : string) : Z * option numerr := ParseInt 64 s.

(** [strings.ToLower] on ASCII text. *)
Definition lower_ascii (c : Ascii.ascii) : Ascii.ascii :=
  let n := Ascii.N_of_ascii c in
  if ((65 <=? n) && (n <=? 90))%N then Ascii.ascii_of_N (n + 32)%N else c.

Fixpoint ToLower (s : string) : string :=
  match s with EmptyString => EmptyString | String c s' => String (lower_ascii c) (ToLower s') end.

(** [strings.ToUpper] on ASCII text. *)
Definition upper_ascii (c : Ascii.ascii) : Ascii.ascii :=
  let n := Ascii.N_of_ascii c in
  if ((97 <=? n) && (n <=? 122))%N then Ascii.ascii_of_N (n - 32)%N else c.

Fixpoint ToUpper (s : string) : string :=
  match s with EmptyString => EmptyString | String c s' => String (upper_ascii c) (ToUpper s') end.

(** [strconv.ParseBool]. *)
Definition ParseBool (s : string) : option bool :=
  if bool_decide (s ∈ ["1"; "t"; "T"; "TRUE"; "true"; "True"]) then Some true
  else if bool_decide (s ∈ ["0"; "f"; "F"; "FALSE"; "false"; "False"]) then Some false
  else None.

(** The value of a letter or digit in bases up to 36. *)
Definition digit_val36 (c : Ascii.ascii) : option Z :=
  match digit_val c with
  | Some d => Some d
  | None =>
      let n := Z.of_N (Ascii.N_of_ascii (lower_ascii c)) in
      if (97 <=? n) && (n <=? 122) then Some (n - 97 + 10) else None
  end.

Fixpoint has_underscore (s : string) : bool :=
  match s with EmptyString => false | String c s' => Ascii.eqb c "_" || has_underscore s' end.

(** [strconv.ParseUint] with base 0: the digits, of which underscores are not. *)
Fixpoint parse_base (base maxVal n : Z) (s : string) : Z * option numerr :=
  match s with
  | EmptyString => (n, None)
  | String c s' =>
      if Ascii.eqb c "_" then parse_base base maxVal n s'
      else match digit_val36 c with
      | None => (0, Some ErrSyntax)
      | Some d =>
          if base <=? d then (0, Some ErrSyntax)
          else
            let n1 := n * base + d in
            if maxVal <? n1 then (maxVal, Some ErrRange) else parse_base base maxVal n1 s'
      end
  end.

(** The base of a literal and its digits. *)
Definition base_of (s : string) : Z * string :=
  match s with
  | String "0" (String c (String _ _ as s'')) =>
      let c' := lower_ascii c in
      if Ascii.eqb c' "b" then (2, s'')
      else if Ascii.eqb c' "o" then (8, s'')
      else if Ascii.eqb c' "x" then (16, s'')
      else (8, String c s'')
  | String "0" s' => (8, s')
  | _ => (10, s)
  end.

(** Underscores separate digits only; the prefix of the base counts as one. *)
Fixpoint underscores_ok (hex : bool) (last : Ascii.ascii) (s : string) : bool :=
  match s with
  | EmptyString => negb (Ascii.eqb last "_")
  | String c s' =>
      let is_digit :=
        match digit_val c with
        | Some _ => true
        | None => hex && match digit_val36 c with Some d => d <? 16 | None => false end
        end in
      if is_digit then underscores_ok hex "0" s'
      else if Ascii.eqb c "_" then Ascii.eqb last "0" && underscores_ok hex "_" s'
      else negb (Ascii.eqb last "_") && underscores_ok hex "!" s'
  end.

Definition underscoreOK (s : string) : bool :=
  match s with
  | String "0" (String c s') =>
      let c' := lower_ascii c in
      if Ascii.eqb c' "b" || Ascii.eqb c' "o" || Ascii.eqb c' "x"
      then underscores_ok (Ascii.eqb c' "x") "0" s' else underscores_ok false "^" s
  | _ => underscores_ok false "^" s
  end.

Definition ParseUint0 (bits : Z) (s : string) : Z * option numerr :=
  match s with
  | EmptyString => (0, Some ErrSyntax)
  | _ =>
      let '(base, digits) := base_of s in
      match parse_base base (2 ^ bits - 1) 0 digits with
      | (n, None) => if has_underscore s && negb (underscoreOK s) then (0, Some ErrSyntax) else (n, None)
      | r => r
      end
  end.

(** [strconv.ParseInt(s, 0, bits)]. *)
Definition ParseInt0 (bits : Z) (s : string) : Z * option numerr :=
  let '(neg, digits) :=
    match s with
    | String "+"%char s' => (false, s')
    | String "-"%char s' => (true, s')
    | _ => (false, s)
    end in
  match ParseUint0 bits digits with
  | (_, Some ErrSyntax) => (0, Some ErrSyntax)
  | (un, _) =>
      let cutoff := 2 ^ (bits - 1) in
      if negb neg && (cutoff <=? un) then (cutoff - 1, Some ErrRange)
      else if neg && (cutoff <? un) then (- cutoff, Some ErrRange)
      else ((if neg then - un else un), None)
  end.

(* ---------------------------------------------------------------------- *)
(** ** strings *)

(** [strings.Split(s, sep)] for a one-character separator. *)
Fixpoint Split (sep : Ascii.ascii) (s : string) : list string :=
  match s with
  | EmptyString => [""%string]
  | String c s' =>
      if decide (c = sep) then ""%string :: Split sep s'
      else match Split sep s' with
           | [] => [String c EmptyString]
           | p :: ps => String c p :: ps
           end
  end.

(** [strings.SplitN(s, sep, 2)]. *)
Fixpoint Split2 (sep : Ascii.ascii) (s : string) : list string :=
  match s with
  | EmptyString => [""%string]
  | String c s' =>
      if decide (c = sep) then [""%string; s']
      else match Split2 sep s' with
           | [] => [String c EmptyString]
           | p :: ps => String c p :: ps
           end
  end.

(** [strings.Join(parts, sep)]. *)
Fixpoint Join (sep : string) (parts : list string) : string :=
  match parts with
  | [] => ""
  | [p] => p
  | p :: ps => (p ++ sep ++ Join sep ps)%string
  end.

Fixpoint HasPrefix (s p : string) : bool :=
  match p, s with
  | EmptyString, _ => true
  | String c p', String c' s' => bool_decide (c = c') && HasPrefix s' p'
  | _, _ => false
  end.

(** [strings.TrimPrefix]. *)
Fixpoint drop_prefix (p s : string) : string :=
  match p, s with
  | String _ p', String _ s' => drop_prefix p' s'
  | _, _ => s
  end.

Definition TrimPrefix (s p : string) : string :=
  if HasPrefix s p then drop_prefix p s else s.

(** The character [c] occurs in [s]. *)
Fixpoint has_char (c : Ascii.ascii) (s : string) : bool :=
  match s with
  | EmptyString => false
  | String c' s' => bool_decide (c' = c) || has_char c s'
  end.

(** [strings.HasSuffix]. *)
Fixpoint HasSuffix (s suffix : string) : bool :=
  String.eqb s suffix || match s with EmptyString => false | String _ s' => HasSuffix s' suffix end.

(** [strings.Contains(s, sub)]. *)
Fixpoint Contains (s sub : string) : bool :=
  HasPrefix s sub || match s with EmptyString => false | String _ s' => Contains s' sub end.

(** The white space of ASCII. *)
Definition is_space (c : Ascii.ascii) : bool :=
  bool_decide (c ∈ [" "%char; "009"%char; "010"%char; "011"%char; "012"%char; "013"%char]).

Fixpoint trim_left (s : list Ascii.ascii) : list Ascii.ascii :=
  match s with [] => [] | c :: s' => if is_space c then trim_left s' else s end.

(** [strings.TrimSpace] on ASCII text. *)
Definition TrimSpace (s : string) : string :=
  string_of_list_ascii (reverse (trim_left (reverse (trim_left (list_ascii_of_string s))))).

(** [strings.Index]: what precedes the first occurrence of [sub], and what
    follows it. *)
Fixpoint cut (s sub : string) : option (string * string) :=
  if HasPrefix s sub then Some (EmptyString, drop_prefix sub s)
  else match s with
       | EmptyString => None
       | String c s' =>
           match cut s' sub with
           | Some (before, after) => Some (String c before, after)
           | None => None
           end
       end.

(** [strings.Split(s, sep)] for a separator of any length but zero. *)
Fixpoint SplitStr_n (fuel : nat) (s sep : string) : list string :=
  match fuel, cut s sep with
  | S f, Some (before, after) => before :: SplitStr_n f after sep
  | _, _ => [s]
  end.

Definition SplitStr (s sep : string) : list string := SplitStr_n (String.length s) s sep.

(** [strings.Replace(s, old, new, 1)]. *)
Definition ReplaceOne (s old new : string) : string :=
  match cut s old with
  | Some (before, after) => (before ++ new ++ after)%string
  | None => s
  end.

(* ---------------------------------------------------------------------- *)
(** ** time *)

(** An instant: nanoseconds since the Unix epoch. *)
Abbreviation time := Z (only parsing).

(** Go's zero [time.Time]: January 1, year 1, 00:00:00 UTC. *)
Definition zeroTime : Z := -62135596800 * 1000000000.

Definition IsZero (t : Z) : bool := t =? zeroTime.
Definition Before (t u : Z) : bool := t <? u.
Definition After (t u : Z) : bool := u <? t.

(** [t.Unix()]: whole seconds since the epoch, rounded down. *)
Definition Unix (t : Z) : Z := t / 1000000000.

(** [time.Unix(sec, 0)]. *)
Definition timeUnix (sec : Z) : Z := sec * 1000000000.

#[global] Arguments FormatInt : simpl never.
#[global] Arguments Itoa : simpl never.
#[global] Arguments ParseInt : simpl never.
#[global] Arguments Atoi : simpl never.
#[global] Arguments Unix : simpl never.
#[global] Arguments timeUnix : simpl never.
#[global] Arguments zeroTime : simpl never.
#[global] Arguments IsZero : simpl never.

(* ---------------------------------------------------------------------- *)
(** ** Round trips *)

Lemma digit_val_ascii d : 0 ≤ d < 10 → digit_val (digit_ascii d) = Some d.
Proof.
  intros [H1 H2]. unfold digit_val, digit_ascii.
  rewrite Ascii.N_ascii_embedding by lia.
  rewrite Z2N.id by lia.
  destruct (Z.leb_spec 48 (48 + d)), (Z.leb_spec (48 + d) 57); simpl; try lia.
  f_equal; lia.
Qed.

Lemma parse_fmt_digits fuel n maxVal acc :
  0 ≤ n ≤ maxVal → n < 10 * 2 ^ Z.of_nat fuel →
  parse_digits maxVal 0 (fmt_digits fuel n acc) = parse_digits maxVal n acc.
Proof.
  revert n acc. induction fuel as [|f IH]; intros n acc Hn Hf.
  - simpl in *. destruct (Z.ltb_spec n 10); [|lia].
    simpl. rewrite digit_val_ascii by lia.
    destruct (Z.ltb_spec maxVal (0 * 10 + n)); [lia|]. f_equal; lia.
  - cbn [fmt_digits]. destruct (Z.ltb_spec n 10).
    + simpl. rewrite digit_val_ascii by lia.
      destruct (Z.ltb_spec maxVal (0 * 10 + n)); [lia|]. f_equal; lia.
    + assert (0 ≤ n mod 10 < 10) by (apply Z.mod_pos_bound; lia).
      assert (n = 10 * (n / 10) + n mod 10) as Hdm by (apply Z.div_mod; lia).
      rewrite Nat2Z.inj_succ, Z.pow_succ_r in Hf by lia.
      rewrite IH by lia.
      cbn [parse_digits]. rewrite digit_val_ascii by done.
      replace (n / 10 * 10 + n mod 10) with n by lia.
      destruct (Z.ltb_spec maxVal n); [lia|done].
Qed.

Lemma log2_fuel n : 0 ≤ n → n < 10 * 2 ^ Z.of_nat (Z.to_nat (Z.log2 n)).
Proof.
  intros Hn. rewrite Z2Nat.id by apply Z.log2_nonneg.
  destruct (decide (n = 0)) as [->|]; [done|].
  destruct (Z.log2_spec n) as [_ H]; [lia|].
  rewrite Z.pow_succ_r in H by apply Z.log2_nonneg. lia.
Qed.

(** The first character of a formatted natural is a digit, so it is not read
    as a sign. *)
Lemma fmt_digits_head fuel n acc :
  0 ≤ n → n < 10 * 2 ^ Z.of_nat fuel →
  ∃ d s, fmt_digits fuel n acc = String (digit_ascii d) s ∧ 0 ≤ d < 10.
Proof.
  revert n acc. induction fuel as [|f IH]; intros n acc Hn Hf; cbn [fmt_digits].
  - simpl in Hf. destruct (Z.ltb_spec n 10); [|lia]. eauto with lia.
  - destruct (Z.ltb_spec n 10); [eauto with lia|].
    rewrite Nat2Z.inj_succ, Z.pow_succ_r in Hf by lia.
    apply IH; [apply Z.div_pos; lia|]. apply Z.div_lt_upper_bound; lia.
Qed.

Lemma digit_not_sign d : 0 ≤ d < 10 → digit_ascii d ≠ "+"%char ∧ digit_ascii d ≠ "-"%char.
Proof.
  intros Hd. pose proof (digit_val_ascii d Hd) as H.
  split; intros E; rewrite E in H; discriminate.
Qed.

Lemma ParseUint_fmt bits n :
  0 ≤ n < 2 ^ bits → ParseUint bits (fmt_uint n) = (n, None).
Proof.
  intros Hn. unfold ParseUint, fmt_uint.
  pose proof (log2_fuel n ltac:(lia)) as Hf.
  destruct (fmt_digits_head (Z.to_nat (Z.log2 n)) n "" ltac:(lia) Hf) as (d & s & E & Hd).
  pose proof (parse_fmt_digits (Z.to_nat (Z.log2 n)) n (2 ^ bits - 1) "" ltac:(lia) Hf) as HP.
  rewrite E in *. simpl in HP. exact HP.
Qed.

Lemma ParseInt_sign_none bits d s :
  0 ≤ d < 10 →
  ParseInt bits (String (digit_ascii d) s) =
    match ParseUint bits (String (digit_ascii d) s) with
    | (_, Some ErrSyntax) => (0, Some ErrSyntax)
    | (un, _) =>
        if 2 ^ (bits - 1) <=? un then (2 ^ (bits - 1) - 1, Some ErrRange) else (un, None)
    end.
Proof.
  intros Hd. destruct (digit_not_sign d Hd) as [Hp Hm].
  unfold ParseInt.
  assert ((match String (digit_ascii d) s with
           | String "+"%char s' => (false, s')
           | String "-"%char s' => (true, s')
           | _ => (false, String (digit_ascii d) s)
           end) = (false, String (digit_ascii d) s)) as ->.
  { destruct (digit_ascii d) as [[] [] [] [] [] [] [] []]; done. }
  destruct (ParseUint bits (String (digit_ascii d) s)) as [un [[]|]]; simpl; try done;
    by destruct (2 ^ (bits - 1) <=? un).
Qed.

(** Decimal formatting and parsing are inverse on the signed 64-bit range. *)
Lemma ParseInt_FormatInt z :
  - 2 ^ 63 ≤ z < 2 ^ 63 → ParseInt 64 (FormatInt z) = (z, None).
Proof.
  intros Hz. unfold FormatInt. destruct (Z.ltb_spec z 0).
  - unfold ParseInt. rewrite ParseUint_fmt by lia. simpl.
    change (2 ^ (64 - 1)) with (2 ^ 63).
    destruct (Z.ltb_spec (2 ^ 63) (- z)); [lia|]. f_equal; lia.
  - pose proof (log2_fuel z ltac:(lia)) as Hf.
    destruct (fmt_digits_head (Z.to_nat (Z.log2 z)) z "" ltac:(lia) Hf) as (d & s & E & Hd).
    pose proof (ParseUint_fmt 64 z ltac:(lia)) as HP.
    unfold fmt_uint in *. rewrite E in *.
    rewrite ParseInt_sign_none by done. rewrite HP.
    change (2 ^ (64 - 1)) with (2 ^ 63). destruct (Z.leb_spec (2 ^ 63) z); [lia|done].
Qed.

Lemma Split_nonempty sep s : Split sep s ≠ [].
Proof. destruct s; simpl; [done|]. case_decide; [done|]. by destruct (Split sep s). Qed.

Lemma Split_no_sep sep s : has_char sep s = false → Split sep s = [s].
Proof.
  induction s as [|c s IH]; simpl; [done|].
  intros [Hc Hs]%orb_false_iff. apply bool_decide_eq_false in Hc.
  rewrite decide_False by done. by rewrite IH.
Qed.

Lemma Split_app sep p s :
  has_char sep p = false →
  Split sep (p ++ String sep s)%string = p :: Split sep s.
Proof.
  induction p as [|c p IH]; simpl.
  - intros _. by rewrite decide_True.
  - intros [Hc Hs]%orb_false_iff. apply bool_decide_eq_false in Hc.
    rewrite decide_False by done. by rewrite IH.
Qed.

(** Splitting undoes joining when no part contains the separator. *)
Lemma Split_Join sep parts :
  parts ≠ [] → Forall (λ p, has_char sep p = false) parts →
  Split sep (Join (String sep EmptyString) parts) = parts.
Proof.
  induction parts as [|p ps IH]; [done|]. intros _ [Hp Hps]%Forall_cons.
  destruct ps as [|q qs]; [by apply Split_no_sep|].
  change (Join (String sep EmptyString) (p :: q :: qs))
    with (p ++ String sep (Join (String sep EmptyString) (q :: qs)))%string.
  rewrite Split_app by done. by rewrite IH.
Qed.

(** Joining always undoes splitting. *)
Lemma Join_Split sep s : Join (String sep EmptyString) (Split sep s) = s.
Proof.
  induction s as [|c s IH]; [done|]. simpl.
  pose proof (Split_nonempty sep s) as Hne.
  destruct (decide (c = sep)) as [->|]; destruct (Split sep s) as [|p ps]; try done.
  - simpl in *. by rewrite IH.
  - destruct ps; simpl in *; by rewrite <-IH.
Qed.

Lemma Split2_app sep p s :
  has_char sep p = false → Split2 sep (p ++ String sep s)%string = [p; s].
Proof.
  induction p as [|c p IH]; simpl.
  - intros _. by rewrite decide_True.
  - intros [Hc Hs]%orb_false_iff. apply bool_decide_eq_false in Hc.
    rewrite decide_False by done. by rewrite IH.
Qed.

Lemma Unix_timeUnix s : Unix (timeUnix s) = s.
Proof. unfold Unix, timeUnix. by rewrite Z.div_mul. Qed.

(** Going through whole seconds moves an instant back by less than a second. *)
Lemma timeUnix_Unix_bounds t :
  timeUnix (Unix t) ≤ t < timeUnix (Unix t) + 1000000000.
Proof.
  unfold timeUnix, Unix.
  pose proof (Z.div_mod t 1000000000 ltac:(lia)).
  pose proof (Z.mod_pos_bound t 1000000000 ltac:(lia)). lia.
Qed.

(* ---------------------------------------------------------------------- *)
(** ** Ranging over a map *)

(** Go leaves the order of [for k, v := range m] unspecified.  [map_iter site m]
    is the order some execution uses at the statement [site]; every theorem is
    proved for all instances of the class. *)
Class MapIter : Type := {
  map_iter : ∀ {A : Type}, nat → gmap string A → list (string * A);
  map_iter_perm : ∀ (A : Type) (site : nat) (m : gmap string A),
    map_iter site m ≡ₚ map_to_list m;
}.

(** One such order: the one of the map's representation. *)
Definition canonical_iter : MapIter :=
  {| map_iter := λ A _ m, map_to_list m; map_iter_perm := λ A _ m, reflexivity _ |}.

(** Filling a map from a list of pairs, in order: later pairs win. *)
Definition fill {A} (l : list (string * A)) : gmap string A :=
  foldl (λ m kv, <[kv.1 := kv.2]> m) ∅ l.

Lemma fill_reverse {A} (l : list (string * A)) : fill l = list_to_map (reverse l).
Proof.
  unfold fill. induction l as [|kv l IH] using rev_ind; [done|].
  rewrite foldl_app, reverse_app. simpl. by rewrite IH; destruct kv.
Qed.

(** Whatever the iteration order, copying a map pair by pair copies it. *)
Lemma fill_map_iter `{MapIter} {A} site (m : gmap string A) : fill (map_iter site m) = m.
Proof.
  rewrite fill_reverse.
  assert (reverse (map_iter site m) ≡ₚ map_to_list m) as HP.
  { by rewrite reverse_Permutation, map_iter_perm. }
  rewrite <-(list_to_map_to_list m) at 2. apply list_to_map_proper; [|done].
  rewrite HP. apply NoDup_fst_map_to_list.
Qed.

(** Reading a filled map is looking for the last pair with the key. *)
Definition last_assoc {A} (k : string) (l : list (string * A)) : option A :=
  foldl (λ acc kv, if String.eqb kv.1 k then Some kv.2 else acc) None l.

Lemma fill_lookup {A} (l : list (string * A)) k : fill l !! k = last_assoc k l.
Proof.
  unfold fill, last_assoc. induction l as [|[k' v] l IH] using rev_ind; [done|].
  rewrite !foldl_app. simpl. destruct (String.eqb_spec k' k) as [->|].
  - by rewrite lookup_insert_eq.
  - by rewrite lookup_insert_ne.
Qed.

Lemma fill_lookup_nodup {A} (l : list (string * A)) k v :
  NoDup l.*1 → fill l !! k = Some v ↔ (k, v) ∈ l.
Proof.
  intros Hnd. rewrite fill_reverse, <-elem_of_list_to_map.
  - apply elem_of_reverse.
  - by rewrite fmap_reverse, reverse_Permutation.
Qed.
