(* ===== verification/Backoff.v ===== *)
(** * Backoff: repeating an operation that fails

    The sidecar repeats three operations with the package backoff: a request to the
    application, getting a connection of the pool of Redis, and connecting to Kafka.
    The package is not part of the repository: it is the class [BackoffOps], and
    [BackoffLaws] is what it documents. *)

From S2P Require Import Prelude.
Open Scope Z_scope.

Module Backoff.

(** What an attempt returns to the package: nil, an error, or an error that
    [backoff.Permanent] wraps (which may be nil). *)
Inductive outcome : Type := Done | Failed (e : gerror) | Permanent (e : option gerror).

(** [backoff.Retry]: the first argument is [MaxElapsedTime].  With 0 the package never
    gives up; the model then speaks of the runs that end. *)
Class BackoffOps (S : Type) : Type := { Retry : Z → (S → outcome * S) → S → option gerror * S }.

(** [backoff.DefaultMaxElapsedTime]: 15 minutes. *)
Definition DefaultMaxElapsedTime : Z := 900000000000.

(** How the sidecar sets the limit: a negative one leaves the default of the package. *)
Definition MaxElapsedTime (limit : Z) : Z := if 0 <=? limit then limit else DefaultMaxElapsedTime.

Section retry.
Context {S : Type}.
(** What may happen between two attempts, and the error of the context of the
    back-off, if it has one. *)
Context (goes_on : S → S → Prop) (cancelled : S → option gerror).

(** The result of the attempts: the operation succeeded, failed for good, failed when
    time was up, or failed and the context was done. *)
Inductive retried (op : S → outcome * S) : S → option gerror → S → Prop :=
| retried_done s s' : op s = (Done, s') → retried op s None s'
| retried_permanent s s' e : op s = (Permanent e, s') → retried op s e s'
| retried_up s s' e : op s = (Failed e, s') → retried op s (Some e) s'
| retried_cancelled s s' s2 e e' :
    op s = (Failed e, s') → goes_on s' s2 → cancelled s2 = Some e' → retried op s (Some e') s2
| retried_again s s' s2 e err t :
    op s = (Failed e, s') → goes_on s' s2 → retried op s2 err t → retried op s err t.

Class BackoffLaws `{BackoffOps S} : Prop := {
  Retry_retries limit op s : retried op s (Retry limit op s).1 (Retry limit op s).2;
}.

(** Attempts that failed, and what happened after each. *)
Inductive attempts (op : S → outcome * S) : S → S → Prop :=
| attempts_none s : attempts op s s
| attempts_failed s s' s2 e t :
    op s = (Failed e, s') → goes_on s' s2 → attempts op s2 t → attempts op s t.

(** The last attempt. *)
Inductive last_attempt (op : S → outcome * S) : S → option gerror → S → Prop :=
| last_done s s' : op s = (Done, s') → last_attempt op s None s'
| last_permanent s s' e : op s = (Permanent e, s') → last_attempt op s e s'
| last_up s s' e : op s = (Failed e, s') → last_attempt op s (Some e) s'
| last_cancelled s s' s2 e e' :
    op s = (Failed e, s') → goes_on s' s2 → cancelled s2 = Some e' → last_attempt op s (Some e') s2.

Lemma retried_attempts op s err t :
  retried op s err t → ∃ s', attempts op s s' ∧ last_attempt op s' err t.
Proof.
  induction 1 as [s s' E|s s' e E|s s' e E|s s' s2 e e' E G C|s s' s2 e err t E G _ (s1 & A & L)].
  1-4: exists s; split; [constructor|by econstructor].
  exists s1. split; [by econstructor|done].
Qed.

(** An invariant of the failed attempts holds before the last one. *)
Lemma attempts_invariant (I : S → Prop) op s t :
  (∀ s e s' s2, I s → op s = (Failed e, s') → goes_on s' s2 → I s2) →
  attempts op s t → I s → I t.
Proof. intros Step. induction 1; eauto. Qed.
End retry.
End Backoff.
