(* ===== verification/Json.v ===== *)
(** * Json: values of type interface{}, JSON and replies

    What the handlers of internal/runtime exchange: decoded JSON and the other
    dynamic values of type [interface{}] ([any]), Go's comparison of them, the
    package encoding/json as a class ([Json]) with the decoding into
    [map[string]string] written out, the answers of net/http handlers and the
    [Reply] of commands.go. *)

From Stdlib Require Import SpecFloat.
From S2P Require Import Prelude GoLib.
Open Scope string_scope.
Open Scope Z_scope.

(* ---------------------------------------------------------------------- *)
(** ** float64 *)

(** IEEE 754 binary64, as the specification floats of the standard library:
    NaN compares false with everything. *)
Definition float64 : Type := spec_float.

Definition float_of_int (z : Z) : float64 := binary_normalize 53 1024 z 0 false.
Definition float_eqb (x y : float64) : bool := SFeqb x y.
Definition float_ltb (x y : float64) : bool := SFltb x y.
Definition float_leb (x y : float64) : bool := SFleb x y.

#[export] Instance float64_eq_dec : EqDecision float64.
Proof. unfold float64. solve_decision. Defined.

(* ---------------------------------------------------------------------- *)
(** ** interface{} *)

(** The dynamic types that occur in a value of type [interface{}]: those of
    decoded JSON, and [int], [[]string] and structs, which the code also puts
    there.  A struct is opaque: no code looks into one through an interface. *)
Inductive any : Type :=
| ANil
| ABool (b : bool)
| AInt (z : Z)
| AFloat (f : float64)
| AString (s : string)
| ASlice (l : list any)
| AMap (m : gmap string any)
| AStrings (l : list string)
| AStruct (type : string).

Definition is_nil (v : any) : bool := match v with ANil => true | _ => false end.

(** The operator [==] on two interface values: different dynamic types are
    different, equal types compare their values, and a slice or a map panics. *)
Definition go_eq (x y : any) : res bool :=
  match x, y with
  | ANil, ANil => Ok true
  | ABool a, ABool b => Ok (Bool.eqb a b)
  | AInt a, AInt b => Ok (a =? b)
  | AFloat a, AFloat b => Ok (float_eqb a b)
  | AString a, AString b => Ok (String.eqb a b)
  | ASlice _, ASlice _ => Panic "comparing uncomparable type []interface {}"
  | AMap _, AMap _ => Panic "comparing uncomparable type map[string]interface {}"
  | AStrings _, AStrings _ => Panic "comparing uncomparable type []string"
  | AStruct _, AStruct _ => Panic "no code compares two structs"
  | _, _ => Ok false
  end.

(** The type assertions [v.(string)] and [v.(map[string]interface{})]. *)
Definition as_string (v : any) : res string :=
  match v with AString s => Ok s | _ => Panic "interface conversion" end.

Definition as_map (v : any) : res (gmap string any) :=
  match v with AMap m => Ok m | _ => Panic "interface conversion" end.

(** [m[k]] of a [map[string]interface{}] and of a [map[string]string]: the zero
    value when the key is absent. *)
Definition index_any (m : gmap string any) (k : string) : any := default ANil (m !! k).
Definition index_str (m : gmap string string) (k : string) : string := default "" (m !! k).

(* ---------------------------------------------------------------------- *)
(** ** encoding/json *)

(** [json.Marshal] of a value and [json.Unmarshal] into an [interface{}]. *)
Class Json : Type := {
  Marshal : any → res string;
  Unmarshal : string → option any;
}.

(** A [map[string]string] as an interface value. *)
Definition any_of_msg (m : gmap string string) : any := AMap (AString <$> m).

(** [json.Unmarshal] into a [map[string]string]: [null] leaves the nil map, a
    [null] element the empty string; other types are an error. *)
Definition msg_string (v : any) : option string :=
  match v with AString s => Some s | ANil => Some "" | _ => None end.

Definition UnmarshalMsg `{Json} (s : string) : option (gmap string string) :=
  match Unmarshal s with
  | Some ANil => Some ∅
  | Some (AMap m) =>
      if decide (map_Forall (λ _ v, is_Some (msg_string v)) m)
      then Some (omap msg_string m) else None
  | _ => None
  end.

(** [json.Unmarshal] into a [map[string]interface{}]; after an error the map is
    as it was, and [null] gives the nil map. *)
Definition UnmarshalMap `{Json} (s : string) : option (gmap string any) :=
  match Unmarshal s with
  | Some ANil => Some ∅
  | Some (AMap m) => Some m
  | _ => None
  end.

(** The round trip of messages, which are maps of valid strings. *)
Class JsonLaws `{Json} : Prop := {
  unmarshal_msg : ∀ (m : gmap string string) s,
    Marshal (any_of_msg m) = Ok s → Unmarshal s = Some (any_of_msg m);
}.

Lemma UnmarshalMsg_Marshal `{JsonLaws} m s :
  Marshal (any_of_msg m) = Ok s → UnmarshalMsg s = Some m.
Proof.
  intros E. unfold UnmarshalMsg. rewrite (unmarshal_msg _ _ E). unfold any_of_msg.
  rewrite decide_True.
  - f_equal. apply map_eq. intros k. rewrite lookup_omap, lookup_fmap. by destruct (m !! k).
  - intros k v. rewrite lookup_fmap. destruct (m !! k); simpl; intros; simplify_eq; by eexists.
Qed.

(* ---------------------------------------------------------------------- *)
(** ** Answers *)

(** What a handler of net/http writes: the status, the headers it sets, the
    body. *)
Record httpResponse : Type := mkHttp {
  code : Z;
  header : list (string * string);
  body : string;
}.

(** [http.Error]. *)
Definition http_Error (msg : string) (status : Z) : httpResponse :=
  {| code := status;
     header := [("Content-Type", "text/plain; charset=utf-8"); ("X-Content-Type-Options", "nosniff")];
     body := msg ++ String "010"%char EmptyString |}.

(** [w.WriteHeader(status)] with no body, and [fmt.Fprint(w, text)]. *)
Definition http_status (status : Z) : httpResponse := mkHttp status [] "".
Definition http_text (text : string) : httpResponse := mkHttp 200 [] text.
Definition http_json (text : string) : httpResponse :=
  mkHttp 200 [("Content-Type", "application/json")] text.

(* ---------------------------------------------------------------------- *)
(** ** A fragment of JSON that satisfies the laws *)

(** Scalars, lists of strings and objects of strings, for strings without
    quotes and backslashes; other values cannot be marshalled. *)
Module MiniJson.

Definition quote_char : Ascii.ascii := "034"%char.

Definition plain (s : string) : bool := negb (has_char quote_char s) && negb (has_char "\" s).

Definition quote (s : string) : string := String quote_char (s ++ String quote_char EmptyString).

Fixpoint read_quoted (s : string) : option (string * string) :=
  match s with
  | EmptyString => None
  | String c s' =>
      if decide (c = quote_char) then Some (EmptyString, s')
      else match read_quoted s' with Some (p, rest) => Some (String c p, rest) | None => None end
  end.

(** The members of an object after a brace or a comma. *)
Fixpoint members (l : list (string * string)) : string :=
  match l with
  | [] => "}"
  | [(k, v)] => quote k ++ ":" ++ quote v ++ "}"
  | (k, v) :: l' => quote k ++ ":" ++ quote v ++ "," ++ members l'
  end.

(** A given character, and a quoted string, at the start of the text. *)
Definition expect (c : Ascii.ascii) (s : string) : option string :=
  match s with String c' s' => if decide (c' = c) then Some s' else None | _ => None end.

Definition read_string (s : string) : option (string * string) :=
  match expect quote_char s with Some s' => read_quoted s' | None => None end.

Definition read_member (s : string) : option ((string * string) * string) :=
  match read_string s with
  | Some (k, s1) =>
      match expect ":" s1 with
      | Some s2 => match read_string s2 with Some (v, rest) => Some ((k, v), rest) | None => None end
      | None => None
      end
  | None => None
  end.

Fixpoint read_members (fuel : nat) (s : string) : option (list (string * string)) :=
  match fuel with
  | O => None
  | S fuel' =>
      if String.eqb s "}" then Some []
      else match read_member s with
           | Some (kv, rest) =>
               if String.eqb rest "}" then Some [kv]
               else match expect "," rest with
                    | Some rest' =>
                        match read_members fuel' rest' with Some l => Some (kv :: l) | None => None end
                    | None => None
                    end
           | None => None
           end
  end.

Definition string_of (v : any) : string := match v with AString s => s | _ => "" end.

Definition is_plain (v : any) : bool := match v with AString s => plain s | _ => false end.

Definition mini_marshal (v : any) : res string :=
  match v with
  | ANil => Ok "null"
  | ABool b => Ok (if b then "true" else "false")
  | AInt z => Ok (Itoa z)
  | AString s => if plain s then Ok (quote s) else Err (EMsg "unsupported string")
  | AStrings l => Ok ("[" ++ Join "," (quote <$> l) ++ "]")
  | AMap m =>
      let l := map_to_list m in
      if forallb (λ kv, plain kv.1 && is_plain kv.2) l
      then Ok ("{" ++ members ((λ kv, (kv.1, string_of kv.2)) <$> l))
      else Err (EMsg "unsupported object")
  | _ => Err (EMsg "unsupported value")
  end.

Definition mini_unmarshal (s : string) : option any :=
  if String.eqb s "null" then Some ANil
  else if String.eqb s "true" then Some (ABool true)
  else if String.eqb s "false" then Some (ABool false)
  else match expect "{" s with
  | Some s' =>
      match read_members (S (String.length s')) s' with
      | Some l => Some (AMap (fill ((λ kv, (kv.1, AString kv.2)) <$> l)))
      | None => None
      end
  | None =>
      match expect quote_char s with
      | Some s' => match read_quoted s' with Some (t, EmptyString) => Some (AString t) | _ => None end
      | None => match Atoi s with (z, None) => Some (AFloat (float_of_int z)) | _ => None end
      end
  end.

#[export] Instance MiniJson : Json := {| Marshal := mini_marshal; Unmarshal := mini_unmarshal |}.

#[local] Arguments String.append : simpl nomatch.

Lemma read_quoted_app s rest :
  has_char quote_char s = false → read_quoted (s ++ String quote_char rest) = Some (s, rest).
Proof.
  induction s as [|c s IH]; simpl; intros Hs.
  - done.
  - apply orb_false_iff in Hs as [Hc%bool_decide_eq_false Hs].
    rewrite decide_False by done. by rewrite IH.
Qed.

Lemma expect_eq c s : expect c (String c s) = Some s.
Proof. unfold expect. by rewrite decide_True. Qed.

Lemma quote_app s rest : quote s ++ rest = String quote_char (s ++ String quote_char rest).
Proof. unfold quote. simpl. by rewrite append_assoc. Qed.

Lemma read_string_quote s rest : plain s = true → read_string (quote s ++ rest) = Some (s, rest).
Proof.
  intros [Hs%negb_true_iff _]%andb_prop. unfold read_string. rewrite quote_app, expect_eq.
  by apply read_quoted_app.
Qed.

Lemma read_member_quote k v rest : plain k = true → plain v = true →
  read_member (quote k ++ String ":" (quote v ++ rest)) = Some ((k, v), rest).
Proof.
  intros Hk Hv. unfold read_member. rewrite read_string_quote by done.
  rewrite expect_eq. by rewrite read_string_quote.
Qed.

Lemma members_cons k v l :
  members ((k, v) :: l) =
    quote k ++ String ":" (quote v ++ match l with [] => "}" | _ => String "," (members l) end).
Proof. by destruct l. Qed.

Lemma read_members_members l fuel :
  Forall (λ kv, plain kv.1 = true ∧ plain kv.2 = true) l → (length l < fuel)%nat →
  read_members fuel (members l) = Some l.
Proof.
  revert fuel. induction l as [|[k v] l IH]; intros [|fuel] Hl Hf; simpl in Hf; [lia|done|lia|].
  apply Forall_cons in Hl as [[Hk Hv] Hl]. simpl in Hk, Hv.
  rewrite members_cons. cbn [read_members].
  destruct (String.eqb_spec (quote k ++ String ":" (quote v ++
    match l with [] => "}" | _ => String "," (members l) end)) "}") as [E|_].
  { exfalso. rewrite quote_app in E. discriminate E. }
  rewrite read_member_quote by done. destruct l as [|kv l]; [done|].
  change (String.eqb (String "," (members (kv :: l))) "}") with false. cbv match.
  rewrite expect_eq, IH; [done|done|]. simpl in Hf |- *. lia.
Qed.

Lemma members_length l : (length l ≤ String.length (members l))%nat.
Proof.
  induction l as [|[k v] l IH]; [simpl; lia|]. rewrite members_cons, quote_app. cbn [String.length length].
  rewrite length_append. cbn [String.length].
  rewrite length_append. destruct l; cbn [String.length length] in *; lia.
Qed.

Lemma mini_unmarshal_object s :
  mini_unmarshal (String "{" s) =
    match read_members (S (String.length s)) s with
    | Some l => Some (AMap (fill ((λ kv, (kv.1, AString kv.2)) <$> l)))
    | None => None
    end.
Proof. done. Qed.

Lemma MiniJson_laws : JsonLaws.
Proof.
  split. intros m s. cbn [Marshal MiniJson mini_marshal any_of_msg].
  set (l := map_to_list (AString <$> m)).
  destruct (forallb _ l) eqn:Hp; [|done]. intros [= <-].
  set (ps := (λ kv : string * any, (kv.1, string_of kv.2)) <$> l).
  assert (∀ kv, kv ∈ l → ∃ t, kv.2 = AString t ∧ plain kv.1 = true ∧ plain t = true) as Hin.
  { intros [k v] Hin. rewrite forallb_forall in Hp.
    specialize (Hp (k, v) ltac:(by apply list_elem_of_In)). simpl in Hp.
    apply andb_prop in Hp as [Hk Hv]. destruct v; try done. by exists s. }
  change (mini_unmarshal (String "{" (members ps)) = Some (AMap (AString <$> m))).
  rewrite mini_unmarshal_object, read_members_members.
  - do 2 f_equal. unfold ps. rewrite <-list_fmap_compose. rewrite fill_reverse.
    rewrite <-(list_to_map_to_list (AString <$> m)). fold l. apply list_to_map_proper.
    + rewrite fmap_reverse, reverse_Permutation, <-list_fmap_compose.
      rewrite (list_fmap_ext _ fst) by done. apply NoDup_fst_map_to_list.
    + rewrite reverse_Permutation. rewrite <-(list_fmap_id l) at 2.
      rewrite (list_fmap_ext _ id); [done|]. intros i kv Hi%list_elem_of_lookup_2.
      destruct (Hin _ Hi) as (t & E & _). destruct kv as [k v]. simpl in *. by subst v.
  - unfold ps. apply Forall_fmap, Forall_forall. intros kv Hi. destruct (Hin _ Hi) as (t & E & Hk & Ht).
    simpl. by rewrite E.
  - pose proof (members_length ps). lia.
Qed.

End MiniJson.
