(* ===== verification/Messages.v ===== *)
(** * Messages: the messages sidecars exchange and their Kafka encoding

    Models src/core/pkg/rpc/messages.go and the targets of
    src/core/pkg/rpc/rpc.go.  A Go [[]byte] payload is a [string]; a message
    interface value is one of the four structs.  [encode] builds the header
    map and ranges over it in an arbitrary order; [decode] rebuilds the map
    from the headers.  The round-trip theorem says exactly which fields
    survive the wire. *)

From S2P Require Import Prelude GoLib.
Open Scope string_scope.
Open Scope Z_scope.

Module Rpc.

(* ---------------------------------------------------------------------- *)
(** ** Targets *)

Record Session : Type := mkSession {
  s_Name : string;
  s_ID : string;
  s_Flow : string;
  s_DeferredLockID : string;
}.

Inductive Target : Type :=
| Service (Name : string)
| SessionTarget (s : Session)
| Node (ID : string).

Record Destination : Type := mkDestination {
  d_Target : Target;
  d_Method : string;
}.

#[export] Instance Session_eq_dec : EqDecision Session.
Proof. solve_decision. Defined.
#[export] Instance Target_eq_dec : EqDecision Target.
Proof. solve_decision. Defined.

(* ---------------------------------------------------------------------- *)
(** ** Messages *)

Record CallRequest : Type := mkCall {
  c_RequestID : string;
  c_Value : string;
  c_Deadline : Z;
  c_Target : Target;
  c_Method : string;
  c_Caller : string;
  c_Sequence : Z;
  c_ChildID : string;
  c_ParentID : string;
  c_IsEdited : bool;
}.

Record TellRequest : Type := mkTell {
  t_RequestID : string;
  t_Value : string;
  t_Deadline : Z;
  t_Target : Target;
  t_Method : string;
  t_Sequence : Z;
  t_ChildID : string;
  t_ParentID : string;
  t_IsEdited : bool;
}.

Record Response : Type := mkResponse {
  r_RequestID : string;
  r_Value : string;
  r_Deadline : Z;
  r_ErrMsg : string;
  r_Node : string;
}.

Record Done : Type := mkDone {
  dn_RequestID : string;
  dn_Deadline : Z;
}.

(** Interface [Request]: the two structs that implement it. *)
Inductive Request : Type :=
| Call (c : CallRequest)
| Tell (t : TellRequest).

(** Interface [Message]. *)
Inductive Message : Type :=
| MRequest (q : Request)
| MResponse (r : Response)
| MDone (d : Done).

#[export] Instance CallRequest_eq_dec : EqDecision CallRequest.
Proof. solve_decision. Defined.
#[export] Instance TellRequest_eq_dec : EqDecision TellRequest.
Proof. solve_decision. Defined.
#[export] Instance Request_eq_dec : EqDecision Request.
Proof. solve_decision. Defined.
#[export] Instance Response_eq_dec : EqDecision Response.
Proof. solve_decision. Defined.
#[export] Instance Done_eq_dec : EqDecision Done.
Proof. solve_decision. Defined.
#[export] Instance Message_eq_dec : EqDecision Message.
Proof. solve_decision. Defined.

Definition q_requestID (q : Request) : string :=
  match q with Call c => c_RequestID c | Tell t => t_RequestID t end.
Definition q_value (q : Request) : string :=
  match q with Call c => c_Value c | Tell t => t_Value t end.
Definition q_deadline (q : Request) : Z :=
  match q with Call c => c_Deadline c | Tell t => t_Deadline t end.
Definition q_target (q : Request) : Target :=
  match q with Call c => c_Target c | Tell t => t_Target t end.
Definition q_method (q : Request) : string :=
  match q with Call c => c_Method c | Tell t => t_Method t end.
Definition q_sequence (q : Request) : Z :=
  match q with Call c => c_Sequence c | Tell t => t_Sequence t end.
Definition q_childID (q : Request) : string :=
  match q with Call c => c_ChildID c | Tell t => t_ChildID t end.

Definition requestID (m : Message) : string :=
  match m with
  | MRequest q => q_requestID q
  | MResponse r => r_RequestID r
  | MDone d => dn_RequestID d
  end.
Definition value (m : Message) : string :=
  match m with
  | MRequest q => q_value q
  | MResponse r => r_Value r
  | MDone d => ""
  end.
Definition deadline (m : Message) : Z :=
  match m with
  | MRequest q => q_deadline q
  | MResponse r => r_Deadline r
  | MDone d => dn_Deadline d
  end.

(* ---------------------------------------------------------------------- *)
(** ** Kafka records *)

(** The part of [sarama.ProducerMessage] and [sarama.ConsumerMessage] the code
    fills and reads. *)
Record ProducerMessage : Type := mkProducerMessage {
  pm_Topic : string;
  pm_Partition : Z;
  pm_Headers : list (string * string);
  pm_Value : string;
}.

Record ConsumerMessage : Type := mkConsumerMessage {
  cm_Offset : Z;
  cm_Headers : list (string * string);
  cm_Value : string;
}.

(** The assignments [encodeTarget] makes to the header map. *)
Definition encodeTarget (target : Target) : list (string * string) :=
  match target with
  | SessionTarget t =>
      [("Service", s_Name t); ("Session", s_ID t); ("Flow", s_Flow t);
       ("Lock", s_DeferredLockID t)]
  | Service name => [("Service", name)]
  | Node id => [("Node", id)]
  end.

Definition mget (meta : gmap string string) (k : string) : string :=
  default "" (meta !! k).

Definition decodeTarget (meta : gmap string string) : Target :=
  match meta !! "Session" with
  | Some session =>
      SessionTarget (mkSession (mget meta "Service") session (mget meta "Flow") (mget meta "Lock"))
  | None =>
      match meta !! "Service" with
      | Some service => Service service
      | None => Node (mget meta "Node")
      end
  end.

(** The assignments [encode] makes to its header map, in order; [self] is the
    sending node. *)
Definition encode_pairs (self : string) (msg : Message) : list (string * string) :=
  (match msg with
   | MRequest (Call m) =>
       let caller := if String.eqb (c_Caller m) "" then self else c_Caller m in
       [("Type", "Call"); ("RequestID", c_RequestID m); ("Method", c_Method m);
        ("Caller", caller); ("Child", c_ChildID m); ("Parent", c_ParentID m)] ++
       (if c_Sequence m =? 0 then [] else [("Sequence", Itoa (c_Sequence m))]) ++
       (if c_IsEdited m then [("Edited", "1")] else []) ++
       encodeTarget (c_Target m)
   | MRequest (Tell m) =>
       [("Type", "Tell"); ("RequestID", t_RequestID m); ("Method", t_Method m);
        ("Child", t_ChildID m); ("Parent", t_ParentID m)] ++
       (if t_Sequence m =? 0 then [] else [("Sequence", Itoa (t_Sequence m))]) ++
       (if t_IsEdited m then [("Edited", "1")] else []) ++
       encodeTarget (t_Target m)
   | MResponse m => [("Type", "Response"); ("RequestID", r_RequestID m); ("ErrMsg", r_ErrMsg m)]
   | MDone m => [("Type", "Done"); ("RequestID", dn_RequestID m)]
   end)%list ++
  (if IsZero (deadline msg) then []
   else [("Deadline", FormatInt (Unix (deadline msg)))])%list.

Definition encode_meta (self : string) (msg : Message) : gmap string string :=
  fill (encode_pairs self msg).

Definition encode `{MapIter} (self topic : string) (partition : Z) (msg : Message)
    : ProducerMessage :=
  {| pm_Topic := topic;
     pm_Partition := partition;
     pm_Headers := map_iter 0 (encode_meta self msg);
     pm_Value := value msg |}.

Definition decode_meta (meta : gmap string string) (val : string) : Message :=
  let deadline :=
    match meta !! "Deadline" with
    | Some d => timeUnix (ParseInt 64 d).1
    | None => zeroTime
    end in
  let sequence :=
    match meta !! "Sequence" with
    | Some s => (Atoi s).1
    | None => 0
    end in
  if String.eqb (mget meta "Type") "Call" then
    MRequest (Call {|
      c_RequestID := mget meta "RequestID"; c_Value := val; c_Deadline := deadline;
      c_Target := decodeTarget meta; c_Method := mget meta "Method";
      c_Caller := mget meta "Caller"; c_Sequence := sequence;
      c_ChildID := mget meta "Child"; c_ParentID := mget meta "Parent"; c_IsEdited := false |})
  else if String.eqb (mget meta "Type") "Tell" then
    MRequest (Tell {|
      t_RequestID := mget meta "RequestID"; t_Value := val; t_Deadline := deadline;
      t_Target := decodeTarget meta; t_Method := mget meta "Method"; t_Sequence := sequence;
      t_ChildID := mget meta "Child"; t_ParentID := ""; t_IsEdited := false |})
  else if String.eqb (mget meta "Type") "Response" then
    MResponse {|
      r_RequestID := mget meta "RequestID"; r_Value := val; r_Deadline := deadline;
      r_ErrMsg := mget meta "ErrMsg"; r_Node := "" |}
  else MDone {| dn_RequestID := mget meta "RequestID"; dn_Deadline := deadline |}.

Definition decode (msg : ConsumerMessage) : Message :=
  decode_meta (fill (cm_Headers msg)) (cm_Value msg).

(** What a consumer reads at [offset] after [pm] was produced. *)
Definition delivered (offset : Z) (pm : ProducerMessage) : ConsumerMessage :=
  {| cm_Offset := offset; cm_Headers := pm_Headers pm; cm_Value := pm_Value pm |}.

(** The message as the receiver sees it: the caller is filled in, the deadline
    is cut to whole seconds, and the fields [decode] does not read are gone. *)
Definition wire_deadline (d : Z) : Z := if IsZero d then zeroTime else timeUnix (Unix d).

Definition on_wire (self : string) (msg : Message) : Message :=
  match msg with
  | MRequest (Call m) =>
      MRequest (Call {|
        c_RequestID := c_RequestID m; c_Value := c_Value m;
        c_Deadline := wire_deadline (c_Deadline m); c_Target := c_Target m;
        c_Method := c_Method m;
        c_Caller := if String.eqb (c_Caller m) "" then self else c_Caller m;
        c_Sequence := c_Sequence m; c_ChildID := c_ChildID m; c_ParentID := c_ParentID m;
        c_IsEdited := false |})
  | MRequest (Tell m) =>
      MRequest (Tell {|
        t_RequestID := t_RequestID m; t_Value := t_Value m;
        t_Deadline := wire_deadline (t_Deadline m); t_Target := t_Target m;
        t_Method := t_Method m; t_Sequence := t_Sequence m; t_ChildID := t_ChildID m;
        t_ParentID := ""; t_IsEdited := false |})
  | MResponse m =>
      MResponse {|
        r_RequestID := r_RequestID m; r_Value := r_Value m;
        r_Deadline := wire_deadline (r_Deadline m); r_ErrMsg := r_ErrMsg m; r_Node := "" |}
  | MDone m =>
      MDone {| dn_RequestID := dn_RequestID m; dn_Deadline := wire_deadline (dn_Deadline m) |}
  end.

(** The integers of a message fit their Go types. *)
Definition int64_range (z : Z) : Prop := - 2 ^ 63 ≤ z < 2 ^ 63.

Definition wf_message (msg : Message) : Prop :=
  int64_range (Unix (deadline msg)) ∧
  match msg with MRequest q => int64_range (q_sequence q) | _ => True end.

(* ---------------------------------------------------------------------- *)
(** ** The round trip *)

Lemma decode_deadline d :
  int64_range (Unix d) → timeUnix (ParseInt 64 (FormatInt (Unix d))).1 = timeUnix (Unix d).
Proof. intros. by rewrite ParseInt_FormatInt. Qed.

Lemma decode_sequence q :
  int64_range q → (Atoi (Itoa q)).1 = q.
Proof. intros. unfold Atoi, Itoa. by rewrite ParseInt_FormatInt. Qed.

Lemma decode_encode_meta self msg :
  wf_message msg → decode_meta (encode_meta self msg) (value msg) = on_wire self msg.
Proof.
  intros [Hd Hq]. unfold encode_meta, encode_pairs, decode_meta, decodeTarget, mget.
  rewrite !fill_lookup. unfold last_assoc, on_wire, wire_deadline.
  apply decode_deadline in Hd.
  destruct msg as [[c|t]|r|d]; cbn [deadline q_deadline q_sequence] in *.
  - apply decode_sequence in Hq.
    destruct c as [id v dl tg me ca sq ch pa ed]; cbn in *.
    destruct (IsZero dl), (Z.eqb_spec sq 0) as [->|], ed, tg as [|[]|]; cbn; by rewrite ?Hd, ?Hq.
  - apply decode_sequence in Hq.
    destruct t as [id v dl tg me sq ch pa ed]; cbn in *.
    destruct (IsZero dl), (Z.eqb_spec sq 0) as [->|], ed, tg as [|[]|]; cbn; by rewrite ?Hd, ?Hq.
  - destruct r as [id v dl em no]; cbn in *. destruct (IsZero dl); cbn; by rewrite ?Hd.
  - destruct d as [id dl]; cbn in *. destruct (IsZero dl); cbn; by rewrite ?Hd.
Qed.

Lemma decode_delivered_encode `{MapIter} self topic p offset msg :
  wf_message msg → decode (delivered offset (encode self topic p msg)) = on_wire self msg.
Proof.
  intros Hwf. unfold decode, delivered, encode. simpl.
  rewrite fill_map_iter. by apply decode_encode_meta.
Qed.

(** The kind and the id of a message survive the wire whatever its integers. *)
Definition is_request (msg : Message) : bool :=
  match msg with MRequest _ => true | _ => false end.

Lemma decode_encode_kind `{MapIter} self topic p offset msg :
  is_request (decode (delivered offset (encode self topic p msg))) = is_request msg ∧
  requestID (decode (delivered offset (encode self topic p msg))) = requestID msg.
Proof.
  unfold decode, delivered, encode. simpl. rewrite fill_map_iter.
  unfold encode_meta, encode_pairs, decode_meta, decodeTarget, mget.
  rewrite !fill_lookup. unfold last_assoc.
  destruct msg as [[[id v dl tg me ca sq ch pa ed]|[id v dl tg me sq ch pa ed]]|[id v dl em no]|[id dl]]; cbn;
    destruct (IsZero dl); cbn; try done;
    destruct (sq =? 0), ed, tg as [|[]|]; cbn; done.
Qed.

(** So does the sequence number of a request. *)
Definition sequence_of (msg : Message) : Z :=
  match msg with MRequest q => q_sequence q | _ => 0 end.

Lemma decode_encode_sequence `{MapIter} self topic p offset q :
  int64_range (q_sequence q) →
  sequence_of (decode (delivered offset (encode self topic p (MRequest q)))) = q_sequence q.
Proof.
  intros Hq%decode_sequence. unfold decode, delivered, encode. simpl. rewrite fill_map_iter.
  unfold encode_meta, encode_pairs, decode_meta, decodeTarget, mget.
  rewrite !fill_lookup. unfold last_assoc.
  destruct q as [[id v dl tg me ca sq ch pa ed]|[id v dl tg me sq ch pa ed]]; cbn in *;
    destruct (IsZero dl), (Z.eqb_spec sq 0) as [->|], ed, tg as [|[]|]; cbn; by rewrite ?Hq.
Qed.

Lemma wire_deadline_bounds d : wire_deadline d ≤ d < wire_deadline d + 1000000000.
Proof.
  unfold wire_deadline, IsZero. destruct (Z.eqb_spec d zeroTime) as [->|]; [lia|].
  apply timeUnix_Unix_bounds.
Qed.

Lemma requestID_on_wire self msg : requestID (on_wire self msg) = requestID msg.
Proof. by destruct msg as [[]| |]. Qed.

(* ---------------------------------------------------------------------- *)
(** ** Properties *)

(** C33: a message put on the wire by [encode], with its headers in any order,
    is read back by [decode] as the same message, except that an empty caller
    becomes the sending node, the deadline is cut to whole seconds, and the
    edited flag, a tell's parent and a response's node are not transmitted. *)
Theorem messages_roundtrip `{MapIter} (self topic : string) (p offset : Z) (msg : Message) :
  wf_message msg → decode (delivered offset (encode self topic p msg)) = on_wire self msg.
Proof. apply decode_delivered_encode. Qed.

Lemma messages_roundtrip_witness :
  let c := mkCall "req-1" "v" (timeUnix 1700000000 + 7) (SessionTarget (mkSession "A" "1" "f" "dl"))
             "handlerActor" "" 3 "" "req-0" true in
  let m := MRequest (Call c) in
  wf_message m ∧
  decode (delivered 0 (@encode canonical_iter "node-1" "kar_app" 2 m)) = on_wire "node-1" m.
Proof.
  split; [by vm_compute|].
  apply (@messages_roundtrip canonical_iter "node-1" "kar_app" 2 0). by vm_compute.
Defined.

(** C35: the deadline a receiver reads is never later than the sender's and
    less than one second earlier; no deadline stays no deadline. *)
Theorem deadline_truncation `{MapIter} (self topic : string) (p offset : Z) (msg : Message) :
  wf_message msg →
  let msg' := decode (delivered offset (encode self topic p msg)) in
  deadline msg' ≤ deadline msg < deadline msg' + 1000000000 ∧
  (IsZero (deadline msg) = true → IsZero (deadline msg') = true).
Proof.
  intros Hwf msg'. subst msg'. rewrite decode_delivered_encode by done.
  assert (deadline (on_wire self msg) = wire_deadline (deadline msg)) as ->
    by by destruct msg as [[]| |].
  split; [apply wire_deadline_bounds|]. unfold wire_deadline. by intros ->.
Qed.

Lemma deadline_truncation_witness :
  let m := MDone (mkDone "req-1" 1700000000123456789) in
  deadline (decode (delivered 0 (@encode canonical_iter "n" "t" 0 m))) = 1700000000000000000 ∧
  deadline (decode (delivered 0 (@encode canonical_iter "n" "t" 0 m))) ≤ deadline m.
Proof.
  split; [by vm_compute|].
  apply (@deadline_truncation canonical_iter "n" "t" 0 0 (MDone (mkDone "req-1" 1700000000123456789))).
  by vm_compute.
Defined.

End Rpc.
