(* ===== verification/Store.v ===== *)
(** * Store: the Redis client

    Models src/core/pkg/store/store.go and the key mangling that
    src/core/internal/runtime/runtime-main.go configures it with.  The Redis
    server is not part of the repository: it is a type [R] with an execution
    function ([Redis]) and the documented effect of the commands the client
    issues ([RedisLaws]), which every theorem takes as hypotheses.
    [MiniRedis] is one server that satisfies them. *)

From S2P Require Import Prelude GoLib.
Open Scope string_scope.
Open Scope Z_scope.
Open Scope go_scope.

Module Store.

(* ---------------------------------------------------------------------- *)
(** ** The Redis server, as the client sees it *)

Inductive rvalue : Type :=
| VStr (s : string)
| VHash (h : gmap string string)
| VZSet (z : gmap string Z).

Inductive cmd : Type :=
| GET (k : string)
| SET (k v : string)
| SETNX (k v : string)
| DEL (ks : list string)
| KEYS (pattern : string)
| SCAN (cursor : Z) (pattern : string)
| HSET (k : string) (fvs : list (string * string))
| HGET (k f : string)
| HDEL (k : string) (fs : list string)
| HMGET (k : string) (fs : list string)
| HEXISTS (k f : string)
| HGETALL (k : string)
| HKEYS (k : string)
| HSCAN (k : string) (cursor : Z) (pattern : option string)
| ZADD (k : string) (score : Z) (v : string)
| ZRANGE (k : string) (start stop : Z)
| ZREMRANGEBYSCORE (k : string) (min max : Z).

Inductive reply : Type :=
| RInt (z : Z)
| RBulk (s : string)
| RNil
| RList (l : list (option string))
| RCursor (cursor : string) (l : list string)
| RError (msg : string).

(** [rconn] is the outcome of getting a connection from the pool: [None] when
    a valid connection is obtained, otherwise the error after retrying. *)
Class Redis (R : Type) : Type := {
  rconn : R → option gerror * R;
  rexec : cmd → R → reply * R;
  rview : R → gmap string rvalue;
  rglob : string → string → bool;
}.

Definition hash_at (v : gmap string rvalue) (k : string) : option (gmap string string) :=
  match v !! k with
  | None => Some ∅
  | Some (VHash h) => Some h
  | Some _ => None
  end.

Definition put_hash (v : gmap string rvalue) (k : string) (h : gmap string string)
    : gmap string rvalue :=
  if decide (h = ∅) then delete k v else <[k := VHash h]> v.

(** Number of the keys [ks] bound in [m], duplicates counted once. *)
Definition count_bound {A} (m : gmap string A) (ks : list string) : Z :=
  Z.of_nat (size (dom m ∩ (list_to_set ks : gset string))).

Definition delete_all {A} (ks : list string) (m : gmap string A) : gmap string A :=
  foldr delete m ks.

(** The documented reply and effect of a command on the keyspace; [None] where
    the code relies on nothing (a key of another type). *)
Definition redis_doc (c : cmd) (v : gmap string rvalue) : option (reply * gmap string rvalue) :=
  match c with
  | GET k =>
      match v !! k with
      | None => Some (RNil, v)
      | Some (VStr s) => Some (RBulk s, v)
      | Some _ => None
      end
  | SET k x => Some (RBulk "OK", <[k := VStr x]> v)
  | SETNX k x =>
      match v !! k with
      | None => Some (RInt 1, <[k := VStr x]> v)
      | Some _ => Some (RInt 0, v)
      end
  | DEL ks => Some (RInt (count_bound v ks), delete_all ks v)
  | HSET k fvs =>
      match fvs, hash_at v k with
      | [], _ => Some (RError "wrong number of arguments", v)
      | _, Some h =>
          Some (RInt (count_bound (fill fvs) (fvs.*1) - count_bound h (fvs.*1)),
                <[k := VHash (fill fvs ∪ h)]> v)
      | _, None => None
      end
  | HGET k f =>
      match hash_at v k with
      | Some h => Some (match h !! f with Some x => RBulk x | None => RNil end, v)
      | None => None
      end
  | HDEL k fs =>
      match fs, hash_at v k with
      | [], _ => Some (RError "wrong number of arguments", v)
      | _, Some h => Some (RInt (count_bound h fs), put_hash v k (delete_all fs h))
      | _, None => None
      end
  | HMGET k fs =>
      match fs, hash_at v k with
      | [], _ => Some (RError "wrong number of arguments", v)
      | _, Some h => Some (RList ((λ f, h !! f) <$> fs), v)
      | _, None => None
      end
  | HEXISTS k f =>
      match hash_at v k with
      | Some h => Some (RInt (match h !! f with Some _ => 1 | None => 0 end), v)
      | None => None
      end
  | _ => None
  end.

Definition flatten_pairs (l : list (string * string)) : list (option string) :=
  l ≫= λ kv, [Some kv.1; Some kv.2].

Class RedisLaws (R : Type) `{Redis R} : Prop := {
  (** getting a connection does not touch the keyspace *)
  rconn_view : ∀ r, rview (rconn r).2 = rview r;
  (** commands with a determined reply *)
  rexec_doc : ∀ c r rep v,
    redis_doc c (rview r) = Some (rep, v) →
    (rexec c r).1 = rep ∧ rview (rexec c r).2 = v;
  (** HGETALL lists the fields and values of the hash, in some order *)
  rexec_hgetall : ∀ k r h,
    hash_at (rview r) k = Some h →
    (∃ l, (rexec (HGETALL k) r).1 = RList (flatten_pairs l) ∧ l ≡ₚ map_to_list h) ∧
    rview (rexec (HGETALL k) r).2 = rview r;
  (** KEYS lists the keys that match, in some order *)
  rexec_keys : ∀ pat r,
    (∃ l, (rexec (KEYS pat) r).1 = RList (Some <$> l) ∧
          l ≡ₚ filter (λ k, rglob pat k = true) (map_to_list (rview r)).*1) ∧
    rview (rexec (KEYS pat) r).2 = rview r;
}.

(** The glob pattern [p*] of a prefix without special characters. *)
Definition glob_special (c : Ascii.ascii) : bool :=
  bool_decide (c ∈ ["*"; "?"; "["; "\"]%char).

Fixpoint glob_plain (s : string) : bool :=
  match s with
  | EmptyString => true
  | String c s' => negb (glob_special c) && glob_plain s'
  end.

Definition flat_strings (l : list (string * string)) : list string := l ≫= λ kv, [kv.1; kv.2].

(** [scan_run k pat n c r l r']: from cursor [c], [n] calls of HSCAN bring the
    cursor back to 0 and reply the pairs [l]; each call has a connection of
    the pool. *)
Inductive scan_run {R} `{Redis R} (k pat : string) :
    nat → Z → R → list (string * string) → R → Prop :=
| scan_last c r p r' :
    rexec (HSCAN k c (Some pat)) (rconn r).2 = (RCursor (FormatInt 0) (flat_strings p), r') →
    scan_run k pat 1 c r p r'
| scan_more n c r c' p r1 l r' :
    rexec (HSCAN k c (Some pat)) (rconn r).2 = (RCursor (FormatInt c') (flat_strings p), r1) →
    0 < c' < 2 ^ 63 → scan_run k pat n c' r1 l r' →
    scan_run k pat (S n) c r (p ++ l) r'.

(** HSCAN as documented: while the hash does not change, an iteration ends and
    replies every matching pair, some perhaps more than once. *)
Class ScanLaws (R : Type) `{Redis R} : Prop := {
  rglob_prefix : ∀ p f, glob_plain p = true → rglob (p ++ "*") f = HasPrefix f p;
  hscan_total : ∀ k pat r h,
    hash_at (rview r) k = Some h →
    ∃ n l r', scan_run k pat n 0 r l r' ∧ rview r' = rview r ∧
      ∀ f s, (f, s) ∈ l ↔ h !! f = Some s ∧ rglob pat f = true;
}.

(** [key_scan_run pat n c r l r']: the same for the keys, with SCAN. *)
Inductive key_scan_run {R} `{Redis R} (pat : string) :
    nat → Z → R → list string → R → Prop :=
| key_scan_last c r p r' :
    rexec (SCAN c pat) (rconn r).2 = (RCursor (FormatInt 0) p, r') →
    key_scan_run pat 1 c r p r'
| key_scan_more n c r c' p r1 l r' :
    rexec (SCAN c pat) (rconn r).2 = (RCursor (FormatInt c') p, r1) →
    0 < c' < 2 ^ 63 → key_scan_run pat n c' r1 l r' →
    key_scan_run pat (S n) c r (p ++ l) r'.

(** SCAN as documented, while the keyspace does not change. *)
Class KeyScanLaws (R : Type) `{Redis R} : Prop := {
  key_scan_total : ∀ pat r,
    ∃ n l r', key_scan_run pat n 0 r l r' ∧ rview r' = rview r ∧
      ∀ k, k ∈ l ↔ is_Some (rview r !! k) ∧ rglob pat k = true;
}.

(* ---------------------------------------------------------------------- *)
(** ** store.go *)

Section client.
Context {R : Type} `{Redis R}.
(** [sc.MangleKey] and [sc.UnmangleKey]. *)
Context (MangleKey : string → string) (UnmangleKey : string → res string).

Definition getValidConnection : M R unit := λ r,
  match rconn r with
  | (None, r') => (Ok tt, r')
  | (Some e, r') => (Err e, r')
  end.

Definition doRaw (c : cmd) : M R reply :=
  let* _ := getValidConnection in
  λ r, match rexec c r with
       | (RError msg, r') => (Panic msg, r')
       | (rep, r') => (Ok rep, r')
       end.

(** [args[0]] goes through [MangleKey]. *)
Definition mangle_cmd (c : cmd) : cmd :=
  match c with
  | GET k => GET (MangleKey k)
  | SET k v => SET (MangleKey k) v
  | SETNX k v => SETNX (MangleKey k) v
  | DEL (k :: ks) => DEL (MangleKey k :: ks)
  | DEL [] => DEL []
  | KEYS p => KEYS (MangleKey p)
  | SCAN c p => SCAN c p
  | HSET k fvs => HSET (MangleKey k) fvs
  | HGET k f => HGET (MangleKey k) f
  | HDEL k fs => HDEL (MangleKey k) fs
  | HMGET k fs => HMGET (MangleKey k) fs
  | HEXISTS k f => HEXISTS (MangleKey k) f
  | HGETALL k => HGETALL (MangleKey k)
  | HKEYS k => HKEYS (MangleKey k)
  | HSCAN k c p => HSCAN (MangleKey k) c p
  | ZADD k s v => ZADD (MangleKey k) s v
  | ZRANGE k a b => ZRANGE (MangleKey k) a b
  | ZREMRANGEBYSCORE k a b => ZREMRANGEBYSCORE (MangleKey k) a b
  end.

Definition do (c : cmd) : M R reply := doRaw (mangle_cmd c).

(** [redis.String], [redis.Int], [redis.Strings] and [redis.StringMap]: convert
    a reply, [ErrNil] on a nil reply. *)
Definition redis_String (m : M R reply) : M R string :=
  let* rep := m in
  match rep with
  | RBulk s => ret s
  | RNil => throw EErrNil
  | _ => throw (EMsg "redigo: unexpected type for String")
  end.

Definition redis_Int (m : M R reply) : M R Z :=
  let* rep := m in
  match rep with
  | RInt z => ret z
  | RNil => throw EErrNil
  | _ => throw (EMsg "redigo: unexpected type for Int")
  end.

Definition redis_Strings (m : M R reply) : M R (list string) :=
  let* rep := m in
  match rep with
  | RList l => ret (default "" <$> l)
  | RNil => throw EErrNil
  | _ => throw (EMsg "redigo: unexpected type for Strings")
  end.

Fixpoint pair_up (l : list (option string)) : option (list (string * string)) :=
  match l with
  | [] => Some []
  | Some k :: Some v :: l' =>
      match pair_up l' with Some ps => Some ((k, v) :: ps) | None => None end
  | _ => None
  end.

Definition redis_StringMap (m : M R reply) : M R (gmap string string) :=
  let* rep := m in
  match rep with
  | RList l =>
      match pair_up l with
      | Some ps => ret (fill ps)
      | None => throw (EMsg "redigo: StringMap expects even number of values result")
      end
  | RNil => throw EErrNil
  | _ => throw (EMsg "redigo: unexpected type for StringMap")
  end.

Definition Set_ (key value : string) : M R string := redis_String (do (SET key value)).

Definition Get (key : string) : M R string := redis_String (do (GET key)).

Definition Del (key : string) : M R Z := redis_Int (do (DEL [key])).

(** The Lua script [redis.call('GET',..) == ARGV[1] then redis.call('DEL',..)],
    run atomically by the server. *)
Definition script_compare_del (key expected : string) : R → reply * R := λ r,
  let '(v, r1) := rexec (GET key) r in
  match v with
  | RBulk s =>
      if String.eqb s expected then (RInt 1, (rexec (DEL [key]) r1).2) else (RInt 0, r1)
  | RError e => (RError e, r1)
  | _ => (RInt 0, r1)
  end.

Definition script_compare_set (key expected value : string) : R → reply * R := λ r,
  let '(v, r1) := rexec (GET key) r in
  match v with
  | RBulk s =>
      if String.eqb s expected then (RInt 1, (rexec (SET key value) r1).2) else (RInt 0, r1)
  | RError e => (RError e, r1)
  | _ => (RInt 0, r1)
  end.

(** [doRaw(ctx, "EVAL", script, ...)]. *)
Definition doEval (script : R → reply * R) : M R reply :=
  let* _ := getValidConnection in
  λ r, match script r with
       | (RError msg, r') => (Panic msg, r')
       | (rep, r') => (Ok rep, r')
       end.

Definition CompareAndSet (key : string) (expected value : option string) : M R Z :=
  match expected, value with
  | None, None =>
      let* x := attempt (redis_String (do (GET key))) in
      match x with
      | inl _ => ret 0
      | inr e => if decide (e = EErrNil) then ret 1 else throw e
      end
  | None, Some v => redis_Int (do (SETNX key v))
  | Some e, None => redis_Int (doEval (script_compare_del (MangleKey key) e))
  | Some e, Some v => redis_Int (doEval (script_compare_set (MangleKey key) e v))
  end.

Definition Keys (pattern : string) : M R (list string) :=
  let* mangledKeys := redis_Strings (do (KEYS pattern)) in
  of_res (map_res UnmangleKey mangledKeys).

Definition HSet (hash key value : string) : M R Z := redis_Int (do (HSET hash [(key, value)])).

Definition HSet2 (hash key1 value1 key2 value2 : string) : M R Z :=
  redis_Int (do (HSET hash [(key1, value1); (key2, value2)])).

Definition HSet3 (hash key1 value1 key2 value2 key3 value3 : string) : M R Z :=
  redis_Int (do (HSET hash [(key1, value1); (key2, value2); (key3, value3)])).

Definition HSetMultiple `{MapIter} (hash : string) (keyValuePairs : gmap string string) : M R Z :=
  if decide (size keyValuePairs = 0%nat) then ret 0
  else redis_Int (do (HSET hash (map_iter 1 keyValuePairs))).

Definition HGet (hash key : string) : M R string := redis_String (do (HGET hash key)).

Definition HDel (hash key : string) : M R Z := redis_Int (do (HDEL hash [key])).

Definition HDelMultiple (hash : string) (keys : list string) : M R Z :=
  redis_Int (do (HDEL hash keys)).

Definition HMGet (hash : string) (keys : list string) : M R (list string) :=
  redis_Strings (do (HMGET hash keys)).

Definition HScan (hash : string) (cursor : Z) (match_ : string) : M R (Z * list string) :=
  let* rep := do (HSCAN hash cursor (if String.eqb match_ "" then None else Some match_)) in
  match rep with
  | RCursor c data =>
      match Atoi c with
      | (n, None) => ret (n, data)
      | (_, Some _) => throw (EMsg "invalid cursor")
      end
  | RNil => throw EErrNil
  | _ => throw (EMsg "redigo: unexpected type for Values")
  end.

Definition HGetAll (hash : string) : M R (gmap string string) :=
  redis_StringMap (do (HGETALL hash)).

Definition HExists (hash key : string) : M R Z := redis_Int (do (HEXISTS hash key)).

Definition HKeys (hash : string) : M R (list string) := redis_Strings (do (HKEYS hash)).

Definition ZAdd (key : string) (score : Z) (value : string) : M R Z :=
  redis_Int (do (ZADD key score value)).

Definition ZRange (key : string) (start stop : Z) : M R (list string) :=
  redis_Strings (do (ZRANGE key start stop)).

Definition ZRemRangeByScore (key : string) (min max : Z) : M R Z :=
  redis_Int (do (ZREMRANGEBYSCORE key min max)).

(** The script of [CAS]: [local v=redis.call('GET', KEYS[1]); if v==ARGV[1] or
    v==false and ARGV[1]=='' then redis.call('SET', KEYS[1], ARGV[2]); return
    ARGV[2] else return v end]; a Lua [false] comes back as a nil reply. *)
Definition script_cas (key expected desired : string) : R → reply * R := λ r,
  let '(v, r1) := rexec (GET key) r in
  match v with
  | RBulk s =>
      if String.eqb s expected then (RBulk desired, (rexec (SET key desired) r1).2) else (RBulk s, r1)
  | RNil =>
      if String.eqb expected "" then (RBulk desired, (rexec (SET key desired) r1).2) else (RNil, r1)
  | _ => (v, r1)
  end.

(** CAS sets the key to the desired value if the key has the expected value
    (expected <> "") or is absent (expected = "").  The result on a nil reply
    is the empty string. *)
Definition CAS (key expected desired : string) : M R string :=
  let* x := attempt (redis_String (doEval (script_cas (MangleKey key) expected desired))) in
  match x with
  | inl value => ret value
  | inr e => if decide (e = EErrNil) then ret "" else throw e
  end.

(** The loop over the pages of SCAN: the keys, by page; a cursor that is not a
    number counts as what [Atoi] makes of it. *)
Fixpoint purge_scan (fuel : nat) (pattern : string) (cursor : Z) (bags : list (list string))
    : M R (list (list string)) :=
  match fuel with
  | O => of_res OutOfFuel
  | S fuel' =>
      let* rep := doRaw (SCAN cursor pattern) in
      match rep with
      | RCursor c keys =>
          let cursor := (Atoi c).1 in
          let bags := if decide (keys = []) then bags else (bags ++ [keys])%list in
          if cursor =? 0 then ret bags else purge_scan fuel' pattern cursor bags
      | RNil => throw EErrNil
      | _ => throw (EMsg "redigo: unexpected type for Values")
      end
  end.

Fixpoint purge_del (bags : list (list string)) (count : Z) : M R (Z * option gerror) :=
  match bags with
  | [] => ret (count, None)
  | keys :: bags' =>
      let* x := attempt (redis_Int (doRaw (DEL keys))) in
      match x with
      | inl n => purge_del bags' (count + n)
      | inr err => ret (count, Some err)
      end
  end.

(** Purge deletes all keys that match the argument pattern. *)
Definition Purge (fuel : nat) (pattern : string) : M R (Z * option gerror) :=
  let* x := attempt (purge_scan fuel (MangleKey pattern) 0 []) in
  match x with
  | inl bags => purge_del bags 0
  | inr err => ret (0, Some err)
  end.

End client.

(* ---------------------------------------------------------------------- *)
(** ** Key mangling (runtime-main.go) *)

Definition Separator : Ascii.ascii := "_"%char.
Definition sep : string := String Separator EmptyString.

Definition KarMangleKey (AppName key : string) : string :=
  "kar" ++ sep ++ AppName ++ sep ++ key.

(** Indexing [parts[1]] panics when the key is exactly "kar". *)
Definition KarUnmangleKey (AppName key : string) : res string :=
  match Split Separator key with
  | p0 :: ps =>
      if String.eqb p0 "kar" then
        match ps with
        | p1 :: rest => if String.eqb p1 AppName then Ok (Join sep rest) else Ok key
        | [] => Panic "index out of range"
        end
      else Ok key
  | [] => Panic "index out of range"
  end.

(* ---------------------------------------------------------------------- *)
(** ** A server that satisfies the laws *)

(** Glob patterns made of literal characters and [*]. *)
Fixpoint glob (pat s : string) : bool :=
  match pat with
  | EmptyString => match s with EmptyString => true | _ => false end
  | String c pat' =>
      if decide (c = "*"%char) then
        (fix any (s : string) : bool :=
           glob pat' s || match s with EmptyString => false | String _ s' => any s' end) s
      else match s with
           | EmptyString => false
           | String c' s' => bool_decide (c = c') && glob pat' s'
           end
  end.

Definition matching_pairs (pat : string) (h : gmap string string) : list (string * string) :=
  filter (λ kv, glob pat kv.1 = true) (map_to_list h).

(** HSCAN gives two pairs at a time, SCAN two keys. *)
Definition mini_exec (c : cmd) (v : gmap string rvalue) : reply * gmap string rvalue :=
  match redis_doc c v with
  | Some (rep, v') => (rep, v')
  | None =>
      match c with
      | HGETALL k =>
          match hash_at v k with
          | Some h => (RList (flatten_pairs (map_to_list h)), v)
          | None => (RError "WRONGTYPE", v)
          end
      | KEYS pat =>
          (RList (Some <$> filter (λ k, glob pat k = true) (map_to_list v).*1), v)
      | SCAN c pat =>
          let l := filter (λ k, glob pat k = true) (map_to_list v).*1 in
          if (Z.of_nat (length l) <=? c + 2) || (2 ^ 62 <=? c)
          then (RCursor (FormatInt 0) (drop (Z.to_nat c) l), v)
          else (RCursor (FormatInt (c + 2)) (take 2 (drop (Z.to_nat c) l)), v)
      | HSCAN k c (Some pat) =>
          match hash_at v k with
          | Some h =>
              let l := matching_pairs pat h in
              if (Z.of_nat (length l) <=? c + 2) || (2 ^ 62 <=? c)
              then (RCursor (FormatInt 0) (flat_strings (drop (Z.to_nat c) l)), v)
              else (RCursor (FormatInt (c + 2)) (flat_strings (take 2 (drop (Z.to_nat c) l))), v)
          | None => (RError "WRONGTYPE", v)
          end
      | _ => (RError "WRONGTYPE", v)
      end
  end.

Definition MiniRedis : Redis (gmap string rvalue) :=
  {| rconn := λ r, (None, r); rexec := mini_exec; rview := λ r, r; rglob := glob |}.

Lemma MiniRedis_laws : @RedisLaws _ MiniRedis.
Proof.
  split.
  - done.
  - intros c r rep v E. simpl in *. unfold mini_exec. by rewrite E.
  - intros k r h E. simpl in *. unfold mini_exec. simpl. rewrite E. eauto.
  - intros pat r. simpl. unfold mini_exec. simpl. eauto.
Qed.

Lemma glob_any s : glob "*" s = true.
Proof. by induction s as [|c s IH]. Qed.

Lemma glob_prefix p f : glob_plain p = true → glob (p ++ "*") f = HasPrefix f p.
Proof.
  revert f. induction p as [|c p IH]; intros f Hp; [rewrite glob_any; by destruct f|].
  simpl in Hp. apply andb_prop in Hp as [Hc Hp].
  change (String c p ++ "*") with (String c (p ++ "*")). cbn [glob].
  rewrite decide_False.
  - destruct f as [|c' f]; [done|]. simpl. by rewrite IH.
  - intros ->. done.
Qed.

Lemma mini_scan k pat h v m c :
  hash_at v k = Some h → 0 ≤ c →
  Z.of_nat (length (matching_pairs pat h)) < c + Z.of_nat m →
  ∃ n, @scan_run _ MiniRedis k pat n c v (drop (Z.to_nat c) (matching_pairs pat h)) v.
Proof.
  intros Hh. revert c. induction m as [m IH] using lt_wf_ind. intros c Hc Hm.
  destruct ((Z.of_nat (length (matching_pairs pat h)) <=? c + 2) || (2 ^ 62 <=? c)) eqn:E.
  - exists 1%nat. apply scan_last. simpl. unfold mini_exec. simpl. by rewrite Hh, E.
  - apply orb_false_iff in E as [E1%Z.leb_gt E2%Z.leb_gt].
    destruct (IH (m - 2)%nat ltac:(lia) (c + 2) ltac:(lia) ltac:(lia)) as [n Hn].
    exists (S n). rewrite <-(take_drop 2 (drop (Z.to_nat c) _)), drop_drop.
    replace (Z.to_nat c + 2)%nat with (Z.to_nat (c + 2)) by lia.
    apply scan_more with (c' := c + 2) (r1 := v); [|lia|exact Hn].
    simpl. unfold mini_exec. simpl. rewrite Hh.
    apply Z.leb_gt in E1, E2. by rewrite E1, E2.
Qed.

Lemma MiniRedis_scan : @ScanLaws _ MiniRedis.
Proof.
  split; [exact glob_prefix|]. intros k pat r h Hh.
  destruct (mini_scan k pat h r (S (length (matching_pairs pat h))) 0) as [n Hn]; [done|lia|lia|].
  exists n, (matching_pairs pat h), r. split_and!; [exact Hn|done|]. intros f s.
  unfold matching_pairs. rewrite list_elem_of_filter, elem_of_map_to_list. simpl. tauto.
Qed.

Lemma mini_key_scan pat v m c : 0 ≤ c →
  Z.of_nat (length (filter (λ k, glob pat k = true) (map_to_list v).*1)) < c + Z.of_nat m →
  ∃ n, @key_scan_run _ MiniRedis pat n c v (drop (Z.to_nat c) (filter (λ k, glob pat k = true) (map_to_list v).*1)) v.
Proof.
  set (l := filter _ _). revert c. induction m as [m IH] using lt_wf_ind. intros c Hc Hm.
  destruct ((Z.of_nat (length l) <=? c + 2) || (2 ^ 62 <=? c)) eqn:E.
  - exists 1%nat. apply key_scan_last. simpl. unfold mini_exec. simpl. fold l. by rewrite E.
  - apply orb_false_iff in E as [E1%Z.leb_gt E2%Z.leb_gt].
    destruct (IH (m - 2)%nat ltac:(lia) (c + 2) ltac:(lia) ltac:(lia)) as [n Hn].
    exists (S n). rewrite <-(take_drop 2 (drop (Z.to_nat c) l)), drop_drop.
    replace (Z.to_nat c + 2)%nat with (Z.to_nat (c + 2)) by lia.
    apply key_scan_more with (c' := c + 2) (r1 := v); [|lia|exact Hn].
    simpl. unfold mini_exec. simpl. fold l. apply Z.leb_gt in E1, E2. by rewrite E1, E2.
Qed.

Lemma MiniRedis_key_scan : @KeyScanLaws _ MiniRedis.
Proof.
  split. intros pat r.
  destruct (mini_key_scan pat r (S (length (filter (λ k, glob pat k = true) (map_to_list r).*1))) 0)
    as [n Hn]; [lia|lia|].
  eexists n, _, r. split_and!; [exact Hn|done|]. intros k.
  rewrite drop_0, list_elem_of_filter, list_elem_of_fmap. simpl. split.
  - intros [Hg ([k' v] & -> & Hk%elem_of_map_to_list)]. simpl. by rewrite Hk.
  - intros [[v Hk] Hg]. split; [done|]. exists (k, v). by rewrite elem_of_map_to_list.
Qed.

(* ---------------------------------------------------------------------- *)
(** ** What the operations do *)

Lemma count_bound_singleton {A} (m : gmap string A) k :
  count_bound m [k] = match m !! k with Some _ => 1 | None => 0 end.
Proof.
  unfold count_bound. simpl. rewrite (right_id_L ∅ (∪)).
  destruct (m !! k) as [a|] eqn:E.
  - assert (dom m ∩ {[k]} = {[k]}) as ->.
    { apply elem_of_dom_2 in E. set_solver. }
    by rewrite size_singleton.
  - assert (dom m ∩ {[k]} = ∅) as ->; [|done].
    apply not_elem_of_dom_2 in E. set_solver.
Qed.

Lemma count_bound_new {A} (m h : gmap string A) ks :
  list_to_set ks = dom m →
  count_bound m ks - count_bound h ks = Z.of_nat (size (dom m ∖ dom h)).
Proof.
  intros Hd. unfold count_bound. rewrite Hd, (idemp_L (∩)), (comm_L (∩) (dom h)).
  assert (size (dom m ∩ dom h) ≤ size (dom m))%nat by (apply subseteq_size; set_solver).
  pose proof (size_difference_alt (dom m) (dom h : gset string)) as ->.
  by rewrite Nat2Z.inj_sub by done.
Qed.

Section laws.
Context {R : Type} `{RedisLaws R}.
Context (MangleKey : string → string) (UnmangleKey : string → res string).

(** The pool gives a valid connection whenever it is asked. *)
Definition connected : Prop := ∀ r : R, (rconn r).1 = None.

(** The string stored under a key, if any; [None] when the key holds another
    type. *)
Definition str_at (r : R) (key : string) : option (option string) :=
  match rview r !! MangleKey key with
  | None => Some None
  | Some (VStr s) => Some (Some s)
  | Some _ => None
  end.

(** The test of the [CAS] script on the current value. *)
Definition cas_matches (cur : option string) (expected : string) : bool :=
  match cur with
  | Some s => String.eqb s expected
  | None => String.eqb expected ""
  end.

Definition put_str (v : gmap string rvalue) (key x : string) : gmap string rvalue :=
  <[MangleKey key := VStr x]> v.

Lemma getValidConnection_ok r :
  connected → ∃ r1, getValidConnection r = (Ok tt, r1) ∧ rview r1 = rview r.
Proof.
  intros Hc. unfold getValidConnection. pose proof (Hc r) as E.
  pose proof (rconn_view r) as V. destruct (rconn r) as [o r1]; simpl in *; subst. eauto.
Qed.

Lemma doRaw_doc c r rep v :
  connected → redis_doc c (rview r) = Some (rep, v) → (∀ msg, rep ≠ RError msg) →
  ∃ r', doRaw c r = (Ok rep, r') ∧ rview r' = v.
Proof.
  intros Hc E Hrep. destruct (getValidConnection_ok r Hc) as (r1 & E1 & V1).
  unfold doRaw, bind. rewrite E1. rewrite <-V1 in E.
  destruct (rexec_doc c r1 rep v E) as [Hr Hv].
  destruct (rexec c r1) as [rep' r2]; simpl in *; subst.
  destruct rep; eauto. by destruct (Hrep msg).
Qed.

Lemma Get_spec key cur r :
  connected → str_at r key = Some cur →
  ∃ r', Get MangleKey key r = (match cur with Some s => Ok s | None => Err EErrNil end, r') ∧
        rview r' = rview r.
Proof.
  intros Hc E. unfold str_at in E.
  assert (redis_doc (GET (MangleKey key)) (rview r) =
          Some (match cur with Some s => RBulk s | None => RNil end, rview r)) as D.
  { simpl. repeat case_match; by simplify_eq. }
  apply (doRaw_doc _ r) in D as (r' & E' & V); [|done|by destruct cur].
  exists r'. split; [|done]. unfold Get, redis_String, do, bind. simpl. rewrite E'.
  by destruct cur.
Qed.

Lemma Set_spec key x r :
  connected →
  ∃ r', Set_ MangleKey key x r = (Ok "OK", r') ∧ rview r' = put_str (rview r) key x.
Proof.
  intros Hc.
  destruct (doRaw_doc (SET (MangleKey key) x) r (RBulk "OK") (put_str (rview r) key x))
    as (r' & E' & V); try done.
  exists r'. split; [|done]. unfold Set_, redis_String, do, bind. simpl. by rewrite E'.
Qed.

Lemma Del_spec key r :
  connected →
  ∃ r', Del MangleKey key r = (Ok (count_bound (rview r) [MangleKey key]), r') ∧
        rview r' = delete (MangleKey key) (rview r).
Proof.
  intros Hc.
  destruct (doRaw_doc (DEL [MangleKey key]) r (RInt (count_bound (rview r) [MangleKey key]))
              (delete (MangleKey key) (rview r))) as (r' & E' & V); try done.
  exists r'. split; [|done]. unfold Del, redis_Int, do, bind. simpl. by rewrite E'.
Qed.

(** A command of the client whose reply is an integer. *)
Lemma redis_Int_doc c r z v :
  connected → redis_doc (mangle_cmd MangleKey c) (rview r) = Some (RInt z, v) →
  ∃ r', redis_Int (do MangleKey c) r = (Ok z, r') ∧ rview r' = v.
Proof.
  intros Hc E. destruct (doRaw_doc _ r _ _ Hc E) as (r' & E' & V); [done|].
  exists r'. split; [|done]. unfold redis_Int, do, bind. by rewrite E'.
Qed.

(** HSET of one field replies 1 when the field is new and 0 when it is not. *)
Lemma HSet_spec key f x h r :
  connected → hash_at (rview r) (MangleKey key) = Some h →
  ∃ r', HSet MangleKey key f x r =
          (Ok (match h !! f with Some _ => 0 | None => 1 end), r') ∧
        rview r' = <[MangleKey key := VHash (<[f := x]> h)]> (rview r).
Proof.
  intros Hc E. apply redis_Int_doc; [done|]. cbn [mangle_cmd redis_doc]. rewrite E.
  cbn [fmap list_fmap fst]. rewrite !count_bound_singleton. unfold fill. simpl.
  rewrite lookup_insert_eq. rewrite <-insert_union_l, (left_id_L ∅ (∪)).
  by destruct (h !! f).
Qed.

Lemma HGet_spec key f h r :
  connected → hash_at (rview r) (MangleKey key) = Some h →
  ∃ r', HGet MangleKey key f r = (match h !! f with Some s => Ok s | None => Err EErrNil end, r') ∧
        rview r' = rview r.
Proof.
  intros Hc E.
  destruct (doRaw_doc (HGET (MangleKey key) f) r
    (match h !! f with Some x => RBulk x | None => RNil end) (rview r)) as (r' & E' & V);
    [done|cbn [redis_doc]; by rewrite E|by destruct (h !! f)|].
  exists r'. split; [|done]. unfold HGet, redis_String, do, bind. simpl. rewrite E'.
  by destruct (h !! f).
Qed.

Lemma HDel_spec key f h r :
  connected → hash_at (rview r) (MangleKey key) = Some h →
  ∃ r', HDel MangleKey key f r =
          (Ok (match h !! f with Some _ => 1 | None => 0 end), r') ∧
        rview r' = put_hash (rview r) (MangleKey key) (delete f h).
Proof.
  intros Hc E. apply redis_Int_doc; [done|]. cbn [mangle_cmd redis_doc]. rewrite E.
  by rewrite count_bound_singleton.
Qed.

Lemma HDelMultiple_spec key fs h r :
  connected → fs ≠ [] → hash_at (rview r) (MangleKey key) = Some h →
  ∃ r', HDelMultiple MangleKey key fs r = (Ok (count_bound h fs), r') ∧
        rview r' = put_hash (rview r) (MangleKey key) (delete_all fs h).
Proof.
  intros Hc Hfs E. apply redis_Int_doc; [done|]. cbn [mangle_cmd redis_doc]. rewrite E.
  by destruct fs.
Qed.

(** Without a field the command is an error of Redis, at which the client
    panics. *)
Lemma HDelMultiple_nil key r :
  connected → ∃ r' msg, HDelMultiple MangleKey key [] r = (Panic msg, r') ∧ rview r' = rview r.
Proof.
  intros Hc. destruct (getValidConnection_ok r Hc) as (r1 & E1 & V1).
  unfold HDelMultiple, redis_Int, do, doRaw, bind. simpl. rewrite E1.
  destruct (rexec_doc (HDEL (MangleKey key) []) r1 _ _ eq_refl) as [Hr Hv].
  destruct (rexec (HDEL (MangleKey key) []) r1) as [rep r2]. simpl in *. subst rep.
  eexists _, _. split; [done|congruence].
Qed.

Lemma HExists_spec key f h r :
  connected → hash_at (rview r) (MangleKey key) = Some h →
  ∃ r', HExists MangleKey key f r =
          (Ok (match h !! f with Some _ => 1 | None => 0 end), r') ∧
        rview r' = rview r.
Proof.
  intros Hc E. apply redis_Int_doc; [done|]. cbn [mangle_cmd redis_doc]. by rewrite E.
Qed.

(** HSET of several fields replies the number of new ones. *)
Lemma HSetMultiple_spec `{MapIter} key m h r :
  connected → m ≠ ∅ → hash_at (rview r) (MangleKey key) = Some h →
  ∃ r', HSetMultiple MangleKey key m r =
          (Ok (Z.of_nat (size (dom m ∖ dom h))), r') ∧
        rview r' = <[MangleKey key := VHash (m ∪ h)]> (rview r).
Proof.
  intros Hc Hm E. unfold HSetMultiple. rewrite decide_False by by rewrite map_size_empty_iff.
  apply redis_Int_doc; [done|]. set (l := map_iter 1 m).
  assert (l ≡ₚ map_to_list m) as Hl by apply map_iter_perm.
  assert (list_to_set (l.*1) = dom m) as Hd.
  { rewrite Hl. symmetry. apply leibniz_equiv, dom_alt. }
  assert (fill l = m) as Hf by apply fill_map_iter.
  cbn [mangle_cmd redis_doc]. rewrite E, Hf.
  rewrite count_bound_new by done.
  destruct l as [|kv l'] eqn:El; [|done]. exfalso. by apply Hm.
Qed.

Lemma pair_up_flatten l : pair_up (flatten_pairs l) = Some l.
Proof. induction l as [|[k v] l IH]; [done|]. simpl. by rewrite IH. Qed.

Lemma HGetAll_spec key h r :
  connected → hash_at (rview r) (MangleKey key) = Some h →
  ∃ r', HGetAll MangleKey key r = (Ok h, r') ∧ rview r' = rview r.
Proof.
  intros Hc E. destruct (getValidConnection_ok r Hc) as (r1 & E1 & V1).
  rewrite <-V1 in E. destruct (rexec_hgetall _ _ _ E) as [(l & Hl & Hp) Hv].
  unfold HGetAll, redis_StringMap, do, doRaw, bind. simpl. rewrite E1.
  destruct (rexec (HGETALL (MangleKey key)) r1) as [rep r2]. simpl in *. subst rep.
  exists r2. rewrite pair_up_flatten. split; [|congruence].
  assert (fill l = h) as ->; [|done].
  rewrite fill_reverse, <-(list_to_map_to_list h). apply list_to_map_proper.
  - rewrite fmap_reverse, reverse_Permutation, Hp. apply NoDup_fst_map_to_list.
  - by rewrite reverse_Permutation.
Qed.

Lemma HScan_page key pat c c' data r r' :
  connected → pat ≠ "" → 0 ≤ c' < 2 ^ 63 →
  rexec (HSCAN (MangleKey key) c (Some pat)) (rconn r).2 = (RCursor (FormatInt c') data, r') →
  HScan MangleKey key c pat r = (Ok (c', data), r').
Proof.
  intros Hc Hp Hb E. pose proof (Hc r) as Ec.
  unfold HScan, do, doRaw, getValidConnection, bind. destruct (rconn r) as [o r1]. simpl in *. subst o.
  destruct (String.eqb_spec pat ""); [done|]. rewrite E. unfold Atoi.
  by rewrite ParseInt_FormatInt by lia.
Qed.

(** [Keys] returns the unmangled names of the matching keys, in some order. *)
Lemma Keys_spec pat r :
  connected → (∀ k, is_Some (rview r !! k) → rglob (MangleKey pat) k = true → ∃ u, UnmangleKey k = Ok u) →
  ∃ ks r', Keys MangleKey UnmangleKey pat r = (Ok ks, r') ∧ rview r' = rview r ∧
    ∀ u, u ∈ ks ↔ ∃ k, is_Some (rview r !! k) ∧ rglob (MangleKey pat) k = true ∧ UnmangleKey k = Ok u.
Proof.
  intros Hc Hu. destruct (getValidConnection_ok r Hc) as (r1 & E1 & V1).
  destruct (rexec_keys (MangleKey pat) r1) as [(l & Hl & Hp) Hv].
  unfold Keys, redis_Strings, do, doRaw, bind. simpl. rewrite E1.
  destruct (rexec (KEYS (MangleKey pat)) r1) as [rep r2]. simpl in *. subst rep.
  assert (∀ k, k ∈ l ↔ is_Some (rview r !! k) ∧ rglob (MangleKey pat) k = true) as Hin.
  { intros k. rewrite Hp, list_elem_of_filter, V1, list_elem_of_fmap. split.
    - intros [Hg ([k' v] & -> & Hk%elem_of_map_to_list)]. eauto.
    - intros [[v Hk] Hg]. split; [done|]. exists (k, v). by rewrite elem_of_map_to_list. }
  set (g k := match UnmangleKey k with Ok u => u | _ => "" end).
  assert (map_res UnmangleKey l = Ok (g <$> l)) as Em.
  { apply map_res_Ok. intros k [Hk Hg]%Hin. unfold g. by destruct (Hu k Hk Hg) as [u ->]. }
  unfold of_res. simpl. rewrite <-list_fmap_compose. rewrite (list_fmap_ext _ id l) by done.
  rewrite list_fmap_id, Em. eexists _, r2. split_and!; [done|congruence|]. intros u. rewrite list_elem_of_fmap. split.
  - intros (k & -> & [Hk Hg]%Hin). exists k. split_and!; [done..|]. unfold g. by destruct (Hu k Hk Hg) as [u ->].
  - intros (k & Hk & Hg & E). exists k. split; [unfold g; by rewrite E|]. by apply Hin.
Qed.

(** The script's reply and effect, given the current value. *)
Lemma script_cas_spec key cur expected desired r :
  str_at r key = Some cur →
  ∃ r', script_cas (MangleKey key) expected desired r =
          (if cas_matches cur expected then RBulk desired
           else match cur with Some s => RBulk s | None => RNil end, r') ∧
        rview r' = if cas_matches cur expected then put_str (rview r) key desired else rview r.
Proof.
  intros E. unfold str_at in E.
  destruct (rexec_doc (GET (MangleKey key)) r
              (match cur with Some s => RBulk s | None => RNil end) (rview r)) as [Hr Hv].
  { simpl. repeat case_match; by simplify_eq. }
  unfold script_cas. destruct (rexec (GET (MangleKey key)) r) as [v r1]; simpl in *; subst.
  destruct (rexec_doc (SET (MangleKey key) desired) r1 (RBulk "OK")
              (put_str (rview r1) key desired)) as [_ Hv2]; [done|].
  destruct cur as [s|]; simpl; destruct (String.eqb _ _); eexists;
    (split; [reflexivity|]); by rewrite ?Hv2, ?Hv.
Qed.

Lemma CAS_spec key cur expected desired r :
  connected → str_at r key = Some cur →
  ∃ r', CAS MangleKey key expected desired r =
          (Ok (if cas_matches cur expected then desired else default "" cur), r') ∧
        rview r' = if cas_matches cur expected then put_str (rview r) key desired else rview r.
Proof.
  intros Hc E. destruct (getValidConnection_ok r Hc) as (r1 & E1 & V1).
  assert (str_at r1 key = Some cur) as E' by (unfold str_at; by rewrite V1).
  destruct (script_cas_spec key cur expected desired r1 E') as (r' & Es & Hv).
  exists r'. unfold CAS, attempt, redis_String, doEval, bind. rewrite E1, Es. rewrite V1 in Hv.
  by destruct (cas_matches cur expected), cur.
Qed.

(** The keys of the pages are deleted, and counted once. *)
Lemma purge_del_spec bags count r : connected →
  ∃ r', purge_del bags count r =
          (Ok (count + Z.of_nat (size (dom (rview r) ∩ list_to_set (concat bags))), None), r') ∧
        rview r' = filter (λ kx, kx.1 ∉ concat bags) (rview r).
Proof.
  intros Hc. revert count r. induction bags as [|keys bags IH]; intros count r; simpl.
  - exists r. unfold ret. split.
    + replace (dom (rview r) ∩ ∅) with (∅ : gset string) by set_solver. rewrite size_empty, Z.add_0_r. done.
    + symmetry. apply map_filter_id. intros k x _. apply not_elem_of_nil.
  - destruct (doRaw_doc (DEL keys) r (RInt (count_bound (rview r) keys)) (delete_all keys (rview r)))
      as (r1 & E1 & V1); [done..|].
    destruct (IH (count + count_bound (rview r) keys) r1) as (r2 & E2 & V2). exists r2.
    assert (∀ k, delete_all keys (rview r) !! k = if decide (k ∈ keys) then None else rview r !! k) as Hd.
    { intros k. unfold delete_all. clear. induction keys as [|k' keys IH]; simpl; [done|].
      destruct (decide (k = k')) as [->|].
      - rewrite lookup_delete_eq. by rewrite decide_True by left.
      - rewrite lookup_delete_ne, IH by done. destruct (decide (k ∈ keys)), (decide (k ∈ k' :: keys)); set_solver. }
    split.
    + erewrite bind_ret; [|apply attempt_inl; unfold redis_Int; erewrite bind_ret by exact E1; reflexivity]. cbv beta iota.
      rewrite E2. match goal with |- (Ok (?a, _), _) = (Ok (?b, _), _) => assert (a = b) as ->; [|done] end.
      unfold count_bound. rewrite <-Z.add_assoc. f_equal.
      rewrite <-Nat2Z.inj_add. f_equal. rewrite V1, list_to_set_app_L.
      rewrite <-size_union.
      * f_equal. apply set_eq. intros k. rewrite !elem_of_union, !elem_of_intersection, !elem_of_dom, Hd, elem_of_union, !elem_of_list_to_set.
        destruct (decide (k ∈ keys)); rewrite ?is_Some_alt; naive_solver.
      * intros k. rewrite !elem_of_intersection, !elem_of_dom, Hd, !elem_of_list_to_set.
        intros [_ Hk] [Hs _]. rewrite decide_True in Hs by done. by apply is_Some_None in Hs.
    + rewrite V2, V1. apply map_eq. intros k. rewrite !map_lookup_filter, Hd.
      destruct (decide (k ∈ keys)); simpl.
      * destruct (rview r !! k); simpl; [|done]. by rewrite option_guard_False by set_solver.
      * destruct (rview r !! k); simpl; [|done]. 
        apply option_guard_iff; set_solver.
Qed.

Lemma purge_scan_spec pat n c r l r' fuel bags : connected →
  key_scan_run pat n c r l r' → (n ≤ fuel)%nat →
  ∃ bags', purge_scan fuel pat c bags r = (Ok bags', r') ∧ concat bags' = (concat bags ++ l)%list.
Proof.
  intros Hc Hr. revert fuel bags. induction Hr as [c r p r' E|n c r c' p r1 l r' E Hb Hr IH]; intros fuel bags Hf;
    (destruct fuel as [|fuel]; [lia|]); cbn [purge_scan].
  - pose proof (Hc r) as Ec. unfold doRaw, getValidConnection, bind. destruct (rconn r) as [o r1]. simpl in *. subst o.
    rewrite E. unfold Atoi. rewrite ParseInt_FormatInt by lia. simpl. eexists. split; [done|].
    destruct (decide (p = [])) as [->|]; [by rewrite app_nil_r|]. rewrite concat_app. simpl. by rewrite app_nil_r.
  - pose proof (Hc r) as Ec. unfold doRaw, getValidConnection, bind at 1 2. destruct (rconn r) as [o r0]. simpl in *. subst o.
    rewrite E. unfold Atoi. rewrite ParseInt_FormatInt by lia. simpl. destruct (Z.eqb_spec c' 0); [lia|].
    destruct (IH fuel (if decide (p = []) then bags else bags ++ [p])%list ltac:(lia)) as (bags' & Eb & Hcat).
    exists bags'. split; [done|]. rewrite Hcat. destruct (decide (p = [])) as [->|]; [done|].
    rewrite concat_app. simpl. by rewrite app_nil_r, <-app_assoc.
Qed.

(** [Purge] deletes the keys that match and no other, and returns how many. *)
Lemma Purge_spec `{!KeyScanLaws R} pat r : connected →
  ∃ n, ∀ fuel, (n ≤ fuel)%nat → ∃ r',
    Purge MangleKey fuel pat r =
      (Ok (Z.of_nat (size (filter (λ kx, rglob (MangleKey pat) kx.1 = true) (rview r))), None), r') ∧
    rview r' = filter (λ kx, rglob (MangleKey pat) kx.1 ≠ true) (rview r).
Proof.
  intros Hc. destruct (key_scan_total (MangleKey pat) r) as (n & l & r1 & Hr & V & Hl). exists n. intros fuel Hf.
  destruct (purge_scan_spec _ _ _ _ _ _ fuel [] Hc Hr Hf) as (bags & Es & Hb). simpl in Hb.
  destruct (purge_del_spec bags 0 r1 Hc) as (r2 & Ed & Vd). exists r2. rewrite Hb, V in *. split.
  - unfold Purge. erewrite bind_ret by (apply attempt_inl; exact Es). cbv beta iota. rewrite Ed.
    match goal with |- (Ok (?a, _), _) = (Ok (?b, _), _) => assert (a = b) as ->; [|done] end. rewrite Z.add_0_l. f_equal. rewrite <-size_dom. f_equal. apply set_eq. intros k.
    rewrite elem_of_intersection, elem_of_list_to_set, Hl, !elem_of_dom. unfold is_Some.
    setoid_rewrite map_lookup_filter_Some. naive_solver.
  - rewrite Vd. apply map_filter_ext. intros k x Hk. simpl. rewrite Hl. naive_solver.
Qed.

Lemma str_at_put_eq r v key x : rview r = put_str v key x → str_at r key = Some (Some x).
Proof. unfold str_at, put_str. intros ->. by rewrite lookup_insert_eq. Qed.

Lemma str_at_put_ne r v key key' x :
  MangleKey key ≠ MangleKey key' → rview r = put_str v key x →
  str_at r key' = match v !! MangleKey key' with
                  | None => Some None | Some (VStr s) => Some (Some s) | _ => None end.
Proof. unfold str_at, put_str. intros Hne ->. by rewrite lookup_insert_ne. Qed.

End laws.

(* ---------------------------------------------------------------------- *)
(** ** Properties *)

(** The configured key mangling is undone by the unmangling, for every key,
    as long as the application's name does not contain the separator. *)
Theorem unmangle_mangle (AppName key : string) :
  has_char Separator AppName = false →
  KarUnmangleKey AppName (KarMangleKey AppName key) = Ok key.
Proof.
  intros Happ. unfold KarUnmangleKey, KarMangleKey, sep.
  change (Split Separator ("kar" ++ String Separator "" ++ AppName ++ String Separator "" ++ key))
    with ("kar" :: Split Separator (AppName ++ String Separator key)).
  rewrite Split_app by done. simpl. rewrite String.eqb_refl. by rewrite Join_Split.
Qed.

Lemma unmangle_mangle_witness :
  KarUnmangleKey "my-app" (KarMangleKey "my-app" "rpc_Account_a_b") = Ok "rpc_Account_a_b".
Proof. apply unmangle_mangle. reflexivity. Defined.

(** [CAS] is an atomic compare-and-set: it stores the desired value and
    returns it when the key holds the expected value (or is absent and the
    expected value is empty), and otherwise changes nothing and returns the
    current value, the empty string when there is none. *)
Theorem cas_functional {R} `{RedisLaws R} (mangle : string → string)
    (key expected desired : string) (cur : option string) (r : R) :
  connected → str_at mangle r key = Some cur →
  ∃ r', CAS mangle key expected desired r =
          (Ok (if cas_matches cur expected then desired else default "" cur), r') ∧
        str_at mangle r' key =
          Some (if cas_matches cur expected then Some desired else cur) ∧
        ∀ k, k ≠ mangle key → rview r' !! k = rview r !! k.
Proof.
  intros Hc E. destruct (CAS_spec mangle key cur expected desired r Hc E) as (r' & Er & V).
  exists r'. split; [done|]. destruct (cas_matches cur expected).
  - split; [by eapply str_at_put_eq|]. intros k Hk. rewrite V. by apply lookup_insert_ne.
  - split; [unfold str_at in *; by rewrite V|]. intros. by rewrite V.
Qed.

Lemma cas_functional_witness :
  ∃ r', @CAS _ MiniRedis (KarMangleKey "app") "rpc_A_1" "" "node-1" ∅ = (Ok "node-1", r') ∧
        @str_at _ MiniRedis (KarMangleKey "app") r' "rpc_A_1" = Some (Some "node-1").
Proof.
  destruct (@cas_functional _ MiniRedis MiniRedis_laws (KarMangleKey "app")
              "rpc_A_1" "" "node-1" None ∅) as (r' & E & S & _); [done|reflexivity|].
  exists r'. split; [exact E|exact S].
Defined.

End Store.
