(* ===== verification/Pool.v ===== *)
(** * Pool: connections to Redis

    Models the connection part of src/core/pkg/store/store.go: the options of the
    connections, the pool with the retries of [getValidConnection], [doRaw], which
    borrows a connection for one command, and [Dial].  The pool of the package redigo
    is the class [PoolOps], [PoolLaws] what it documents; the server behind it is a
    [Redis] of its own.  The pool and the server together implement the interface
    [Redis] that the rest of the library is proved against. *)

From S2P Require Import Prelude GoLib Backoff Store.
Import Backoff Store.
Open Scope string_scope.
Open Scope Z_scope.
Open Scope list_scope.
Open Scope go_scope.

Module Pool.

(* ---------------------------------------------------------------------- *)
(** ** Options *)

Record StoreConfig : Type := mkStoreConfig {
  MangleKey : string → string;
  UnmangleKey : string → res string;
  RequestRetryLimit : Z;
  LongOperation : Z;
  Host : string;
  Port : Z;
  EnableTLS : bool;
  TLSSkipVerify : bool;
  Password : string;
  User : string;
  CA : option string;
}.

Inductive DialOption : Type :=
| DialUseTLS (b : bool)
| DialTLSConfig (RootCAs : list string)
| DialTLSSkipVerify (b : bool)
| DialUsername (s : string)
| DialPassword (s : string)
| DialConnectTimeout (d : Z)
| DialReadTimeout (d : Z)
| DialWriteTimeout (d : Z).

#[export] Instance DialOption_eq_dec : EqDecision DialOption.
Proof. solve_decision. Defined.

Definition when_opt (b : bool) (l : list DialOption) : list DialOption := if b then l else [].

Definition redisOptions (sc : StoreConfig) : list DialOption :=
  when_opt (EnableTLS sc)
    ([DialUseTLS true] ++
     match CA sc with Some cert => [DialTLSConfig [cert]] | None => [] end ++
     when_opt (TLSSkipVerify sc) [DialTLSSkipVerify true]) ++
  when_opt (negb (String.eqb (User sc) "")) [DialUsername (User sc)] ++
  when_opt (negb (String.eqb (Password sc) "")) [DialPassword (Password sc)] ++
  when_opt (0 <=? RequestRetryLimit sc)
    [DialConnectTimeout (RequestRetryLimit sc); DialReadTimeout (RequestRetryLimit sc);
     DialWriteTimeout (RequestRetryLimit sc)].

(** [net.JoinHostPort]: a host with a colon is an address of IPv6. *)
Definition JoinHostPort (host port : string) : string :=
  if Contains host ":" || Contains host "%" then "[" +:+ host +:+ "]:" +:+ port else host +:+ ":" +:+ port.

Definition Second : Z := 1000000000.

Record pool_config : Type := mkPoolConfig {
  MaxIdle : Z;
  MaxActive : Z;
  IdleTimeout : Z;
  Wait : bool;
  Dial_address : string;
  Dial_options : list DialOption;
}.

Definition pool_of (sc : StoreConfig) : pool_config :=
  mkPoolConfig 3 16 (240 * Second) true (JoinHostPort (Host sc) (Itoa (Port sc))) (redisOptions sc).

(* ---------------------------------------------------------------------- *)
(** ** The pool and the server *)

(** A connection of the pool; [ErrorConn] is what a failed call of the pool returns,
    or nil. *)
Inductive conn : Type := Valid (n : nat) | ErrorConn.

(** The pool [B], with the context of the call; [borrowed] counts the connections that
    this call holds. *)
Class PoolOps (B R : Type) : Type := {
  new_pool : pool_config → B → B;
  GetContext : B * R → (conn * option gerror) * (B * R);
  conn_Close : conn → B → B;
  conn_Ping : conn → B * R → option gerror * (B * R);
  ctx_Err : B → option gerror;
  borrowed : B → nat;
}.

Class PoolLaws (B R : Type) `{PoolOps B R} `{Redis R} : Prop := {
  (** a call that succeeds gives a connection, one that fails gives none *)
  Get_conn w c err w' : GetContext w = ((c, err), w') →
    match err with
    | None => (∃ n, c = Valid n) ∧ borrowed w'.1 = S (borrowed w.1)
    | Some _ => c = ErrorConn ∧ borrowed w'.1 = borrowed w.1
    end;
  Get_view w : rview (GetContext w).2.2 = rview w.2;
  Close_valid n b : borrowed (conn_Close (Valid n) b) = pred (borrowed b);
  Close_error b : conn_Close ErrorConn b = b;
  Ping_frame c w : borrowed (conn_Ping c w).2.1 = borrowed w.1 ∧ rview (conn_Ping c w).2.2 = rview w.2;
}.

Section pool.
Context {B R : Type} `{PoolOps B R} `{Redis R}.
Context `{!BackoffOps (conn * (B * R))}.

Definition on_pool (f : B → B) (w : B * R) : B * R := (f w.1, w.2).

(** One attempt: the connection of the previous one is closed first. *)
Definition reconnect : conn * (B * R) → outcome * (conn * (B * R)) := λ '(c, w),
  let '((c', err), w') := GetContext (on_pool (conn_Close c) w) in
  if decide (err = ctx_Err w'.1) then (Permanent err, (c', w'))
  else match err with
  | None => (Done, (c', w'))
  | Some e => (Failed e, (c', w'))
  end.

Definition getValidConnection (limit : Z) (w : B * R) : (conn * option gerror) * (B * R) :=
  let '((c, err), w1) := GetContext w in
  if decide (err = Some ECtx) then ((ErrorConn, err), w1)
  else match err with
  | None => ((c, None), w1)
  | Some _ => let '(err', (c', w')) := Retry (MaxElapsedTime limit) reconnect (c, w1) in ((c', err'), w')
  end.

(** send a command using a connection from the pool: [run] is the command, or the
    script, at the server; an error is a panic, and the connection goes back. *)
Definition doRaw (limit : Z) (run : R → reply * R) : M (B * R) reply := λ w,
  match getValidConnection limit w with
  | ((_, Some err), w1) => (Err err, w1)
  | ((c, None), w1) =>
      finally (λ '(b, r), match run r with
                          | (RError msg, r') => (Panic msg, (b, r'))
                          | (rep, r') => (Ok rep, (b, r'))
                          end)
        (modify (on_pool (conn_Close c))) w1
  end.

(** [TestOnBorrow]: a connection that was used within a minute is taken as good. *)
Definition TestOnBorrow (now t : Z) (c : conn) (w : B * R) : option gerror * (B * R) :=
  if now - t <? 60 * Second then (None, w) else conn_Ping c w.

(** Dial connects to Redis. *)
Definition Dial (sc : StoreConfig) (w : B * R) : option gerror * (B * R) :=
  let w := on_pool (new_pool (pool_of sc)) w in
  let limit := if RequestRetryLimit sc <=? 0 then 30 * Second else RequestRetryLimit sc in
  match getValidConnection limit w with
  | ((c, None), w1) => let '(err, w2) := conn_Ping c w1 in (err, on_pool (conn_Close c) w2)
  | ((_, Some err), w1) => (Some err, w1)
  end.

(* ---------------------------------------------------------------------- *)
(** ** Getting a connection *)

Context `{!PoolLaws B R}.

(** Between two attempts the call holds no connection, and what others do is part of
    the next command. *)
Definition waits (s s' : conn * (B * R)) : Prop :=
  s'.1 = s.1 ∧ borrowed s'.2.1 = borrowed s.2.1 ∧ rview s'.2.2 = rview s.2.2.

Context `{!BackoffLaws waits (λ _, None)}.

(** What a call that returned [c] and [err] did to the pool and the server. *)
Definition got (w : B * R) (c : conn) (err : option gerror) (w' : B * R) : Prop :=
  rview w'.2 = rview w.2 ∧
  match err with
  | None => (∃ n, c = Valid n) ∧ borrowed w'.1 = S (borrowed w.1)
  | Some _ => c = ErrorConn ∧ borrowed w'.1 = borrowed w.1
  end.

Lemma GetContext_got w c err w' : GetContext w = ((c, err), w') → got w c err w'.
Proof. intros E. split; [by rewrite <-(Get_view w), E|by apply Get_conn]. Qed.

Lemma reconnect_got w o c w' : reconnect (ErrorConn, w) = (o, (c, w')) →
  match o with
  | Done => got w c None w'
  | Failed e => got w c (Some e) w'
  | Permanent err => got w c err w'
  end.
Proof.
  unfold reconnect. replace (on_pool (conn_Close ErrorConn) w) with w
    by (destruct w; unfold on_pool; cbn; by rewrite Close_error).
  destruct (GetContext w) as [[c' err] w1] eqn:G. apply GetContext_got in G.
  case_decide; [|destruct err]; by intros [= <- <- <-].
Qed.

(** Nothing is held and nothing is changed. *)
Definition idle (w : B * R) (s : conn * (B * R)) : Prop :=
  s.1 = ErrorConn ∧ borrowed s.2.1 = borrowed w.1 ∧ rview s.2.2 = rview w.2.

Lemma got_idle w c e w' : got w c (Some e) w' → idle w (c, w').
Proof. intros (V & -> & Bw). by split_and!. Qed.

Lemma got_after w s c err w' : idle w s → got s.2 c err w' → got w c err w'.
Proof.
  intros (_ & Bs & Vs) (V & G). split; [congruence|]. destruct err; destruct G as [Gc Gb]; (split; [done|congruence]).
Qed.

Lemma reconnected w s err t : idle w s → retried waits (λ _, None) reconnect s err t → got w t.1 err t.2.
Proof.
  intros I Rt. destruct (retried_attempts _ _ _ _ _ _ Rt) as (s1 & A & L).
  assert (I1 : idle w s1).
  { revert I. eapply (attempts_invariant _ (idle w)); [|exact A].
    intros [c0 w0] e [c1 w1] [c2 w2] I0 E (Wc & Wb & Wv). cbn in Wc, Wb, Wv. pose proof I0 as (Ic & _). cbn in Ic. subst c0.
    apply (reconnect_got w0 (Failed e)) in E. apply (got_after w (ErrorConn, w0)), got_idle in E; [|done].
    destruct E as (Ec & Eb & Ev). split_and!; cbn in *; congruence. }
  destruct s1 as [c1 w1]. pose proof I1 as (Ic & _). cbn in Ic. subst c1. eapply got_after; [exact I1|]. cbn.
  inversion L as [? [] E|? [] e E|? [] e E|]; subst; try done; by apply reconnect_got in E.
Qed.

(** A connection is returned exactly without an error; the keys are as they were. *)
Lemma getValidConnection_got limit w c err w' : getValidConnection limit w = ((c, err), w') → got w c err w'.
Proof.
  unfold getValidConnection. destruct (GetContext w) as [[c0 err0] w0] eqn:G. apply GetContext_got in G.
  case_decide as D; [|destruct err0 as [e|]].
  - intros [= <- <- <-]. subst err0. destruct G as (V & -> & Bw). by split_and!.
  - pose proof (Retry_retries _ _ (MaxElapsedTime limit) reconnect (c0, w0)) as Rt.
    destruct (Retry _ _ _) as [err' [c' w1]]. intros [= <- <- <-].
    exact (reconnected w (c0, w0) _ _ (got_idle _ _ _ _ G) Rt).
  - by intros [= <- <- <-].
Qed.

(* ---------------------------------------------------------------------- *)
(** ** The pool and the server are a Redis *)

(** A command on the server, whatever the pool. *)
Definition at_server (run : R → reply * R) : B * R → reply * (B * R) := λ '(b, r),
  let '(rep, r') := run r in (rep, (b, r')).

Definition Pooled (limit : Z) : Redis (B * R) := {|
  rconn := λ w, match getValidConnection limit w with
                | ((c, None), w1) => (None, on_pool (conn_Close c) w1)
                | ((_, Some err), w1) => (Some err, w1)
                end;
  rexec := λ c, at_server (rexec c);
  rview := λ w, rview w.2;
  rglob := rglob;
|}.

Lemma rconn_got limit w : rview (@rconn _ (Pooled limit) w).2.2 = rview w.2 ∧
  borrowed (@rconn _ (Pooled limit) w).2.1 = borrowed w.1.
Proof.
  cbn. destruct (getValidConnection limit w) as [[c err] w1] eqn:G. apply getValidConnection_got in G as [V G].
  destruct err; [by destruct G|]. destruct G as [[n ->] Bw]. cbn. by rewrite Close_valid, Bw.
Qed.

Lemma Pooled_laws limit `{!RedisLaws R} : @RedisLaws _ (Pooled limit).
Proof.
  split.
  - intros w. apply rconn_got.
  - intros c [b r] rep v E. cbn in *. destruct (rexec_doc c r rep v E) as [E1 E2].
    destruct (rexec c r) as [x r']. by split.
  - intros k [b r] h E. cbn in *. destruct (rexec_hgetall k r h E) as [E1 E2].
    destruct (rexec (HGETALL k) r) as [x r']. by split.
  - intros pat [b r]. cbn in *. destruct (rexec_keys pat r) as [E1 E2].
    destruct (rexec (KEYS pat) r) as [x r']. by split.
Qed.

(** A call that borrows a connection, and gives it back at the end, is one that gets
    it and gives it back at once. *)
Lemma doRaw_pooled limit run w : doRaw limit run w = @doEval _ (Pooled limit) (at_server run) w.
Proof.
  unfold doRaw, doEval, Store.getValidConnection, bind. cbn.
  destruct (getValidConnection limit w) as [[c [err|]] [b r]]; [done|]. unfold finally, on_pool, modify. cbn.
  destruct (run r) as [[] r']; done.
Qed.

Lemma doRaw_borrowed limit run w : borrowed (doRaw limit run w).2.1 = borrowed w.1.
Proof.
  rewrite doRaw_pooled. unfold doEval, Store.getValidConnection, bind. cbn.
  pose proof (proj2 (rconn_got limit w)) as Bw. cbn in Bw.
  destruct (getValidConnection limit w) as [[c [err|]] [b r]]; [done|]. cbn in *.
  destruct (run r) as [[] r']; done.
Qed.

(** The scripts run at the server as a whole. *)
Ltac run_script :=
  intros [b r]; cbn;
  match goal with |- context [rexec (GET ?k) r] => destruct (rexec (GET k) r) as [[] ?] end;
  cbn; try done; case_match; cbn; try done;
  match goal with |- context [rexec ?c ?r] => by destruct (rexec c r) end.

Lemma scripts_pooled limit key expected value w :
  @script_cas _ (Pooled limit) key expected value w = at_server (script_cas key expected value) w ∧
  @script_compare_set _ (Pooled limit) key expected value w = at_server (script_compare_set key expected value) w ∧
  @script_compare_del _ (Pooled limit) key expected w = at_server (script_compare_del key expected) w.
Proof.
  split_and!; revert w; unfold script_cas, script_compare_set, script_compare_del; run_script.
Qed.

Lemma doEval_ext limit (f g : B * R → reply * (B * R)) w : (∀ w, f w = g w) →
  @doEval _ (Pooled limit) f w = @doEval _ (Pooled limit) g w.
Proof. intros E. unfold doEval, bind. destruct (Store.getValidConnection w) as [[]]; try done. by rewrite E. Qed.

(** C15: The pool with its retries, and the server behind it, implement the interface
    that the operations on keys are proved against: a command run on a borrowed
    connection is the command of the interface, with the laws of the server, and
    whether it ends with a reply, an error or a panic, every connection that was
    borrowed for it is given back, once. *)
Theorem pool_refines_store limit `{!RedisLaws R} :
  @RedisLaws _ (Pooled limit) ∧
  (∀ c w, doRaw limit (rexec c) w = @Store.doRaw _ (Pooled limit) c w) ∧
  (∀ key expected value w,
     doRaw limit (script_cas key expected value) w =
       @doEval _ (Pooled limit) (@script_cas _ (Pooled limit) key expected value) w ∧
     doRaw limit (script_compare_set key expected value) w =
       @doEval _ (Pooled limit) (@script_compare_set _ (Pooled limit) key expected value) w ∧
     doRaw limit (script_compare_del key expected) w =
       @doEval _ (Pooled limit) (@script_compare_del _ (Pooled limit) key expected) w) ∧
  ∀ run w, borrowed (doRaw limit run w).2.1 = borrowed w.1.
Proof.
  split_and!; [by apply Pooled_laws| | |by intros; apply doRaw_borrowed].
  - intros c w. by rewrite doRaw_pooled.
  - intros key expected value w. split_and!; rewrite doRaw_pooled; apply doEval_ext; intros w'; symmetry; apply (scripts_pooled limit key expected value).
Qed.

(** Connecting succeeds when the server answers on a connection, and leaves no
    connection borrowed. *)
Lemma Dial_returns sc w err w' : (∀ b, borrowed (new_pool (pool_of sc) b) = borrowed b) →
  Dial sc w = (err, w') → borrowed w'.1 = borrowed w.1 ∧ rview w'.2 = rview w.2 ∧
  (err = None → ∃ n w1 w2, conn_Ping (Valid n) w1 = (None, w2)).
Proof.
  intros N. unfold Dial. destruct (getValidConnection _ _) as [[c [e|]] w1] eqn:G;
    apply getValidConnection_got in G as [V G]; cbn in V, G; rewrite N in G.
  - intros [= <- <-]. destruct G as [_ Bw]. by split_and!.
  - destruct G as [[n ->] Bw]. pose proof (Ping_frame (Valid n) w1) as [Pb Pv].
    destruct (conn_Ping (Valid n) w1) as [err2 w2] eqn:P. intros [= <- <-]. cbn in *.
    rewrite Close_valid, Pb, Bw. split_and!; [done|congruence|]. intros ->. by exists n, w1, w2.
Qed.
End pool.

(* ---------------------------------------------------------------------- *)
(** ** A pool at work *)

Module Witness.

(** A pool whose first connections fail: the number of failures to come, the number of
    connections so far, and those that are borrowed. *)
Definition flaky : Type := nat * nat * nat.

#[local] Existing Instance MiniRedis.
#[local] Existing Instance MiniRedis_laws.

#[local] Instance FlakyPool : PoolOps flaky (gmap string rvalue) := {|
  new_pool := λ _ b, b;
  GetContext := λ '((fails, made, out), r),
    match fails with
    | S fails' => ((ErrorConn, Some (EMsg "connection refused")), ((fails', made, out), r))
    | O => ((Valid made, None), ((0, S made, S out), r))
    end%nat;
  conn_Close := λ c '(fails, made, out),
    match c with Valid _ => (fails, made, pred out) | ErrorConn => (fails, made, out) end;
  conn_Ping := λ _ w, (None, w);
  ctx_Err := λ _, None;
  borrowed := λ '(_, _, out), out;
|}.

#[local] Instance FlakyPool_laws : PoolLaws flaky (gmap string rvalue).
Proof.
  split.
  - intros [[[fails made] out] r] c err w'. cbn. destruct fails; intros [= <- <- <-]; cbn; [|done].
    by split; [eexists|].
  - intros [[[fails made] out] r]. cbn. by destruct fails.
  - by intros n [[fails made] out].
  - by intros [[fails made] out].
  - done.
Qed.

(** At most four attempts. *)
Fixpoint attempt_n {S} (n : nat) (op : S → outcome * S) (s : S) : option gerror * S :=
  match op s with
  | (Done, s') => (None, s')
  | (Permanent e, s') => (e, s')
  | (Failed e, s') => match n with O => (Some e, s') | Datatypes.S n' => attempt_n n' op s' end
  end.

#[local] Instance Four : BackoffOps (conn * (flaky * gmap string rvalue)) := {| Retry := λ _, attempt_n 3 |}.

#[local] Instance Four_laws : BackoffLaws waits (λ _ : conn * (flaky * gmap string rvalue), None).
Proof.
  constructor. intros limit op s. cbn [Retry Four]. generalize 3%nat. intros n. revert s.
  induction n as [|n IH]; intros s; cbn [attempt_n]; destruct (op s) as [[|e|e] s'] eqn:E;
    try (by constructor); try (by eapply retried_permanent); try (by eapply retried_up).
  eapply retried_again; [done|by split|]. apply IH.
Qed.

(** A placement over a pool that fails twice. *)
Lemma pool_refines_store_witness :
  let w : flaky * gmap string rvalue := ((2, 0, 0)%nat, ∅) in
  (@CAS _ (Pooled (-1)) id "rpc_A_1" "" "node-1" w).1 = Ok "node-1" ∧
  (@RedisLaws _ (Pooled (-1)) ∧
   (∀ c w, doRaw (-1) (rexec c) w = @Store.doRaw _ (Pooled (-1)) c w) ∧
   (∀ key expected value w,
     doRaw (-1) (script_cas key expected value) w =
       @doEval _ (Pooled (-1)) (@script_cas _ (Pooled (-1)) key expected value) w ∧
     doRaw (-1) (script_compare_set key expected value) w =
       @doEval _ (Pooled (-1)) (@script_compare_set _ (Pooled (-1)) key expected value) w ∧
     doRaw (-1) (script_compare_del key expected) w =
       @doEval _ (Pooled (-1)) (@script_compare_del _ (Pooled (-1)) key expected) w) ∧
   ∀ run w, borrowed (doRaw (-1) run w).2.1 = borrowed w.1).
Proof. split; [vm_compute; reflexivity|]. exact (pool_refines_store (-1)). Defined.

(** The options of a connection with a certificate and a password. *)
Example dial_options :
  pool_of (mkStoreConfig id (λ s, Ok s) (-1) 0 "redis" 6379 true false "secret" "" (Some "cert")) =
  mkPoolConfig 3 16 240000000000 true "redis:6379"
    [DialUseTLS true; DialTLSConfig ["cert"]; DialPassword "secret"].
Proof. reflexivity. Qed.

Example connects : (Dial (mkStoreConfig id (λ s, Ok s) 0 0 "::1" 6379 false false "" "" None)
  ((3, 0, 0)%nat, ∅)).1 = None ∧ JoinHostPort "::1" "6379" = "[::1]:6379".
Proof. split; [vm_compute; reflexivity|reflexivity]. Qed.
End Witness.
End Pool.
