(* ===== verification/Kafka.v ===== *)
(** * Kafka: the message broker, as the rpc package uses it

    The broker and the sarama client are not part of the repository.  They are
    a type [K] with the operations src/core/pkg/rpc calls ([Kafka]) and their
    documented effect on the partitions of the application topic
    ([KafkaLaws]).  [MiniKafka] is one broker that satisfies the laws. *)

From S2P Require Import Prelude GoLib Messages.
Import Rpc.
Open Scope string_scope.
Open Scope Z_scope.
Open Scope list_scope.

Module Broker.

(** - [k_send]: [producer.SendMessage];
    - [k_refresh]: [producerClient.RefreshMetadata];
    - [k_delete]: [admin.DeleteRecords] up to the newest offset of the given
      partitions (the sources ignore its error);
    - [k_log]: the records retained in a partition, oldest first. *)
Class Kafka (K : Type) : Type := {
  k_send : ProducerMessage → K → option gerror * K;
  k_refresh : K → option gerror * K;
  k_delete : list Z → K → K;
  k_log : K → Z → list ProducerMessage;
}.

Class KafkaLaws (K : Type) `{Kafka K} : Prop := {
  (** an acknowledged record is appended to its partition and to no other *)
  k_send_ok : ∀ pm k k',
    k_send pm k = (None, k') →
    ∀ q, k_log k' q = if decide (q = pm_Partition pm) then k_log k q ++ [pm] else k_log k q;
  (** a send that reports an error may or may not have appended the record *)
  k_send_err : ∀ pm k e k',
    k_send pm k = (Some e, k') →
    ∀ q, k_log k' q = k_log k q ∨ (q = pm_Partition pm ∧ k_log k' q = k_log k q ++ [pm]);
  k_refresh_log : ∀ k q, k_log (k_refresh k).2 q = k_log k q;
  (** deletion empties a partition or, when it fails, leaves it *)
  k_delete_other : ∀ ps k q, q ∉ ps → k_log (k_delete ps k) q = k_log k q;
  k_delete_listed : ∀ ps k q,
    q ∈ ps → k_log (k_delete ps k) q = [] ∨ k_log (k_delete ps k) q = k_log k q;
}.

(** A broker that never fails. *)
Definition mini_log (k : gmap Z (list ProducerMessage)) (q : Z) : list ProducerMessage :=
  default [] (k !! q).

Definition MiniKafka : Kafka (gmap Z (list ProducerMessage)) :=
  {| k_send := λ pm k, (None, <[pm_Partition pm := mini_log k (pm_Partition pm) ++ [pm]]> k);
     k_refresh := λ k, (None, k);
     k_delete := λ ps k, foldr delete k ps;
     k_log := mini_log |}.

Lemma mini_log_delete ps (k : gmap Z (list ProducerMessage)) q :
  mini_log (foldr delete k ps) q = if decide (q ∈ ps) then [] else mini_log k q.
Proof.
  induction ps as [|p ps IH]; [done|]. unfold mini_log in *. cbn [foldr].
  rewrite lookup_delete. destruct (decide (p = q)) as [->|Hp].
  - by rewrite decide_True by set_solver.
  - rewrite IH. destruct (decide (q ∈ ps)), (decide (q ∈ p :: ps)); set_solver.
Qed.

Lemma MiniKafka_laws : @KafkaLaws _ MiniKafka.
Proof.
  split; simpl.
  - intros pm k k' [= <-] q. unfold mini_log at 1. rewrite lookup_insert.
    case_decide as E; case_decide; subst; done.
  - done.
  - done.
  - intros ps k q Hq. rewrite mini_log_delete. by rewrite decide_False.
  - intros ps k q Hq. rewrite mini_log_delete. rewrite decide_True by done. by left.
Qed.
End Broker.
