(* ===== verification/Routing.v ===== *)
(** * Routing: where a message is sent

    Models src/core/pkg/rpc/send.go, src/core/pkg/rpc/query.go and the routing
    tables of src/core/pkg/rpc/dial.go.  A sidecar's state is its tables, its
    view of Redis and of the Kafka broker.  The context, the random choices
    and what other sidecars do to Redis between two commands of this one are
    inputs recorded in the world, so the theorems hold for all of them. *)

From S2P Require Import Prelude GoLib Messages Store Kafka.
From stdpp Require Import sorting.
Import Rpc Store Broker.
Open Scope string_scope.
Open Scope Z_scope.
Open Scope list_scope.
Open Scope go_scope.

Module Routing.

(* ---------------------------------------------------------------------- *)
(** ** Routing tables (dial.go) *)

Record info : Type := mkInfo {
  i_Node : string;
  i_Port : Z;
  i_Services : list string;
  i_Partition : Z;
}.

Record placementCacheEntry : Type := mkEntry {
  pc_node : string;
  pc_used : bool;
}.

Record Tables : Type := mkTables {
  self : info;
  appTopic : string;
  service2nodes : gmap string (list string);
  node2partition : gmap string Z;
  node2port : gmap string Z;
  session2NodeCache : gmap string placementCacheEntry;
  PlacementCache : bool;
}.

(** [node2partition[node]]: 0 when the node is unknown. *)
Definition partition_of (t : Tables) (node : string) : Z := default 0 (node2partition t !! node).

(** [service2nodes[service]]. *)
Definition nodes_of (t : Tables) (service : string) : list string :=
  default [] (service2nodes t !! service).

Definition set_cache (c : gmap string placementCacheEntry) (t : Tables) : Tables :=
  mkTables (self t) (appTopic t) (service2nodes t) (node2partition t) (node2port t) c
    (PlacementCache t).

(* ---------------------------------------------------------------------- *)
(** ** Keys (send.go) *)

Definition place (names : list string) : string :=
  foldl (λ key name, (key ++ "_" ++ name)%string) "rpc" names.

Definition alt (id : string) : string := ("alt_" ++ id)%string.

Definition instance (key : string) : res (string * string) :=
  match Split "_"%char key with
  | _ :: p1 :: p2 :: _ => Ok (p1, p2)
  | _ => Panic "index out of range"
  end.

(* ---------------------------------------------------------------------- *)
(** ** The world of one sidecar *)

Section world.
Context {R K : Type} `{Redis R} `{Kafka K} `{MapIter}.
Context (MangleKey : string → string) (UnmangleKey : string → res string).

(** - [w_polls]: the answers of the next polls of [ctx.Err() != nil];
    - [w_rand]: the next random numbers;
    - [w_env]: what the other sidecars do to Redis before the next commands. *)
Record world : Type := mkWorld {
  w_tab : Tables;
  w_redis : R;
  w_kafka : K;
  w_polls : list bool;
  w_rand : list Z;
  w_env : list (R → R);
}.

Definition with_tab (t : Tables) (w : world) : world :=
  mkWorld t (w_redis w) (w_kafka w) (w_polls w) (w_rand w) (w_env w).
Definition with_redis (r : R) (w : world) : world :=
  mkWorld (w_tab w) r (w_kafka w) (w_polls w) (w_rand w) (w_env w).
Definition with_kafka (k : K) (w : world) : world :=
  mkWorld (w_tab w) (w_redis w) k (w_polls w) (w_rand w) (w_env w).

Definition tables : M world Tables := λ w, (Ok (w_tab w), w).

(** [ctx.Err() != nil]. *)
Definition ctxErr : M world bool := λ w,
  match w_polls w with
  | [] => (Ok false, w)
  | b :: bs => (Ok b, mkWorld (w_tab w) (w_redis w) (w_kafka w) bs (w_rand w) (w_env w))
  end.

(** [rand.Int31n(n)]. *)
Definition Int31n (n : Z) : M world Z := λ w,
  match w_rand w with
  | [] => (Ok 0, w)
  | x :: xs => (Ok (x mod n), mkWorld (w_tab w) (w_redis w) (w_kafka w) (w_polls w) xs (w_env w))
  end.

(** One Redis command, after the interference that precedes it. *)
Definition store {A} (m : M R A) : M world A := λ w,
  let '(r, env) := match w_env w with [] => (w_redis w, []) | f :: fs => (f (w_redis w), fs) end in
  let '(x, r') := m r in
  (x, mkWorld (w_tab w) r' (w_kafka w) (w_polls w) (w_rand w) env).

(** [producer.SendMessage]. *)
Definition produce (pm : ProducerMessage) : M world (option gerror) := λ w,
  let '(e, k') := k_send pm (w_kafka w) in (Ok e, with_kafka k' w).

(* ---------------------------------------------------------------------- *)
(** ** Routes (send.go) *)

Definition choose (nodes : list string) : M world string :=
  let* i := Int31n (Z.of_nat (length nodes)) in
  ret (default "" (nodes !! Z.to_nat i)).

Definition routeToService (service : string) : M world (string * Z) :=
  let* t := tables in
  let nodes := nodes_of t service in
  if decide (nodes = []) then ret ("", 0)
  else
    let* node := choose nodes in
    ret (node, partition_of t node).

(** A turn of the placement loop: the node that was found, to go on with, or the
    result. *)
Definition place_turn (key node next : string) : M world (string + string * Z) :=
  let* node := store (CAS MangleKey key node next) in
  let* t := tables in
  let partition := partition_of t node in
  if partition =? 0 then ret (inl node)
  else
    (if PlacementCache t then
       modify (λ w, with_tab (set_cache (<[key := mkEntry node true]>
                        (session2NodeCache (w_tab w))) (w_tab w)) w)
     else ret tt) ;;*
    ret (inr (node, partition)).

(** The placement loop: [for ctx.Err() == nil { ... }]. *)
Fixpoint place_loop (fuel : nat) (key node next : string) : M world (string * Z) :=
  let* stop := ctxErr in
  if stop then throw ECtx
  else match fuel with
       | O => of_res OutOfFuel
       | S fuel' =>
           let* x := place_turn key node next in
           match x with inl node => place_loop fuel' key node next | inr found => ret found end
       end.

Definition routeToSession (fuel : nat) (service session : string) : M world (string * Z) :=
  let* t := tables in
  let nodes := nodes_of t service in
  if decide (nodes = []) then ret ("", 0)
  else
    let key := place [service; session] in
    match (if PlacementCache t then session2NodeCache t !! key else None) with
    | Some entry =>
        modify (λ w, with_tab (set_cache (<[key := mkEntry (pc_node entry) true]>
                         (session2NodeCache (w_tab w))) (w_tab w)) w) ;;*
        ret (pc_node entry, partition_of t (pc_node entry))
    | None =>
        let* next := choose nodes in
        place_loop fuel key "" next
    end.

Definition encode_here (t : Tables) (partition : Z) (msg : Message) : ProducerMessage :=
  encode (i_Node (self t)) (appTopic t) partition msg.

(** The partition a message goes to, and the redirection key used, if any. *)
Definition route (fuel : nat) (msg : Message) : M world (Z * string) :=
  let* t := tables in
  match msg with
  | MRequest q =>
      match q_target q with
      | Service name => let* x := routeToService name in ret (x.2, "")
      | SessionTarget s => let* x := routeToSession fuel (s_Name s) (s_ID s) in ret (x.2, "")
      | Node id =>
          if partition_of t id =? 0 then throw EUnavailable else ret (partition_of t id, "")
      end
  | MResponse v =>
      if partition_of t (r_Node v) =? 0 then
        let key := alt (requestID msg) in
        let* x := attempt (store (Get MangleKey key)) in
        let node := match x with inl node => node | inr _ => "" end in
        if String.eqb node "" then throw EUnavailable
        else ret (partition_of t node, key)
      else ret (partition_of t (r_Node v), "")
  | MDone _ => ret (0, "")
  end.

(** Send message (errors: cancelled, Redis, Kafka, ErrUnavailable). *)
Definition Send (fuel : nat) (msg : Message) : M world unit :=
  let* stop := ctxErr in
  if stop then throw ECtx
  else
    let* x := route fuel msg in
    let* t := tables in
    let* e := produce (encode_here t x.1 msg) in
    match e with
    | Some err => throw err
    | None =>
        if String.eqb x.2 "" then ret tt
        else attempt (store (Del MangleKey x.2)) ;;* ret tt
    end.

(** The end of [resend], once the node and its partition are known. *)
Definition resend_to (msg : Request) (drop : bool) (node : string) (partition : Z) : M world unit :=
  if (partition =? 0) && drop then ret tt
  else
    (if negb (String.eqb (q_childID msg) "") && negb (String.eqb node "")
     then attempt (store (Set_ MangleKey (alt (q_childID msg)) node)) ;;* ret tt
     else ret tt) ;;*
    let* t := tables in
    let* e := produce (encode_here t partition (MRequest msg)) in
    match e with Some err => throw err | None => ret tt end.

(** Resend request during recovery (errors: cancelled, Redis, Kafka). *)
Definition resend (fuel : nat) (msg : Request) (drop : bool) : M world unit :=
  match q_target msg with
  | Node id =>
      match msg with
      | Call v =>
          let* t := tables in
          let m := MResponse {| r_RequestID := c_RequestID v; r_Node := c_Caller v;
                                r_ErrMsg := "node died before processing call request";
                                r_Value := ""; r_Deadline := zeroTime |} in
          let* e := produce (encode_here t (partition_of t (c_Caller v)) m) in
          match e with Some err => throw err | None => ret tt end
      | Tell v => ret tt
      end
  | Service name => let* x := routeToService name in resend_to msg drop x.1 x.2
  | SessionTarget s => let* x := routeToSession fuel (s_Name s) (s_ID s) in resend_to msg drop x.1 x.2
  end.

(** Resend response during recovery (errors: cancelled, Redis, Kafka). *)
Definition respond (msg : Done) : M world unit :=
  let* t := tables in
  let* e := produce (encode_here t 0 (MDone msg)) in
  match e with Some err => throw err | None => ret tt end.

(* ---------------------------------------------------------------------- *)
(** ** Queries (query.go) *)

Definition getNodeID (t : Tables) : string := i_Node (self t).

Definition push (k v : string) (m : gmap string (list string)) : gmap string (list string) :=
  <[k := default [] (m !! k) ++ [v]]> m.

Definition getTopology (t : Tables) : gmap string (list string) :=
  foldl (λ acc sn, foldl (λ acc node, push node sn.1 acc) acc sn.2) ∅
    (map_iter 2 (service2nodes t)).

Definition getPorts (t : Tables) : gmap string Z := fill (map_iter 3 (node2port t)).

Definition sort_Strings (l : list string) : list string := merge_sort String.le l.

Definition getNodeIDs (t : Tables) : list string := sort_Strings (map_iter 4 (node2partition t)).*1.

Definition getServices (t : Tables) : list string := sort_Strings (map_iter 5 (service2nodes t)).*1.

Definition getServiceNodeIDs (t : Tables) (service : string) : list string :=
  sort_Strings (nodes_of t service).

Definition getPartition (t : Tables) : Z := i_Partition (self t).

Definition getPartitions : list Z := [0].

Definition getSessionNodeID (s : Session) : M world string :=
  let* x := attempt (store (Get MangleKey (place [s_Name s; s_ID s]))) in
  match x with
  | inl node => ret node
  | inr e => if decide (e = EErrNil) then ret "" else throw e
  end.

Definition delSession (s : Session) : M world unit :=
  store (Del MangleKey (place [s_Name s; s_ID s])) ;;* ret tt.

Definition add_session (acc : res (gmap string (list string))) (key : string)
    : res (gmap string (list string)) :=
  match acc, instance key with
  | Ok m, Ok (actorType, instanceID) => Ok (push actorType instanceID m)
  | Ok _, Panic s => Panic s
  | Ok _, Err e => Err e
  | Ok _, OutOfFuel => OutOfFuel
  | r, _ => r
  end.

Definition getAllSessions (sessionPrefixFilter : string) : M world (gmap string (list string)) :=
  let pattern := if String.eqb sessionPrefixFilter "" then place ["*"]
                 else place [sessionPrefixFilter; "*"] in
  let* reply := store (Keys MangleKey UnmangleKey pattern) in
  of_res (foldl add_session (Ok ∅) reply).

End world.

Arguments world : clear implicits.

(* ---------------------------------------------------------------------- *)
(** ** Frame conditions *)

Section frames.
Context {R K : Type} `{Redis R} `{Kafka K} `{MapIter}.
Context (mangle : string → string).

(** Routing changes neither the broker nor the tables, its cache apart. *)
Record routing_frame (w w' : world R K) : Prop := {
  rf_kafka : w_kafka w' = w_kafka w;
  rf_self : self (w_tab w') = self (w_tab w);
  rf_topic : appTopic (w_tab w') = appTopic (w_tab w);
  rf_nodes : service2nodes (w_tab w') = service2nodes (w_tab w);
  rf_parts : node2partition (w_tab w') = node2partition (w_tab w);
  rf_cached : PlacementCache (w_tab w') = PlacementCache (w_tab w);
  rf_ports : node2port (w_tab w') = node2port (w_tab w);
}.

#[export] Instance routing_frame_preorder : PreOrder routing_frame.
Proof.
  split; [by intros w|]. intros w1 w2 w3 [] []. split; by etrans.
Qed.

Lemma frame_ctxErr : preserves routing_frame ctxErr.
Proof. intros w. unfold ctxErr. by destruct (w_polls w). Qed.

Lemma frame_Int31n n : preserves routing_frame (Int31n n).
Proof. intros w. unfold Int31n. by destruct (w_rand w). Qed.

Lemma frame_tables : preserves routing_frame tables.
Proof. intros w. done. Qed.

Lemma frame_store {A} (m : M R A) : preserves routing_frame (store m).
Proof.
  intros w. unfold store. destruct (w_env w) as [|f fs].
  - by destruct (m (w_redis w)).
  - by destruct (m (f (w_redis w))).
Qed.

Lemma frame_cache c :
  preserves routing_frame (modify (λ w : world R K, with_tab (set_cache (c w) (w_tab w)) w)).
Proof. intros w. done. Qed.

#[local] Hint Resolve frame_ctxErr frame_Int31n frame_tables frame_store frame_cache : frame.
#[local] Hint Extern 1 (PreOrder _) => apply _ : frame.
#[local] Hint Extern 2 (preserves _ (match ?x with _ => _ end)) => destruct x : frame.

Lemma frame_choose nodes : preserves routing_frame (choose nodes).
Proof. unfold choose. auto with frame. Qed.
#[local] Hint Resolve frame_choose : frame.

Lemma frame_routeToService service : preserves routing_frame (routeToService service).
Proof. unfold routeToService. auto 10 with frame. Qed.

Lemma frame_place_turn key node next : preserves routing_frame (place_turn mangle key node next).
Proof. unfold place_turn. auto 15 with frame. Qed.
#[local] Hint Resolve frame_place_turn : frame.

Lemma frame_place_loop fuel key node next :
  preserves routing_frame (place_loop mangle fuel key node next).
Proof.
  revert node. induction fuel as [|fuel IH]; intros node; simpl; auto 15 with frame.
Qed.
#[local] Hint Resolve frame_routeToService frame_place_loop : frame.

Lemma frame_routeToSession fuel service session :
  preserves routing_frame (routeToSession mangle fuel service session).
Proof. unfold routeToSession. auto 15 with frame. Qed.
#[local] Hint Resolve frame_routeToSession : frame.

Lemma frame_route fuel msg : preserves routing_frame (route mangle fuel msg).
Proof. unfold route. auto 15 with frame. Qed.

End frames.

(* ---------------------------------------------------------------------- *)
(** ** Placement *)

Section placement.
Context {R K : Type} `{RedisLaws R}.
Context (mangle : string → string).

Implicit Types w : world R K.

(** The interference keeps a string (or nothing) under the placement key. *)
Definition keeps_string (key : string) (fs : list (R → R)) : Prop :=
  ∀ f r, f ∈ fs → is_Some (str_at mangle r key) → is_Some (str_at mangle (f r) key).

(** What the tables must say for a placement to succeed: the service has nodes,
    all of them alive, and the empty string is no node. *)
Definition placeable (t : Tables) (service : string) : Prop :=
  nodes_of t service ≠ [] ∧
  (∀ node, node ∈ nodes_of t service → partition_of t node ≠ 0) ∧
  partition_of t "" = 0.

(** A session is placed on a live node and Redis records it. *)
Definition placed (key : string) (w : world R K) (x : string * Z) : Prop :=
  str_at mangle (w_redis w) key = Some (Some x.1) ∧
  x.2 = partition_of (w_tab w) x.1 ∧ x.2 ≠ 0.

(** Redis as the next command finds it. *)
Definition seen (w : world R K) : R :=
  match w_env w with [] => w_redis w | f :: _ => f (w_redis w) end.

Lemma seen_string key w :
  keeps_string key (w_env w) → is_Some (str_at mangle (w_redis w) key) →
  is_Some (str_at mangle (seen w) key).
Proof.
  unfold keeps_string, seen. destruct (w_env w); [done|]. intros Hk Hs. apply Hk; set_solver.
Qed.

Lemma store_CAS key cur expected desired w :
  connected → str_at mangle (seen w) key = Some cur →
  ∃ r', store (CAS mangle key expected desired) w =
          (Ok (if cas_matches cur expected then desired else default "" cur),
           mkWorld (w_tab w) r' (w_kafka w) (w_polls w) (w_rand w) (tail (w_env w))) ∧
        str_at mangle r' key = Some (if cas_matches cur expected then Some desired else cur).
Proof.
  intros Hc E. destruct (CAS_spec mangle key cur expected desired (seen w) Hc E) as (r' & Er & V).
  exists r'. split.
  - unfold store, seen in *. destruct (w_env w); rewrite Er; done.
  - destruct (cas_matches cur expected); [by eapply str_at_put_eq|].
    unfold str_at in *. by rewrite V.
Qed.

Lemma ctxErr_cases w :
  (∃ bs, ctxErr w = (Ok true, mkWorld (w_tab w) (w_redis w) (w_kafka w) bs (w_rand w) (w_env w)) ∧
         true ∈ w_polls w) ∨
  (∃ bs, ctxErr w = (Ok false, mkWorld (w_tab w) (w_redis w) (w_kafka w) bs (w_rand w) (w_env w)) ∧
         bs ⊆ w_polls w).
Proof.
  unfold ctxErr. destruct w as [t r k polls rnd env]; simpl. destruct polls as [|[] bs].
  - right. exists []. split; [done|]. set_solver.
  - left. exists bs. split; [done|]. set_solver.
  - right. exists bs. split; [done|]. set_solver.
Qed.

(** The number of compare-and-sets the loop still needs: the interference, one
    round to learn the current value and one to replace it. *)
Definition rounds (key node : string) (w : world R K) : nat :=
  length (w_env w) +
  match w_env w, str_at mangle (w_redis w) key with
  | [], Some cur => if cas_matches cur node then 1 else 2
  | _, _ => 2
  end.

(** One turn of the loop: the compare-and-set finds a node, which is the answer if
    it is alive. *)
Lemma place_turn_run key node next cur w :
  connected → str_at mangle (seen w) key = Some cur →
  let node' := if cas_matches cur node then next else default "" cur in
  ∃ r' c, let w' := mkWorld (w_tab w) r' (w_kafka w) (w_polls w) (w_rand w) (tail (w_env w)) in
    str_at mangle r' key = Some (if cas_matches cur node then Some next else cur) ∧
    place_turn mangle key node next w =
      if partition_of (w_tab w) node' =? 0 then (Ok (inl node'), w')
      else (Ok (inr (node', partition_of (w_tab w) node')), with_tab (set_cache c (w_tab w)) w').
Proof.
  intros Hc Hcur node'. destruct (store_CAS key cur node next w Hc Hcur) as (r' & Er & Hr').
  exists r'. unfold place_turn. unfold bind at 1. rewrite Er. unfold bind at 1. cbn [tables w_tab]. fold node'.
  destruct (partition_of (w_tab w) node' =? 0); [by exists ∅|].
  destruct (PlacementCache (w_tab w)); [by eexists|]. exists (session2NodeCache (w_tab w)). split; [done|].
  by destruct w as [[] ? ? ? ? ?].
Qed.

(** One round of the loop, when the context is not cancelled. *)
Lemma place_loop_round fuel key node next cur w bs :
  connected → str_at mangle (seen w) key = Some cur →
  ctxErr w = (Ok false, mkWorld (w_tab w) (w_redis w) (w_kafka w) bs (w_rand w) (w_env w)) →
  let node' := if cas_matches cur node then next else default "" cur in
  ∃ r', let w' := mkWorld (w_tab w) r' (w_kafka w) bs (w_rand w) (tail (w_env w)) in
    str_at mangle r' key = Some (if cas_matches cur node then Some next else cur) ∧
    if partition_of (w_tab w) node' =? 0
    then place_loop mangle (S fuel) key node next w = place_loop mangle fuel key node' next w'
    else ∃ c, place_loop mangle (S fuel) key node next w =
              (Ok (node', partition_of (w_tab w) node'), with_tab (set_cache c (w_tab w)) w').
Proof.
  intros Hc Hcur Hctx node'.
  set (w1 := mkWorld (w_tab w) (w_redis w) (w_kafka w) bs (w_rand w) (w_env w)) in *.
  destruct (place_turn_run key node next cur w1 Hc Hcur) as (r' & c & Hr' & Er). fold node' in Er. cbn [w_tab w1] in Er.
  exists r'. split; [done|]. destruct (partition_of (w_tab w) node' =? 0); [|exists c];
    cbn [place_loop]; unfold bind at 1; rewrite Hctx; unfold bind at 1; by rewrite Er.
Qed.

Lemma place_loop_spec fuel key node next w :
  connected → keeps_string key (w_env w) → is_Some (str_at mangle (w_redis w) key) →
  partition_of (w_tab w) "" = 0 → partition_of (w_tab w) next ≠ 0 →
  (rounds key node w ≤ fuel)%nat →
  (∃ w', place_loop mangle fuel key node next w = (Err ECtx, w') ∧ true ∈ w_polls w) ∨
  (∃ x w', place_loop mangle fuel key node next w = (Ok x, w') ∧ placed key w' x).
Proof.
  intros Hc. revert node w. induction fuel as [|fuel IH]; intros node w Hk Hs He Hn Hf.
  { exfalso. unfold rounds in Hf. repeat case_match; lia. }
  destruct (ctxErr_cases w) as [(bs & Ec & ?)|(bs & Ec & Hbs)].
  { left. eexists. cbn [place_loop]. unfold bind at 1. rewrite Ec. done. }
  destruct (seen_string key w Hk Hs) as [cur Hcur].
  destruct (place_loop_round fuel key node next cur w bs Hc Hcur Ec) as (r' & Hr' & E).
  destruct (Z.eqb_spec (partition_of (w_tab w) (if cas_matches cur node then next else default "" cur)) 0)
    as [E0|E0].
  - (* the node found is dead: go round again *)
    rewrite E. destruct (cas_matches cur node) eqn:Hm; [done|].
    set (w' := mkWorld _ _ _ _ _ _). destruct (IH (default "" cur) w') as [(? & ? & ?)|?];
      simpl; try done; [..|left; set_solver|by right].
    + intros f r Hin. apply Hk. destruct (w_env w); set_solver.
    + revert Hf Hcur. unfold rounds, seen. simpl. rewrite Hr'.
      assert (cas_matches cur (default "" cur) = true) as -> by
        (destruct cur; simpl; [apply String.eqb_refl|done]).
      destruct (w_env w) as [|f fs]; simpl.
      * intros Hf Hcur. rewrite Hcur, Hm in Hf. lia.
      * intros Hf _. destruct fs; simpl in *; lia.
  - right. destruct E as [c E]. rewrite E. do 2 eexists. split; [reflexivity|].
    split_and!; [|done|done]. simpl. rewrite Hr'.
    destruct (cas_matches cur node); [done|]. by destruct cur.
Qed.

Lemma choose_spec nodes w :
  nodes ≠ [] → ∃ node w', choose nodes w = (Ok node, w') ∧ node ∈ nodes ∧
    w_tab w' = w_tab w ∧ w_redis w' = w_redis w ∧ w_polls w' = w_polls w ∧ w_env w' = w_env w ∧
    w_kafka w' = w_kafka w.
Proof.
  intros Hne. assert (0 < Z.of_nat (length nodes)) by (destruct nodes; simpl; [done|lia]).
  unfold choose, bind, Int31n.
  assert (∀ x, default "" (nodes !! Z.to_nat (x mod Z.of_nat (length nodes))) ∈ nodes) as Hin.
  { intros x. destruct (lookup_lt_is_Some_2 nodes (Z.to_nat (x mod Z.of_nat (length nodes))))
      as [y Hy]; [pose proof (Z.mod_pos_bound x (Z.of_nat (length nodes))); lia|].
    rewrite Hy. simpl. by eapply list_elem_of_lookup_2. }
  destruct (w_rand w) as [|x xs].
  - exists (default "" (nodes !! 0%nat)), w. split; [done|]. split; [|done].
    specialize (Hin 0). by rewrite Z.mod_0_l in Hin by lia.
  - eexists _, _. split; [reflexivity|]. by split.
Qed.

(** The cache does not answer for the session. *)
Definition cache_miss (t : Tables) (service session : string) : Prop :=
  PlacementCache t = true → session2NodeCache t !! place [service; session] = None.

(** On a cache miss the session is placed, with a random node as candidate. *)
Lemma routeToSession_miss fuel service session w :
  nodes_of (w_tab w) service ≠ [] → cache_miss (w_tab w) service session →
  ∃ next w1, routeToSession mangle fuel service session w =
               place_loop mangle fuel (place [service; session]) "" next w1 ∧
    next ∈ nodes_of (w_tab w) service ∧ w_tab w1 = w_tab w ∧ w_redis w1 = w_redis w ∧
    w_polls w1 = w_polls w ∧ w_env w1 = w_env w.
Proof.
  intros Hne Hcache.
  destruct (choose_spec (nodes_of (w_tab w) service) w Hne)
    as (next & w1 & Ec & Hin & Ht & Hr & Hp & Hv & _).
  exists next, w1. split; [|done]. unfold routeToSession, bind at 1. cbn [tables].
  rewrite decide_False by done.
  replace (if PlacementCache (w_tab w) then _ else None) with (@None placementCacheEntry)
    by (destruct (PlacementCache (w_tab w)) eqn:E; [by rewrite Hcache|done]).
  unfold bind. by rewrite Ec.
Qed.

Lemma routeToSession_place fuel service session w :
  connected → placeable (w_tab w) service → cache_miss (w_tab w) service session →
  keeps_string (place [service; session]) (w_env w) →
  is_Some (str_at mangle (w_redis w) (place [service; session])) →
  (length (w_env w) + 2 ≤ fuel)%nat →
  (∃ w', routeToSession mangle fuel service session w = (Err ECtx, w') ∧ true ∈ w_polls w) ∨
  (∃ x w', routeToSession mangle fuel service session w = (Ok x, w') ∧
           placed (place [service; session]) w' x).
Proof.
  intros Hc (Hne & Hlive & He) Hcache Hk Hs Hf.
  destruct (routeToSession_miss fuel service session w Hne Hcache)
    as (next & w1 & -> & Hin & Ht & Hr & Hp & Hv).
  rewrite <-Hp. apply place_loop_spec; rewrite ?Ht, ?Hr, ?Hv; auto.
  unfold rounds. rewrite Hv. repeat case_match; lia.
Qed.

End placement.

(* ---------------------------------------------------------------------- *)
(** ** Sidecars that place a session concurrently *)

Section concurrent.
Context {R K : Type} `{RedisLaws R}.
Context (mangle : string → string).
(** The partitions of the generation, which all its sidecars have in their tables. *)
Context (part : string → Z).
Context (service session : string).

(** A sidecar in the placement loop, with the node it expects and its candidate, or
    after it, with the result. *)
Inductive placer : Type :=
| Turning (w : world R K) (node next : string)
| Placed (x : string * Z).

Record placing : Type := mkPlacing { shared : R; sidecars : gmap nat placer }.

#[local] Notation key := (place [service; session]).

(** A turn of the loop with its test of the context. *)
Definition loop_turn (node next : string) : M (world R K) (string + string * Z) :=
  let* stop := ctxErr in if stop then throw ECtx else place_turn mangle key node next.

Definition sharing (r : R) (w : world R K) : world R K :=
  mkWorld (w_tab w) r (w_kafka w) (w_polls w) (w_rand w) [].

(** A sidecar whose cache does not have the session starts the loop as
    [routeToSession] does; a turn of the loop works on the shared Redis, alone since its
    compare-and-set is one command; something else writes to Redis, but not the
    placement.  A loop whose context is cancelled takes no more turns. *)
Inductive placing_step : placing → placing → Prop :=
| placing_start i (w : world R K) next s :
    sidecars s !! i = None → (∀ n, partition_of (w_tab w) n = part n) →
    nodes_of (w_tab w) service ≠ [] → cache_miss (w_tab w) service session →
    next ∈ nodes_of (w_tab w) service → part next ≠ 0 →
    placing_step s (mkPlacing (shared s) (<[i := Turning w "" next]> (sidecars s)))
| placing_again i (w : world R K) node next node' w' s :
    sidecars s !! i = Some (Turning w node next) →
    loop_turn node next (sharing (shared s) w) = (Ok (inl node'), w') →
    placing_step s (mkPlacing (w_redis w') (<[i := Turning w' node' next]> (sidecars s)))
| placing_done i (w : world R K) node next x w' s :
    sidecars s !! i = Some (Turning w node next) →
    loop_turn node next (sharing (shared s) w) = (Ok (inr x), w') →
    placing_step s (mkPlacing (w_redis w') (<[i := Placed x]> (sidecars s)))
| placing_other r' s :
    str_at mangle r' key = str_at mangle (shared s) key →
    placing_step s (mkPlacing r' (sidecars s)).

(** Those that have placed the session got the recorded, live node; those that have not
    expect a node that is not alive, and would place it on a live one. *)
Record agreed (s : placing) : Prop := {
  ag_string : is_Some (str_at mangle (shared s) key);
  ag_placed : ∀ i x, sidecars s !! i = Some (Placed x) →
    str_at mangle (shared s) key = Some (Some x.1) ∧ x.2 = part x.1 ∧ x.2 ≠ 0;
  ag_turning : ∀ i (w : world R K) node next, sidecars s !! i = Some (Turning w node next) →
    (∀ n, partition_of (w_tab w) n = part n) ∧ part node = 0 ∧ part next ≠ 0;
}.

(** A compare-and-set that expects a node that is not alive leaves a live owner. *)
Lemma cas_keeps_live cur node : part "" = 0 → part node = 0 →
  (∃ n, cur = Some n ∧ part n ≠ 0) → cas_matches cur node = false.
Proof.
  intros _ Hn (n & -> & Hp). simpl. apply String.eqb_neq. by intros ->.
Qed.

(** A turn, as it acts on the shared Redis. *)
Lemma turn_run (w : world R K) r node next cur res w' :
  connected → str_at mangle r key = Some cur → (∀ n, partition_of (w_tab w) n = part n) →
  loop_turn node next (sharing r w) = (Ok res, w') →
  let node' := if cas_matches cur node then next else default "" cur in
  str_at mangle (w_redis w') key = Some (if cas_matches cur node then Some next else cur) ∧
  (∀ n, partition_of (w_tab w') n = part n) ∧ w_env w' = [] ∧
  ((res = inl node' ∧ part node' = 0) ∨ (res = inr (node', part node') ∧ part node' ≠ 0)).
Proof.
  intros Hc Hcur Ht E node'. unfold loop_turn in E. apply bind_Ok in E as (stop & w1 & Es & E).
  destruct (ctxErr_cases (sharing r w)) as [(bs & Ec & _)|(bs & Ec & _)]; rewrite Ec in Es; injection Es as <- <-; [done|].
  destruct (place_turn_run mangle key node next cur (mkWorld (w_tab w) r (w_kafka w) bs (w_rand w) []) Hc Hcur)
    as (r' & c & Hr' & Et). fold node' in Et. cbn [w_tab] in Et. rewrite Ht in Et. cbn [sharing w_tab w_redis w_kafka w_rand w_env] in E. rewrite Et in E.
  destruct (Z.eqb_spec (part node') 0) as [Hz|Hz]; injection E as <- <-; simpl; (do 3 (split; [done|])).
  - by left.
  - by right.
Qed.

Lemma turn_agreed s i (w : world R K) node next res w' st :
  connected → part "" = 0 → agreed s → sidecars s !! i = Some (Turning w node next) →
  loop_turn node next (sharing (shared s) w) = (Ok res, w') →
  st = match res with inl node' => Turning w' node' next | inr x => Placed x end →
  agreed (mkPlacing (w_redis w') (<[i := st]> (sidecars s))).
Proof.
  intros Hc He [[cur Hcur] Hpl Htu] Hi E ->. destruct (Htu _ _ _ _ Hi) as (Ht & Hn & Hx).
  destruct (turn_run w (shared s) node next cur res w' Hc Hcur Ht E) as (Hr & Ht' & _ & Hres).
  split; simpl.
  - rewrite Hr. by eexists.
  - intros j x [[<- Ex]|[Hj Ex]]%lookup_insert_Some.
    + destruct Hres as [[-> _]|[-> Hp]]; [done|]. injection Ex as <-. simpl. split_and!; [|done|done].
      rewrite Hr. destruct (cas_matches cur node); [done|]. destruct cur; [done|]. simpl in Hp. by rewrite He in Hp.
    + destruct (Hpl j x Ex) as (Rx & Px & Zx). split_and!; [|done|done]. rewrite Hr.
      rewrite (cas_keeps_live cur node) by (done || (exists x.1; split; congruence)). congruence.
  - intros j v node' next' [[<- Ex]|[Hj Ex]]%lookup_insert_Some; [|by eapply Htu].
    destruct Hres as [[-> Hp]|[-> _]]; [|done]. injection Ex as <- <- <-. by split_and!.
Qed.

Lemma step_agreed s s' : connected → part "" = 0 → agreed s → placing_step s s' → agreed s'.
Proof.
  intros Hc He Ag Hst. destruct Hst as [i w next s Hi Ht Hne Hm Hin Hp|i w node next node' w' s Hi E
                                       |i w node next x w' s Hi E|r' s Hk].
  - destruct Ag as [Hs Hpl Htu]. split; simpl; [done| |].
    + intros j x [[<- Ex]|[Hj Ex]]%lookup_insert_Some; [done|by apply (Hpl j)].
    + intros j v node' next' [[<- Ex]|[Hj Ex]]%lookup_insert_Some; [|by eapply Htu].
      injection Ex as <- <- <-. by split_and!.
  - by eapply turn_agreed.
  - by eapply turn_agreed.
  - destruct Ag as [Hs Hpl Htu]. split; simpl; [by rewrite Hk|by rewrite Hk|done].
Qed.

Lemma placing_reachable r0 s :
  connected → part "" = 0 → is_Some (str_at mangle r0 key) → rtc placing_step (mkPlacing r0 ∅) s → agreed s.
Proof.
  intros Hc He Hs. revert s. apply (rtc_ind_r agreed).
  - split; simpl; [done|by intros ??; rewrite lookup_empty|by intros ????; rewrite lookup_empty].
  - intros s1 s2 _ Hst Ag. by eapply step_agreed.
Qed.

(** The loop of the code is such turns. *)
Lemma place_loop_steps fuel i node next (w : world R K) x w' ss :
  w_env w = [] → ss !! i = Some (Turning w node next) →
  place_loop mangle fuel key node next w = (Ok x, w') →
  rtc placing_step (mkPlacing (w_redis w) ss) (mkPlacing (w_redis w') (<[i := Placed x]> ss)).
Proof.
  revert node w ss. induction fuel as [|fuel IH]; intros node w ss He Hi E; cbn [place_loop] in E;
    apply bind_Ok in E as (stop & w1 & Es & E); destruct stop; try discriminate E.
  apply bind_Ok in E as (res & w2 & Et & E).
  assert (sharing (w_redis w) w = w) as Hw by (unfold sharing; rewrite <-He; by destruct w).
  assert (loop_turn node next (sharing (w_redis w) w) = (Ok res, w2)) as El
    by (rewrite Hw; unfold loop_turn, bind at 1; by rewrite Es).
  destruct res as [node'|y].
  - eapply rtc_l; [by eapply placing_again|]. simpl. rewrite <-(insert_insert_eq ss i (Placed x) (Turning w2 node' next)).
    apply (IH node'); [|by rewrite lookup_insert_eq|done].
    unfold ctxErr in Es. assert (w_env w1 = []) as He1 by (destruct (w_polls w); by simplify_eq).
    assert (∀ A (m : M R A) (v : world R K), w_env v = [] → w_env (store m v).2 = []) as Hst
      by (intros A m v Hv; unfold store; rewrite Hv; by destruct (m (w_redis v))).
    unfold place_turn in Et. apply bind_Ok in Et as (n & w3 & E3 & Et).
    specialize (Hst _ (CAS mangle key node next) w1 He1). rewrite E3 in Hst. simpl in Hst.
    apply bind_Ok in Et as (t & w4 & [= <- <-] & Et). destruct (_ =? 0); [by injection Et as <- <-|].
    destruct (PlacementCache _); by inv_ok.
  - injection E as <- <-. apply rtc_once. by eapply placing_done.
Qed.

Lemma routeToSession_steps fuel i (w : world R K) x w' ss :
  (∀ n, partition_of (w_tab w) n = part n) → (∀ n, n ∈ nodes_of (w_tab w) service → part n ≠ 0) →
  nodes_of (w_tab w) service ≠ [] → cache_miss (w_tab w) service session → w_env w = [] → ss !! i = None →
  routeToSession mangle fuel service session w = (Ok x, w') →
  rtc placing_step (mkPlacing (w_redis w) ss) (mkPlacing (w_redis w') (<[i := Placed x]> ss)).
Proof.
  intros Ht Hlive Hne Hm He Hi E.
  destruct (routeToSession_miss mangle fuel service session w Hne Hm) as (next & w1 & E1 & Hin & T1 & R1 & _ & V1).
  rewrite E1 in E. rewrite <-R1. rewrite <-T1 in Ht, Hne, Hm, Hin.
  eapply rtc_l; [by apply (placing_start i w1 next); auto; apply Hlive; rewrite <-T1|]. simpl.
  rewrite <-(insert_insert_eq ss i (Placed x) (Turning w1 "" next)).
  eapply place_loop_steps; [by rewrite V1|by rewrite lookup_insert_eq|done].
Qed.
End concurrent.

(* ---------------------------------------------------------------------- *)
(** ** Sending *)

Section sending.
Context {R K : Type} `{RedisLaws R} `{KafkaLaws K} `{MapIter}.
Context (mangle : string → string).

Implicit Types w : world R K.

(** The partitions a message may be sent to, given the tables: the contract of
    [Send] without its mechanism. *)
Inductive may_target (t : Tables) : Message → Z → Prop :=
| to_service q name node :
    q_target q = Service name → node ∈ nodes_of t name →
    may_target t (MRequest q) (partition_of t node)
| to_session q s node :
    q_target q = SessionTarget s → nodes_of t (s_Name s) ≠ [] →
    may_target t (MRequest q) (partition_of t node)
| to_nobody q service :
    (q_target q = Service service ∨ ∃ s, q_target q = SessionTarget s ∧ s_Name s = service) →
    nodes_of t service = [] →
    may_target t (MRequest q) 0
| to_node q id :
    q_target q = Node id → partition_of t id ≠ 0 →
    may_target t (MRequest q) (partition_of t id)
| to_caller v :
    partition_of t (r_Node v) ≠ 0 → may_target t (MResponse v) (partition_of t (r_Node v))
| to_alternate v node :
    partition_of t (r_Node v) = 0 → node ≠ "" → may_target t (MResponse v) (partition_of t node)
| to_dead_letters v : may_target t (MDone v) 0.

Lemma place_turn_partition key node next w x w' :
  place_turn mangle key node next w = (Ok x, w') →
  match x with inl _ => True | inr found => found.2 = partition_of (w_tab w) found.1 end.
Proof.
  unfold place_turn. intros E. apply bind_Ok in E as (node' & w1 & ES & E).
  pose proof (frame_store (CAS mangle key node next) w) as F. rewrite ES in F. simpl in F.
  apply bind_Ok in E as (t & w2 & [= <- <-] & E).
  assert (partition_of (w_tab w1) node' = partition_of (w_tab w) node') as Hp
    by (unfold partition_of; by rewrite (rf_parts _ _ F)).
  rewrite Hp in E. destruct (_ =? 0); by inv_ok.
Qed.

Lemma place_loop_partition fuel key node next w x w' :
  place_loop mangle fuel key node next w = (Ok x, w') → x.2 = partition_of (w_tab w) x.1.
Proof.
  revert node w. induction fuel as [|fuel IH]; intros node w E; cbn [place_loop] in E;
    apply bind_Ok in E as (stop & w1 & Es & E);
    pose proof (frame_ctxErr w) as F; rewrite Es in F; destruct stop; try discriminate E.
  apply bind_Ok in E as (y & w2 & ET & E). pose proof (place_turn_partition _ _ _ _ _ _ ET) as P.
  pose proof (frame_place_turn mangle key node next w1) as F1. rewrite ET in F1. simpl in F, F1.
  assert (∀ v n, routing_frame w v → partition_of (w_tab v) n = partition_of (w_tab w) n) as Hp
    by (intros v n Fv; unfold partition_of; by rewrite (rf_parts _ _ Fv)).
  destruct y as [n|found].
  - rewrite (IH _ _ E). apply Hp. by etrans.
  - injection E as <- <-. rewrite P. by apply Hp.
Qed.

Lemma routeToSession_partition fuel service session w x w' :
  routeToSession mangle fuel service session w = (Ok x, w') →
  (nodes_of (w_tab w) service = [] ∧ x = ("", 0)) ∨
  (nodes_of (w_tab w) service ≠ [] ∧ x.2 = partition_of (w_tab w) x.1).
Proof.
  intros E. unfold routeToSession in E. apply bind_Ok in E as (t & w1 & [= <- <-] & E).
  case_decide as Hn; [inv_ok; by left|]. right. split; [done|].
  destruct (if PlacementCache _ then _ else _); inv_ok; [done|].
  rewrite (place_loop_partition _ _ _ _ _ _ _ E).
  rename select (choose _ _ = _) into EC. pose proof (frame_choose (nodes_of (w_tab w) service) w) as F.
  rewrite EC in F. simpl in F. unfold partition_of. by rewrite (rf_parts _ _ F).
Qed.

Lemma routeToService_partition service w x w' :
  routeToService service w = (Ok x, w') →
  (nodes_of (w_tab w) service = [] ∧ x = ("", 0)) ∨
  (x.1 ∈ nodes_of (w_tab w) service ∧ x.2 = partition_of (w_tab w) x.1).
Proof.
  intros E. unfold routeToService in E. apply bind_Ok in E as (t & w1 & [= <- <-] & E).
  case_decide as Hn; [inv_ok; by left|]. right. inv_ok.
  rename select (choose _ _ = _) into EC.
  destruct (choose_spec _ w Hn) as (node & w2 & EC' & Hin & _). rewrite EC in EC'. by simplify_eq.
Qed.

Lemma route_may_target fuel msg w x w' :
  route mangle fuel msg w = (Ok x, w') → may_target (w_tab w) msg x.1.
Proof.
  intros E. unfold route in E. apply bind_Ok in E as (t & w1 & [= <- <-] & E).
  destruct msg as [q|v|v].
  - destruct (q_target q) as [name|s|id] eqn:ET.
    + inv_ok. rename select (routeToService _ _ = _) into ER.
      apply routeToService_partition in ER as [[Hn ->]|[Hin Hp]]; simpl.
      * eapply to_nobody; eauto.
      * rewrite Hp. by eapply to_service.
    + inv_ok. rename select (routeToSession _ _ _ _ _ = _) into ER.
      apply routeToSession_partition in ER as [[Hn ->]|[Hne Hp]]; simpl in *.
      * eapply to_nobody; eauto.
      * rewrite Hp. by eapply to_session.
    + destruct (Z.eqb_spec (partition_of (w_tab w) id) 0); inv_ok. by eapply to_node.
  - destruct (Z.eqb_spec (partition_of (w_tab w) (r_Node v)) 0) as [E0|E0].
    + inv_ok. destruct (String.eqb_spec (match x0 with inl node => node | inr _ => "" end) "").
      * discriminate E.
      * inv_ok. by apply to_alternate.
    + inv_ok. by apply to_caller.
  - inv_ok. apply to_dead_letters.
Qed.

Lemma Send_appends_one fuel msg w w' :
  Send mangle fuel msg w = (Ok tt, w') →
  ∃ p, may_target (w_tab w) msg p ∧
       ∀ q, k_log (w_kafka w') q =
            if decide (q = p) then k_log (w_kafka w) q ++ [encode_here (w_tab w) p msg]
            else k_log (w_kafka w) q.
Proof.
  intros E. unfold Send in E. apply bind_Ok in E as (stop & w1 & Es & E).
  pose proof (frame_ctxErr w) as F. rewrite Es in F. destruct stop; [discriminate E|].
  apply bind_Ok in E as (x & w2 & Er & E).
  pose proof (frame_route mangle fuel msg w1) as F2. rewrite Er in F2. simpl in F, F2.
  apply bind_Ok in E as (t & w3 & [= <- <-] & E).
  assert (w_tab w1 = w_tab w) as Htab by
    (revert Es; unfold ctxErr; destruct (w_polls w); intros; by simplify_eq).
  assert (routing_frame w w2) as F3 by by etrans.
  assert (encode_here (w_tab w2) x.1 msg = encode_here (w_tab w) x.1 msg) as He.
  { unfold encode_here. by rewrite (rf_self _ _ F3), (rf_topic _ _ F3). }
  exists x.1. split; [rewrite <-Htab; by eapply route_may_target|].
  apply bind_Ok in E as (e & w3 & Ep & E). unfold produce in Ep.
  destruct (k_send _ (w_kafka w2)) as [e' k'] eqn:Ek. injection Ep as <- <-.
  destruct e'; [discriminate E|].
  assert (w_kafka w' = k') as ->.
  { destruct (String.eqb x.2 ""); inv_ok; [done|]. rename select (attempt _ _ = _) into EA.
    pose proof (preserves_attempt routing_frame (store (Del mangle x.2)) (frame_store _) (with_kafka k' w2)) as F4.
    rewrite EA in F4. simpl in F4. by rewrite (rf_kafka _ _ F4). }
  intros q. rewrite (k_send_ok _ _ _ Ek q), He, (rf_kafka _ _ F3). done.
Qed.

(** [Send] of a request to a session, once the route is known. *)
Lemma Send_session_ok fuel q s w w' :
  q_target q = SessionTarget s → Send mangle fuel (MRequest q) w = (Ok tt, w') →
  ∃ w1 x w2, ctxErr w = (Ok false, w1) ∧
    routeToSession mangle fuel (s_Name s) (s_ID s) w1 = (Ok x, w2) ∧
    w_redis w' = w_redis w2 ∧ w_tab w' = w_tab w2 ∧
    ∀ p, k_log (w_kafka w') p =
         if decide (p = x.2) then k_log (w_kafka w) p ++ [encode_here (w_tab w) p (MRequest q)]
         else k_log (w_kafka w) p.
Proof.
  intros Ht E. unfold Send in E. apply bind_Ok in E as (stop & w1 & Es & E).
  destruct stop; [discriminate E|]. apply bind_Ok in E as (y & w2 & Er & E).
  pose proof (frame_ctxErr w) as F. pose proof (frame_route mangle fuel (MRequest q) w1) as F2.
  rewrite Es in F. rewrite Er in F2. simpl in F, F2.
  unfold route in Er. apply bind_Ok in Er as (t & w1' & [= <- <-] & Er). rewrite Ht in Er. inv_ok.
  rename select (routeToSession _ _ _ _ _ = _) into Er. rename select (produce _ _ = _) into Ep.
  rename select (tables _ = _) into Et. injection Et as <- <-. unfold produce in Ep.
  destruct (k_send _ (w_kafka w2)) as [e' k'] eqn:Ek. injection Ep as <- <-.
  destruct e'; [discriminate E|]. simpl in E. inv_ok. do 3 eexists. do 4 (split; [done|]).
  assert (routing_frame w w2) as F3 by by etrans.
  intros p. simpl. rewrite (k_send_ok _ _ _ Ek p). simpl. rewrite (rf_kafka _ _ F3).
  case_decide as Hp; [|done]. unfold encode_here. rewrite (rf_self _ _ F3), (rf_topic _ _ F3).
  by subst p.
Qed.

End sending.

(* ---------------------------------------------------------------------- *)
(** ** Properties *)

(** C3: placing a session terminates within two compare-and-sets more than the
    other sidecars interleave with it, and ends with the session on a live node
    that Redis records as its owner at that moment, unless the context was
    cancelled; whatever the other sidecars do to Redis in between. *)
Theorem session_placement {R K} `{RedisLaws R} (mangle : string → string)
    (fuel : nat) (service session : string) (w : world R K) :
  connected → placeable (w_tab w) service → cache_miss (w_tab w) service session →
  keeps_string mangle (place [service; session]) (w_env w) →
  is_Some (str_at mangle (w_redis w) (place [service; session])) →
  (length (w_env w) + 2 ≤ fuel)%nat →
  (∃ w', routeToSession mangle fuel service session w = (Err ECtx, w') ∧ true ∈ w_polls w) ∨
  (∃ x w', routeToSession mangle fuel service session w = (Ok x, w') ∧
           placed mangle (place [service; session]) w' x).
Proof. apply routeToSession_place. Qed.

(** C32: The sidecars of a generation that place a session concurrently agree on its
    owner, however their turns and the writes to other keys interleave, as long as
    the placement is not deleted: every sidecar that has placed it got the same live
    node, which Redis records from then on.  A run of [routeToSession] on a cache miss
    is such a sequence of turns. *)
Theorem session_agreement {R K} `{RedisLaws R} (mangle : string → string) (part : string → Z)
    (service session : string) (r0 : R) (s : @placing R K) :
  connected → part "" = 0 → is_Some (str_at mangle r0 (place [service; session])) →
  rtc (placing_step mangle part service session) (mkPlacing r0 ∅) s →
  (∀ i j x y, sidecars s !! i = Some (Placed x) → sidecars s !! j = Some (Placed y) →
    x = y ∧ x.2 = part x.1 ∧ x.2 ≠ 0 ∧
    str_at mangle (shared s) (place [service; session]) = Some (Some x.1)) ∧
  (∀ fuel i (w : world R K) x w',
    (∀ n, partition_of (w_tab w) n = part n) → (∀ n, n ∈ nodes_of (w_tab w) service → part n ≠ 0) →
    nodes_of (w_tab w) service ≠ [] → cache_miss (w_tab w) service session → w_env w = [] →
    sidecars s !! i = None → shared s = w_redis w → routeToSession mangle fuel service session w = (Ok x, w') →
    rtc (placing_step mangle part service session) s (mkPlacing (w_redis w') (<[i := Placed x]> (sidecars s)))).
Proof.
  intros Hc He Hs Hr. split.
  2:{ intros fuel i w x w' Ht Hl Hne Hm Hv Hi Hsh E. destruct s as [r ss]. simpl in *. subst r.
      by eapply routeToSession_steps. }
  intros i j x y Hi Hj.
  pose proof (placing_reachable mangle part service session r0 s Hc He Hs Hr) as Ag.
  destruct (ag_placed _ _ _ _ _ Ag i x Hi) as (Rx & Px & Zx). destruct (ag_placed _ _ _ _ _ Ag j y Hj) as (Ry & Py & _).
  split_and!; try done. destruct x as [x1 x2], y as [y1 y2]. simpl in *. congruence.
Qed.

(** A successful [Send] appends exactly one record, the encoded message, to
    exactly one partition, and that partition is one the message may go to: of
    a live target node, of a node of the service, of the caller or its
    alternate, or the dead-letter partition 0. *)
Theorem send_one_record {R K} `{Redis R} `{KafkaLaws K} `{MapIter} (mangle : string → string)
    (fuel : nat) (msg : Message) (w w' : world R K) :
  Send mangle fuel msg w = (Ok tt, w') →
  ∃ p, may_target (w_tab w) msg p ∧
       ∀ q, k_log (w_kafka w') q =
            if decide (q = p) then k_log (w_kafka w) q ++ [encode_here (w_tab w) p msg]
            else k_log (w_kafka w) q.
Proof. apply Send_appends_one. Qed.

(** A request to a session that is sent ends, alone, in the partition of the
    live node that Redis records as the session's owner. *)
Theorem send_reaches_owner {R K} `{RedisLaws R} `{KafkaLaws K} `{MapIter}
    (mangle : string → string) (fuel : nat) (q : Request) (s : Session) (w w' : world R K) :
  connected → placeable (w_tab w) (s_Name s) → cache_miss (w_tab w) (s_Name s) (s_ID s) →
  keeps_string mangle (place [s_Name s; s_ID s]) (w_env w) →
  is_Some (str_at mangle (w_redis w) (place [s_Name s; s_ID s])) →
  (length (w_env w) + 2 ≤ fuel)%nat →
  q_target q = SessionTarget s → Send mangle fuel (MRequest q) w = (Ok tt, w') →
  ∃ owner p,
    str_at mangle (w_redis w') (place [s_Name s; s_ID s]) = Some (Some owner) ∧
    p = partition_of (w_tab w') owner ∧ p ≠ 0 ∧
    ∀ p', k_log (w_kafka w') p' =
          if decide (p' = p) then k_log (w_kafka w) p' ++ [encode_here (w_tab w) p' (MRequest q)]
          else k_log (w_kafka w) p'.
Proof.
  intros Hc Hp Hm Hk Hs Hf Ht E.
  destruct (Send_session_ok mangle fuel q s w w' Ht E) as (w1 & x & w2 & Ec & Er & Hr & Htab & Hl).
  destruct (ctxErr_cases w) as [(bs & Ec' & _)|(bs & Ec' & _)]; rewrite Ec in Ec'; simplify_eq.
  destruct (routeToSession_place mangle fuel (s_Name s) (s_ID s)
              (mkWorld (w_tab w) (w_redis w) (w_kafka w) bs (w_rand w) (w_env w)) Hc Hp Hm Hk Hs Hf)
    as [(? & E' & _)|(x' & w'' & E' & Hpl & Hx2 & Hx)]; rewrite Er in E'; simplify_eq.
  exists x'.1, x'.2. by rewrite Hr, Htab.
Qed.

(** Nothing is sent to a node that is gone: a request to it, and a response
    whose caller is gone and has no alternate, fail with [ErrUnavailable] and
    leave the broker as it was. *)
Theorem send_unavailable {R K} `{RedisLaws R} `{Kafka K} `{MapIter} (mangle : string → string)
    (fuel : nat) (msg : Message) (w : world R K) :
  connected → w_polls w = [] → w_env w = [] →
  (∃ q id, msg = MRequest q ∧ q_target q = Node id ∧ partition_of (w_tab w) id = 0) ∨
  (∃ v, msg = MResponse v ∧ partition_of (w_tab w) (r_Node v) = 0 ∧
        str_at mangle (w_redis w) (alt (requestID msg)) = Some None) →
  ∃ w', Send mangle fuel msg w = (Err EUnavailable, w') ∧ w_kafka w' = w_kafka w.
Proof.
  intros Hc Hp Hv Hmsg. destruct w as [t r k polls rnd env]; simpl in *; subst.
  destruct Hmsg as [(q & id & -> & Ht & Hz)|(v & -> & Hz & Ha)].
  - eexists. unfold Send, route, bind. simpl. by rewrite Ht, Hz.
  - destruct (Get_spec mangle _ None r Hc Ha) as (r' & Er & _).
    eexists. unfold Send, route, bind. simpl. rewrite Hz. simpl.
    unfold attempt, store. simpl. simpl in Er. rewrite Er. done.
Qed.

(** Forgetting a session does not reach the placement cache: after
    [delSession] removed the placement from Redis, a sidecar that cached it
    still routes to the old node without asking Redis. *)
Theorem delSession_stale_cache {R K} `{RedisLaws R} (mangle : string → string)
    (fuel : nat) (s : Session) (node : string) (w : world R K) :
  connected → w_env w = [] → PlacementCache (w_tab w) = true →
  nodes_of (w_tab w) (s_Name s) ≠ [] →
  pc_node <$> session2NodeCache (w_tab w) !! place [s_Name s; s_ID s] = Some node →
  ∃ w1 w2, delSession mangle s w = (Ok tt, w1) ∧
    str_at mangle (w_redis w1) (place [s_Name s; s_ID s]) = Some None ∧
    routeToSession mangle fuel (s_Name s) (s_ID s) w1 =
      (Ok (node, partition_of (w_tab w) node), w2) ∧
    w_redis w2 = w_redis w1.
Proof.
  intros Hc Hv HP Hne Hcache. destruct (Del_spec mangle (place [s_Name s; s_ID s]) (w_redis w) Hc)
    as (r' & Er & V).
  destruct (session2NodeCache (w_tab w) !! _) as [[n u]|] eqn:EC; simplify_eq/=.
  exists (mkWorld (w_tab w) r' (w_kafka w) (w_polls w) (w_rand w) []). eexists. split_and!.
  - unfold delSession, bind, store. rewrite Hv, Er. done.
  - unfold str_at. simpl. rewrite V. by rewrite lookup_delete_eq.
  - unfold routeToSession, bind. simpl. rewrite decide_False by done. rewrite HP, EC. reflexivity.
  - done.
Qed.

(* ---------------------------------------------------------------------- *)
(** ** The properties at work *)

Module Witness.
Definition t0 : Tables :=
  mkTables (mkInfo "n1" 0 ["svc"] 1) "app" {["svc" := ["n1"; "n2"]]} {["n1" := 1; "n2" := 2]}
    ∅ ∅ true.

Definition w0 : world (gmap string rvalue) (gmap Z (list ProducerMessage)) :=
  mkWorld t0 ∅ ∅ [] [5] [].

(** A world in which another sidecar first records the dead node "n9", then
    this sidecar's own placement is overwritten by "n2". *)
Definition w_raced : world (gmap string rvalue) (gmap Z (list ProducerMessage)) :=
  mkWorld t0 ∅ ∅ [] [0] [<[ "kar_a_rpc_svc_x" := VStr "n9"]>; <[ "kar_a_rpc_svc_x" := VStr "n2"]>].

Definition q0 : Request :=
  Tell (mkTell "r1" "v" zeroTime (SessionTarget (mkSession "svc" "x" "f" "")) "m" 0 "" "" false).

Definition mg : string → string := KarMangleKey "a".

Lemma placeable0 : placeable t0 "svc".
Proof.
  split_and!; [done| |done]. intros node Hin.
  assert (node ∈ ["n1"; "n2"]) as Hin' by exact Hin.
  apply list_elem_of_In in Hin'. simpl in Hin'. destruct Hin' as [<-|[<-|[]]]; done.
Qed.

Lemma raced_string : keeps_string (H:=MiniRedis) mg (place ["svc"; "x"]) (w_env w_raced).
Proof.
  intros f r Hin _. apply list_elem_of_In in Hin. simpl in Hin.
  destruct Hin as [<-|[<-|[]]]; unfold str_at; simpl;
    change (mg _) with "kar_a_rpc_svc_x"; rewrite lookup_insert_eq; eauto.
Qed.

Lemma session_placement_witness :
  (∃ w', routeToSession (H:=MiniRedis) mg 4 "svc" "x" w_raced = (Err ECtx, w') ∧ true ∈ w_polls w_raced) ∨
  (∃ x w', routeToSession (H:=MiniRedis) mg 4 "svc" "x" w_raced = (Ok x, w') ∧
           placed (H:=MiniRedis) mg (place ["svc"; "x"]) w' x).
Proof.
  apply (@session_placement _ _ MiniRedis MiniRedis_laws); try done.
  - apply placeable0.
  - apply raced_string.
Defined.

(** Two sidecars start with different candidates; the second one's turn comes first, and
    the first one then finds what it has placed. *)
#[local] Notation st := (@placing (gmap string rvalue) (gmap Z (list ProducerMessage))).
Definition w_turn : world (gmap string rvalue) (gmap Z (list ProducerMessage)) := mkWorld t0 ∅ ∅ [] [] [].
Definition part0 (n : string) : Z := partition_of t0 n.
Definition raced : st :=
  mkPlacing {["kar_a_rpc_svc_x" := VStr "n2"]}
    (<[0%nat := Placed ("n2", 2)]> (<[1%nat := Placed ("n2", 2)]>
      (<[1%nat := Turning w_turn "" "n2"]> (<[0%nat := Turning w_turn "" "n1"]> ∅)))).

Lemma raced_reachable :
  rtc (placing_step (H:=MiniRedis) mg part0 "svc" "x") (mkPlacing ∅ ∅) raced.
Proof.
  eapply rtc_l; [apply (placing_start _ _ _ _ 0%nat w_turn "n1"); done || (apply list_elem_of_In; vm_compute; auto)|].
  eapply rtc_l; [apply (placing_start _ _ _ _ 1%nat w_turn "n2"); done || (apply list_elem_of_In; vm_compute; auto)|].
  eapply rtc_l; [apply (placing_done _ _ _ _ 1%nat w_turn "" "n2" ("n2", 2)
    (loop_turn (H:=MiniRedis) mg "svc" "x" "" "n2" (sharing ∅ w_turn)).2); vm_compute; reflexivity|].
  eapply rtc_l; [apply (placing_done _ _ _ _ 0%nat w_turn "" "n1" ("n2", 2)
    (loop_turn (H:=MiniRedis) mg "svc" "x" "" "n1" (sharing {["kar_a_rpc_svc_x" := VStr "n2"]} w_turn)).2);
    vm_compute; reflexivity|].
  apply rtc_refl.
Qed.

Lemma session_agreement_witness :
  ("n2", 2) = ("n2", 2) ∧ 2 = part0 "n2" ∧ 2 ≠ 0 ∧
  str_at (H:=MiniRedis) mg (shared raced) (place ["svc"; "x"]) = Some (Some "n2").
Proof.
  destruct (@session_agreement _ _ MiniRedis MiniRedis_laws mg part0 "svc" "x" ∅ raced) as [Ha _].
  - done.
  - reflexivity.
  - by eexists.
  - exact raced_reachable.
  - apply (Ha 0%nat 1%nat ("n2", 2) ("n2", 2)); reflexivity.
Defined.

Definition w_sent : world (gmap string rvalue) (gmap Z (list ProducerMessage)) :=
  (Send (H:=MiniRedis) (H0:=MiniKafka) (H1:=canonical_iter) mg 2 (MRequest q0) w0).2.

Lemma send_one_record_witness :
  ∃ p, may_target t0 (MRequest q0) p ∧
       ∀ q, @k_log _ MiniKafka (w_kafka w_sent) q =
            if decide (q = p) then [] ++ [encode_here (H1:=canonical_iter) t0 p (MRequest q0)] else [].
Proof.
  destruct (@send_one_record _ _ MiniRedis MiniKafka MiniKafka_laws canonical_iter mg 2 (MRequest q0) w0 w_sent eq_refl)
    as (p & Hp & Hl). exists p. split; [exact Hp|exact Hl].
Defined.

Lemma send_reaches_owner_witness :
  ∃ owner p,
    str_at (H:=MiniRedis) mg (w_redis w_sent)
      (place ["svc"; "x"]) = Some (Some owner) ∧ p = partition_of t0 owner ∧ p ≠ 0.
Proof.
  destruct (@send_reaches_owner _ _ MiniRedis MiniRedis_laws MiniKafka MiniKafka_laws canonical_iter mg 2
              q0 (mkSession "svc" "x" "f" "") w0 w_sent) as (owner & p & Ho & Hp & Hz & _);
    try reflexivity; try apply placeable0; try done.
  - intros f r Hin. inversion Hin.
  - exists owner, p. split_and!; [exact Ho|exact Hp|exact Hz].
Defined.

Lemma send_unavailable_witness :
  ∃ w', Send (H:=MiniRedis) (H0:=MiniKafka) (H1:=canonical_iter) mg 2
          (MResponse (mkResponse "r1" "" zeroTime "" "n9")) w0 = (Err EUnavailable, w') ∧
        w_kafka w' = w_kafka w0.
Proof.
  apply (@send_unavailable _ _ MiniRedis MiniRedis_laws MiniKafka canonical_iter); try done.
  right. eexists. split_and!; reflexivity.
Defined.

Definition w_cached : world (gmap string rvalue) (gmap Z (list ProducerMessage)) :=
  with_tab (set_cache {["rpc_svc_x" := mkEntry "n1" true]} t0) w0.

Lemma delSession_stale_cache_witness :
  ∃ w1 w2, delSession (H:=MiniRedis) mg (mkSession "svc" "x" "" "") w_cached = (Ok tt, w1) ∧
    str_at (H:=MiniRedis) mg (w_redis w1) (place ["svc"; "x"]) = Some None ∧
    routeToSession (H:=MiniRedis) mg 0 "svc" "x" w1 = (Ok ("n1", 1), w2).
Proof.
  destruct (@delSession_stale_cache _ _ MiniRedis MiniRedis_laws mg 0 (mkSession "svc" "x" "" "") "n1" w_cached)
    as (w1 & w2 & H1 & H2 & H3 & _); try done.
  exists w1, w2. split_and!; [exact H1|exact H2|exact H3].
Defined.
End Witness.

End Routing.
