(* ===== verification/Strategy.v ===== *)
(** * Strategy: assigning partitions to sidecars

    Models src/core/pkg/rpc/strategy.go: the consumer group balance strategy
    the group leader runs ([Plan]) and the routing tables every sidecar
    rebuilds from the agreed assignment ([updateRoutes]).  The sarama client is
    not part of the repository: decoding the members' metadata, the offsets of
    the partitions and the creation of partitions are parameters. *)

From S2P Require Import Prelude GoLib Messages Store Kafka Routing.
Import Rpc Store Broker Routing.
Open Scope string_scope.
Open Scope Z_scope.
Open Scope list_scope.
Open Scope go_scope.

Module Strategy.

(** The package variables [Plan] and the recovery share, next to the tables.
    [recovery] is [None] for a nil map; [created] lists the partition counts
    asked of [admin.CreatePartitions], latest first. *)
Record Group : Type := mkGroup {
  g_tab : Tables;
  recovery : option (gmap Z bool);
  newest : gmap Z Z;
  offset0 : Z;
  max0 : Z;
  created : list Z;
}.

Definition set_tab (t : Tables) (g : Group) : Group :=
  mkGroup t (recovery g) (newest g) (offset0 g) (max0 g) (created g).
Definition set_recovery (r : option (gmap Z bool)) (g : Group) : Group :=
  mkGroup (g_tab g) r (newest g) (offset0 g) (max0 g) (created g).
Definition set_newest (n : gmap Z Z) (g : Group) : Group :=
  mkGroup (g_tab g) (recovery g) n (offset0 g) (max0 g) (created g).
Definition set_offset0 (o : Z) (g : Group) : Group :=
  mkGroup (g_tab g) (recovery g) (newest g) o (max0 g) (created g).
Definition set_max0 (o : Z) (g : Group) : Group :=
  mkGroup (g_tab g) (recovery g) (newest g) (offset0 g) o (created g).

Definition set_n2p (m : gmap string Z) (t : Tables) : Tables :=
  mkTables (self t) (appTopic t) (service2nodes t) m (node2port t) (session2NodeCache t)
    (PlacementCache t).
Definition set_s2n (m : gmap string (list string)) (t : Tables) : Tables :=
  mkTables (self t) (appTopic t) m (node2partition t) (node2port t) (session2NodeCache t)
    (PlacementCache t).
Definition set_port (m : gmap string Z) (t : Tables) : Tables :=
  mkTables (self t) (appTopic t) (service2nodes t) (node2partition t) m (session2NodeCache t)
    (PlacementCache t).

(** [recovery[p]] and [newest[p]]: Go's zero value when absent. *)
Definition attached (g : Group) (p : Z) : bool :=
  match recovery g with Some r => default false (r !! p) | None => false end.
Definition newest_of (g : Group) (p : Z) : Z := default 0 (newest g !! p).

Definition n2p_of (m : gmap string Z) (node : string) : Z := default 0 (m !! node).

(** [for _, s := range v.Services { service2nodes[s] = append(..., v.Node) }]. *)
Definition add_services (v : info) (s2n : gmap string (list string)) : gmap string (list string) :=
  foldl (λ acc s, push s (i_Node v) acc) s2n (i_Services v).

Section plan.
Context `{MapIter}.
Context (Unmarshal : string → info + gerror).
Context (OldestOffset NewestOffset : Z → Z + gerror).
Context (CreatePartitions : Z → option gerror).

(** The loop over the members: fills [node2member] and [liveNodes]. *)
Fixpoint join_members (members : list (string * string))
    (node2member : gmap string string) (liveNodes : gset string)
    : M Group (gmap string string * gset string) :=
  match members with
  | [] => ret (node2member, liveNodes)
  | (member, UserData) :: rest =>
      match Unmarshal UserData with
      | inr err => throw err
      | inl v =>
          modify (λ g,
            let t := g_tab g in
            let n2p := if 0 <? i_Partition v then <[i_Node v := i_Partition v]> (node2partition t)
                       else node2partition t in
            let g := set_tab (set_n2p n2p (set_s2n (add_services v (service2nodes t)) t)) g in
            if n2p_of n2p (i_Node v) =? 0 then set_offset0 0 g else g) ;;*
          join_members rest (<[i_Node v := member]> node2member) (liveNodes ∪ {[i_Node v]})
      end
  end.

(** [for n, p := range node2partition]: discard the dead, mark the partitions of
    the live ones. *)
Definition attach_live (liveNodes : gset string) (g : Group) : Group :=
  foldl (λ g '(n, p),
    if decide (n ∈ liveNodes) then
      if 0 <? p then
        set_recovery (Some (<[p := true]> (default ∅ (recovery g)))) g
      else g
    else set_tab (set_n2p (delete n (node2partition (g_tab g))) (g_tab g)) g)
    g (map_iter 10 (node2partition (g_tab g))).

Definition of_sum {W A} (x : A + gerror) : M W A :=
  match x with inl a => ret a | inr e => throw e end.

(** The loop over the partitions: records the non-empty ones, tells whether
    recovery is unnecessary. *)
Fixpoint read_offsets (partitions : list Z) (clean : bool) : M Group bool :=
  match partitions with
  | [] => ret clean
  | p :: rest =>
      let* min := of_sum (OldestOffset p) in
      let* max := of_sum (NewestOffset p) in
      if min <? max then
        modify (λ g, set_newest (<[p := max]> (newest g)) g) ;;*
        let* g := get in
        if negb (p =? 0) && negb (attached g p) then read_offsets rest false
        else if (p =? 0) && (offset0 g <? max) then
          modify (set_max0 max) ;;* read_offsets rest false
        else read_offsets rest clean
      else read_offsets rest clean
  end.

(** The inner loop for one node; the list is [partitions[next:]]. *)
Fixpoint find_partition (free : Z → bool) (node : string) (n2p : gmap string Z) (ps : list Z)
    : gmap string Z * list Z :=
  match ps with
  | [] => (n2p, [])
  | p :: ps' =>
      if n2p_of n2p node =? 0 then
        find_partition free node (if free p then <[node := p]> n2p else n2p) ps'
      else (n2p, ps)
  end.

(** The number of nodes without a partition. *)
Definition count_missing (nodes : list string) (n2p : gmap string Z) : Z :=
  Z.of_nat (length (filter (λ node, n2p_of n2p node = 0) nodes)).

Fixpoint assign_nodes (total : Z) (all nodes : list string) (ps : list Z) : M Group unit :=
  match nodes with
  | [] => ret tt
  | node :: rest =>
      let* g := get in
      let free p := negb (attached g p) && (newest_of g p =? 0) in
      let '(n2p, ps') := find_partition free node (node2partition (g_tab g)) ps in
      modify (λ g, set_tab (set_n2p n2p (g_tab g)) g) ;;*
      if n2p_of n2p node =? 0 then
        let count := total + count_missing all n2p in
        modify (λ g, mkGroup (g_tab g) (recovery g) (newest g) (offset0 g) (max0 g)
                       (count :: created g)) ;;*
        match CreatePartitions count with
        | Some err => throw err
        | None => throw ETooFewPartitions
        end
      else assign_nodes total all rest ps'
  end.

(** [plan.Add(member, appTopic, p)]. *)
Definition plan_add (plan : gmap string (list Z)) (member : string) (p : Z) : gmap string (list Z) :=
  <[member := default [] (plan !! member) ++ [p]]> plan.

Definition reset (g : Group) : Group :=
  set_recovery (Some ∅) (set_newest ∅ (set_tab (set_cache ∅ (set_s2n ∅ (g_tab g))) g)).

(** The part of [Plan] before partitions are assigned: the membership, the
    partitions of the live nodes and the offsets. *)
Definition prepare (members : gmap string string) (partitions : list Z)
    : M Group (gmap string string * bool) :=
  modify reset ;;*
  let* '(node2member, liveNodes) := join_members (map_iter 11 members) ∅ ∅ in
  modify (attach_live liveNodes) ;;*
  let* clean := read_offsets partitions true in
  ret (node2member, clean).

(** Assign partitions to group members: [members] maps a member to its
    [UserData], [partitions] is [topics[appTopic]]. *)
Definition Plan (members : gmap string string) (partitions : list Z)
    : M Group (gmap string (list Z)) :=
  let* '(node2member, clean) := prepare members partitions in
  assign_nodes (Z.of_nat (length partitions)) (map_iter 12 node2member).*1
    (map_iter 13 node2member).*1 (tail partitions) ;;*
  let* g := get in
  if negb clean then
    ret (foldl (λ plan p,
           if (p =? 0) || (0 <? newest_of g p)
           then plan_add plan (default "" (node2member !! i_Node (self (g_tab g)))) p
           else plan) ∅ partitions)
  else
    modify (set_recovery None) ;;*
    ret (foldl (λ plan '(node, member),
           plan_add plan member (partition_of (g_tab g) node)) ∅ (map_iter 14 node2member)).

(** A member of the group as [admin.DescribeConsumerGroups] describes it:
    [GetMemberMetadata] (nil or the metadata's user data) and
    [GetMemberAssignment().Topics[appTopic]]. *)
Record memberDescription : Type := mkMember {
  md_metadata : option string + gerror;
  md_assignment : list Z + gerror;
}.

Fixpoint rebuild (members : list (string * memberDescription)) : M Tables unit :=
  match members with
  | [] => ret tt
  | (_, member) :: rest =>
      let* meta := of_sum (md_metadata member) in
      match meta with
      | None => rebuild rest
      | Some UserData =>
          let* data := of_sum (Unmarshal UserData) in
          modify (λ t, set_s2n (add_services data (service2nodes t)) t) ;;*
          let* assignment := of_sum (md_assignment member) in
          match assignment with
          | [] => of_res (Panic "index out of range")
          | p :: _ =>
              modify (λ t, set_port (<[i_Node data := i_Port data]> (node2port t))
                             (set_n2p (<[i_Node data := p]> (node2partition t)) t)) ;;*
              rebuild rest
          end
      end
  end.

Definition updateRoutes (groups : gmap string memberDescription + gerror) : M Tables unit :=
  let* members := of_sum groups in
  modify (λ t, set_cache ∅ (set_port ∅ (set_n2p ∅ (set_s2n ∅ t)))) ;;*
  rebuild (map_iter 15 members).

End plan.

(* ---------------------------------------------------------------------- *)
(** ** The loops of [Plan] *)

(** The assignment a member's metadata claims, on top of what is known. *)
Definition claim (m : gmap string Z) (v : info) : gmap string Z :=
  if 0 <? i_Partition v then <[i_Node v := i_Partition v]> m else m.

Definition claimed (m : gmap string Z) (v : info) : Z :=
  if 0 <? i_Partition v then i_Partition v else n2p_of m (i_Node v).

Lemma n2p_insert m n n' p :
  n2p_of (<[n := p]> m) n' = if decide (n = n') then p else n2p_of m n'.
Proof. unfold n2p_of. rewrite lookup_insert. by case_decide. Qed.

Lemma claim_fold_other m vs n :
  n ∉ i_Node <$> vs → n2p_of (foldl claim m vs) n = n2p_of m n.
Proof.
  revert m. induction vs as [|v vs IH]; intros m Hn; [done|]. cbn [foldl].
  rewrite IH by set_solver. unfold claim. destruct (0 <? _); [|done].
  rewrite n2p_insert. case_decide; [set_solver|done].
Qed.

Lemma claim_fold m vs v :
  NoDup (i_Node <$> vs) → v ∈ vs → n2p_of (foldl claim m vs) (i_Node v) = claimed m v.
Proof.
  revert m. induction vs as [|v' vs IH]; intros m Hnd Hin; [by apply elem_of_nil in Hin|].
  apply NoDup_cons in Hnd as [Hv' Hnd]. cbn [foldl]. apply elem_of_cons in Hin as [->|Hin].
  - rewrite claim_fold_other by done. unfold claim, claimed. destruct (0 <? _); [|done].
    rewrite n2p_insert. by rewrite decide_True.
  - rewrite IH by done. unfold claimed. destruct (0 <? i_Partition v); [done|].
    unfold claim. destruct (0 <? i_Partition v'); [|done].
    rewrite n2p_insert. rewrite decide_False; [done|]. intros E. apply Hv'. rewrite E.
    by apply list_elem_of_fmap_2.
Qed.

Lemma n2p_claim_nonneg m vs n :
  (∀ n, 0 ≤ n2p_of m n) → 0 ≤ n2p_of (foldl claim m vs) n.
Proof.
  revert m. induction vs as [|v vs IH]; intros m Hm; [done|]. cbn [foldl]. apply IH. intros n'.
  unfold claim. destruct (Z.ltb_spec 0 (i_Partition v)); [|done].
  rewrite n2p_insert. case_decide; [lia|done].
Qed.

Section join.
Context (Unmarshal : string → info + gerror).

Definition same_but_members (g g' : Group) : Prop :=
  recovery g' = recovery g ∧ newest g' = newest g ∧ max0 g' = max0 g ∧ created g' = created g ∧
  self (g_tab g') = self (g_tab g).

Lemma join_members_spec ms n2m live g x g' :
  join_members Unmarshal ms n2m live g = (Ok x, g') →
  ∃ vs, Forall2 (λ m v, Unmarshal m.2 = inl v) ms vs ∧
    x.1 = foldl (λ acc mv, <[i_Node mv.2 := mv.1.1]> acc) n2m (zip ms vs) ∧
    x.2 = live ∪ list_to_set (i_Node <$> vs) ∧
    node2partition (g_tab g') = foldl claim (node2partition (g_tab g)) vs ∧
    service2nodes (g_tab g') = foldl (flip add_services) (service2nodes (g_tab g)) vs ∧
    same_but_members g g'.
Proof.
  revert n2m live g. induction ms as [|[member u] ms IH]; intros n2m live g E; cbn [join_members] in E.
  { inv_ok. exists []. split_and!; try done. simpl. set_solver. }
  destruct (Unmarshal u) as [v|e] eqn:EU; [|discriminate E].
  apply bind_Ok in E as (? & g1 & [= <- <-] & E).
  destruct (IH _ _ _ E) as (vs & HF & H1 & H2 & H3 & H4 & H5).
  exists (v :: vs). split_and!.
  - by constructor.
  - done.
  - rewrite H2. cbn [fmap list_fmap list_to_set]. set_solver.
  - rewrite H3. simpl. by destruct (_ =? 0).
  - rewrite H4. simpl. by destruct (_ =? 0).
  - destruct H5 as (? & ? & ? & ? & ?). unfold same_but_members in *. simpl in *.
    destruct (n2p_of _ _ =? 0) in *; by split_and!.
Qed.

Lemma join_members_total ms vs n2m live g :
  Forall2 (λ m v, Unmarshal m.2 = inl v) ms vs →
  ∃ x g', join_members Unmarshal ms n2m live g = (Ok x, g').
Proof.
  intros HF. revert n2m live g. induction HF as [|[m u] v ms vs HU HF IH]; intros n2m live g.
  - by do 2 eexists.
  - cbn [join_members]. simpl in HU. rewrite HU. unfold bind at 1. cbn [modify]. apply IH.
Qed.

End join.

Section attach.
Context `{MapIter}.

(** Effect of the loop over the known nodes, read through the accessors. *)
Lemma attach_live_spec live g :
  recovery g = Some ∅ →
  let g' := attach_live live g in
  (∀ n, node2partition (g_tab g') !! n =
        if decide (n ∈ live) then node2partition (g_tab g) !! n else None) ∧
  (∀ p, attached g' p = true ↔
        ∃ n, n ∈ live ∧ node2partition (g_tab g) !! n = Some p ∧ 0 < p) ∧
  (∃ r, recovery g' = Some r) ∧
  newest g' = newest g ∧ max0 g' = max0 g ∧ created g' = created g ∧ offset0 g' = offset0 g ∧
  self (g_tab g') = self (g_tab g) ∧ service2nodes (g_tab g') = service2nodes (g_tab g).
Proof.
  intros Hr. unfold attach_live. set (m := node2partition (g_tab g)).
  assert (∀ n p, (n, p) ∈ map_iter 10 m ↔ m !! n = Some p) as Hm.
  { intros n p. rewrite map_iter_perm. apply elem_of_map_to_list. }
  set (f := λ (g : Group) '(n, p), _).
  assert (∀ l, (∀ n p, (n, p) ∈ l → m !! n = Some p) →
    let g' := foldl f g l in
    (∀ n, node2partition (g_tab g') !! n =
          if decide (n ∈ l.*1 ∧ n ∉ live) then None else m !! n) ∧
    (∀ p, attached g' p = true ↔ ∃ n, n ∈ live ∧ (n, p) ∈ l ∧ 0 < p) ∧
    (∃ r, recovery g' = Some r) ∧
    newest g' = newest g ∧ max0 g' = max0 g ∧ created g' = created g ∧ offset0 g' = offset0 g ∧
    self (g_tab g') = self (g_tab g) ∧ service2nodes (g_tab g') = service2nodes (g_tab g)) as HI.
  { intros l. induction l as [|[n p] l IH] using rev_ind; intros Hl.
    { cbn [foldl]. split; [|split; [|split; [eauto|done]]].
      - intros n. rewrite decide_False; [done|set_solver].
      - intros p. unfold attached. rewrite Hr, lookup_empty. set_solver. }
    rewrite foldl_app. cbn [foldl]. destruct IH as (I1 & I2 & (r & I3) & I4); [set_solver|].
    set (g1 := foldl f g l) in *. unfold f at 1 2 3 4 5 6 7 8 9. destruct (decide (n ∈ live)) as [Hn|Hn].
    - destruct (Z.ltb_spec 0 p).
      + split; [|split; [|split; [simpl; eauto|done]]]; simpl.
        * intros n'. rewrite I1. apply decide_ext. rewrite fmap_app. set_solver.
        * intros p'. unfold attached. simpl. rewrite I3. cbn [default]. rewrite lookup_insert.
          case_decide as Hp; [subst; set_solver|].
          specialize (I2 p'). unfold attached in I2. rewrite I3 in I2. rewrite I2. set_solver.
      + split; [|split; [|split; [eauto|done]]].
        * intros n'. rewrite I1. apply decide_ext. rewrite fmap_app. set_solver.
        * intros p'. rewrite I2. split; [set_solver|]. intros (n' & ? & Hin & ?).
          apply elem_of_app in Hin as [|Hin]; [set_solver|].
          apply list_elem_of_singleton in Hin. simplify_eq. lia.
    - split; [|split; [|split; [eauto|done]]]; simpl.
      + intros n'. rewrite lookup_delete, I1, fmap_app. case_decide; subst.
        * rewrite decide_True; [done|set_solver].
        * apply decide_ext. set_solver.
      + intros p'. unfold attached. simpl. specialize (I2 p'). unfold attached in I2.
        rewrite I2. set_solver. }
  destruct (HI (map_iter 10 m)) as (I1 & I2 & I3 & I4); [intros; by apply Hm|].
  split; [|split; [|done]].
  - intros n. rewrite I1. destruct (decide (n ∈ live)).
    + rewrite decide_False; [done|set_solver].
    + case_decide as Hd; [done|]. destruct (m !! n) as [p|] eqn:E; [|done]. exfalso. apply Hd.
      split; [|done]. apply list_elem_of_fmap. exists (n, p). split; [done|]. by apply Hm.
  - intros p. rewrite I2. by setoid_rewrite Hm.
Qed.

End attach.

Section offsets.
Context (OldestOffset NewestOffset : Z → Z + gerror).

(** A partition holds records: its oldest offset is below its newest. *)
Definition nonempty (p : Z) : bool :=
  match OldestOffset p, NewestOffset p with
  | inl min, inl max => min <? max
  | _, _ => false
  end.

Definition newest_offset (p : Z) : Z := match NewestOffset p with inl max => max | inr _ => 0 end.

(** Nothing to recover in a partition: it is empty, or attached to a live node,
    or it is partition 0 and was already processed. *)
Definition settled (g : Group) (p : Z) : bool :=
  negb (nonempty p) || (if p =? 0 then newest_offset p <=? offset0 g else attached g p).

Definition same_but_offsets (g g' : Group) : Prop :=
  g_tab g' = g_tab g ∧ recovery g' = recovery g ∧ offset0 g' = offset0 g ∧ created g' = created g.

Lemma read_offsets_spec ps clean g b g' :
  read_offsets OldestOffset NewestOffset ps clean g = (Ok b, g') →
  b = clean && forallb (settled g) ps ∧
  (∀ p, newest g' !! p = if decide (p ∈ ps ∧ nonempty p = true) then Some (newest_offset p)
                         else newest g !! p) ∧
  same_but_offsets g g'.
Proof.
  revert clean g. induction ps as [|p ps IH]; intros clean g E; cbn [read_offsets] in E.
  { inv_ok. split_and!; [by rewrite andb_true_r| |done]. intros p. rewrite decide_False; set_solver. }
  destruct (OldestOffset p) as [min|] eqn:Emin; [|discriminate E].
  apply bind_Ok in E as (? & ? & [= <- <-] & E).
  destruct (NewestOffset p) as [max|] eqn:Emax; [|discriminate E].
  apply bind_Ok in E as (? & ? & [= <- <-] & E).
  assert (nonempty p = (min <? max)) as Hne by (unfold nonempty; by rewrite Emin, Emax).
  assert (newest_offset p = max) as Hnw by (unfold newest_offset; by rewrite Emax).
  assert (settled g p = negb (min <? max) || (if p =? 0 then max <=? offset0 g else attached g p)) as Hst
    by (unfold settled; by rewrite Hne, Hnw).
  destruct (min <? max) eqn:Elt.
  - apply bind_Ok in E as (? & ? & [= <- <-] & E). apply bind_Ok in E as (? & ? & [= <- <-] & E).
    set (g1 := set_newest _ g) in *.
    assert (∃ clean' g2, read_offsets OldestOffset NewestOffset ps clean' g2 = (Ok b, g') ∧
              clean' = clean && settled g p ∧ newest g2 = newest g1 ∧ same_but_offsets g g2 ∧
              ∀ q, settled g2 q = settled g q) as (clean' & g2 & E2 & Hc & Hn & Hsame & Hq).
    { rewrite Hst. simpl. destruct (Z.eqb_spec p 0) as [->|Hp]; simpl in E.
      - destruct (Z.ltb_spec (offset0 g) max); [apply bind_Ok in E as (? & ? & [= <- <-] & E)|];
          (do 2 eexists; split; [exact E|]); split_and!; try done.
        + rewrite (proj2 (Z.leb_gt _ _)) by lia. by rewrite andb_false_r.
        + rewrite (proj2 (Z.leb_le _ _)) by lia. by rewrite andb_true_r.
      - change (attached g1 p) with (attached g p) in E.
        destruct (attached g p); simpl in E; (do 2 eexists; split; [exact E|]); split_and!; try done.
        + by rewrite andb_true_r.
        + by rewrite andb_false_r. }
    destruct (IH _ _ E2) as (Hb & Hnew & Hs). split_and!.
    + rewrite Hb, Hc. cbn [forallb]. rewrite andb_assoc. f_equal.
      clear -Hq. induction ps as [|q ps IHps]; [done|]. simpl. by rewrite Hq, IHps.
    + intros q. rewrite Hnew, Hn. unfold g1. simpl. rewrite lookup_insert.
      destruct (decide (p = q)) as [<-|Hpq].
      * rewrite (decide_True (P := p ∈ p :: ps ∧ _)) by (split; [set_solver|by rewrite Hne]).
        case_decide; by rewrite ?Hnw.
      * apply decide_ext. set_solver.
    + destruct Hs as (? & ? & ? & ?), Hsame as (? & ? & ? & ?). split_and!; congruence.
  - destruct (IH _ _ E) as (Hb & Hnew & Hs). split_and!; [|intros q; rewrite Hnew|done].
    + rewrite Hb. cbn [forallb]. by rewrite Hst.
    + apply decide_ext. split; [set_solver|]. intros [Hin Hq]. split; [|done].
      apply elem_of_cons in Hin as [->|]; [congruence|done].
Qed.

Lemma read_offsets_total ps clean g :
  (∀ p, p ∈ ps → (∃ a, OldestOffset p = inl a) ∧ ∃ b, NewestOffset p = inl b) →
  ∃ b g', read_offsets OldestOffset NewestOffset ps clean g = (Ok b, g').
Proof.
  revert clean g. induction ps as [|p ps IH]; intros clean g Hps; [by do 2 eexists|].
  destruct (Hps p) as ((a & Ea) & b & Eb); [set_solver|]. cbn [read_offsets]. rewrite Ea, Eb.
  unfold bind, get, modify, of_sum, ret. repeat case_match; simplify_eq; apply IH; set_solver.
Qed.

Lemma newest_offset_pos p :
  (∀ p a, OldestOffset p = inl a → 0 ≤ a) → nonempty p = true → 0 < newest_offset p.
Proof.
  intros Ho. unfold nonempty, newest_offset. destruct (OldestOffset p) as [a|] eqn:Ea; [|done].
  destruct (NewestOffset p); [|done]. specialize (Ho p a Ea). lia.
Qed.
End offsets.

Section assign.
Context (CreatePartitions : Z → option gerror).

(** The inner loop takes the first free partition, if any. *)
Lemma find_partition_spec free node n2p ps n2p' ps' :
  0 ∉ ps → find_partition free node n2p ps = (n2p', ps') →
  (n2p_of n2p node ≠ 0 ∧ n2p' = n2p ∧ ps' = ps) ∨
  (n2p_of n2p node = 0 ∧ n2p' = n2p ∧ ps' = [] ∧ ∀ p, p ∈ ps → free p = false) ∨
  (n2p_of n2p node = 0 ∧ ∃ l p, ps = l ++ p :: ps' ∧ free p = true ∧ n2p' = <[node := p]> n2p ∧
     ∀ q, q ∈ l → free q = false).
Proof.
  revert n2p. induction ps as [|p ps IH]; intros n2p Hz E; cbn [find_partition] in E.
  { simplify_eq. destruct (decide (n2p_of n2p' node = 0)); [right; left|left]; set_solver. }
  destruct (Z.eqb_spec (n2p_of n2p node) 0) as [E0|E0]; [|simplify_eq; by left].
  destruct (free p) eqn:Ef.
  - right; right. split; [done|]. exists [], p.
    assert (n2p_of (<[node := p]> n2p) node ≠ 0) as Hne.
    { rewrite n2p_insert, decide_True by done. set_solver. }
    apply IH in E as [(_ & -> & ->)|[(? & _)|(? & _)]]; [|done..|set_solver].
    split_and!; [done|done|done|set_solver].
  - apply IH in E as [(? & _)|[(_ & -> & -> & Hf)|(_ & l & q & -> & Hq & -> & Hl)]]; [done|..|set_solver].
    + right; left. split_and!; try done. set_solver.
    + right; right. split; [done|]. exists (p :: l), q. split_and!; try done. set_solver.
Qed.

(** A partition a new node may take. *)
Definition free_in (g : Group) (p : Z) : bool := negb (attached g p) && (newest_of g p =? 0).

Definition injective (n2p : gmap string Z) : Prop :=
  ∀ n1 n2, n2p_of n2p n1 = n2p_of n2p n2 → n2p_of n2p n1 ≠ 0 → n1 = n2.

(** The state of the assignment loop: no partition is given twice and the free
    partitions ahead are given to nobody yet. *)
Record assignable (free : Z → bool) (n2p : gmap string Z) (ps : list Z) : Prop := {
  as_inj : injective n2p;
  as_free : ∀ n p, p ∈ ps → free p = true → n2p_of n2p n ≠ p;
  as_nodup : NoDup ps;
  as_zero : 0 ∉ ps;
}.

Lemma assignable_step free node n2p ps n2p' ps' :
  assignable free n2p ps → find_partition free node n2p ps = (n2p', ps') →
  assignable free n2p' ps'.
Proof.
  intros [Hinj Hfree Hnd Hz] E.
  destruct (find_partition_spec _ _ _ _ _ _ Hz E)
    as [(_ & -> & ->)|[(_ & -> & -> & _)|(E0 & l & p & -> & Hp & -> & _)]]; [done|..].
  { split; [done|set_solver|constructor|set_solver]. }
  apply NoDup_app in Hnd as (_ & _ & Hnd). apply NoDup_cons in Hnd as [Hp' Hnd].
  assert (∀ n, n2p_of n2p n ≠ p) as Hp0 by (intros; apply Hfree; set_solver).
  split; [|..|done|set_solver].
  - intros n1 n2. rewrite !n2p_insert. repeat case_decide; subst; try done.
    + intros Hp1. by destruct (Hp0 n2).
    + intros Hp1. by destruct (Hp0 n1).
    + apply Hinj.
  - intros n q Hq Hfq. rewrite n2p_insert. case_decide; [set_solver|]. apply Hfree; set_solver.
Qed.

(** How the assignment grows: known nodes keep their partition, the others get
    free ones. *)
Definition extends (free : Z → bool) (ps : list Z) (n2p n2p' : gmap string Z) : Prop :=
  ∀ n, n2p_of n2p' n = n2p_of n2p n ∨
       n2p_of n2p n = 0 ∧ n2p_of n2p' n ∈ ps ∧ free (n2p_of n2p' n) = true.

Definition same_but_assigned (g g' : Group) : Prop :=
  recovery g' = recovery g ∧ newest g' = newest g ∧ offset0 g' = offset0 g ∧ max0 g' = max0 g ∧
  g_tab g' = set_n2p (node2partition (g_tab g')) (g_tab g).

Lemma extends_step free node n2p ps n2p' ps' :
  0 ∉ ps → find_partition free node n2p ps = (n2p', ps') →
  extends free ps n2p n2p' ∧ (∀ p, p ∈ ps' → p ∈ ps) ∧
  (∀ p, p ∈ ps → free p = true → p ∈ ps' ∨ n2p_of n2p' node = p).
Proof.
  intros Hz E. destruct (find_partition_spec _ _ _ _ _ _ Hz E)
    as [(_ & -> & ->)|[(_ & -> & -> & Hf)|(E0 & l & p & -> & Hp & -> & Hl)]].
  - split_and!; [by left|done|set_solver].
  - split_and!; [by left|set_solver|]. intros p Hp Hf'. by rewrite Hf in Hf'.
  - split_and!; [|set_solver|].
    + intros n. rewrite n2p_insert. case_decide; [|by left]. subst. right. set_solver.
    + intros q Hq Hf. rewrite n2p_insert, decide_True by done.
      apply elem_of_app in Hq as [Hq|Hq]; [by rewrite Hl in Hf|]. set_solver.
Qed.

Lemma extends_trans free ps ps' a b c :
  (∀ p, p ∈ ps' → p ∈ ps) → 0 ∉ ps → extends free ps a b → extends free ps' b c → extends free ps a c.
Proof.
  intros Hsub Hz Hab Hbc n. destruct (Hbc n) as [->|(E0 & Hin & Hf)]; [apply Hab|].
  destruct (Hab n) as [E|(E & Hin' & _)]; [|rewrite E0 in Hin'; done].
  right. rewrite <-E. auto.
Qed.

Lemma assign_nodes_spec total all nodes ps g r g' :
  assignable (free_in g) (node2partition (g_tab g)) ps →
  assign_nodes CreatePartitions total all nodes ps g = (r, g') →
  let n2p' := node2partition (g_tab g') in
  injective n2p' ∧ extends (free_in g) ps (node2partition (g_tab g)) n2p' ∧ same_but_assigned g g' ∧
  match r with
  | Ok _ => (∀ n, n ∈ nodes → n2p_of n2p' n ≠ 0) ∧ created g' = created g
  | Err e =>
      created g' = total + count_missing all n2p' :: created g ∧
      (CreatePartitions (total + count_missing all n2p') = None → e = ETooFewPartitions) ∧
      (∃ n, n ∈ nodes ∧ n2p_of n2p' n = 0)
  | _ => False
  end.
Proof.
  revert ps g. induction nodes as [|node nodes IH]; intros ps g Has E; cbn [assign_nodes] in E.
  { injection E as <- <-. split_and!; [by apply Has|by left|by destruct g as [[]]|set_solver|done]. }
  unfold bind at 1, get at 1 in E. fold (free_in g) in E.
  destruct (find_partition (free_in g) node (node2partition (g_tab g)) ps) as [n2p ps'] eqn:EF.
  pose proof (assignable_step _ _ _ _ _ _ Has EF) as Has'.
  destruct (extends_step _ _ _ _ _ _ (as_zero _ _ _ Has) EF) as (Hext & Hsub & _).
  unfold bind at 1, modify at 1 in E. set (g1 := set_tab _ g) in E.
  destruct (Z.eqb_spec (n2p_of n2p node) 0) as [E0|E0].
  - unfold bind at 1, modify at 1 in E.
    destruct (CreatePartitions _) as [err|] eqn:EC in E; injection E as <- <-; simpl;
      (split_and!; [by apply Has'|done|by destruct g as [[]]|done| |set_solver]); [congruence|done].
  - destruct (IH ps' g1 Has' E) as (Hinj & Hext' & Hsame & Hr). split_and!; [done| | |].
    + eapply extends_trans; [exact Hsub|apply Has|exact Hext|exact Hext'].
    + destruct Hsame as (? & ? & ? & ? & Ht). by split_and!.
    + destruct r as [u|e| |]; try done.
      * destruct Hr as [Hr Hcr]. split; [|done]. intros n Hn. apply elem_of_cons in Hn as [->|Hn]; [|auto].
        destruct (Hext' node) as [E1|(E1 & _)]; simpl in *; congruence.
      * destruct Hr as (Hcr & He & n & Hn & Hn0). split_and!; [done|done|].
        exists n. split; [set_solver|done].
Qed.

(** Enough free partitions for the nodes without one: the loop succeeds. *)
Lemma assign_nodes_enough total all nodes ps g :
  NoDup nodes → assignable (free_in g) (node2partition (g_tab g)) ps →
  (length (filter (λ n, n2p_of (node2partition (g_tab g)) n = 0%Z) nodes) ≤
   length (filter (λ p, free_in g p = true) ps))%nat →
  ∃ g', assign_nodes CreatePartitions total all nodes ps g = (Ok tt, g').
Proof.
  revert ps g. induction nodes as [|node nodes IH]; intros ps g Hnd Has Hlen; [by eexists|].
  apply NoDup_cons in Hnd as [Hnode Hnd]. cbn [assign_nodes]. unfold bind at 1, get at 1. fold (free_in g).
  destruct (find_partition (free_in g) node (node2partition (g_tab g)) ps) as [n2p ps'] eqn:EF.
  pose proof (assignable_step _ _ _ _ _ _ Has EF) as Has'.
  unfold bind at 1, modify at 1. set (g1 := set_tab _ g). rewrite filter_cons in Hlen.
  destruct (find_partition_spec _ _ _ _ _ _ (as_zero _ _ _ Has) EF)
    as [(E0 & -> & ->)|[(E0 & -> & -> & Hf)|(E0 & l & p & Eps & Hp & -> & Hl)]].
  - rewrite (proj2 (Z.eqb_neq _ _)) by done. rewrite decide_False in Hlen by done. by apply (IH ps g1).
  - rewrite decide_True in Hlen by done. exfalso. simpl in Hlen.
    rewrite (filter_none _ ps) in Hlen by (intros q Hq; by rewrite Hf). simpl in Hlen. lia.
  - rewrite decide_True in Hlen by done.
    assert (p ≠ 0) as Hpz by (pose proof (as_zero _ _ _ Has); set_solver).
    rewrite n2p_insert, decide_True by done. rewrite (proj2 (Z.eqb_neq _ _)) by done.
    apply (IH ps' g1); [done|done|]. change (free_in g1) with (free_in g). simpl in *.
    rewrite Eps, filter_app, length_app, filter_cons, decide_True in Hlen by done.
    rewrite (filter_none _ l) in Hlen by (intros q Hq; by rewrite Hl). simpl in Hlen.
    rewrite (filter_ext_in _ (λ n, n2p_of (node2partition (g_tab g)) n = 0)); [lia|].
    intros n Hn. simpl. rewrite n2p_insert, decide_False by set_solver. done.
Qed.

End assign.

Section plan_spec.
Context `{MapIter}.
Context (Unmarshal : string → info + gerror).
Context (OldestOffset NewestOffset : Z → Z + gerror).
Context (CreatePartitions : Z → option gerror).

#[local] Notation nonempty := (nonempty OldestOffset NewestOffset).
#[local] Notation settled := (settled OldestOffset NewestOffset).

(** What is assumed of the group's metadata and of the topic: partition 0 comes
    first, offsets are not negative, members are distinct nodes and no two of
    them claim the same partition. *)
Definition is_member (members : gmap string string) (v : info) : Prop :=
  ∃ member u, members !! member = Some u ∧ Unmarshal u = inl v.

Record plan_input (members : gmap string string) (partitions : list Z) (g : Group) : Prop := {
  pi_parts : head partitions = Some 0;
  pi_nodup : NoDup partitions;
  pi_offsets : ∀ p a, OldestOffset p = inl a → 0 ≤ a;
  pi_nonneg : ∀ n, 0 ≤ n2p_of (node2partition (g_tab g)) n;
  pi_nodes : ∀ m1 m2 u1 u2 v1 v2,
    members !! m1 = Some u1 → members !! m2 = Some u2 →
    Unmarshal u1 = inl v1 → Unmarshal u2 = inl v2 → i_Node v1 = i_Node v2 → m1 = m2;
  pi_claims : ∀ v1 v2, is_member members v1 → is_member members v2 →
    claimed (node2partition (g_tab g)) v1 = claimed (node2partition (g_tab g)) v2 →
    claimed (node2partition (g_tab g)) v1 ≠ 0 → i_Node v1 = i_Node v2;
}.

Lemma members_nodup members vs :
  (∀ m1 m2 u1 u2 v1 v2,
    members !! m1 = Some u1 → members !! m2 = Some u2 →
    Unmarshal u1 = inl v1 → Unmarshal u2 = inl v2 → i_Node v1 = i_Node v2 → m1 = m2) →
  Forall2 (λ m v, Unmarshal m.2 = inl v) (map_iter 11 members) vs → NoDup (i_Node <$> vs).
Proof.
  intros Hn HF.
  assert (NoDup (map_iter 11 members).*1) as Hnd by
    (rewrite map_iter_perm; apply NoDup_fst_map_to_list).
  assert (∀ m u, (m, u) ∈ map_iter 11 members → members !! m = Some u) as Hin by
    (intros m u; rewrite map_iter_perm; by intros ?%elem_of_map_to_list).
  revert Hnd Hin HF. generalize (map_iter 11 members). intros l. revert vs.
  induction l as [|[m u] l IH]; intros vs Hnd Hin HF; inversion HF as [|? v ? vs' HU HF']; subst.
  { constructor. }
  cbn [fmap list_fmap]. apply NoDup_cons in Hnd as [Hm Hnd].
  constructor; [|apply IH; [done|set_solver|done]].
  intros (v' & Ev & Hv')%list_elem_of_fmap.
  destruct (list_elem_of_lookup_1 _ _ Hv') as [i Hi].
  destruct (Forall2_lookup_r _ _ _ _ _ HF' Hi) as ([m' u'] & Hi' & HU').
  apply list_elem_of_lookup_2 in Hi'. apply Hm. apply list_elem_of_fmap. exists (m', u').
  split; [|done]. simpl in *. eapply Hn; [..|exact Ev]; eauto; apply Hin; set_solver.
Qed.

Lemma members_of members vs v :
  Forall2 (λ m v, Unmarshal m.2 = inl v) (map_iter 11 members) vs →
  v ∈ vs ↔ is_member members v.
Proof.
  intros HF. unfold is_member. setoid_rewrite <-elem_of_map_to_list.
  setoid_rewrite <-(map_iter_perm _ 11). split.
  - intros [i Hi]%list_elem_of_lookup_1.
    destruct (Forall2_lookup_r _ _ _ _ _ HF Hi) as ([m u] & Hi' & HU).
    exists m, u. split; [by eapply list_elem_of_lookup_2|done].
  - intros (m & u & [i Hi]%list_elem_of_lookup_1 & HU).
    destruct (Forall2_lookup_l _ _ _ _ _ HF Hi) as (v' & Hi' & HU').
    simpl in HU'. assert (v' = v) as -> by congruence. by eapply list_elem_of_lookup_2.
Qed.

Lemma node2member_spec members vs node m :
  Forall2 (λ m v, Unmarshal m.2 = inl v) (map_iter 11 members) vs → NoDup (i_Node <$> vs) →
  foldl (λ (acc : gmap string string) mv, <[i_Node mv.2 := mv.1.1]> acc) ∅ (zip (map_iter 11 members) vs) !! node = Some m ↔
  ∃ u v, members !! m = Some u ∧ Unmarshal u = inl v ∧ i_Node v = node.
Proof.
  intros HF Hnd.
  assert (∀ (acc : gmap string string) (l : list ((string * string) * info)),
    foldl (λ acc mv, <[i_Node mv.2 := mv.1.1]> acc) acc l =
    foldl (λ acc kv, <[kv.1 := kv.2]> acc) acc ((λ mv, (i_Node mv.2, mv.1.1)) <$> l)) as Hfold.
  { intros acc l. revert acc. induction l as [|x l IH]; intros acc; [done|]. apply IH. }
  rewrite Hfold. fold (fill ((λ mv, (i_Node mv.2, mv.1.1)) <$> zip (map_iter 11 members) vs)).
  pose proof (Forall2_length _ _ _ HF) as Hlen.
  rewrite fill_lookup_nodup.
  2:{ rewrite <-list_fmap_compose.
      rewrite (list_fmap_ext _ (i_Node ∘ snd)) by done. rewrite list_fmap_compose, snd_zip by lia. done. }
  rewrite list_elem_of_fmap. setoid_rewrite <-elem_of_map_to_list.
  setoid_rewrite <-(map_iter_perm _ 11). split.
  - intros ([[m' u] v] & Ez & [i Hi]%list_elem_of_lookup_1). simplify_eq/=.
    apply lookup_zip_Some in Hi as [Hi1 Hi2].
    pose proof (Forall2_lookup_lr _ _ _ _ _ _ HF Hi1 Hi2) as HU.
    exists u, v. split_and!; [by eapply list_elem_of_lookup_2|done|done].
  - intros (u & v & [i Hi]%list_elem_of_lookup_1 & HU & <-).
    destruct (Forall2_lookup_l _ _ _ _ _ HF Hi) as (v' & Hi' & HU').
    simpl in HU'. assert (v' = v) as -> by congruence.
    exists ((m, u), v). split; [done|]. eapply list_elem_of_lookup_2. by apply lookup_zip_Some.
Qed.

(** The state in which partitions are assigned. *)
Record prepared (members : gmap string string) (partitions : list Z) (g : Group)
    (n2m : gmap string string) (clean : bool) (g1 : Group) : Prop := {
  pr_claimed : ∀ v, is_member members v →
    n2p_of (node2partition (g_tab g1)) (i_Node v) = claimed (node2partition (g_tab g)) v;
  pr_live : ∀ n, n2p_of (node2partition (g_tab g1)) n ≠ 0 → ∃ v, is_member members v ∧ i_Node v = n;
  pr_assignable : assignable (free_in g1) (node2partition (g_tab g1)) (tail partitions);
  pr_newest : ∀ p, newest_of g1 p = 0 ↔ ¬ (p ∈ partitions ∧ nonempty p = true);
  pr_newest_pos : ∀ p, 0 ≤ newest_of g1 p;
  pr_clean : clean = forallb (settled g1) partitions;
  pr_attached : ∀ p, attached g1 p = true ↔
    ∃ v, is_member members v ∧ claimed (node2partition (g_tab g)) v = p ∧ 0 < p;
  pr_n2m : ∀ node m, n2m !! node = Some m ↔
    ∃ u v, members !! m = Some u ∧ Unmarshal u = inl v ∧ i_Node v = node;
  pr_recovery : is_Some (recovery g1);
  pr_created : created g1 = created g;
  pr_self : self (g_tab g1) = self (g_tab g);
}.

Lemma prepare_spec members partitions g n2m clean g1 :
  plan_input members partitions g →
  prepare Unmarshal OldestOffset NewestOffset members partitions g = (Ok (n2m, clean), g1) →
  prepared members partitions g n2m clean g1.
Proof.
  intros [Hhd Hnd Hoff Hnn Hnodes Hclaims] E. unfold prepare in E.
  apply bind_Ok in E as (? & ? & [= <- <-] & E).
  apply bind_Ok in E as ([n2m' live] & ga & EJ & E).
  destruct (join_members_spec _ _ _ _ _ _ _ EJ) as (vs & HF & Hn2m & Hlive & Hn2p & _ & Hs1).
  apply bind_Ok in E as (? & ? & [= <- <-] & E).
  apply bind_Ok in E as (b & g1' & ER & E). injection E as -> -> ->.
  destruct (read_offsets_spec _ _ _ _ _ _ _ ER) as (Hb & Hnew & Htab & Hrec & Ho0 & Hcr).
  destruct Hs1 as (Hr1 & Hnw1 & _ & Hcr1 & Hself1). simpl in *.
  destruct (attach_live_spec live ga Hr1) as (A1 & A2 & A3 & A4 & A5 & A6 & A7 & A8 & _).
  set (g2 := attach_live live ga) in *.
  pose proof (members_nodup members vs Hnodes HF) as Hvs.
  pose proof (λ v, members_of members vs v HF) as Hmem.
  set (m0 := node2partition (g_tab g)) in *.
  assert (∀ n, n2p_of (node2partition (g_tab g1)) n =
               if decide (n ∈ live) then n2p_of (foldl claim m0 vs) n else 0) as HN.
  { intros n. unfold n2p_of. rewrite Htab, A1, Hn2p. by case_decide. }
  assert (∀ v, v ∈ vs → i_Node v ∈ live) as Hvl by
    (intros v Hv; rewrite Hlive; apply elem_of_union_r, elem_of_list_to_set; by apply list_elem_of_fmap_2).
  assert (∀ n, n ∈ live → ∃ v, v ∈ vs ∧ i_Node v = n) as Hlv by
    (intros n; rewrite Hlive; set_unfold; naive_solver).
  assert (∀ v, is_member members v →
    n2p_of (node2partition (g_tab g1)) (i_Node v) = claimed m0 v) as Hcl.
  { intros v Hv%Hmem. rewrite HN, decide_True by auto. by apply claim_fold. }
  assert (∀ n, n2p_of (node2partition (g_tab g1)) n ≠ 0 → ∃ v, is_member members v ∧ i_Node v = n) as Hln.
  { intros n. rewrite HN. case_decide as Hl; [|done]. intros _.
    destruct (Hlv n Hl) as (v & Hv & ?). exists v. by rewrite <-Hmem. }
  assert (∀ p, attached g1 p = true ↔ ∃ v, is_member members v ∧ claimed m0 v = p ∧ 0 < p) as Hat.
  { intros p. assert (attached g1 p = attached g2 p) as -> by (unfold attached; by rewrite Hrec).
    rewrite A2, Hn2p. split.
    - intros (n & Hl & Hp & Hpos). destruct (Hlv n Hl) as (v & Hv & <-). exists v. split_and!; [by apply Hmem| |done].
      rewrite <-(claim_fold m0 vs v) by done. unfold n2p_of. by rewrite Hp.
    - intros (v & Hv%Hmem & Hc & Hpos). exists (i_Node v). split_and!; [auto| |done].
      rewrite <-(claim_fold m0 vs v) in Hc by done. unfold n2p_of in Hc.
      destruct (foldl claim m0 vs !! i_Node v); simpl in Hc; [by subst|lia]. }
  assert (∀ p, newest_of g1 p = 0 ↔ ¬ (p ∈ partitions ∧ nonempty p = true)) as Hnw.
  { intros p. unfold newest_of. rewrite Hnew. case_decide as Hp.
    - pose proof (newest_offset_pos _ _ p Hoff (proj2 Hp)). simpl. split; [lia|done].
    - rewrite A4, Hnw1. done. }
  split; try done; [|intros p|rewrite Hb|..].
  - destruct partitions as [|p0 ps]; [done|]. simpl in *. injection Hhd as ->.
    apply NoDup_cons in Hnd as [Hz Hnd]. split; [|..|done|done].
    + intros n1 n2 E12 Hne. destruct (Hln n1 Hne) as (v1 & Hv1 & <-).
      rewrite E12 in Hne. destruct (Hln n2 Hne) as (v2 & Hv2 & <-).
      rewrite !Hcl in * by done. apply Hclaims; congruence.
    + intros n p Hp Hfree E. unfold free_in in Hfree. apply andb_true_iff in Hfree as [Hfree _].
      apply negb_true_iff in Hfree. assert (p ≠ 0) as Hpz by (by intros ->). rewrite <-E in Hpz.
      destruct (Hln n Hpz) as (v & Hv & <-). rewrite Hcl in E by done.
      assert (attached g1 p = true); [|congruence]. apply Hat. exists v. split_and!; [done|done|].
      pose proof (n2p_claim_nonneg m0 vs (i_Node v) Hnn) as Hge.
      rewrite claim_fold in Hge by (done || by apply Hmem). rewrite Hcl in Hpz by done. lia.
  - unfold newest_of. rewrite Hnew. case_decide as Hp; [|by rewrite A4, Hnw1].
    pose proof (newest_offset_pos _ _ p Hoff (proj2 Hp)). simpl. lia.
  - clear -Hrec Ho0. simpl. induction partitions as [|p ps IH]; [done|]. cbn [forallb]. rewrite IH.
    f_equal. unfold settled, attached. by rewrite Hrec, Ho0.
  - intros node m. rewrite Hn2m. by apply node2member_spec.
  - rewrite Hrec. destruct A3 as [r ->]. eauto.
  - by rewrite Hcr, A6.
  - by rewrite Htab, A8.
Qed.

(** A successful [Plan], phase by phase. *)
Lemma Plan_Ok members partitions g plan g' :
  plan_input members partitions g →
  Plan Unmarshal OldestOffset NewestOffset CreatePartitions members partitions g = (Ok plan, g') →
  ∃ n2m clean g1 g2, prepared members partitions g n2m clean g1 ∧
    assign_nodes CreatePartitions (Z.of_nat (length partitions)) (map_iter 12 n2m).*1
      (map_iter 13 n2m).*1 (tail partitions) g1 = (Ok tt, g2) ∧
    g' = (if clean then set_recovery None g2 else g2) ∧
    plan = (if clean then
              foldl (λ plan '(node, member), plan_add plan member (partition_of (g_tab g2) node)) ∅
                (map_iter 14 n2m)
            else
              foldl (λ plan p, if (p =? 0) || (0 <? newest_of g2 p)
                then plan_add plan (default "" (n2m !! i_Node (self (g_tab g2)))) p
                else plan) ∅ partitions).
Proof.
  intros Hin E. unfold Plan in E. apply bind_Ok in E as ([n2m clean] & g1 & EP & E).
  apply bind_Ok in E as ([] & g2 & EA & E). apply bind_Ok in E as (? & ? & [= <- <-] & E).
  exists n2m, clean, g1, g2. split; [by eapply prepare_spec|]. split; [done|].
  destruct clean; simpl in E; inv_ok; [|done]. rename select (modify _ _ = _) into EM.
  by injection EM as <- <-.
Qed.

Lemma node_of_member members partitions g n2m clean g1 v site :
  prepared members partitions g n2m clean g1 → is_member members v →
  i_Node v ∈ (map_iter site n2m).*1.
Proof.
  intros Hp (m & u & Hm & HU). apply list_elem_of_fmap. exists (i_Node v, m). split; [done|].
  rewrite map_iter_perm. apply elem_of_map_to_list. apply (pr_n2m _ _ _ _ _ _ Hp). eauto.
Qed.

(** The assignment a successful plan leaves in [node2partition]. *)
Record assignment_ok (members : gmap string string) (partitions : list Z) (g g' : Group) : Prop := {
  ao_total : ∀ v, is_member members v → partition_of (g_tab g') (i_Node v) ≠ 0;
  ao_distinct : ∀ v1 v2, is_member members v1 → is_member members v2 →
    partition_of (g_tab g') (i_Node v1) = partition_of (g_tab g') (i_Node v2) →
    i_Node v1 = i_Node v2;
  ao_kept : ∀ v, is_member members v → claimed (node2partition (g_tab g)) v ≠ 0 →
    partition_of (g_tab g') (i_Node v) = claimed (node2partition (g_tab g)) v;
  ao_new : ∀ v, is_member members v → claimed (node2partition (g_tab g)) v = 0 →
    partition_of (g_tab g') (i_Node v) ∈ partitions ∧
    nonempty (partition_of (g_tab g') (i_Node v)) = false ∧
    ∀ v', is_member members v' →
      claimed (node2partition (g_tab g)) v' ≠ partition_of (g_tab g') (i_Node v);
}.

Lemma Plan_assignment members partitions g plan g' :
  plan_input members partitions g →
  Plan Unmarshal OldestOffset NewestOffset CreatePartitions members partitions g = (Ok plan, g') →
  assignment_ok members partitions g g'.
Proof.
  intros Hin E. destruct (Plan_Ok _ _ _ _ _ Hin E) as (n2m & clean & g1 & g2 & Hp & EA & Eg & _).
  destruct (assign_nodes_spec _ _ _ _ _ _ _ _ (pr_assignable _ _ _ _ _ _ Hp) EA)
    as (Hinj & Hext & _ & Hall & _).
  assert (node2partition (g_tab g') = node2partition (g_tab g2)) as Hg by (rewrite Eg; by destruct clean).
  assert (∀ n, partition_of (g_tab g') n = n2p_of (node2partition (g_tab g2)) n) as HP
    by (intros n; unfold partition_of, n2p_of; by rewrite Hg).
  assert (∀ v, is_member members v → n2p_of (node2partition (g_tab g2)) (i_Node v) ≠ 0) as Hne.
  { intros v Hv. apply Hall. by eapply node_of_member. }
  assert (∀ p, p ∈ tail partitions → p ∈ partitions) as Htl by
    (intros p; destruct partitions; [done|by right]).
  split.
  - intros v Hv. rewrite HP. auto.
  - intros v1 v2 Hv1 Hv2. rewrite !HP. intros E12. apply Hinj; auto.
  - intros v Hv Hc. rewrite HP. destruct (Hext (i_Node v)) as [->|(E0 & _)].
    + by apply (pr_claimed _ _ _ _ _ _ Hp).
    + rewrite (pr_claimed _ _ _ _ _ _ Hp) in E0 by done. done.
  - intros v Hv Hc. rewrite HP. destruct (Hext (i_Node v)) as [E0|(_ & Hin' & Hfree)].
    { rewrite (pr_claimed _ _ _ _ _ _ Hp), Hc in E0 by done. by destruct (Hne v Hv). }
    set (p := n2p_of _ _) in *. unfold free_in in Hfree. apply andb_true_iff in Hfree as [Ha Hn].
    apply negb_true_iff in Ha. apply Z.eqb_eq, (pr_newest _ _ _ _ _ _ Hp) in Hn.
    split_and!; [by apply Htl| |].
    + destruct (nonempty p) eqn:Enp; [|done]. exfalso. apply Hn. auto.
    + intros v' Hv' Ec. assert (attached g1 p = true); [|congruence].
      apply (pr_attached _ _ _ _ _ _ Hp). exists v'. split_and!; [done|done|].
      assert (claimed (node2partition (g_tab g)) v' ≠ 0) as Hnz by (rewrite Ec; by apply Hne).
      assert (0 ≤ claimed (node2partition (g_tab g)) v') as Hge; [|lia].
      unfold claimed. destruct (Z.ltb_spec 0 (i_Partition v')); [lia|]. apply Hin.
Qed.

(** Folding [plan.Add] over members, each once. *)
Lemma plan_add_fold (f : string → Z) (l : list (string * string)) plan :
  NoDup l.*2 → (∀ m, m ∈ l.*2 → plan !! m = None) →
  ∀ m, foldl (λ plan '(node, member), plan_add plan member (f node)) plan l !! m =
       match find (λ nm, String.eqb nm.2 m) l with
       | Some (node, _) => Some [f node]
       | None => plan !! m
       end.
Proof.
  revert plan. induction l as [|[node m0] l IH]; intros plan Hnd Hfresh m; [done|].
  cbn [fmap list_fmap] in *. apply NoDup_cons in Hnd as [Hm0 Hnd]. cbn [foldl find snd].
  assert (plan_add plan m0 (f node) = <[m0 := [f node]]> plan) as EP.
  { unfold plan_add. rewrite (Hfresh m0) by set_solver. done. }
  rewrite EP, IH; [|done|].
  - destruct (String.eqb_spec m0 m) as [->|Hne].
    + destruct (find _ l) as [[n' m']|] eqn:EF; [|by rewrite lookup_insert_eq].
      apply find_some in EF as [HinL Heq]. simpl in Heq. apply String.eqb_eq in Heq. subst m'.
      exfalso. apply Hm0. apply list_elem_of_fmap. exists (n', m). split; [done|]. by apply list_elem_of_In.
    + destruct (find _ l) as [[n' m']|]; [done|]. by rewrite lookup_insert_ne.
  - intros m' Hm'. rewrite lookup_insert_ne by set_solver. apply Hfresh. set_solver.
Qed.

Lemma n2m_members_nodup members partitions g n2m clean g1 site :
  prepared members partitions g n2m clean g1 → NoDup (map_iter site n2m).*2.
Proof.
  intros Hp. apply NoDup_fmap_2_strong.
  - intros [n1 m1] [n2 m2] H1 H2 E. simpl in E. subst m2.
    rewrite map_iter_perm, elem_of_map_to_list in H1, H2.
    apply (pr_n2m _ _ _ _ _ _ Hp) in H1 as (u1 & v1 & Hm1 & HU1 & <-).
    apply (pr_n2m _ _ _ _ _ _ Hp) in H2 as (u2 & v2 & Hm2 & HU2 & <-). congruence.
  - rewrite map_iter_perm. apply NoDup_map_to_list.
Qed.

(** In a clean generation every member is given its own partition and nothing
    else, and every non-empty partition but 0 is someone's. *)
Lemma Plan_clean members partitions g plan g' :
  plan_input members partitions g →
  Plan Unmarshal OldestOffset NewestOffset CreatePartitions members partitions g = (Ok plan, g') →
  recovery g' = None →
  (∀ m u v, members !! m = Some u → Unmarshal u = inl v →
     plan !! m = Some [partition_of (g_tab g') (i_Node v)]) ∧
  (∀ p, p ∈ partitions → p ≠ 0 → nonempty p = true →
     ∃ m u v, members !! m = Some u ∧ Unmarshal u = inl v ∧ plan !! m = Some [p]).
Proof.
  intros Hin E Hrec. pose proof (Plan_assignment _ _ _ _ _ Hin E) as Hao.
  destruct (Plan_Ok _ _ _ _ _ Hin E) as (n2m & clean & g1 & g2 & Hp & EA & Eg & Epl).
  destruct (assign_nodes_spec _ _ _ _ _ _ _ _ (pr_assignable _ _ _ _ _ _ Hp) EA) as (_ & _ & Hs & _).
  destruct clean; [|subst g'; destruct Hs as (Hr & _); destruct (pr_recovery _ _ _ _ _ _ Hp); congruence].
  assert (∀ m u v, members !! m = Some u → Unmarshal u = inl v →
     plan !! m = Some [partition_of (g_tab g') (i_Node v)]) as Hplan.
  { intros m u v Hm HU. rewrite Epl, plan_add_fold; [|by eapply n2m_members_nodup|done].
    assert (n2m !! i_Node v = Some m) as Hn2m by (apply (pr_n2m _ _ _ _ _ _ Hp); eauto).
    destruct (find _ _) as [[n' m']|] eqn:EF.
    - apply find_some in EF as [HinL Heq]. simpl in Heq. apply String.eqb_eq in Heq. subst m'.
      apply list_elem_of_In in HinL. rewrite map_iter_perm, elem_of_map_to_list in HinL.
      apply (pr_n2m _ _ _ _ _ _ Hp) in HinL as (u' & v' & Hm' & HU' & <-).
      assert (v' = v) as -> by congruence. by subst g'.
    - exfalso. eapply find_none in EF; [|apply list_elem_of_In; rewrite map_iter_perm;
        by apply elem_of_map_to_list]. simpl in EF. by rewrite String.eqb_refl in EF. }
  split; [done|]. intros p Hpin Hpz Hne.
  pose proof (pr_clean _ _ _ _ _ _ Hp) as Hcl. symmetry in Hcl. rewrite forallb_forall in Hcl.
  specialize (Hcl p (proj1 (list_elem_of_In _ _) Hpin)). unfold settled in Hcl.
  rewrite Hne, (proj2 (Z.eqb_neq p 0)) in Hcl by done. simpl in Hcl.
  apply (pr_attached _ _ _ _ _ _ Hp) in Hcl as (v & Hv & Hc & Hpos).
  pose proof Hv as (m & u & Hm & HU). exists m, u, v. split_and!; [done|done|].
  rewrite (Hplan m u v Hm HU). rewrite (ao_kept _ _ _ _ Hao v Hv) by lia. by rewrite Hc.
Qed.

(** Nobody else is in the plan. *)
Lemma Plan_clean_members members partitions g plan g' m ps :
  plan_input members partitions g →
  Plan Unmarshal OldestOffset NewestOffset CreatePartitions members partitions g = (Ok plan, g') →
  recovery g' = None →
  plan !! m = Some ps ↔
  ∃ u v, members !! m = Some u ∧ Unmarshal u = inl v ∧ ps = [partition_of (g_tab g') (i_Node v)].
Proof.
  intros Hin E Hrec. destruct (Plan_clean _ _ _ _ _ Hin E Hrec) as [Hplan _]. split.
  - destruct (Plan_Ok _ _ _ _ _ Hin E) as (n2m & clean & g1 & g2 & Hp & EA & Eg & Epl).
    destruct (assign_nodes_spec _ _ _ _ _ _ _ _ (pr_assignable _ _ _ _ _ _ Hp) EA) as (_ & _ & Hs & _).
    destruct clean; [|subst g'; destruct Hs as (Hr & _); destruct (pr_recovery _ _ _ _ _ _ Hp); congruence].
    intros Hm. pose proof Hm as Hm'. rewrite Epl, plan_add_fold in Hm'; [|by eapply n2m_members_nodup|done].
    destruct (find _ _) as [[n' m']|] eqn:EF; [|done].
    apply find_some in EF as [HinL Heq]. simpl in Heq. apply String.eqb_eq in Heq. subst m'.
    apply list_elem_of_In in HinL. rewrite map_iter_perm, elem_of_map_to_list in HinL.
    apply (pr_n2m _ _ _ _ _ _ Hp) in HinL as (u & v & Hu & HU & _).
    exists u, v. split_and!; [done|done|]. rewrite (Hplan m u v Hu HU) in Hm. congruence.
  - intros (u & v & Hu & HU & ->). by apply (Hplan m u v).
Qed.

(** In recovery the leader is given partition 0 and every non-empty partition,
    the others nothing. *)
Lemma plan_add_leader (keep : Z → bool) leader ps plan :
  foldl (λ plan p, if keep p then plan_add plan leader p else plan) plan ps =
  match filter (λ p, keep p = true) ps with
  | [] => plan
  | kept => <[leader := default [] (plan !! leader) ++ kept]> plan
  end.
Proof.
  revert plan. induction ps as [|p ps IH]; intros plan; [done|]. cbn [foldl]. rewrite filter_cons, IH.
  destruct (keep p); simpl; [|done]. unfold plan_add. rewrite lookup_insert_eq. simpl.
  destruct (filter _ ps); [done|]. rewrite insert_insert_eq, <-app_assoc. done.
Qed.

Lemma Plan_recovery members partitions g plan g' m u v :
  plan_input members partitions g →
  members !! m = Some u → Unmarshal u = inl v → i_Node v = i_Node (self (g_tab g)) →
  Plan Unmarshal OldestOffset NewestOffset CreatePartitions members partitions g = (Ok plan, g') →
  recovery g' ≠ None →
  plan = {[m := filter (λ p, p = 0 ∨ nonempty p = true) partitions]} ∧
  (∀ p, attached g' p = true ↔
     ∃ v, is_member members v ∧ claimed (node2partition (g_tab g)) v = p ∧ 0 < p) ∧
  (∃ p, p ∈ partitions ∧ nonempty p = true ∧ attached g' p = false).
Proof.
  intros Hin Hm HU Hself E Hrec.
  destruct (Plan_Ok _ _ _ _ _ Hin E) as (n2m & clean & g1 & g2 & Hp & EA & Eg & Epl).
  destruct (assign_nodes_spec _ _ _ _ _ _ _ _ (pr_assignable _ _ _ _ _ _ Hp) EA)
    as (_ & _ & (Hr2 & Hn2 & _ & _ & Ht2) & _).
  destruct clean; [by subst g'|]. subst g'.
  assert (∀ p, attached g2 p = attached g1 p) as Hat by (intros; unfold attached; by rewrite Hr2).
  assert (i_Node (self (g_tab g2)) = i_Node v) as Hs by
    (rewrite Ht2; simpl; rewrite (pr_self _ _ _ _ _ _ Hp); done).
  assert (n2m !! i_Node v = Some m) as Hn2m by (apply (pr_n2m _ _ _ _ _ _ Hp); eauto).
  assert (∀ p, 0 < newest_of g2 p ↔ p ∈ partitions ∧ nonempty p = true) as Hnw.
  { intros p. assert (newest_of g2 p = newest_of g1 p) as -> by (unfold newest_of; by rewrite Hn2).
    pose proof (pr_newest _ _ _ _ _ _ Hp p) as Hz. pose proof (pr_newest_pos _ _ _ _ _ _ Hp p) as Hge.
    destruct (decide (p ∈ partitions ∧ nonempty p = true)) as [Hd|Hd].
    - assert (newest_of g1 p ≠ 0) by tauto. split; [done|lia].
    - assert (newest_of g1 p = 0) by tauto. split; [lia|done]. }
  split_and!.
  - rewrite Epl, Hs, Hn2m. cbn [default]. rewrite plan_add_leader.
    rewrite (filter_ext_in _ (λ p, p = 0 ∨ nonempty p = true)).
    2:{ intros p Hpin. rewrite orb_true_iff, Z.eqb_eq, Z.ltb_lt, Hnw. tauto. }
    pose proof (pi_parts _ _ _ Hin) as Hhd. destruct partitions as [|p0 ps]; [done|].
    simpl in Hhd. injection Hhd as ->. rewrite filter_cons, decide_True by auto. done.
  - intros p. rewrite Hat. apply (pr_attached _ _ _ _ _ _ Hp).
  - pose proof (pr_clean _ _ _ _ _ _ Hp) as Hcl. symmetry in Hcl.
    assert (∃ p, p ∈ partitions ∧ settled g1 p = false) as (p & Hpin & Hst).
    { clear -Hcl. induction partitions as [|p ps IH]; [done|]. cbn [forallb] in Hcl.
      destruct (settled g1 p) eqn:Es; [|set_solver]. destruct IH as (q & ? & ?); [done|set_solver]. }
    exists p. unfold settled in Hst. apply orb_false_iff in Hst as [Hne Hst].
    apply negb_false_iff in Hne. split_and!; [done|done|]. rewrite Hat.
    destruct (Z.eqb_spec p 0) as [->|]; [|done].
    destruct (attached g1 0) eqn:E0; [|done]. apply (pr_attached _ _ _ _ _ _ Hp) in E0 as (? & _ & _ & ?). lia.
Qed.

(** The client answers: metadata decode and offsets are known. *)
Definition readable (members : gmap string string) (partitions : list Z) : Prop :=
  (∀ m u, members !! m = Some u → ∃ v, Unmarshal u = inl v) ∧
  (∀ p, p ∈ partitions → (∃ a, OldestOffset p = inl a) ∧ ∃ b, NewestOffset p = inl b).

Lemma prepare_total members partitions g :
  readable members partitions →
  ∃ n2m clean g1,
    prepare Unmarshal OldestOffset NewestOffset members partitions g = (Ok (n2m, clean), g1).
Proof.
  intros [Hm Hp].
  assert (∃ vs, Forall2 (λ m v, Unmarshal m.2 = inl v) (map_iter 11 members) vs) as [vs HF].
  { assert (∀ m u, (m, u) ∈ map_iter 11 members → ∃ v, Unmarshal u = inl v) as Hl.
    { intros m u. rewrite map_iter_perm, elem_of_map_to_list. eauto. }
    induction (map_iter 11 members) as [|[m u] l IH]; [by exists []|].
    destruct (Hl m u) as [v Hv]; [set_solver|].
    destruct IH as [vs Hvs]; [intros m' u' ?; apply (Hl m'); set_solver|].
    exists (v :: vs). by constructor. }
  destruct (join_members_total _ _ _ ∅ ∅ (reset g) HF) as ([n2m live] & ga & EJ).
  destruct (read_offsets_total _ _ partitions true (attach_live live ga) Hp) as (b & g1 & ER).
  exists n2m, b, g1. unfold prepare, bind, modify. by rewrite EJ, ER.
Qed.

Lemma Plan_Err members partitions g r g' :
  plan_input members partitions g → readable members partitions →
  Plan Unmarshal OldestOffset NewestOffset CreatePartitions members partitions g = (r, g') →
  (∀ plan, r ≠ Ok plan) →
  ∃ n2m clean g1 e, prepared members partitions g n2m clean g1 ∧ r = Err e ∧
    assign_nodes CreatePartitions (Z.of_nat (length partitions)) (map_iter 12 n2m).*1
      (map_iter 13 n2m).*1 (tail partitions) g1 = (Err e, g').
Proof.
  intros Hin Hr E HnOk. destruct (prepare_total members partitions g Hr) as (n2m & clean & g1 & EP).
  pose proof (prepare_spec _ _ _ _ _ _ Hin EP) as Hp. exists n2m, clean, g1.
  unfold Plan, bind at 1 in E. rewrite EP in E. unfold bind at 1 in E.
  destruct (assign_nodes _ _ _ _ _ g1) as [ra ga] eqn:EA.
  destruct (assign_nodes_spec _ _ _ _ _ _ _ _ (pr_assignable _ _ _ _ _ _ Hp) EA) as (_ & _ & _ & HR).
  destruct ra as [[]|e| |]; try done.
  - exfalso. unfold bind, get, modify in E.
    destruct clean; simpl in E; injection E as <- <-; by eapply HnOk.
  - injection E as <- <-. eauto.
Qed.

(** The assignment kept when the plan fails is consistent with the claims. *)
Lemma claimed_after members partitions g n2m clean g1 g' ps v :
  prepared members partitions g n2m clean g1 →
  extends (free_in g1) ps (node2partition (g_tab g1)) (node2partition (g_tab g')) →
  is_member members v →
  claimed (node2partition (g_tab g')) v = n2p_of (node2partition (g_tab g')) (i_Node v).
Proof.
  intros Hp Hext Hv. unfold claimed. destruct (Z.ltb_spec 0 (i_Partition v)) as [Hpos|]; [|done].
  pose proof (pr_claimed _ _ _ _ _ _ Hp v Hv) as Hc. unfold claimed in Hc.
  rewrite (proj2 (Z.ltb_lt _ _) Hpos) in Hc.
  destruct (Hext (i_Node v)) as [->|(E0 & _)]; [done|lia].
Qed.

End plan_spec.

Lemma n2m_perm `{MapIter} s1 s2 (n2m n2m' : gmap string string) (m : gmap string Z) :
  dom n2m = dom n2m' →
  length (filter (λ n, n2p_of m n = 0%Z) (map_iter s1 n2m).*1) =
  length (filter (λ n, n2p_of m n = 0%Z) (map_iter s2 n2m').*1).
Proof.
  intros Hd. apply Permutation_length. f_equiv. rewrite !map_iter_perm.
  apply NoDup_Permutation; [apply NoDup_fst_map_to_list..|]. intros n.
  rewrite !list_elem_of_fmap. split; intros ([n' x] & -> & Hx%elem_of_map_to_list); simpl.
  - assert (n' ∈ dom n2m') as [y Hy]%elem_of_dom by (rewrite <-Hd; by eapply elem_of_dom_2).
    exists (n', y). by rewrite elem_of_map_to_list.
  - assert (n' ∈ dom n2m) as [y Hy]%elem_of_dom by (rewrite Hd; by eapply elem_of_dom_2).
    exists (n', y). by rewrite elem_of_map_to_list.
Qed.

(* ---------------------------------------------------------------------- *)
(** ** Asking for more partitions *)

Section retry.
Context `{MapIter}.
Context (Unmarshal : string → info + gerror).
Context (OldestOffset NewestOffset OldestOffset' NewestOffset' : Z → Z + gerror).
Context (CreatePartitions : Z → option gerror).

(** The topic after [CreatePartitions]: empty partitions were appended. *)
Record grown (partitions extra : list Z) : Prop := {
  gr_nodup : NoDup (partitions ++ extra);
  gr_offsets : ∀ p a, OldestOffset' p = inl a → 0 ≤ a;
  gr_empty : ∀ p, p ∈ extra → nonempty OldestOffset' NewestOffset' p = false;
}.

Lemma retry_input members partitions extra g n2m clean g1 g' :
  plan_input Unmarshal OldestOffset members partitions g →
  prepared Unmarshal OldestOffset NewestOffset members partitions g n2m clean g1 →
  injective (node2partition (g_tab g')) →
  extends (free_in g1) (tail partitions) (node2partition (g_tab g1)) (node2partition (g_tab g')) →
  grown partitions extra → (∀ p, p ∈ partitions → 0 ≤ p) →
  plan_input Unmarshal OldestOffset' members (partitions ++ extra) g'.
Proof.
  intros Hin Hp Hinj Hext Hgr Hpos. split; [|apply Hgr..| |apply Hin|].
  - pose proof (pi_parts _ _ _ _ _ Hin). by destruct partitions.
  - intros n. destruct (Hext n) as [->|(_ & Hn & _)].
    + destruct (Z.eq_dec (n2p_of (node2partition (g_tab g1)) n) 0) as [->|Hne]; [done|].
      destruct (pr_live _ _ _ _ _ _ _ _ _ Hp n Hne) as (v & Hv & <-).
      rewrite (pr_claimed _ _ _ _ _ _ _ _ _ Hp v Hv). unfold claimed.
      destruct (Z.ltb_spec 0 (i_Partition v)); [lia|]. apply Hin.
    + apply Hpos. destruct partitions; [done|by right].
  - intros v1 v2 Hv1 Hv2.
    rewrite !(claimed_after _ _ _ _ _ _ _ _ _ _ _ _ Hp Hext) by done. apply Hinj.
Qed.

Lemma Plan_retry members partitions extra g e g' :
  plan_input Unmarshal OldestOffset members partitions g →
  readable Unmarshal OldestOffset NewestOffset members partitions →
  readable Unmarshal OldestOffset' NewestOffset' members (partitions ++ extra) →
  (∀ p, p ∈ partitions → 0 ≤ p) →
  (∀ v, is_member Unmarshal members v → claimed (node2partition (g_tab g)) v ∈ partitions) →
  (∀ count, CreatePartitions count = None) →
  Plan Unmarshal OldestOffset NewestOffset CreatePartitions members partitions g = (Err e, g') →
  e = ETooFewPartitions ∧
  ∃ count, created g' = count :: created g ∧ Z.of_nat (length partitions) < count ∧
    (grown partitions extra → Z.of_nat (length (partitions ++ extra)) = count →
     ∃ plan g'', Plan Unmarshal OldestOffset' NewestOffset' CreatePartitions members
                   (partitions ++ extra) g' = (Ok plan, g'')).
Proof.
  intros Hin Hr Hr' Hpos Hcl HC E.
  destruct (Plan_Err _ _ _ _ _ _ _ _ _ Hin Hr E) as (n2m & clean & g1 & e' & Hp & [= <-] & EA); [done|].
  destruct (assign_nodes_spec _ _ _ _ _ _ _ _ (pr_assignable _ _ _ _ _ _ _ _ _ Hp) EA)
    as (Hinj & Hext & _ & Hcr & He & n0 & Hn0 & Hz0).
  split; [by apply He|]. eexists. split; [by rewrite Hcr, (pr_created _ _ _ _ _ _ _ _ _ Hp)|].
  set (missing := count_missing _ _) in *. assert (0 < missing) as Hmiss.
  { subst missing. unfold count_missing. rewrite (n2m_perm 12 13 n2m n2m) by done.
    assert (n0 ∈ filter (λ n, n2p_of (node2partition (g_tab g')) n = 0) (map_iter 13 n2m).*1)
      as Hf by (by apply list_elem_of_filter).
    destruct (filter _ _); [by apply elem_of_nil in Hf|]. simpl. lia. }
  split; [lia|]. intros Hgr Hlen.
  pose proof (retry_input _ _ _ _ _ _ _ _ Hin Hp Hinj Hext Hgr Hpos) as Hin'.
  destruct (prepare_total Unmarshal OldestOffset' NewestOffset' members (partitions ++ extra) g' Hr')
    as (n2m' & clean' & g1' & EP).
  pose proof (prepare_spec _ _ _ _ _ _ _ _ _ Hin' EP) as Hp'.
  assert (∀ n m, n2m' !! n = Some m ↔ n2m !! n = Some m) as Hsame.
  { intros. by rewrite (pr_n2m _ _ _ _ _ _ _ _ _ Hp), (pr_n2m _ _ _ _ _ _ _ _ _ Hp'). }
  assert (n2m' = n2m) as -> by (apply map_eq; intros n; apply option_eq; apply Hsame).
  assert (∀ p, p ∈ extra → free_in g1' p = true) as Hfree.
  { intros p Hpe. unfold free_in. apply andb_true_iff. split.
    - apply negb_true_iff. destruct (attached g1' p) eqn:Ea; [|done]. exfalso.
      apply (pr_attached _ _ _ _ _ _ _ _ _ Hp') in Ea as (v & Hv & Hc & _).
      rewrite (claimed_after _ _ _ _ _ _ _ _ _ _ _ _ Hp Hext) in Hc by done.
      assert (p ∈ partitions) as Hpp.
      { destruct (Hext (i_Node v)) as [E0|(_ & Hi & _)].
        - rewrite E0, (pr_claimed _ _ _ _ _ _ _ _ _ Hp v Hv) in Hc. rewrite <-Hc. auto.
        - rewrite Hc in Hi. destruct partitions; [done|by right]. }
      pose proof (gr_nodup _ _ Hgr) as Hnd. apply NoDup_app in Hnd as (_ & Hd & _). by apply (Hd p).
    - apply Z.eqb_eq, (pr_newest _ _ _ _ _ _ _ _ _ Hp'). intros [_ Hne].
      by rewrite (gr_empty _ _ Hgr p Hpe) in Hne. }
  destruct (assign_nodes_enough CreatePartitions (Z.of_nat (length (partitions ++ extra)))
              (map_iter 12 n2m).*1 (map_iter 13 n2m).*1 (tail (partitions ++ extra)) g1') as [g2 EA'].
  - rewrite map_iter_perm. apply NoDup_fst_map_to_list.
  - apply Hp'.
  - rewrite (filter_ext_in _ (λ n, n2p_of (node2partition (g_tab g')) n = 0)).
    2:{ intros n ([n' m] & -> & Hx)%list_elem_of_fmap. rewrite map_iter_perm, elem_of_map_to_list in Hx.
        apply (pr_n2m _ _ _ _ _ _ _ _ _ Hp') in Hx as (u & v & Hm & HU & <-). simpl.
        rewrite (pr_claimed _ _ _ _ _ _ _ _ _ Hp') by (exists m, u; done).
        rewrite (claimed_after _ _ _ _ _ _ _ _ _ _ _ _ Hp Hext) by (exists m, u; done). done. }
    rewrite (n2m_perm 13 12 n2m n2m) by done.
    assert (Z.of_nat (length extra) = missing) as Hex by (rewrite length_app in Hlen; lia).
    unfold missing, count_missing in Hex. apply Nat2Z.inj in Hex. rewrite <-Hex.
    pose proof (pi_parts _ _ _ _ _ Hin). destruct partitions as [|p0 ps]; [done|]. cbn [tail app].
    rewrite filter_app, length_app, (filter_all _ extra) by auto. lia.
  - unfold Plan, bind at 1. rewrite EP. unfold bind at 1. rewrite EA'.
    destruct clean'; do 2 eexists; reflexivity.
Qed.
End retry.

(* ---------------------------------------------------------------------- *)
(** ** Rebuilding the tables *)

Lemma push_elem k v m s n :
  n ∈ default [] (push k v m !! s) ↔ n ∈ default [] (m !! s) ∨ (k = s ∧ n = v).
Proof.
  unfold push. rewrite lookup_insert. case_decide as Hk; simpl; [subst|]; set_solver.
Qed.

Lemma add_services_elem v m s n :
  n ∈ default [] (add_services v m !! s) ↔
  n ∈ default [] (m !! s) ∨ (s ∈ i_Services v ∧ n = i_Node v).
Proof.
  unfold add_services. revert m. induction (i_Services v) as [|s' ss IH]; intros m; cbn [foldl].
  - set_solver.
  - rewrite IH, push_elem. set_solver.
Qed.

Lemma add_services_fold vs m s n :
  n ∈ default [] (foldl (flip add_services) m vs !! s) ↔
  n ∈ default [] (m !! s) ∨ ∃ v, v ∈ vs ∧ s ∈ i_Services v ∧ n = i_Node v.
Proof.
  revert m. induction vs as [|v vs IH]; intros m; cbn [foldl flip].
  - split; [by left|]. intros [|(v & Hv & _)]; [done|by apply elem_of_nil in Hv].
  - rewrite IH, add_services_elem. set_solver.
Qed.

Section routes.
Context `{MapIter}.
Context (Unmarshal : string → info + gerror).

(** A member whose metadata decode to [v] and that was assigned [p]. *)
Definition described (m : string * memberDescription) (vp : info * Z) : Prop :=
  ∃ u ps, m.2 = mkMember (inl (Some u)) (inl (vp.2 :: ps)) ∧ Unmarshal u = inl vp.1.

Lemma rebuild_spec ms rows t :
  Forall2 described ms rows →
  ∃ t', rebuild Unmarshal ms t = (Ok tt, t') ∧
    node2partition t' = foldl (λ m kv, <[kv.1 := kv.2]> m) (node2partition t)
                          ((λ vp, (i_Node vp.1, vp.2)) <$> rows) ∧
    node2port t' = foldl (λ m kv, <[kv.1 := kv.2]> m) (node2port t)
                     ((λ vp, (i_Node vp.1, i_Port vp.1)) <$> rows) ∧
    service2nodes t' = foldl (flip add_services) (service2nodes t) rows.*1 ∧
    self t' = self t ∧ appTopic t' = appTopic t ∧ PlacementCache t' = PlacementCache t ∧
    session2NodeCache t' = session2NodeCache t.
Proof.
  intros HF. revert t.
  induction HF as [|[k d] [v p] ms rows (u & ps & Hd & HU) HF IH]; intros t; [by eexists|].
  simpl in Hd, HU. subst d. cbn [rebuild]. unfold of_sum at 1. cbn [md_metadata md_assignment].
  unfold bind at 1, ret at 1. rewrite HU.
  destruct (IH (set_port (<[i_Node v := i_Port v]> (node2port t))
                 (set_n2p (<[i_Node v := p]> (node2partition t))
                    (set_s2n (add_services v (service2nodes t)) t)))) as (t' & E & R).
  exists t'. split; [exact E|exact R].
Qed.

(** The group as every member sees it once [plan] is agreed on. *)
Definition describe (members : gmap string string) (plan : gmap string (list Z))
    : gmap string memberDescription :=
  map_imap (λ m u, Some (mkMember (inl (Some u)) (inl (default [] (plan !! m))))) members.

Lemma updateRoutes_spec members plan (part : info → Z) t :
  (∀ m u, members !! m = Some u → ∃ v, Unmarshal u = inl v ∧ plan !! m = Some [part v]) →
  (∀ m1 m2 u1 u2 v1 v2,
    members !! m1 = Some u1 → members !! m2 = Some u2 →
    Unmarshal u1 = inl v1 → Unmarshal u2 = inl v2 → i_Node v1 = i_Node v2 → m1 = m2) →
  ∃ t', updateRoutes Unmarshal (inl (describe members plan)) t = (Ok tt, t') ∧
    (∀ n p, node2partition t' !! n = Some p ↔
            ∃ v, is_member Unmarshal members v ∧ i_Node v = n ∧ part v = p) ∧
    (∀ s n, n ∈ nodes_of t' s ↔
            ∃ v, is_member Unmarshal members v ∧ i_Node v = n ∧ s ∈ i_Services v) ∧
    self t' = self t ∧ session2NodeCache t' = ∅.
Proof.
  intros Hplan Hnodes. set (ms := map_iter 15 (describe members plan)).
  assert (∀ m d, (m, d) ∈ ms ↔ ∃ u v, members !! m = Some u ∧ Unmarshal u = inl v ∧
            d = mkMember (inl (Some u)) (inl [part v])) as Hms.
  { intros m d. unfold ms. rewrite map_iter_perm, elem_of_map_to_list. unfold describe.
    rewrite map_lookup_imap. destruct (members !! m) as [u|] eqn:Em; simpl.
    - destruct (Hplan m u Em) as (v & HU & Ep). rewrite Ep. split.
      + intros [= <-]. eauto.
      + intros (u' & v' & [= <-] & HU' & ->). simpl. congruence.
    - split; [done|]. by intros (? & ? & ? & _). }
  assert (NoDup ms.*1) as Hnd by (unfold ms; rewrite map_iter_perm; apply NoDup_fst_map_to_list).
  assert (∃ rows, Forall2 described ms rows ∧ NoDup (i_Node <$> rows.*1) ∧
    ∀ v p, (v, p) ∈ rows ↔ ∃ m u, (m, mkMember (inl (Some u)) (inl [part v])) ∈ ms ∧
             members !! m = Some u ∧ Unmarshal u = inl v ∧ p = part v) as (rows & HF & Hrn & Hrows).
  { clearbody ms. assert (∀ m d, (m, d) ∈ ms → ∃ u v, members !! m = Some u ∧ Unmarshal u = inl v ∧
            d = mkMember (inl (Some u)) (inl [part v])) as Hms' by (intros; by apply Hms).
    clear Hms. induction ms as [|[m d] ms IH].
    - exists []. split_and!; [constructor|constructor|]. set_solver.
    - apply NoDup_cons in Hnd as [Hm Hnd].
      destruct (Hms' m d) as (u & v & Em & HU & ->); [set_solver|].
      destruct IH as (rows & HF & Hrn & Hrows); [done|set_solver|].
      exists ((v, part v) :: rows). split_and!.
      + constructor; [by exists u, []|done].
      + cbn [fmap list_fmap]. constructor; [|done]. cbn [fst].
        intros (v' & Ev & ([v'' p'] & -> & Hv')%list_elem_of_fmap)%list_elem_of_fmap. simpl in Ev.
        apply Hrows in Hv' as (m' & u' & Hin & Em' & HU' & _). apply Hm.
        rewrite (Hnodes _ _ _ _ _ _ Em Em' HU HU' Ev). apply list_elem_of_fmap.
        exists (m', mkMember (inl (Some u')) (inl [part v''])). done.
      + intros v' p'. rewrite elem_of_cons, Hrows. setoid_rewrite elem_of_cons. split.
        * intros [[= -> ->]|(m' & u' & ? & ? & ? & ?)]; [exists m, u|exists m', u']; auto.
        * intros (m' & u' & [[= -> -> Ep]|Hin] & Em' & HU' & ->); [left|right; eauto 10].
          congruence. }
  destruct (rebuild_spec ms rows (set_cache ∅ (set_port ∅ (set_n2p ∅ (set_s2n ∅ t)))) HF)
    as (t' & E & Hp & _ & Hs & Hself & _ & _ & Hc).
  exists t'. split; [exact E|].
  assert (∀ v p, (v, p) ∈ rows ↔ is_member Unmarshal members v ∧ p = part v) as Hrow'.
  { intros v p. rewrite Hrows. split.
    - intros (m & u & _ & Em & HU & ->). split; [by exists m, u|done].
    - intros [(m & u & Em & HU) ->]. exists m, u. split_and!; try done. apply Hms. eauto. }
  split_and!; [| |done|done].
  - intros n p. rewrite Hp. cbn [node2partition set_cache set_port set_n2p].
    change (foldl _ ∅ ?l) with (fill l). rewrite fill_lookup_nodup.
    2:{ rewrite <-list_fmap_compose. rewrite <-list_fmap_compose in Hrn. exact Hrn. }
    rewrite list_elem_of_fmap. split.
    + intros ([v p'] & [= -> ->] & [Hv ->]%Hrow'). eauto.
    + intros (v & Hv & <- & <-). exists (v, part v). split; [done|]. by apply Hrow'.
  - intros s n. unfold nodes_of. rewrite Hs, add_services_fold. cbn [service2nodes set_cache set_port set_n2p set_s2n].
    rewrite lookup_empty. setoid_rewrite list_elem_of_fmap. split.
    + intros [Hn|(v & ([v' p] & -> & [Hv _]%Hrow') & Hs' & ->)]; [by apply elem_of_nil in Hn|]. eauto.
    + intros (v & Hv & <- & Hs'). right. exists v. split_and!; [|done|done].
      exists (v, part v). split; [done|]. by apply Hrow'.
Qed.
End routes.

(* ---------------------------------------------------------------------- *)
(** ** Properties *)

(** C6: a successful [Plan] gives every live node a partition other than 0 and
    no two nodes the same one; a node that had a partition keeps it, and a new
    node gets an empty partition of the topic that no live node holds.  The plan
    it returns, when it does not enter recovery, gives each member exactly the
    partition of its node and has nobody else, and every non-empty partition but the
    dead-letter partition 0 is someone's; when it does, it gives the leader, and nobody
    else, partition 0 and every non-empty partition, [recovery] marks exactly the
    partitions that live nodes hold, and some non-empty partition is not among them. *)
Theorem plan_assigns_partitions `{MapIter} (Unmarshal : string → info + gerror)
    (OldestOffset NewestOffset : Z → Z + gerror) (CreatePartitions : Z → option gerror)
    (members : gmap string string) (partitions : list Z) (g g' : Group) plan :
  plan_input Unmarshal OldestOffset members partitions g →
  Plan Unmarshal OldestOffset NewestOffset CreatePartitions members partitions g = (Ok plan, g') →
  assignment_ok Unmarshal OldestOffset NewestOffset members partitions g g' ∧
  (recovery g' = None →
    (∀ m ps, plan !! m = Some ps ↔
       ∃ u v, members !! m = Some u ∧ Unmarshal u = inl v ∧ ps = [partition_of (g_tab g') (i_Node v)]) ∧
    (∀ p, p ∈ partitions → p ≠ 0 → nonempty OldestOffset NewestOffset p = true → ∃ m, plan !! m = Some [p])) ∧
  (recovery g' ≠ None → ∀ m u v,
    members !! m = Some u → Unmarshal u = inl v → i_Node v = i_Node (self (g_tab g)) →
    plan = {[m := filter (λ p, p = 0 ∨ nonempty OldestOffset NewestOffset p = true) partitions]} ∧
    (∀ p, attached g' p = true ↔
       ∃ v', is_member Unmarshal members v' ∧ claimed (node2partition (g_tab g)) v' = p ∧ 0 < p) ∧
    (∃ p, p ∈ partitions ∧ nonempty OldestOffset NewestOffset p = true ∧ attached g' p = false)).
Proof.
  intros Hin E. split_and!.
  - by eapply Plan_assignment.
  - intros Hrec. split; [intros m ps; by eapply Plan_clean_members|].
    intros p Hp Hz Hn. destruct (Plan_clean _ _ _ _ _ _ _ _ _ Hin E Hrec) as [_ Hc].
    destruct (Hc p Hp Hz Hn) as (m & _ & _ & _ & _ & Hm). by exists m.
  - intros Hrec m u v Hm HU Hs. by eapply Plan_recovery.
Qed.

(** When there are too few partitions, [Plan] fails with
    errTooFewPartitions after asking for enough of them: once the topic has
    grown to the count asked for, with empty partitions, the next [Plan] of the
    same members succeeds, so the group does not cycle. *)
Theorem plan_asks_enough `{MapIter} (Unmarshal : string → info + gerror)
    (OldestOffset NewestOffset OldestOffset' NewestOffset' : Z → Z + gerror)
    (CreatePartitions : Z → option gerror)
    (members : gmap string string) (partitions extra : list Z) (g g' : Group) (e : gerror) :
  plan_input Unmarshal OldestOffset members partitions g →
  readable Unmarshal OldestOffset NewestOffset members partitions →
  readable Unmarshal OldestOffset' NewestOffset' members (partitions ++ extra) →
  (∀ p, p ∈ partitions → 0 ≤ p) →
  (∀ v, is_member Unmarshal members v → claimed (node2partition (g_tab g)) v ∈ partitions) →
  (∀ count, CreatePartitions count = None) →
  Plan Unmarshal OldestOffset NewestOffset CreatePartitions members partitions g = (Err e, g') →
  e = ETooFewPartitions ∧
  ∃ count, created g' = count :: created g ∧ Z.of_nat (length partitions) < count ∧
    (grown OldestOffset' NewestOffset' partitions extra →
     Z.of_nat (length (partitions ++ extra)) = count →
     ∃ plan g'', Plan Unmarshal OldestOffset' NewestOffset' CreatePartitions members
                   (partitions ++ extra) g' = (Ok plan, g'')).
Proof. apply Plan_retry. Qed.

(** After a clean generation every sidecar rebuilds, from the group's
    description, the partitions the leader planned, and its service table lists
    exactly the members' services on nodes with a partition, which is what
    placing sessions needs. *)
Theorem routes_agree `{MapIter} (Unmarshal : string → info + gerror)
    (OldestOffset NewestOffset : Z → Z + gerror) (CreatePartitions : Z → option gerror)
    (members : gmap string string) (partitions : list Z) (g g' : Group) plan (t : Tables) :
  plan_input Unmarshal OldestOffset members partitions g →
  (∀ m u, members !! m = Some u → ∃ v, Unmarshal u = inl v) →
  Plan Unmarshal OldestOffset NewestOffset CreatePartitions members partitions g = (Ok plan, g') →
  recovery g' = None →
  ∃ t', updateRoutes Unmarshal (inl (describe members plan)) t = (Ok tt, t') ∧
    (∀ n p, node2partition t' !! n = Some p ↔
            ∃ v, is_member Unmarshal members v ∧ i_Node v = n ∧
                 partition_of (g_tab g') (i_Node v) = p) ∧
    (∀ s n, n ∈ nodes_of t' s ↔
            ∃ v, is_member Unmarshal members v ∧ i_Node v = n ∧ s ∈ i_Services v) ∧
    (∀ s, (∀ v, is_member Unmarshal members v → i_Node v ≠ "") → nodes_of t' s ≠ [] →
          placeable t' s).
Proof.
  intros Hin HU E Hrec. destruct (Plan_clean _ _ _ _ _ _ _ _ _ Hin E Hrec) as [Hpl _].
  pose proof (Plan_assignment _ _ _ _ _ _ _ _ _ Hin E) as Hao.
  destruct (updateRoutes_spec Unmarshal members plan (λ v, partition_of (g_tab g') (i_Node v)) t)
    as (t' & Et & Hp & Hs & _); [|apply Hin|].
  { intros m u Hm. destruct (HU m u Hm) as [v Hv]. exists v. split; [done|]. by eapply Hpl. }
  exists t'. split_and!; [done|done|done|]. intros s Hemp Hne. split_and!; [done| |].
  - intros n (v & Hv & <- & _)%Hs. unfold partition_of at 1.
    rewrite (proj2 (Hp (i_Node v) (partition_of (g_tab g') (i_Node v)))) by eauto.
    by apply (ao_total _ _ _ _ _ _ _ Hao).
  - unfold partition_of. destruct (node2partition t' !! "") as [p|] eqn:E0; [|done].
    apply Hp in E0 as (v & Hv & Hn & _). by destruct (Hemp v Hv).
Qed.

(* ---------------------------------------------------------------------- *)
(** ** The properties at work *)

Module Witness.

Definition decode0 (u : string) : info + gerror :=
  if String.eqb u "A" then inl (mkInfo "nA" 80 ["svc"] 1)
  else if String.eqb u "B" then inl (mkInfo "nB" 81 ["svc"] 0)
  else inr (EMsg "json").

Definition members0 : gmap string string := {["mA" := "A"; "mB" := "B"]}.

Definition g0 : Group :=
  mkGroup (mkTables (mkInfo "nA" 80 ["svc"] 1) "app" ∅ {["nA" := 1; "nC" := 2]} ∅ ∅ false)
    None ∅ 0 0 [].

Definition oldest0 (p : Z) : Z + gerror := inl 0.
(** Only the partition of "nA" has records. *)
Definition newest0 (p : Z) : Z + gerror := inl (if p =? 1 then 5 else 0).
(** So does the partition of the dead node "nC". *)
Definition newest1 (p : Z) : Z + gerror := inl (if p =? 1 then 5 else if p =? 2 then 7 else 0).
Definition create0 (count : Z) : option gerror := None.

Lemma members0_cases m u :
  members0 !! m = Some u → (m = "mA" ∧ u = "A") ∨ (m = "mB" ∧ u = "B").
Proof.
  unfold members0. intros [[<- <-]|[_ Hm]]%lookup_insert_Some; [by left|].
  apply lookup_singleton_Some in Hm as [<- <-]. by right.
Qed.

Lemma is_member0 v :
  is_member decode0 members0 v → v = mkInfo "nA" 80 ["svc"] 1 ∨ v = mkInfo "nB" 81 ["svc"] 0.
Proof.
  intros (m & u & [[-> ->]|[-> ->]]%members0_cases & HU); injection HU as <-; auto.
Qed.

Lemma input0 ps : NoDup (0 :: ps) → plan_input decode0 oldest0 members0 (0 :: ps) g0.
Proof.
  intros Hnd. split; [done|done| | | |].
  - intros p a [= <-]. done.
  - intros n. unfold n2p_of. simpl.
    destruct (_ !! n) as [x|] eqn:E; [|done]. simpl.
    apply lookup_insert_Some in E as [[_ <-]|[_ E]]; [lia|].
    apply lookup_singleton_Some in E as [_ <-]. lia.
  - intros m1 m2 u1 u2 v1 v2 [[-> ->]|[-> ->]]%members0_cases [[-> ->]|[-> ->]]%members0_cases
      [= <-] [= <-]; simpl; done.
  - intros v1 v2 [->| ->]%is_member0 [->| ->]%is_member0; vm_compute; done.
Qed.

#[local] Existing Instance canonical_iter.

Definition plan0 : res (gmap string (list Z)) * Group :=
  Plan decode0 oldest0 newest0 create0 members0 [0; 1; 2] g0.
Definition plan1 : res (gmap string (list Z)) * Group :=
  Plan decode0 oldest0 newest1 create0 members0 [0; 1; 2; 3] g0.
Definition plan2 : res (gmap string (list Z)) * Group :=
  Plan decode0 oldest0 newest0 create0 members0 [0; 1] g0.

Definition assigned0 : gmap string (list Z) := {["mA" := [1]; "mB" := [2]]}.

(** A plan for two members, and one that enters recovery, since partition 2 has records
    and no live node. *)
Lemma plan_assigns_partitions_witness :
  (assignment_ok decode0 oldest0 newest0 members0 [0; 1; 2] g0 plan0.2 ∧ assigned0 !! "mB" = Some [2]) ∧
  ({["mA" := [0; 1; 2]]} =
    ({["mA" := filter (λ p, p = 0 ∨ nonempty oldest0 newest1 p = true) [0; 1; 2; 3]]} : gmap string (list Z))).
Proof.
  split.
  - destruct (plan_assigns_partitions decode0 oldest0 newest0 create0 members0 [0; 1; 2] g0 plan0.2 assigned0)
      as (Ha & Hp & _).
    + apply input0. apply (bool_decide_unpack _). vm_compute. exact I.
    + vm_compute. reflexivity.
    + split; [exact Ha|]. destruct Hp as [Hp _]; [vm_compute; reflexivity|].
      apply Hp. exists "B", (mkInfo "nB" 81 ["svc"] 0). split_and!; vm_compute; reflexivity.
  - destruct (plan_assigns_partitions decode0 oldest0 newest1 create0 members0 [0; 1; 2; 3] g0 plan1.2
                {["mA" := [0; 1; 2]]}) as (_ & _ & Hp).
    + apply input0. apply (bool_decide_unpack _). vm_compute. exact I.
    + vm_compute. reflexivity.
    + destruct (Hp ltac:(vm_compute; done) "mA" "A" (mkInfo "nA" 80 ["svc"] 1)) as [Hp' _];
        [reflexivity|reflexivity|reflexivity|exact Hp'].
Defined.

Lemma plan_asks_enough_witness :
  ∃ count, created plan2.2 = count :: created g0 ∧ 2 < count ∧
    (grown oldest0 newest0 [0; 1] [2] → 3 = count →
     ∃ plan g'', Plan decode0 oldest0 newest0 create0 members0 [0; 1; 2] plan2.2 = (Ok plan, g'')).
Proof.
  apply (plan_asks_enough decode0 oldest0 newest0 oldest0 newest0 create0 members0 [0; 1] [2] g0 plan2.2
           ETooFewPartitions).
  - apply input0. apply (bool_decide_unpack _). vm_compute. exact I.
  - split; [|intros; split; by eexists]. intros m u [[-> ->]|[-> ->]]%members0_cases; by eexists.
  - split; [|intros; split; by eexists]. intros m u [[-> ->]|[-> ->]]%members0_cases; by eexists.
  - intros p Hp. apply list_elem_of_In in Hp. simpl in Hp. lia.
  - intros v [->| ->]%is_member0; apply (bool_decide_unpack _); vm_compute; exact I.
  - done.
  - vm_compute. reflexivity.
Defined.

Lemma routes_agree_witness :
  ∃ t', updateRoutes decode0 (inl (describe members0 assigned0)) (g_tab g0) = (Ok tt, t') ∧
        placeable t' "svc".
Proof.
  destruct (routes_agree decode0 oldest0 newest0 create0 members0 [0; 1; 2] g0 plan0.2 assigned0 (g_tab g0))
    as (t' & E & _ & Hs & Hpl).
  - apply input0. apply (bool_decide_unpack _). vm_compute. exact I.
  - intros m u [[-> ->]|[-> ->]]%members0_cases; by eexists.
  - vm_compute. reflexivity.
  - vm_compute. reflexivity.
  - exists t'. split; [exact E|]. apply Hpl.
    + by intros v [->| ->]%is_member0.
    + intros En. assert ("nA" ∈ nodes_of t' "svc") as Hin; [|rewrite En in Hin; by apply elem_of_nil in Hin].
      apply Hs. exists (mkInfo "nA" 80 ["svc"] 1). split; [exists "mA", "A"; split; vm_compute; reflexivity|].
      split; [reflexivity|]. apply list_elem_of_singleton. reflexivity.
Defined.
End Witness.
End Strategy.
