(* ===== verification/Recovery.v ===== *)
(** * Recovery: what happens to the messages of dead sidecars

    Models src/core/pkg/rpc/transport.go: the consumer group handler.  [Setup]
    and [Cleanup] guard the routing tables with the write mutex,
    [ConsumeClaim] hands the messages of a sidecar's own partition to its
    processor, and [recover], run by the leader, reads all non-empty
    partitions, resends the requests of dead sidecars that have not completed
    and then deletes the records of the dead partitions. *)

From S2P Require Import Prelude GoLib Messages Store Kafka Routing Strategy.
Import Rpc Store Broker Routing Strategy.
Open Scope string_scope.
Open Scope Z_scope.
Open Scope list_scope.
Open Scope go_scope.

Module Recovery.

(* ---------------------------------------------------------------------- *)
(** ** Reading the partitions *)

(** The local tables of [recover]; [max_seq] and [latest] are keyed by request
    id, [calls] by the id of the calling request. *)
Record scan : Type := mkScan {
  orphans : list Message;
  orphans0 : list Message;
  calls : gmap string (list string);
  responses : gset string;
  requests : gset string;
  responses0 : gset string;
  requests0 : gmap string Z;
  handled : gmap string Z;
  offsetsForDeletion : list Z;
  max_seq : gmap string Z;
  latest : gmap string Request;
  chains : gmap string (gset Z);
}.

Definition scan0 : scan := mkScan [] [] ∅ ∅ ∅ ∅ ∅ ∅ [] ∅ ∅ ∅.

(** [m[k]] for maps of ints: 0 when absent. *)
Definition zget (m : gmap string Z) (k : string) : Z := default 0 (m !! k).

(** [if v >= m[k] { m[k] = v }]. *)
Definition raise (k : string) (v : Z) (m : gmap string Z) : gmap string Z :=
  if zget m k <=? v then <[k := v]> m else m.

Definition deferred (q : Request) : bool :=
  match q_target q with
  | SessionTarget s => negb (String.eqb (s_DeferredLockID s) "")
  | _ => false
  end.

(** One request read from partition [p]; [live] is [recovery[p]]. *)
Definition scan_request (p : Z) (live : bool) (q : Request) (sc : scan) : scan :=
  let k := q_requestID q in
  let newer := zget (max_seq sc) k <=? q_sequence q in
  let max' := if newer then <[k := q_sequence q]> (max_seq sc) else max_seq sc in
  let latest' := if newer then <[k := q]> (latest sc) else latest sc in
  let chains' := if deferred q
                 then <[k := {[q_sequence q]} ∪ default ∅ (chains sc !! k)]> (chains sc)
                 else chains sc in
  let calls' := match q with
                | Call c => push (c_ParentID c) (c_RequestID c) (calls sc)
                | Tell _ => calls sc
                end in
  if negb live then
    if p =? 0 then
      mkScan (orphans sc) (orphans0 sc ++ [MRequest q]) calls' (responses sc)
        ({[k]} ∪ requests sc) (responses0 sc) (raise k (q_sequence q) (requests0 sc)) (handled sc)
        (offsetsForDeletion sc) max' latest' chains'
    else
      mkScan (orphans sc ++ [MRequest q]) (orphans0 sc) calls' (responses sc) (requests sc)
        (responses0 sc) (requests0 sc) (handled sc) (offsetsForDeletion sc) max' latest' chains'
  else
    mkScan (orphans sc) (orphans0 sc) calls' (responses sc) ({[k]} ∪ requests sc) (responses0 sc)
      (requests0 sc) (raise k (q_sequence q) (handled sc)) (offsetsForDeletion sc) max' latest' chains'.

(** One response or completion read from partition [p]. *)
Definition scan_response (p : Z) (live : bool) (m : Message) (sc : scan) : scan :=
  let k := requestID m in
  mkScan (if negb live && negb (p =? 0) then orphans sc ++ [m] else orphans sc) (orphans0 sc)
    (calls sc) ({[k]} ∪ responses sc) (requests sc)
    (if p =? 0 then {[k]} ∪ responses0 sc else responses0 sc) (requests0 sc)
    (<[k := Z.shiftl 1 30]> (handled sc)) (offsetsForDeletion sc) (max_seq sc) (latest sc) (chains sc).

Definition scan_msg (p : Z) (live : bool) (m : Message) (sc : scan) : scan :=
  match m with
  | MRequest q => scan_request p live q sc
  | _ => scan_response p live m sc
  end.

(** The messages of one claim up to the newest offset; [None] when the channel
    is closed first because the session was interrupted. *)
Fixpoint read_claim (p newest next : Z) (live : bool) (messages : list ConsumerMessage) (sc : scan)
    : option scan :=
  if next <? newest then
    match messages with
    | [] => None
    | msg :: rest => read_claim p newest (cm_Offset msg + 1) live rest (scan_msg p live (decode msg) sc)
    end
  else Some sc.

Definition mark_deletion (p : Z) (live : bool) (sc : scan) : scan :=
  if negb live && negb (p =? 0) then
    mkScan (orphans sc) (orphans0 sc) (calls sc) (responses sc) (requests sc) (responses0 sc)
      (requests0 sc) (handled sc) (offsetsForDeletion sc ++ [p]) (max_seq sc) (latest sc) (chains sc)
  else sc.

(** The loop over [session.Claims()[appTopic]]; [channels p] is [None] when the
    session ends before the consumer of [p] hands over its messages. *)
Fixpoint read_claims (g : Group) (channels : Z → option (list ConsumerMessage)) (claims : list Z)
    (sc : scan) : res scan :=
  match claims with
  | [] => Ok sc
  | p :: rest =>
      match channels p with
      | None => Err ECtx
      | Some messages =>
          match read_claim p (newest_of g p) 0 (attached g p) messages sc with
          | None => Err ECtx
          | Some sc' => read_claims g channels rest (mark_deletion p (attached g p) sc')
          end
      end
  end.

(* ---------------------------------------------------------------------- *)
(** ** Deciding what to resend *)

(** [for i := max[k]; i >= 0; i-- { if _, ok := v[i]; !ok { ... } }]. *)
Fixpoint chain_start (chain : gset Z) (i : nat) : option Z :=
  if decide (Z.of_nat i ∈ chain) then
    match i with O => None | S i' => chain_start chain i' end
  else Some (Z.of_nat i).

Definition min_of_chain (sc : scan) (k : string) (chain : gset Z) : option Z :=
  let i := zget (max_seq sc) k in
  if i <? 0 then None else chain_start chain (Z.to_nat i).

(** [min]: a copy of [max] in which chains of calls that hold their lock go back
    to the sequence number that acquired it. *)
Definition min_seq `{MapIter} (sc : scan) : gmap string Z :=
  foldl (λ m '(k, chain), match min_of_chain sc k chain with Some i => <[k := i]> m | None => m end)
    (fill (map_iter 20 (max_seq sc))) (map_iter 21 (chains sc)).

(** The last nested blocking call that has not completed. *)
Definition pending_child (sc : scan) (k : string) : string :=
  foldl (λ childID r, if decide (r ∈ responses sc) then childID else r) ""
    (default [] (calls sc !! k)).

Definition clear_lock (t : Target) : Target :=
  match t with
  | SessionTarget s => SessionTarget (mkSession (s_Name s) (s_ID s) (s_Flow s) "")
  | _ => t
  end.

(** The copy of the latest request that is resent. *)
Definition rewrite_request (childID : string) (sequence : Z) (w : Request) : Request :=
  match w with
  | Call c => Call (mkCall (c_RequestID c) (c_Value c) (c_Deadline c) (clear_lock (c_Target c))
                      (c_Method c) (c_Caller c) sequence childID (c_ParentID c) (c_IsEdited c))
  | Tell t => Tell (mkTell (t_RequestID t) (t_Value t) (t_Deadline t) (clear_lock (t_Target t))
                      (t_Method t) sequence childID (t_ParentID t) (t_IsEdited t))
  end.

(** [s, ok := handled[k]; (!ok || s < max[k]) && v.sequence() == min[k]]. *)
Definition unhandled (sc : scan) (mins : gmap string Z) (q : Request) : bool :=
  let k := q_requestID q in
  match handled sc !! k with None => true | Some s => s <? zget (max_seq sc) k end &&
  (q_sequence q =? zget mins k).

(** [s0, ok0 := requests0[k]; ok0 && s0 >= max[k]]. *)
Definition already_in_0 (sc : scan) (k : string) : bool :=
  match requests0 sc !! k with Some s0 => zget (max_seq sc) k <=? s0 | None => false end.

Section recover.
Context {R K : Type} `{Redis R} `{Kafka K} `{MapIter}.
Context (MangleKey : string → string).

(** The loop over the orphans. *)
Fixpoint resend_loop (fuel : nat) (sc : scan) (mins : gmap string Z) (msgs : list Message)
    (seen : gset string) : M (world R K) unit :=
  match msgs with
  | [] => ret tt
  | msg :: rest =>
      let k := requestID msg in
      match msg with
      | MRequest v =>
          if unhandled sc mins v then
            if decide (k ∈ seen) then resend_loop fuel sc mins rest seen
            else
              let v' := match latest sc !! k with
                        | Some w => rewrite_request (pending_child sc k) (zget mins k) w
                        | None => v
                        end in
              resend MangleKey fuel v' (already_in_0 sc k) ;;*
              resend_loop fuel sc mins rest ({[k]} ∪ seen)
          else resend_loop fuel sc mins rest seen
      | _ =>
          if decide (k ∈ requests sc ∧ k ∉ responses0 sc) then
            respond {| dn_RequestID := k; dn_Deadline := deadline msg |} ;;*
            resend_loop fuel sc mins rest seen
          else resend_loop fuel sc mins rest seen
      end
  end.

(** Recovery code, run by the consumer of partition 0 of the leader. *)
Definition recover (fuel : nat) (g : Group) (claims : list Z)
    (channels : Z → option (list ConsumerMessage)) : M (world R K) Group :=
  let* sc := of_res (read_claims g channels claims scan0) in
  let* e := (λ w, let '(e, k') := k_refresh (w_kafka w) in (Ok e, with_kafka k' w)) in
  match e with
  | Some err => throw err
  | None =>
      resend_loop fuel sc (min_seq sc) (orphans sc ++ orphans0 sc) ∅ ;;*
      modify (λ w, with_kafka (k_delete (offsetsForDeletion sc) (w_kafka w)) w) ;;*
      ret (set_offset0 (max0 g) g)
  end.

End recover.

(* ---------------------------------------------------------------------- *)
(** ** The consumer group handler *)

(** The state of a sidecar's consumer: [locked] is the write mutex, [ticks]
    counts the replacements of the [tick] channel, [userData] is what the next
    generation advertises, [head] the next offset to read and [processed] the
    messages handed to the processor. *)
Record consumer : Type := mkConsumer {
  group : Group;
  locked : bool;
  ticks : nat;
  userData : info;
  head_offset : Z;
  processed : list Message;
}.

Definition with_group (g : Group) (c : consumer) : consumer :=
  mkConsumer g (locked c) (ticks c) (userData c) (head_offset c) (processed c).

Definition Unlock : M consumer unit := λ c,
  if locked c
  then (Ok tt, mkConsumer (group c) false (ticks c) (userData c) (head_offset c) (processed c))
  else (Panic "sync: Unlock of unlocked RWMutex", c).

(** Locking a mutex one holds never returns. *)
Definition Lock : M consumer unit := λ c,
  if locked c then (Panic "deadlock", c)
  else (Ok tt, mkConsumer (group c) true (ticks c) (userData c) (head_offset c) (processed c)).

Definition set_partition (p : Z) (g : Group) : Group :=
  let t := g_tab g in
  set_tab (mkTables (mkInfo (i_Node (self t)) (i_Port (self t)) (i_Services (self t)) p) (appTopic t)
             (service2nodes t) (node2partition t) (node2port t) (session2NodeCache t)
             (PlacementCache t)) g.

(** A call on the routing tables. *)
Definition on_tables {A} (m : M Tables A) : M consumer A := λ c,
  let '(r, t) := m (g_tab (group c)) in (r, with_group (set_tab t (group c)) c).

(** Setup consumer group session, assumes W mutex is held on entry; [refresh] is
    the outcome of [RefreshMetadata]. *)
Definition Setup `{MapIter} (Unmarshal : string → info + gerror)
    (groups : gmap string memberDescription + gerror) (refresh : option gerror) (claims : list Z)
    : M consumer unit :=
  let* c := get in
  match claims with
  | [] => ret tt
  | p :: _ =>
      match recovery (group c) with
      | Some _ => ret tt
      | None =>
          modify (λ c, with_group (set_partition p (group c)) c) ;;*
          on_tables (updateRoutes Unmarshal groups) ;;*
          match refresh with
          | Some err => throw err
          | None =>
              modify (λ c, mkConsumer (group c) (locked c) (S (ticks c)) (userData c) (head_offset c)
                             (processed c)) ;;*
              Unlock
          end
      end
  end.

(** Cleanup consumer group session, assumes W mutex is held on entry iff in
    recovery. *)
Definition Cleanup (claims : list Z) : M consumer unit :=
  modify (λ c, mkConsumer (group c) (locked c) (ticks c) (self (g_tab (group c))) (head_offset c)
                 (processed c)) ;;*
  let* c := get in
  if bool_decide (recovery (group c) = None) && negb (bool_decide (claims = [])) then Lock else ret tt.

(** The loop of [ConsumeClaim] outside recovery. *)
Fixpoint consume (messages : list ConsumerMessage) : M consumer unit :=
  match messages with
  | [] => ret tt
  | msg :: rest =>
      let* c := get in
      if cm_Offset msg <? head_offset c then consume rest
      else
        modify (λ c, mkConsumer (group c) (locked c) (ticks c) (userData c) (cm_Offset msg + 1)
                       (match decode msg with
                        | MDone _ => processed c
                        | m => processed c ++ [m]
                        end)) ;;*
        consume rest
  end.

(* ---------------------------------------------------------------------- *)
(** ** The scan as a function of the records read *)

(** A partition that is not attached to a live node: its requests are orphans. *)
Definition dead (g : Group) (p : Z) : bool := negb (attached g p) && negb (p =? 0).

Definition scan_trace (g : Group) (tr : list (Z * Message)) (sc : scan) : scan :=
  foldl (λ sc '(p, m), scan_msg p (attached g p) m sc) sc tr.

Definition set_deletion (ps : list Z) (sc : scan) : scan :=
  mkScan (orphans sc) (orphans0 sc) (calls sc) (responses sc) (requests sc) (responses0 sc)
    (requests0 sc) (handled sc) ps (max_seq sc) (latest sc) (chains sc).

Lemma scan_msg_deletion p live m ps sc :
  scan_msg p live m (set_deletion ps sc) = set_deletion ps (scan_msg p live m sc).
Proof. destruct m as [[]| |], live; simpl; try done; unfold scan_request; by destruct (p =? 0). Qed.

Lemma scan_trace_deletion g tr ps sc :
  scan_trace g tr (set_deletion ps sc) = set_deletion ps (scan_trace g tr sc).
Proof.
  revert sc. induction tr as [|[p m] tr IH]; intros sc; [done|]. cbn [scan_trace foldl].
  rewrite scan_msg_deletion. apply IH.
Qed.

Lemma set_deletion_twice ps ps' sc : set_deletion ps (set_deletion ps' sc) = set_deletion ps sc.
Proof. done. Qed.

Lemma scan_trace_offsets g tr sc : offsetsForDeletion (scan_trace g tr sc) = offsetsForDeletion sc.
Proof.
  revert sc. induction tr as [|[p m] tr IH]; intros sc; [done|]. cbn [scan_trace foldl].
  unfold scan_trace in IH. rewrite IH.
  destruct m as [q| |]; simpl; [|done..]. unfold scan_request. by destruct (attached g p), (p =? 0).
Qed.

Lemma scan_trace_app g tr1 tr2 sc :
  scan_trace g (tr1 ++ tr2) sc = scan_trace g tr2 (scan_trace g tr1 sc).
Proof. apply foldl_app. Qed.

(** [mark_deletion] appends the dead partitions. *)
Lemma mark_deletion_eq g p sc :
  mark_deletion p (attached g p) sc =
  set_deletion (offsetsForDeletion sc ++ filter (λ q, dead g q = true) [p]) sc.
Proof.
  unfold mark_deletion. fold (dead g p). rewrite filter_cons. destruct (dead g p); simpl; [done|].
  rewrite app_nil_r. by destruct sc.
Qed.

(** The records of a partition that was read to its end. *)
Lemma read_claim_all g p newest next msgs sc :
  (∀ i msg, msgs !! i = Some msg → cm_Offset msg + 1 + Z.of_nat (length msgs - S i) = newest) →
  (msgs = [] → newest ≤ next) → (msgs ≠ [] → next < newest) →
  read_claim p newest next (attached g p) msgs sc =
  Some (scan_trace g ((λ msg, (p, decode msg)) <$> msgs) sc).
Proof.
  revert next sc. induction msgs as [|msg msgs IH]; intros next sc Hoff Hnil Hcons; cbn [read_claim].
  - rewrite (proj2 (Z.ltb_ge _ _)) by auto. done.
  - rewrite (proj2 (Z.ltb_lt _ _)) by auto. rewrite IH; [done|..].
    + intros i m Hi. apply (Hoff (S i) m Hi).
    + intros ->. specialize (Hoff 0%nat msg eq_refl). simpl in Hoff. lia.
    + intros Hne. specialize (Hoff 0%nat msg eq_refl). simpl in Hoff.
      destruct msgs; [done|]. simpl in Hoff. lia.
Qed.

(* ---------------------------------------------------------------------- *)
(** ** What the scan knows *)

Definition seq_ok (q : Request) : Prop := 0 ≤ q_sequence q < 2 ^ 30.

(** Request ids are handled by a completion, or by a copy in a live partition. *)
Record scanned (g : Group) (tr : list (Z * Message)) (sc : scan) : Prop := {
  sd_orphans : orphans sc = (filter (λ pm, dead g pm.1 = true) tr).*2;
  sd_orphans0 : orphans0 sc =
    (filter (λ pm, attached g pm.1 = false ∧ pm.1 = 0 ∧ is_request pm.2 = true) tr).*2;
  sd_responses : ∀ k, k ∈ responses sc ↔ ∃ p m, (p, m) ∈ tr ∧ is_request m = false ∧ requestID m = k;
  sd_responses0 : ∀ k, k ∈ responses0 sc ↔ ∃ m, (0, m) ∈ tr ∧ is_request m = false ∧ requestID m = k;
  sd_requests : ∀ k, k ∈ requests sc ↔
    ∃ p q, (p, MRequest q) ∈ tr ∧ dead g p = false ∧ q_requestID q = k;
  sd_max : ∀ p q, (p, MRequest q) ∈ tr →
    ∃ s, max_seq sc !! q_requestID q = Some s ∧ q_sequence q ≤ s;
  sd_latest : ∀ k s, max_seq sc !! k = Some s → ∃ p q,
    latest sc !! k = Some q ∧ (p, MRequest q) ∈ tr ∧ q_requestID q = k ∧ q_sequence q = s;
  sd_handled_done : ∀ k, k ∈ responses sc → handled sc !! k = Some (2 ^ 30);
  sd_handled_live : ∀ k s, k ∉ responses sc → handled sc !! k = Some s → ∃ p q,
    (p, MRequest q) ∈ tr ∧ attached g p = true ∧ q_requestID q = k ∧ q_sequence q = s;
  sd_chains : ∀ k c, chains sc !! k = Some c →
    ∃ p q, (p, MRequest q) ∈ tr ∧ q_requestID q = k ∧ deferred q = true;
  sd_requests0 : ∀ k s, requests0 sc !! k = Some s → ∃ q,
    (0, MRequest q) ∈ tr ∧ q_requestID q = k ∧ q_sequence q = s;
}.

Lemma raise_Some k v m k' s :
  (∀ k s, m !! k = Some s → 0 ≤ s) → 0 ≤ v →
  raise k v m !! k' = Some s → m !! k' = Some s ∨ (k' = k ∧ s = v).
Proof.
  intros Hm Hv. unfold raise. destruct (_ <=? _); [|by left].
  rewrite lookup_insert. case_decide; intros; simplify_eq; auto.
Qed.

Lemma trace_snoc (tr : list (Z * Message)) x y : x ∈ tr ++ [y] ↔ x ∈ tr ∨ x = y.
Proof. by rewrite elem_of_app, list_elem_of_singleton. Qed.

Lemma scanned0 g : scanned g [] scan0.
Proof.
  split; simpl; try done; try set_solver.
Qed.

Section scanning.
Context (g : Group) (tr : list (Z * Message)) (sc : scan).
Context (H0 : attached g 0 = false) (Hsc : scanned g tr sc).
Context (Hseq : ∀ p q, (p, MRequest q) ∈ tr → seq_ok q).

Lemma handled_bounds k s : handled sc !! k = Some s → 0 ≤ s ≤ 2 ^ 30.
Proof.
  intros Hk. destruct (decide (k ∈ responses sc)) as [Hr|Hr].
  - rewrite (sd_handled_done _ _ _ Hsc k Hr) in Hk. injection Hk as <-. lia.
  - destruct (sd_handled_live _ _ _ Hsc k s Hr Hk) as (p & q & Hin & _ & _ & <-).
    destruct (Hseq p q Hin). lia.
Qed.

Lemma scanned_response p m :
  is_request m = false → scanned g (tr ++ [(p, m)]) (scan_response p (attached g p) m sc).
Proof.
  intros Hm. destruct Hsc as [O O0 RS RS0 RQ MX LT HD HL CH R0]. split; simpl.
  - change (negb (attached g p) && negb (p =? 0)) with (dead g p).
    rewrite filter_app, fmap_app, <-O, filter_cons. simpl.
    destruct (dead g p); simpl; [done|]. by rewrite app_nil_r.
  - rewrite filter_app, fmap_app, O0, filter_cons, decide_False; [by rewrite app_nil_r|].
    simpl. rewrite Hm. naive_solver.
  - intros k. rewrite elem_of_union, elem_of_singleton, RS. setoid_rewrite trace_snoc. split.
    + intros [->|(p' & m' & ? & ? & ?)]; [exists p, m|exists p', m']; auto.
    + intros (p' & m' & [Hin|[= -> ->]] & ? & ?); [right; eauto|by left].
  - intros k. setoid_rewrite trace_snoc. destruct (Z.eqb_spec p 0) as [->|Hp].
    + rewrite elem_of_union, elem_of_singleton, RS0. split.
      * intros [->|(m' & ? & ? & ?)]; [exists m|exists m']; auto.
      * intros (m' & [Hin|[= ->]] & ? & ?); [right; eauto|by left].
    + rewrite RS0. split; intros (m' & Hin & ? & ?); exists m'; [by auto|].
      destruct Hin as [|[=]]; [done|congruence].
  - intros k. rewrite RQ. setoid_rewrite trace_snoc. split; intros (p' & q & Hin & ? & ?); exists p', q; [by auto|].
    destruct Hin as [|[= -> <-]]; [done|done].
  - intros p' q. rewrite trace_snoc. intros [Hin|[= -> <-]]; [by eapply MX|done].
  - intros k s Hk. destruct (LT k s Hk) as (p' & q & ? & ? & ? & ?). exists p', q.
    rewrite trace_snoc. auto.
  - intros k. rewrite elem_of_union, elem_of_singleton, lookup_insert.
    intros [->|Hk]; [by rewrite decide_True|]. case_decide; [done|auto].
  - intros k s Hk. rewrite lookup_insert. case_decide; [set_solver|]. intros Hs.
    destruct (HL k s) as (p' & q & ? & ? & ? & ?); [set_solver|done|]. exists p', q. rewrite trace_snoc. auto.
  - intros k c Hk. destruct (CH k c Hk) as (p' & q & ? & ? & ?). exists p', q. rewrite trace_snoc. auto.
  - intros k s Hk. destruct (R0 k s Hk) as (q & ? & ? & ?). exists q. rewrite trace_snoc. auto.
Qed.

(** The tables every request updates. *)
Lemma scanned_max p q :
  seq_ok q → let sc' := scan_request p (attached g p) q sc in
  (∀ p' q', (p', MRequest q') ∈ tr ++ [(p, MRequest q)] →
     ∃ s, max_seq sc' !! q_requestID q' = Some s ∧ q_sequence q' ≤ s) ∧
  (∀ k s, max_seq sc' !! k = Some s → ∃ p' q', latest sc' !! k = Some q' ∧
     (p', MRequest q') ∈ tr ++ [(p, MRequest q)] ∧ q_requestID q' = k ∧ q_sequence q' = s).
Proof.
  intros [Hq _] sc'. destruct Hsc as [_ _ _ _ _ MX LT _ _ _ _]. clear Hsc.
  set (k := q_requestID q).
  assert (max_seq sc' = raise k (q_sequence q) (max_seq sc) ∧
          latest sc' = if zget (max_seq sc) k <=? q_sequence q then <[k := q]> (latest sc) else latest sc)
    as [-> ->].
  { unfold sc', scan_request, raise, k. by destruct (attached g p), (p =? 0). }
  unfold raise, zget. split.
  - intros p' q'. rewrite trace_snoc. intros [Hin|[= -> ->]].
    + destruct (MX p' q' Hin) as (s & Hs & Hle). destruct (Z.leb_spec (default 0 (max_seq sc !! k)) (q_sequence q)) as [Hl|Hl]; [|eauto].
      rewrite lookup_insert. case_decide as Hk; [|eauto]. eexists. split; [done|].
      rewrite Hk, Hs in Hl. simpl in Hl. lia.
    + fold k. destruct (Z.leb_spec (default 0 (max_seq sc !! k)) (q_sequence q)) as [Hl|Hl].
      * rewrite lookup_insert_eq. eexists. split; [done|lia].
      * destruct (max_seq sc !! k) as [s|]; simpl in Hl; [|lia]. exists s. split; [done|lia].
  - intros k' s. setoid_rewrite trace_snoc.
    destruct (Z.leb_spec (default 0 (max_seq sc !! k)) (q_sequence q)) as [Hl|Hl].
    + rewrite !lookup_insert. case_decide as Hk.
      * intros [= <-]. exists p, q. subst k'. auto.
      * intros Hs. destruct (LT k' s Hs) as (p' & q' & ? & ? & ? & ?). exists p', q'. auto.
    + intros Hs. destruct (LT k' s Hs) as (p' & q' & ? & ? & ? & ?). exists p', q'. auto.
Qed.

(** The tables that depend on where the request was found. *)
Lemma scan_request_eq p q :
  let sc' := scan_request p (attached g p) q sc in
  let k := q_requestID q in
  let at0 := negb (attached g p) && (p =? 0) in
  orphans sc' = orphans sc ++ (if dead g p then [MRequest q] else []) ∧
  orphans0 sc' = orphans0 sc ++ (if at0 then [MRequest q] else []) ∧
  requests sc' = (if dead g p then requests sc else {[k]} ∪ requests sc) ∧
  handled sc' = (if attached g p then raise k (q_sequence q) (handled sc) else handled sc) ∧
  requests0 sc' = (if at0 then raise k (q_sequence q) (requests0 sc) else requests0 sc) ∧
  responses sc' = responses sc ∧ responses0 sc' = responses0 sc ∧
  chains sc' = (if deferred q then <[k := {[q_sequence q]} ∪ default ∅ (chains sc !! k)]> (chains sc)
                else chains sc).
Proof.
  unfold scan_request, dead. destruct (attached g p), (p =? 0); simpl; by rewrite ?app_nil_r.
Qed.

Lemma scanned_request p q :
  seq_ok q → scanned g (tr ++ [(p, MRequest q)]) (scan_request p (attached g p) q sc).
Proof.
  intros Hq. destruct (scanned_max p q Hq) as [MX LT]. pose proof handled_bounds as HB.
  destruct (scan_request_eq p q) as (EO & EO0 & ERQ & EH & ER0 & ERS & ERS0 & ECH).
  destruct Hsc as [O O0 RS RS0 RQ _ _ HD HL CH R0]. clear Hsc.
  assert (∀ k s, requests0 sc !! k = Some s → 0 ≤ s) as HB0.
  { intros k s Hk. destruct (R0 k s Hk) as (q' & Hin & _ & <-). by apply (Hseq 0). }
  split; [rewrite EO|rewrite EO0|rewrite ERS|rewrite ERS0|rewrite ERQ|exact MX|exact LT
         |rewrite ERS, EH|rewrite ERS, EH|rewrite ECH|rewrite ER0].
  - rewrite filter_app, fmap_app, <-O, filter_cons. simpl. by destruct (dead g p).
  - rewrite filter_app, fmap_app, <-O0, filter_cons. cbn [fst snd is_request].
    case_decide as Hd; destruct (attached g p), (Z.eqb_spec p 0); naive_solver.
  - intros k. rewrite RS. setoid_rewrite trace_snoc.
    split; intros (p' & m & Hin & Hm & ?); exists p', m; [by auto|]. destruct Hin as [|[= -> ->]]; done.
  - intros k. rewrite RS0. setoid_rewrite trace_snoc.
    split; intros (m & Hin & Hm & ?); exists m; [by auto|]. destruct Hin as [|[= -> ->]]; done.
  - intros k. setoid_rewrite trace_snoc. destruct (dead g p) eqn:Ed.
    + rewrite RQ. split; intros (p' & q' & Hin & Hd & ?); exists p', q'; [by auto|].
      destruct Hin as [|[= -> ->]]; [done|congruence].
    + rewrite elem_of_union, elem_of_singleton, RQ. split.
      * intros [->|(p' & q' & ? & ? & ?)]; [exists p, q|exists p', q']; auto.
      * intros (p' & q' & [Hin|[= -> ->]] & ? & ?); [right; eauto|by left].
  - intros k Hk. destruct (attached g p); [|auto]. unfold raise, zget.
    destruct (Z.leb_spec (default 0 (handled sc !! q_requestID q)) (q_sequence q)) as [Hl|]; [|auto].
    rewrite lookup_insert. case_decide as Hkq; [|auto]. exfalso.
    rewrite Hkq, (HD k Hk) in Hl. simpl in Hl. destruct Hq. lia.
  - intros k s Hk Hs. setoid_rewrite trace_snoc. destruct (attached g p) eqn:Ea.
    + apply raise_Some in Hs as [Hs|[-> ->]]; [| |intros k' s' Hs'; apply HB in Hs'; lia|apply Hq].
      * destruct (HL k s Hk Hs) as (p' & q' & ? & ? & ? & ?). exists p', q'. auto.
      * exists p, q. auto.
    + destruct (HL k s Hk Hs) as (p' & q' & ? & ? & ? & ?). exists p', q'. auto.
  - intros k c. setoid_rewrite trace_snoc. destruct (deferred q) eqn:Ed.
    + rewrite lookup_insert. case_decide as Hk; [intros _; exists p, q; auto|].
      intros Hc. destruct (CH k c Hc) as (p' & q' & ? & ? & ?). exists p', q'. auto.
    + intros Hc. destruct (CH k c Hc) as (p' & q' & ? & ? & ?). exists p', q'. auto.
  - intros k s. setoid_rewrite trace_snoc. destruct (negb (attached g p) && (p =? 0)) eqn:Eb.
    + apply andb_true_iff in Eb as [_ ->%Z.eqb_eq]. intros Hs.
      apply raise_Some in Hs as [Hs|[-> ->]]; [|by exists q; auto|done|apply Hq].
      destruct (R0 k s Hs) as (q' & ? & ? & ?). exists q'. auto.
    + intros Hs. destruct (R0 k s Hs) as (q' & ? & ? & ?). exists q'. auto.
Qed.
End scanning.

(** The scan of a trace knows the trace. *)
Lemma scan_trace_scanned g tr :
  attached g 0 = false → (∀ p q, (p, MRequest q) ∈ tr → seq_ok q) →
  scanned g tr (scan_trace g tr scan0).
Proof.
  intros H0. induction tr as [|[p m] tr IH] using rev_ind; intros Hseq; [apply scanned0|].
  unfold scan_trace. rewrite foldl_app. cbn [foldl]. fold (scan_trace g tr scan0).
  assert (∀ p q, (p, MRequest q) ∈ tr → seq_ok q) as Hseq'.
  { intros p' q' Hin. apply (Hseq p'). apply trace_snoc. by left. }
  specialize (IH Hseq'). destruct m as [q| |]; cbn [scan_msg].
  - apply scanned_request; try done. apply (Hseq p). apply trace_snoc. by right.
  - by apply scanned_response.
  - by apply scanned_response.
Qed.


(* ---------------------------------------------------------------------- *)
(** ** The decisions of the loop, apart from their execution *)

Inductive action : Type :=
| AResend (q : Request) (drop : bool)
| ARespond (d : Done).

(** The request resent for an id. *)
Definition resent (sc : scan) (mins : gmap string Z) (v : Request) : Request :=
  match latest sc !! q_requestID v with
  | Some w => rewrite_request (pending_child sc (q_requestID v)) (zget mins (q_requestID v)) w
  | None => v
  end.

Fixpoint decisions (sc : scan) (mins : gmap string Z) (msgs : list Message) (seen : gset string)
    : list action :=
  match msgs with
  | [] => []
  | MRequest v :: rest =>
      if unhandled sc mins v && bool_decide (q_requestID v ∉ seen) then
        AResend (resent sc mins v) (already_in_0 sc (q_requestID v)) ::
        decisions sc mins rest ({[q_requestID v]} ∪ seen)
      else decisions sc mins rest seen
  | m :: rest =>
      if decide (requestID m ∈ requests sc ∧ requestID m ∉ responses0 sc) then
        ARespond {| dn_RequestID := requestID m; dn_Deadline := deadline m |} ::
        decisions sc mins rest seen
      else decisions sc mins rest seen
  end.

Lemma rewrite_request_id c n q : q_requestID (rewrite_request c n q) = q_requestID q.
Proof. by destruct q. Qed.

Lemma decisions_complete sc mins msgs seen v :
  MRequest v ∈ msgs → unhandled sc mins v = true → q_requestID v ∉ seen →
  ∃ v', MRequest v' ∈ msgs ∧ q_requestID v' = q_requestID v ∧
    AResend (resent sc mins v') (already_in_0 sc (q_requestID v)) ∈ decisions sc mins msgs seen.
Proof.
  revert seen. induction msgs as [|m msgs IH]; intros seen Hin Hu Hs; [by apply elem_of_nil in Hin|].
  assert (∀ seen', q_requestID v ∉ seen' → MRequest v ∈ msgs → ∃ v', MRequest v' ∈ m :: msgs ∧
    q_requestID v' = q_requestID v ∧
    AResend (resent sc mins v') (already_in_0 sc (q_requestID v)) ∈ decisions sc mins msgs seen') as Hrec.
  { intros seen' Hs' Hin'. destruct (IH seen' Hin' Hu Hs') as (v' & ? & ? & ?). exists v'.
    split; [by right|done]. }
  destruct m as [v0|r|d]; cbn [decisions].
  - destruct (decide (q_requestID v0 = q_requestID v)) as [Hk|Hk].
    + destruct (unhandled sc mins v0 && bool_decide (q_requestID v0 ∉ seen)) eqn:Eu.
      * exists v0. rewrite Hk. split_and!; [left|done|left].
      * apply elem_of_cons in Hin as [[= ->]|Hin]; [|by apply Hrec].
        rewrite Hu in Eu. simpl in Eu. by case_bool_decide.
    + apply elem_of_cons in Hin as [[= ->]|Hin]; [done|].
      destruct (_ && _); [|by apply Hrec].
      destruct (Hrec ({[q_requestID v0]} ∪ seen)) as (v' & ? & ? & ?); [set_solver|done|].
      exists v'. split_and!; [done|done|by right].
  - apply elem_of_cons in Hin as [[=]|Hin]. case_decide; [|by apply Hrec].
    destruct (Hrec seen Hs Hin) as (v' & ? & ? & ?). exists v'. split_and!; [done|done|by right].
  - apply elem_of_cons in Hin as [[=]|Hin]. case_decide; [|by apply Hrec].
    destruct (Hrec seen Hs Hin) as (v' & ? & ? & ?). exists v'. split_and!; [done|done|by right].
Qed.

Lemma decisions_respond sc mins msgs seen m :
  m ∈ msgs → is_request m = false → requestID m ∈ requests sc → requestID m ∉ responses0 sc →
  ARespond {| dn_RequestID := requestID m; dn_Deadline := deadline m |} ∈ decisions sc mins msgs seen.
Proof.
  revert seen. induction msgs as [|m0 msgs IH]; intros seen Hin Hm Hr Hr0; [by apply elem_of_nil in Hin|].
  apply elem_of_cons in Hin as [->|Hin].
  - destruct m0 as [v|r|d]; [done|..]; cbn [decisions]; rewrite decide_True by done; left.
  - destruct m0 as [v|r|d]; cbn [decisions]; [destruct (_ && _)|case_decide..]; try right; by apply IH.
Qed.
Section decided.
Context (g : Group) (tr : list (Z * Message)) (sc : scan) (mins : gmap string Z).
Context (Hsc : scanned g tr sc) (Hseq : ∀ p q, (p, MRequest q) ∈ tr → seq_ok q).

Lemma resent_id p v : (p, MRequest v) ∈ tr → q_requestID (resent sc mins v) = q_requestID v.
Proof.
  intros Hin. destruct (sd_max _ _ _ Hsc p v Hin) as (s & Hs & _).
  destruct (sd_latest _ _ _ Hsc _ _ Hs) as (p' & q & Hq & _ & Hid & _).
  unfold resent. rewrite Hq. by rewrite rewrite_request_id.
Qed.

(** An id with a completion is never unhandled. *)
Lemma completed_handled p v :
  (p, MRequest v) ∈ tr → q_requestID v ∈ responses sc → unhandled sc mins v = false.
Proof.
  intros Hin Hk. unfold unhandled. rewrite (sd_handled_done _ _ _ Hsc _ Hk).
  destruct (sd_max _ _ _ Hsc p v Hin) as (s & Hs & _).
  destruct (sd_latest _ _ _ Hsc _ _ Hs) as (p' & q & _ & Hq & _ & <-).
  destruct (Hseq p' q Hq). unfold zget. rewrite Hs. cbn [default].
  unfold id. assert ((2 ^ 30 <? q_sequence q) = false) as -> by (apply Z.ltb_ge; lia). done.
Qed.

Lemma decisions_resend msgs seen q drop :
  (∀ v, MRequest v ∈ msgs → ∃ p, (p, MRequest v) ∈ tr) →
  AResend q drop ∈ decisions sc mins msgs seen →
  q_requestID q ∉ seen ∧ q_requestID q ∉ responses sc.
Proof.
  revert seen. induction msgs as [|m msgs IH]; intros seen Htr Hin; [by apply elem_of_nil in Hin|].
  assert (∀ v, MRequest v ∈ msgs → ∃ p, (p, MRequest v) ∈ tr) as Htr'.
  { intros v Hv. apply Htr. by right. }
  destruct m as [v|r|d]; cbn [decisions] in Hin.
  - destruct (unhandled sc mins v) eqn:Eu; cbn [andb] in Hin; [|auto].
    case_bool_decide as Hseen; [|auto]. destruct (Htr v) as [p Hp]; [left|].
    apply elem_of_cons in Hin as [[= -> ->]|Hin].
    + rewrite (resent_id p) by done. split; [done|]. intros Hk.
      by rewrite (completed_handled p) in Eu.
    + destruct (IH _ Htr' Hin). set_solver.
  - case_decide; [|auto]. apply elem_of_cons in Hin as [[=]|Hin]. auto.
  - case_decide; [|auto]. apply elem_of_cons in Hin as [[=]|Hin]. auto.
Qed.

Definition resent_ids (acts : list action) : list string :=
  omap (λ a, match a with AResend q _ => Some (q_requestID q) | ARespond _ => None end) acts.

Lemma decisions_nodup msgs seen :
  (∀ v, MRequest v ∈ msgs → ∃ p, (p, MRequest v) ∈ tr) →
  NoDup (resent_ids (decisions sc mins msgs seen)).
Proof.
  revert seen. induction msgs as [|m msgs IH]; intros seen Htr; [constructor|].
  assert (∀ v, MRequest v ∈ msgs → ∃ p, (p, MRequest v) ∈ tr) as Htr'.
  { intros v Hv. apply Htr. by right. }
  destruct m as [v|r|d]; cbn [decisions]; [|case_decide; simpl; auto..].
  destruct (unhandled sc mins v && _); [|auto]. simpl. constructor; [|auto].
  destruct (Htr v) as [p Hp]; [left|]. rewrite (resent_id p) by done.
  intros ([q drop|] & Hin & Hk)%list_elem_of_omap; [|done]. injection Hk as Hk.
  destruct (decisions_resend _ _ _ _ Htr' Hin) as [Hns _]. rewrite Hk in Hns. set_solver.
Qed.

End decided.


(* ---------------------------------------------------------------------- *)
(** ** Executing the decisions *)

Section effects.
Context {R K : Type} `{Redis R} `{KafkaLaws K} `{MapIter}.
Context (mangle : string → string).

Implicit Types w : world R K.

(** Logs only grow and the partitions of the nodes do not change. *)
Record sending (w w' : world R K) : Prop := {
  sg_logs : ∀ p, ∃ l, k_log (w_kafka w') p = k_log (w_kafka w) p ++ l;
  sg_parts : node2partition (w_tab w') = node2partition (w_tab w);
}.

#[export] Instance sending_preorder : PreOrder sending.
Proof.
  split.
  - intros w. split; [|done]. intros p. exists []. by rewrite app_nil_r.
  - intros w1 w2 w3 [L1 P1] [L2 P2]. split; [|by etrans]. intros p.
    destruct (L1 p) as [l1 E1], (L2 p) as [l2 E2]. exists (l1 ++ l2). by rewrite E2, E1, app_assoc.
Qed.

Lemma routing_sending {A} (m : M (world R K) A) : preserves routing_frame m → preserves sending m.
Proof.
  intros Hm w. destruct (Hm w) as [Hk _ _ _ Hp _ _]. split; [|done]. intros p. exists [].
  by rewrite Hk, app_nil_r.
Qed.

Lemma sending_produce pm : preserves sending (produce pm).
Proof.
  intros w. unfold produce. destruct (k_send pm (w_kafka w)) as [[e|] k'] eqn:E; (split; [|done]);
    intros p; simpl.
  - destruct (k_send_err _ _ _ _ E p) as [->|[_ ->]]; [exists []; by rewrite app_nil_r|eauto].
  - rewrite (k_send_ok _ _ _ E p). case_decide; [eauto|]. exists []. by rewrite app_nil_r.
Qed.

#[local] Hint Resolve sending_produce : frame.
#[local] Hint Extern 1 (PreOrder _) => apply _ : frame.
#[local] Hint Extern 2 (preserves _ (match ?x with _ => _ end)) => destruct x : frame.
#[local] Hint Extern 1 (preserves sending (store _)) => apply routing_sending, frame_store : frame.
#[local] Hint Extern 1 (preserves sending tables) => apply routing_sending, frame_tables : frame.
#[local] Hint Extern 1 (preserves sending (routeToService _)) =>
  apply routing_sending, frame_routeToService : frame.
#[local] Hint Extern 1 (preserves sending (routeToSession _ _ _ _)) =>
  apply routing_sending, frame_routeToSession : frame.

Lemma sending_resend fuel q drop : preserves sending (resend mangle fuel q drop).
Proof. unfold resend, resend_to. auto 20 with frame. Qed.

Lemma sending_respond d : preserves sending (respond d).
Proof. unfold respond. auto 20 with frame. Qed.

#[local] Hint Resolve sending_resend sending_respond : frame.

Definition perform (fuel : nat) (a : action) : M (world R K) unit :=
  match a with
  | AResend q drop => resend mangle fuel q drop
  | ARespond d => respond d
  end.

Definition run (fuel : nat) (acts : list action) : M (world R K) unit :=
  foldr (λ a k, perform fuel a ;;* k) (ret tt) acts.

(** The loop executes its decisions, in order, until one fails. *)
Lemma resend_loop_run fuel sc mins msgs seen w :
  resend_loop mangle fuel sc mins msgs seen w = run fuel (decisions sc mins msgs seen) w.
Proof.
  revert seen w. induction msgs as [|m msgs IH]; intros seen w; [done|].
  destruct m as [v|r|d]; cbn [resend_loop decisions requestID].
  - destruct (unhandled sc mins v); [|apply IH]. cbn [andb].
    case_bool_decide as Hs.
    2:{ rewrite decide_True; [apply IH|]. by destruct (decide (q_requestID v ∈ seen)). }
    rewrite decide_False by done. cbn [run foldr perform]. unfold bind. fold (resent sc mins v).
    by destruct (resend _ _ _ _ w) as [[]].
  - case_decide; [|apply IH]. cbn [run foldr perform]. unfold bind.
    by destruct (respond _ w) as [[]].
  - case_decide; [|apply IH]. cbn [run foldr perform]. unfold bind.
    by destruct (respond _ w) as [[]].
Qed.

Lemma sending_run fuel acts : preserves sending (run fuel acts).
Proof.
  induction acts as [|[q drop|d] acts IH]; cbn [run foldr perform]; auto with frame.
Qed.

(** Every action of a successful run succeeded at some point of it. *)
Lemma run_performed fuel acts a w w' :
  run fuel acts w = (Ok tt, w') → a ∈ acts →
  ∃ w1 w2, sending w w1 ∧ perform fuel a w1 = (Ok tt, w2) ∧ sending w2 w'.
Proof.
  revert w. induction acts as [|a' acts IH]; intros w E Hin; [by apply elem_of_nil in Hin|].
  cbn [run foldr] in E. fold (run fuel acts) in E. apply bind_Ok in E as ([] & w1 & E1 & E2).
  apply elem_of_cons in Hin as [->|Hin].
  - exists w, w1. split_and!; [done|done|]. pose proof (sending_run fuel acts w1) as Hs.
    by rewrite E2 in Hs.
  - destruct (IH w1 E2 Hin) as (w2 & w3 & S1 & E3 & S2). exists w2, w3. split_and!; [|done|done].
    assert (sending w w1); [|by etrans]. destruct a' as [q drop|d]; cbn [perform] in E1.
    + pose proof (sending_resend fuel q drop w) as Hs. by rewrite E1 in Hs.
    + pose proof (sending_respond d w) as Hs. by rewrite E1 in Hs.
Qed.

(** A record that holds a request, or the completion of a request. *)
Definition holds (request : bool) (k : string) (pm : ProducerMessage) : Prop :=
  is_request (decode (delivered 0 pm)) = request ∧ requestID (decode (delivered 0 pm)) = k.

#[export] Instance holds_dec request k pm : Decision (holds request k pm).
Proof. unfold holds. apply _. Defined.

(** A record that holds a given step of a request. *)
Definition pending (k : string) (s : Z) (pm : ProducerMessage) : Prop :=
  holds true k pm ∧ sequence_of (decode (delivered 0 pm)) = s.

Lemma holds_encode t p m : holds (is_request m) (requestID m) (encode_here t p m).
Proof. apply decode_encode_kind. Qed.

Lemma produce_Ok pm w w' :
  produce pm w = (Ok None, w') →
  pm ∈ k_log (w_kafka w') (pm_Partition pm) ∧ w_tab w' = w_tab w.
Proof.
  unfold produce. destruct (k_send pm (w_kafka w)) as [e k'] eqn:E. intros [= -> <-]. simpl.
  rewrite (k_send_ok _ _ _ E). rewrite decide_True by done. split; [|done].
  apply elem_of_app. right. by apply list_elem_of_singleton.
Qed.

Lemma respond_Ok d w w' :
  respond d w = (Ok tt, w') → ∃ pm, pm ∈ k_log (w_kafka w') 0 ∧ holds false (dn_RequestID d) pm.
Proof.
  intros E. unfold respond in E. apply bind_Ok in E as (t & ? & [= <- <-] & E).
  apply bind_Ok in E as ([e|] & w1 & Ep & E); [discriminate E|]. injection E as <-.
  eexists. split; [by apply produce_Ok in Ep as [Hin _]|]. apply (holds_encode _ 0 (MDone d)).
Qed.

(** What a successful [resend] of a request to a service or a session does: the
    request is appended to partition 0 or to the partition of a node, or it is
    left to the copy partition 0 already holds. *)
Lemma resend_Ok fuel q drop w w' :
  (∀ id, q_target q ≠ Node id) → resend mangle fuel q drop w = (Ok tt, w') →
  drop = true ∨ ∃ t p, encode_here t p (MRequest q) ∈ k_log (w_kafka w') p ∧
                       (p = 0 ∨ ∃ node, p = partition_of (w_tab w) node).
Proof.
  intros Ht E.
  unfold resend in E.
  assert (∀ node p w1, node2partition (w_tab w1) = node2partition (w_tab w) →
    (p = 0 ∨ ∃ node, p = partition_of (w_tab w) node) → resend_to mangle q drop node p w1 = (Ok tt, w') →
    drop = true ∨ ∃ t p, encode_here t p (MRequest q) ∈ k_log (w_kafka w') p ∧
                         (p = 0 ∨ ∃ node, p = partition_of (w_tab w) node)) as Hsend.
  { intros node p w1 Hw1 Hp Es. unfold resend_to in Es. destruct ((p =? 0) && drop) eqn:Ed.
    { left. by apply andb_true_iff in Ed as [_ ->]. }
    right. apply bind_Ok in Es as (? & w2 & _ & Es). apply bind_Ok in Es as (t & ? & [= <- <-] & Es).
    apply bind_Ok in Es as ([e|] & w3 & Ep & Es); [discriminate Es|]. injection Es as <-.
    eexists _, p. split; [by apply produce_Ok in Ep as [Hin _]|done]. }
  destruct (q_target q) as [name|s|id] eqn:ET; [..|by destruct (Ht id)].
  - apply bind_Ok in E as (x & w1 & Er & E).
    pose proof (frame_routeToService name w) as F. rewrite Er in F.
    apply (Hsend _ _ _ (rf_parts _ _ F)) in E; [done|].
    apply routeToService_partition in Er as [[_ ->]|[_ ->]]; eauto.
  - apply bind_Ok in E as (x & w1 & Er & E).
    pose proof (frame_routeToSession mangle fuel (s_Name s) (s_ID s) w) as F. rewrite Er in F.
    apply (Hsend _ _ _ (rf_parts _ _ F)) in E; [done|].
    apply routeToSession_partition in Er as [[_ ->]|[_ ->]]; eauto.
Qed.

(** At most one record is sent, and it satisfies [P]. *)
Definition one_send (P : ProducerMessage → Prop) (w w' : world R K) : Prop :=
  (∀ p, k_log (w_kafka w') p = k_log (w_kafka w) p) ∨
  ∃ pm, P pm ∧ ∀ p, k_log (w_kafka w') p = k_log (w_kafka w) p ∨
                    (p = pm_Partition pm ∧ k_log (w_kafka w') p = k_log (w_kafka w) p ++ [pm]).

Lemma one_send_pure {A} P (m : M (world R K) A) : preserves routing_frame m → preserves (one_send P) m.
Proof. intros Hm w. left. intros p. by rewrite (rf_kafka _ _ (Hm w)). Qed.

Lemma one_send_produce (P : ProducerMessage → Prop) pm : P pm → preserves (one_send P) (produce pm).
Proof.
  intros HP w. unfold produce. destruct (k_send pm (w_kafka w)) as [[e|] k'] eqn:E; right; exists pm;
    (split; [done|]); intros p; simpl.
  - by apply (k_send_err _ _ _ _ E).
  - rewrite (k_send_ok _ _ _ E p). case_decide; auto.
Qed.

Lemma one_send_before {A B} P (m : M (world R K) A) (k : A → M (world R K) B) :
  preserves routing_frame m → (∀ a, preserves (one_send P) (k a)) → preserves (one_send P) (bind m k).
Proof.
  intros Hm Hk w. unfold bind. specialize (Hm w).
  destruct (m w) as [[a|e|y|] w1]; simpl in *; try (left; intros p; by rewrite (rf_kafka _ _ Hm)).
  specialize (Hk a w1). destruct (k a w1) as [r w2]; simpl in *. unfold one_send in *.
  by rewrite (rf_kafka _ _ Hm) in Hk.
Qed.

Lemma one_send_then {A B} P (m : M (world R K) A) (k : A → M (world R K) B) :
  preserves (one_send P) m → (∀ a, preserves routing_frame (k a)) → preserves (one_send P) (bind m k).
Proof.
  intros Hm Hk w. unfold bind. specialize (Hm w).
  destruct (m w) as [[a|e|y|] w1]; simpl in *; try done. specialize (Hk a w1).
  destruct (k a w1) as [r w2]; simpl in *. unfold one_send in *. by rewrite (rf_kafka _ _ Hk).
Qed.

(** The records an action may send. *)
Definition sent_by (a : action) (pm : ProducerMessage) : Prop :=
  match a with
  | AResend q _ => holds true (q_requestID q) pm ∨ holds false (q_requestID q) pm
  | ARespond d => holds false (dn_RequestID d) pm
  end.

Lemma frame_ending {A} (e : option gerror) (a : A) :
  preserves (routing_frame (R:=R) (K:=K)) (match e with Some err => throw err | None => ret a end).
Proof. destruct e; intros w; done. Qed.

Lemma one_send_perform fuel a : preserves (one_send (sent_by a)) (perform fuel a).
Proof.
  assert (∀ q drop node p, preserves (one_send (sent_by (AResend q drop))) (resend_to mangle q drop node p)) as Hto.
  { intros q drop node p. unfold resend_to. destruct (_ && drop); [by apply one_send_pure; intros w|].
    apply one_send_before.
    { destruct (_ && _); [|by intros w]. apply preserves_bind; [apply _|apply preserves_attempt, frame_store|by intros ? w]. }
    intros _. apply one_send_before; [apply frame_tables|]. intros t.
    apply one_send_then; [apply one_send_produce; left; apply (holds_encode _ p (MRequest q))|].
    intros e. apply frame_ending. }
  destruct a as [q drop|d]; cbn [perform].
  - unfold resend. destruct (q_target q) as [name|s|id].
    + apply one_send_before; [apply frame_routeToService|]. intros x. apply Hto.
    + apply one_send_before; [apply frame_routeToSession|]. intros x. apply Hto.
    + destruct q as [c|t]; [|by apply one_send_pure; intros w].
      apply one_send_before; [apply frame_tables|]. intros t. apply one_send_then; [|intros e; apply frame_ending].
      apply one_send_produce. right. cbn [q_requestID].
      match goal with |- holds _ _ (encode_here ?t ?p ?m) => exact (holds_encode t p m) end.
  - unfold respond. apply one_send_before; [apply frame_tables|]. intros t.
    apply one_send_then; [|intros e; apply frame_ending].
    apply one_send_produce. apply (holds_encode t 0 (MDone d)).
Qed.

(** At most [n p] new records of partition [p] hold the request [k]. *)
Definition resends_at_most (k : string) (n : Z → nat) (w w' : world R K) : Prop :=
  ∀ p, ∃ l, k_log (w_kafka w') p = k_log (w_kafka w) p ++ l ∧
            (length (filter (holds true k) l) ≤ n p)%nat.

Lemma resends_trans k n1 n2 n3 w1 w2 w3 :
  resends_at_most k n1 w1 w2 → resends_at_most k n2 w2 w3 → (∀ p, (n1 p + n2 p ≤ n3 p)%nat) →
  resends_at_most k n3 w1 w3.
Proof.
  intros R1 R2 Hn p. destruct (R1 p) as (l1 & E1 & L1), (R2 p) as (l2 & E2 & L2).
  exists (l1 ++ l2). rewrite E2, E1, app_assoc. split; [done|].
  rewrite filter_app, length_app. specialize (Hn p). lia.
Qed.

Lemma perform_resends fuel a k w r w' :
  perform fuel a w = (r, w') →
  ∃ p0, resends_at_most k (λ p, if decide (p = p0 ∧ k ∈ resent_ids [a]) then 1 else 0)%nat w w'.
Proof.
  intros E. pose proof (one_send_perform fuel a w) as Ho. rewrite E in Ho. simpl in Ho.
  destruct Ho as [Hs|(pm & HP & Hs)].
  { exists 0. intros p. exists []. rewrite Hs, app_nil_r. split; [done|]. simpl. lia. }
  exists (pm_Partition pm). intros p. destruct (Hs p) as [->|[Hp ->]].
  { exists []. rewrite app_nil_r. split; [done|]. simpl. lia. }
  exists [pm]. split; [done|]. rewrite filter_cons, filter_nil. case_decide as Hh; [|simpl; lia].
  rewrite decide_True; [done|]. split; [done|].
  destruct a as [q drop|d]; simpl in *; destruct Hh as [Hb Hk].
  - apply list_elem_of_singleton. destruct HP as [[_ <-]|[Hf _]]; [done|congruence].
  - destruct HP as [Hf _]. congruence.
Qed.

Lemma run_resends fuel acts k w r w' :
  NoDup (resent_ids acts) → run fuel acts w = (r, w') →
  ∃ p0, resends_at_most k (λ p, if decide (p = p0 ∧ k ∈ resent_ids acts) then 1 else 0)%nat w w'.
Proof.
  revert w. induction acts as [|a acts IH]; intros w Hnd E; cbn [run foldr] in E.
  { injection E as <- <-. exists 0. intros p. exists []. rewrite app_nil_r. split; [done|]. simpl. lia. }
  fold (run fuel acts) in E. unfold bind in E. destruct (perform fuel a w) as [ra w1] eqn:Ea.
  destruct (perform_resends fuel a k w ra w1 Ea) as [pa Ha].
  assert (∀ k, k ∈ resent_ids (a :: acts) ↔ k ∈ resent_ids [a] ∨ k ∈ resent_ids acts) as Hids.
  { intros k'. change (a :: acts) with ([a] ++ acts). unfold resent_ids. by rewrite omap_app, elem_of_app. }
  assert (∃ p0, resends_at_most k (λ p, if decide (p = p0 ∧ k ∈ resent_ids (a :: acts)) then 1 else 0)%nat w w1) as Hstop.
  { exists pa. intros p. destruct (Ha p) as (l & El & Hl). exists l. split; [done|].
    etrans; [exact Hl|]. repeat case_decide; try lia; exfalso; naive_solver. }
  destruct ra as [[]|e|y|]; [|by injection E as <- <-..].
  assert (NoDup (resent_ids acts)) as Hnd'.
  { change (a :: acts) with ([a] ++ acts) in Hnd. unfold resent_ids in Hnd. rewrite omap_app in Hnd.
    by apply NoDup_app in Hnd as (_ & _ & ?). }
  destruct (IH w1 Hnd' E) as [p1 Hrun].
  destruct (decide (k ∈ resent_ids [a])) as [Hin|Hin].
  - assert (k ∉ resent_ids acts) as Hnin.
    { change (a :: acts) with ([a] ++ acts) in Hnd. unfold resent_ids in Hnd. rewrite omap_app in Hnd.
      apply NoDup_app in Hnd as (_ & Hd & _). by apply Hd. }
    exists pa. eapply resends_trans; [exact Ha|exact Hrun|]. intros p. simpl.
    repeat case_decide; naive_solver.
  - exists p1. eapply resends_trans; [exact Ha|exact Hrun|]. intros p. simpl.
    repeat case_decide; naive_solver.
Qed.

End effects.

(* ---------------------------------------------------------------------- *)
(** ** [recover] as a whole *)

Section whole.
Context {R K : Type} `{Redis R} `{KafkaLaws K} `{MapIter}.
Context (mangle : string → string).

Implicit Types w : world R K.

(** The records of the claimed partitions, in the order they are read. *)
Definition history (w : world R K) (claims : list Z) : list (Z * Message) :=
  claims ≫= λ p, (λ pm, (p, decode (delivered 0 pm))) <$> k_log (w_kafka w) p.

(** The claims deliver the partitions' records, up to the newest offsets [Plan]
    recorded. *)
Definition delivers (w : world R K) (g : Group) (claims : list Z)
    (channels : Z → option (list ConsumerMessage)) : Prop :=
  ∀ p, p ∈ claims → ∃ base, 0 ≤ base ∧
    channels p = Some (imap (λ i pm, delivered (base + Z.of_nat i) pm) (k_log (w_kafka w) p)) ∧
    newest_of g p = (if decide (k_log (w_kafka w) p = []) then 0
                     else base + Z.of_nat (length (k_log (w_kafka w) p))).

Lemma elem_of_history w claims p m :
  (p, m) ∈ history w claims ↔
  p ∈ claims ∧ ∃ pm, pm ∈ k_log (w_kafka w) p ∧ decode (delivered 0 pm) = m.
Proof.
  unfold history. rewrite list_elem_of_bind. split.
  - intros (p' & (pm & [= -> ->] & Hin)%list_elem_of_fmap & Hp). eauto.
  - intros (Hp & pm & Hin & <-). exists p. split; [|done]. apply list_elem_of_fmap. eauto.
Qed.

Lemma read_claims_history w g claims channels sc :
  delivers w g claims channels →
  read_claims g channels claims sc =
  Ok (set_deletion (offsetsForDeletion sc ++ filter (λ p, dead g p = true) claims)
        (scan_trace g (history w claims) sc)).
Proof.
  revert sc. induction claims as [|p claims IH]; intros sc Hd; cbn [read_claims].
  { rewrite filter_nil, app_nil_r. by destruct sc. }
  destruct (Hd p) as (base & Hb & Hch & Hn); [left|]. rewrite Hch.
  rewrite (read_claim_all g).
  2:{ intros i msg. rewrite list_lookup_imap, length_imap.
      destruct (k_log (w_kafka w) p !! i) as [pm|] eqn:Ei; [|done]. intros [= <-]. simpl.
      apply lookup_lt_Some in Ei. rewrite Hn, decide_False by (intros Ek; rewrite Ek in Ei; simpl in Ei; lia). lia. }
  2:{ intros Hnil. rewrite Hn. rewrite decide_True; [done|].
      destruct (k_log (w_kafka w) p) as [|pm l]; [done|]. simpl in Hnil. done. }
  2:{ intros Hne. rewrite Hn. destruct (k_log (w_kafka w) p) as [|pm l]; [done|].
      rewrite decide_False by done. simpl. lia. }
  rewrite mark_deletion_eq, IH by (intros q Hq; apply Hd; by right). f_equal.
  rewrite scan_trace_deletion, scan_trace_offsets, set_deletion_twice. cbn [offsetsForDeletion set_deletion].
  rewrite <-app_assoc, <-(filter_app _ [p]). cbn [app]. f_equal.
  change (history w (p :: claims)) with
    (((λ pm, (p, decode (delivered 0 pm))) <$> k_log (w_kafka w) p) ++ history w claims).
  rewrite scan_trace_app. f_equal. f_equal. apply list_eq. intros i.
  rewrite !list_lookup_fmap, list_lookup_imap. by destruct (k_log (w_kafka w) p !! i).
Qed.

(** The decisions of a recovery of the partitions [claims]. *)
Definition scan_of (w : world R K) (g : Group) (claims : list Z) : scan :=
  set_deletion (filter (λ p, dead g p = true) claims) (scan_trace g (history w claims) scan0).

Definition decisions_of (w : world R K) (g : Group) (claims : list Z) : list action :=
  let sc := scan_of w g claims in decisions sc (min_seq sc) (orphans sc ++ orphans0 sc) ∅.

(** A run of [recover]: the topic's metadata are refreshed, the decisions are
    executed, and only if all of them succeed the dead partitions are emptied. *)
Lemma recover_run fuel g claims channels w r w' :
  delivers w g claims channels → recover mangle fuel g claims channels w = (r, w') →
  (∃ e, r = Err e ∧ ∀ p, k_log (w_kafka w') p = k_log (w_kafka w) p) ∨
  ∃ w1 r1 w2, (∀ p, k_log (w_kafka w1) p = k_log (w_kafka w) p) ∧ w_tab w1 = w_tab w ∧
    run mangle fuel (decisions_of w g claims) w1 = (r1, w2) ∧
    match r1 with
    | Ok _ => r = Ok (set_offset0 (max0 g) g) ∧
              w' = with_kafka (k_delete (filter (λ p, dead g p = true) claims) (w_kafka w2)) w2
    | Err e => r = Err e ∧ w' = w2
    | Panic why => r = Panic why ∧ w' = w2
    | OutOfFuel => r = OutOfFuel ∧ w' = w2
    end.
Proof.
  intros Hd E. unfold recover, bind at 1, of_res in E.
  rewrite (read_claims_history w) in E by done. cbn [offsetsForDeletion scan0 app] in E.
  fold (scan_of w g claims) in E. unfold bind at 1 in E.
  destruct (k_refresh (w_kafka w)) as [e k'] eqn:ER. pose proof (k_refresh_log (w_kafka w)) as HR.
  rewrite ER in HR. simpl in HR. destruct e as [e|].
  { left. exists e. injection E as <- <-. done. }
  right. exists (with_kafka k' w). unfold bind at 1 in E. rewrite resend_loop_run in E.
  fold (decisions_of w g claims) in E.
  destruct (run mangle fuel (decisions_of w g claims) (with_kafka k' w)) as [r1 w2] eqn:E1.
  exists r1, w2. split; [done|]. split; [done|]. split; [done|].
  destruct r1; by injection E as <- <-.
Qed.

(** What [recover] assumes of the partitions it reads: partition 0 belongs to no
    node, sequence numbers are small, and the partitions of the nodes it knows
    are not among the dead ones. *)
Record recoverable (w : world R K) (g : Group) (claims : list Z) : Prop := {
  rv_zero : attached g 0 = false;
  rv_seq : ∀ p q, (p, MRequest q) ∈ history w claims → seq_ok q;
  rv_live : ∀ node, partition_of (w_tab w) node ∉ filter (λ p, dead g p = true) claims;
}.

Definition completed (tr : list (Z * Message)) (k : string) : Prop :=
  ∃ p m, (p, m) ∈ tr ∧ is_request m = false ∧ requestID m = k.

Lemma scan_of_scanned w g claims :
  recoverable w g claims → scanned g (history w claims) (scan_of w g claims).
Proof.
  intros [Hz Hseq _]. destruct (scan_trace_scanned g (history w claims) Hz Hseq). by split.
Qed.

Lemma orphan_in_history w g claims v :
  recoverable w g claims →
  MRequest v ∈ orphans (scan_of w g claims) ++ orphans0 (scan_of w g claims) →
  ∃ p, (p, MRequest v) ∈ history w claims.
Proof.
  intros Hrv. pose proof (scan_of_scanned w g claims Hrv) as Hsc.
  rewrite (sd_orphans _ _ _ Hsc), (sd_orphans0 _ _ _ Hsc), elem_of_app, !list_elem_of_fmap.
  intros [([p m] & -> & [_ Hin]%list_elem_of_filter)|([p m] & -> & [_ Hin]%list_elem_of_filter)]; eauto.
Qed.

Lemma history_orphan w g claims p v :
  recoverable w g claims → (p, MRequest v) ∈ history w claims → attached g p = false →
  MRequest v ∈ orphans (scan_of w g claims) ++ orphans0 (scan_of w g claims).
Proof.
  intros Hrv Hin Ha. pose proof (scan_of_scanned w g claims Hrv) as Hsc.
  rewrite (sd_orphans _ _ _ Hsc), (sd_orphans0 _ _ _ Hsc), elem_of_app, !list_elem_of_fmap.
  destruct (Z.eq_dec p 0) as [->|Hp].
  - right. exists (0, MRequest v). split; [done|]. by apply list_elem_of_filter.
  - left. exists (p, MRequest v). split; [done|]. apply list_elem_of_filter. split; [|done].
    unfold dead. simpl. rewrite Ha, (proj2 (Z.eqb_neq p 0)) by done. done.
Qed.

Lemma min_seq_unchained (sc : scan) k : chains sc !! k = None → min_seq sc !! k = max_seq sc !! k.
Proof.
  intros Hk. unfold min_seq. rewrite fill_map_iter.
  assert (k ∉ (map_iter 21 (chains sc)).*1) as Hn.
  { intros ([k' c] & -> & Hin)%list_elem_of_fmap. rewrite map_iter_perm, elem_of_map_to_list in Hin.
    simpl in Hk. congruence. }
  assert (∀ l (m : gmap string Z), k ∉ l.*1 →
    foldl (λ m '(k, chain), match min_of_chain sc k chain with Some i => <[k := i]> m | None => m end)
      m l !! k = m !! k) as Hl; [|by apply Hl].
  intros l. induction l as [|[k' c] l IH]; intros m Hl; [done|]. cbn [foldl].
  cbn [fmap list_fmap fst] in Hl. rewrite IH by set_solver.
  destruct (min_of_chain sc k' c); [|done]. rewrite lookup_insert_ne; [done|set_solver].
Qed.

(** Records of partitions that are not emptied survive. *)
Lemma survives fuel g claims channels w g' w' p pm :
  delivers w g claims channels → recover mangle fuel g claims channels w = (Ok g', w') →
  p ∉ filter (λ p, dead g p = true) claims → pm ∈ k_log (w_kafka w) p → pm ∈ k_log (w_kafka w') p.
Proof.
  intros Hd E Hp Hpm.
  destruct (recover_run _ _ _ _ _ _ _ Hd E) as [(e & ? & _)|(w1 & r1 & w2 & Hl & _ & Er & Hr)]; [done|].
  destruct r1; destruct Hr as [Hr ->]; try done. simpl. rewrite k_delete_other by done.
  pose proof (sending_run mangle fuel (decisions_of w g claims) w1) as Hs. rewrite Er in Hs.
  destruct (sg_logs _ _ Hs p) as [l El]. simpl in El. rewrite El, Hl. apply elem_of_app. by left.
Qed.

(** Every decision of a successful recovery was executed, and what it sent to a
    partition that is not emptied is still there at the end. *)
Lemma executed fuel g claims channels w g' w' a :
  delivers w g claims channels → recover mangle fuel g claims channels w = (Ok g', w') →
  a ∈ decisions_of w g claims →
  ∃ w1 w2, perform mangle fuel a w1 = (Ok tt, w2) ∧
    node2partition (w_tab w1) = node2partition (w_tab w) ∧
    ∀ p pm, p ∉ filter (λ p, dead g p = true) claims →
      pm ∈ k_log (w_kafka w2) p → pm ∈ k_log (w_kafka w') p.
Proof.
  intros Hd E Ha.
  destruct (recover_run _ _ _ _ _ _ _ Hd E) as [(e & ? & _)|(w0 & r1 & w3 & _ & Ht & Er & Hr)]; [done|].
  destruct r1 as [[]| | |]; destruct Hr as [Hr ->]; try done.
  destruct (run_performed _ _ _ _ _ _ Er Ha) as (w1 & w2 & S1 & Ep & S2). exists w1, w2.
  split_and!; [done| |].
  - by rewrite (sg_parts _ _ S1), Ht.
  - intros p pm Hp Hpm. simpl. rewrite k_delete_other by done.
    destruct (sg_logs _ _ S2 p) as [l ->]. apply elem_of_app. by left.
Qed.

Lemma not_dead_history w g claims p m :
  (p, m) ∈ history w claims → dead g p = false → p ∉ filter (λ p, dead g p = true) claims.
Proof. intros _ Hd [Hd' _]%list_elem_of_filter. congruence. Qed.

(** A request of the history in a partition that is not emptied. *)
Lemma history_survives fuel g claims channels w g' w' p m :
  delivers w g claims channels → recover mangle fuel g claims channels w = (Ok g', w') →
  (p, m) ∈ history w claims → dead g p = false →
  ∃ p' pm, p' ∉ filter (λ p, dead g p = true) claims ∧ pm ∈ k_log (w_kafka w') p' ∧
           decode (delivered 0 pm) = m.
Proof.
  intros Hd E Hin Hdead. pose proof (not_dead_history _ _ _ _ _ Hin Hdead) as Hp.
  apply elem_of_history in Hin as (_ & pm & Hpm & <-). exists p, pm.
  split_and!; [done| |done]. by eapply survives.
Qed.

(** A request that was resent by a successful recovery is in a live log. *)
Lemma resent_survives fuel g claims channels w g' w' q drop :
  recoverable w g claims → delivers w g claims channels →
  recover mangle fuel g claims channels w = (Ok g', w') →
  AResend q drop ∈ decisions_of w g claims → (∀ id, q_target q ≠ Node id) → drop = false →
  ∃ t p, p ∉ filter (λ p, dead g p = true) claims ∧ encode_here t p (MRequest q) ∈ k_log (w_kafka w') p.
Proof.
  intros Hrv Hd E Ha Ht ->. destruct (executed _ _ _ _ _ _ _ _ Hd E Ha) as (w1 & w2 & Ep & Hn & Hk).
  destruct (resend_Ok _ _ _ _ _ _ Ht Ep) as [?|(t & p & Hin & Hp)]; [done|].
  assert (p ∉ filter (λ p, dead g p = true) claims) as Hnd.
  { destruct Hp as [->|[node ->]].
    - intros [Hdz _]%list_elem_of_filter. unfold dead in Hdz. rewrite andb_false_r in Hdz. done.
    - unfold partition_of. rewrite Hn. apply (rv_live _ _ _ Hrv). }
  exists t, p. split; [done|]. by apply Hk.
Qed.

(** The records of an id from which it can be restarted: its chain of tail
    calls holds no lock, or the call that acquired the lock is itself orphaned. *)
Definition restartable (w : world R K) (g : Group) (claims : list Z) (k : string) : Prop :=
  (∀ p q, (p, MRequest q) ∈ history w claims → q_requestID q = k → deferred q = false) ∨
  (∃ p q, (p, MRequest q) ∈ history w claims ∧ q_requestID q = k ∧ attached g p = false ∧
          q_sequence q = zget (min_seq (scan_of w g claims)) k).

(** The orphan that triggers the resend, unless a live partition has the
    latest request. *)
Lemma restart_orphan w g claims k p q :
  recoverable w g claims → (p, MRequest q) ∈ history w claims → q_requestID q = k →
  ¬ completed (history w claims) k → restartable w g claims k →
  (∃ p' q', (p', MRequest q') ∈ history w claims ∧ q_requestID q' = k ∧ attached g p' = true ∧
            q_sequence q' = zget (max_seq (scan_of w g claims)) k) ∨
  (∃ v, MRequest v ∈ orphans (scan_of w g claims) ++ orphans0 (scan_of w g claims) ∧
        q_requestID v = k ∧ unhandled (scan_of w g claims) (min_seq (scan_of w g claims)) v = true).
Proof.
  intros Hrv Hin Hk Hnc Hrs. pose proof (scan_of_scanned w g claims Hrv) as Hsc.
  set (sc := scan_of w g claims) in *.
  destruct (sd_max _ _ _ Hsc p q Hin) as (s & Hs & _). rewrite Hk in Hs.
  assert (zget (max_seq sc) k = s) as Hmax by (unfold zget; by rewrite Hs). rewrite Hmax.
  assert (k ∉ responses sc) as Hnr by (rewrite (sd_responses _ _ _ Hsc); done).
  assert ((∃ p' q', (p', MRequest q') ∈ history w claims ∧ q_requestID q' = k ∧
                    attached g p' = true ∧ q_sequence q' = s) ∨
          (∃ p0 q0, (p0, MRequest q0) ∈ history w claims ∧ q_requestID q0 = k ∧
                    attached g p0 = false ∧ q_sequence q0 = zget (min_seq sc) k))
    as [Hlive|(p0 & q0 & Hin0 & Hk0 & Ha0 & Hs0)]; [|by left|].
  { destruct Hrs as [Hnd|]; [|by right].
    destruct (sd_latest _ _ _ Hsc k s Hs) as (p0 & q0 & _ & Hin0 & Hk0 & Hs0).
    destruct (attached g p0) eqn:Ea; [left; by exists p0, q0|]. right. exists p0, q0. split_and!; try done.
    unfold zget. rewrite (min_seq_unchained sc k), Hs; [done|].
    destruct (chains sc !! k) as [c|] eqn:Ec; [|done].
    destruct (sd_chains _ _ _ Hsc k c Ec) as (p1 & q1 & Hin1 & Hk1 & Hd1). by rewrite (Hnd p1 q1) in Hd1. }
  destruct (match handled sc !! k with None => true | Some s' => s' <? s end) eqn:Eh.
  - right. exists q0. split; [by eapply history_orphan|]. split; [done|].
    unfold unhandled. by rewrite Hk0, Hs0, Z.eqb_refl, Hmax, Eh.
  - left. destruct (handled sc !! k) as [sh|] eqn:Ehk; [|done]. apply Z.ltb_ge in Eh.
    destruct (sd_handled_live _ _ _ Hsc k sh Hnr Ehk) as (p1 & q1 & Hin1 & Ha1 & Hk1 & Hs1).
    exists p1, q1. split_and!; try done. destruct (sd_max _ _ _ Hsc p1 q1 Hin1) as (s' & Hs' & Hle).
    rewrite Hk1, Hs in Hs'. injection Hs' as <-. lia.
Qed.

Lemma resent_target w g claims v k :
  recoverable w g claims → (∃ p, (p, MRequest v) ∈ history w claims) → q_requestID v = k →
  (∀ p q, (p, MRequest q) ∈ history w claims → q_requestID q = k → ∀ id, q_target q ≠ Node id) →
  ∀ mins id, q_target (resent (scan_of w g claims) mins v) ≠ Node id.
Proof.
  intros Hrv [p Hin] Hk Ht mins id. pose proof (scan_of_scanned w g claims Hrv) as Hsc.
  destruct (sd_max _ _ _ Hsc p v Hin) as (s & Hs & _).
  destruct (sd_latest _ _ _ Hsc _ s Hs) as (p1 & q1 & Hl & Hin1 & Hk1 & _).
  unfold resent. rewrite Hl. rewrite Hk in Hk1. pose proof (Ht p1 q1 Hin1 Hk1) as Hq.
  destruct q1 as [c|t]; simpl in *; destruct (c_Target _) || destruct (t_Target _); simpl; naive_solver.
Qed.

Lemma resent_sequence w g claims p v mins :
  recoverable w g claims → (p, MRequest v) ∈ history w claims →
  q_sequence (resent (scan_of w g claims) mins v) = zget mins (q_requestID v).
Proof.
  intros Hrv Hin. pose proof (scan_of_scanned w g claims Hrv) as Hsc.
  destruct (sd_max _ _ _ Hsc p v Hin) as (s & Hs & _).
  destruct (sd_latest _ _ _ Hsc _ s Hs) as (p1 & q1 & Hl & _). unfold resent. rewrite Hl. by destruct q1.
Qed.

Lemma no_request_lost fuel g claims channels w g' w' k p q :
  recoverable w g claims → delivers w g claims channels →
  recover mangle fuel g claims channels w = (Ok g', w') →
  (p, MRequest q) ∈ history w claims → q_requestID q = k → ¬ completed (history w claims) k →
  (∀ p q, (p, MRequest q) ∈ history w claims → q_requestID q = k → ∀ id, q_target q ≠ Node id) →
  restartable w g claims k →
  ∃ p pm s, p ∉ filter (λ p, dead g p = true) claims ∧ pm ∈ k_log (w_kafka w') p ∧ pending k s pm ∧
    (s = zget (max_seq (scan_of w g claims)) k ∨ s = zget (min_seq (scan_of w g claims)) k).
Proof.
  intros Hrv Hd E Hin Hk Hnc Ht Hrs. pose proof (scan_of_scanned w g claims Hrv) as Hsc.
  destruct (restart_orphan w g claims k p q Hrv Hin Hk Hnc Hrs)
    as [(p1 & q1 & Hin1 & <- & Ha & Hs1)|(v & Hv & Hkv & Hu)].
  { destruct (history_survives _ _ _ _ _ _ _ p1 (MRequest q1) Hd E Hin1) as (p2 & pm & Hp2 & Hpm & Hdec);
      [unfold dead; by rewrite Ha|].
    exists p2, pm, (q_sequence q1). unfold pending, holds. rewrite Hdec. split_and!; auto. }
  destruct (decisions_complete _ (min_seq (scan_of w g claims)) _ ∅ v Hv Hu) as (v' & Hv' & Hk' & Ha); [set_solver|].
  fold (decisions_of w g claims) in Ha. rewrite Hkv in *.
  destruct (orphan_in_history w g claims v' Hrv Hv') as [p' Hin'].
  destruct (already_in_0 (scan_of w g claims) k) eqn:E0.
  - unfold already_in_0 in E0. destruct (requests0 _ !! k) as [s0|] eqn:ER; [|done].
    destruct (sd_requests0 _ _ _ Hsc k s0 ER) as (q0 & Hin0 & Hk0 & Hs0).
    destruct (history_survives _ _ _ _ _ _ _ 0 (MRequest q0) Hd E Hin0) as (p2 & pm & Hp2 & Hpm & Hdec);
      [unfold dead; by rewrite andb_false_r|].
    destruct (sd_max _ _ _ Hsc 0 q0 Hin0) as (s' & Hs' & Hle). rewrite Hk0 in Hs'.
    exists p2, pm, s0. unfold pending, holds. rewrite Hdec. split_and!; try done. left.
    apply Z.leb_le in E0. unfold zget in *. rewrite Hs' in *. simpl in *. lia.
  - destruct (resent_survives _ _ _ _ _ _ _ _ _ Hrv Hd E Ha) as (t & p2 & Hp2 & Hpm); [|done|].
    { intros id. eapply resent_target; eauto. }
    pose proof (resent_sequence w g claims p' v' (min_seq (scan_of w g claims)) Hrv Hin') as Hrs'.
    pose proof (resent_id g (history w claims) _ (min_seq (scan_of w g claims)) Hsc p' v' Hin') as Hid.
    rewrite Hk' in Hrs', Hid.
    exists p2, (encode_here t p2 (MRequest (resent (scan_of w g claims) (min_seq (scan_of w g claims)) v'))), (zget (min_seq (scan_of w g claims)) k).
    split_and!; [done|done| |by right]. split.
    + rewrite <-Hid. apply (holds_encode _ p2 (MRequest _)).
    + unfold encode_here. rewrite decode_encode_sequence; [done|].
      destruct (orphan_in_history w g claims v Hrv Hv) as [pv Hinv].
      destruct (rv_seq _ _ _ Hrv pv v Hinv) as [Hlo Hhi].
      unfold unhandled in Hu. apply andb_true_iff in Hu as [_ Hu%Z.eqb_eq]. rewrite Hkv in Hu.
      rewrite Hrs', <-Hu. unfold int64_range. lia.
Qed.

Lemma completion_kept fuel g claims channels w g' w' k p q :
  recoverable w g claims → delivers w g claims channels →
  recover mangle fuel g claims channels w = (Ok g', w') →
  completed (history w claims) k →
  (p, MRequest q) ∈ history w claims → q_requestID q = k → dead g p = false →
  ∃ p pm, p ∉ filter (λ p, dead g p = true) claims ∧ pm ∈ k_log (w_kafka w') p ∧ holds false k pm.
Proof.
  intros Hrv Hd E (p1 & m & Hin1 & Hm & Hk1) Hin Hk Hnd.
  pose proof (scan_of_scanned w g claims Hrv) as Hsc.
  destruct (dead g p1) eqn:Ed.
  2:{ destruct (history_survives _ _ _ _ _ _ _ p1 m Hd E Hin1 Ed) as (p2 & pm & Hp2 & Hpm & Hdec).
      exists p2, pm. unfold holds. by rewrite Hdec. }
  destruct (decide (k ∈ responses0 (scan_of w g claims))) as [Hr0|Hr0].
  { apply (sd_responses0 _ _ _ Hsc) in Hr0 as (m0 & Hin0 & Hm0 & Hk0).
    destruct (history_survives _ _ _ _ _ _ _ 0 m0 Hd E Hin0) as (p2 & pm & Hp2 & Hpm & Hdec);
      [unfold dead; by rewrite andb_false_r|].
    exists p2, pm. unfold holds. by rewrite Hdec. }
  assert (m ∈ orphans (scan_of w g claims) ++ orphans0 (scan_of w g claims)) as Ho.
  { rewrite (sd_orphans _ _ _ Hsc). apply elem_of_app. left. apply list_elem_of_fmap. exists (p1, m).
    split; [done|]. by apply list_elem_of_filter. }
  assert (k ∈ requests (scan_of w g claims)) as Hr by (apply (sd_requests _ _ _ Hsc); eauto).
  rewrite <-Hk1 in *.
  pose proof (decisions_respond (scan_of w g claims) (min_seq (scan_of w g claims)) _ ∅ m Ho Hm Hr Hr0) as Ha.
  fold (decisions_of w g claims) in Ha.
  destruct (executed _ _ _ _ _ _ _ _ Hd E Ha) as (w1 & w2 & Ep & _ & Hkeep).
  destruct (respond_Ok _ _ _ Ep) as (pm & Hpm & Hh). exists 0, pm.
  assert (0 ∉ filter (λ p, dead g p = true) claims) as Hz.
  { intros [Hdz _]%list_elem_of_filter. unfold dead in Hdz. by rewrite andb_false_r in Hdz. }
  split_and!; [done|by apply Hkeep|done].
Qed.

End whole.

(* ---------------------------------------------------------------------- *)
(** ** Consuming a partition *)

(** Offsets increase along a partition. *)
Fixpoint increasing (from : Z) (messages : list ConsumerMessage) : bool :=
  match messages with
  | [] => true
  | msg :: rest => (from <=? cm_Offset msg) && increasing (cm_Offset msg + 1) rest
  end.

(** What the processor should be given: everything but the completions. *)
Definition to_process (messages : list ConsumerMessage) : list Message :=
  filter (λ m, match m with MDone _ => false | _ => true end = true) (decode <$> messages).

Lemma to_process_app l1 l2 : to_process (l1 ++ l2) = to_process l1 ++ to_process l2.
Proof. unfold to_process. by rewrite fmap_app, filter_app. Qed.

Lemma consume_app l1 l2 c :
  consume (l1 ++ l2) c = let '(_, c1) := consume l1 c in consume l2 c1.
Proof.
  revert c. induction l1 as [|msg l1 IH]; intros c; [done|]. cbn [app consume]. unfold bind, get, modify.
  destruct (_ <? _); apply IH.
Qed.

(** Messages ahead of the head are processed, in order. *)
Lemma consume_new l rest c :
  increasing (head_offset c) (l ++ rest) = true →
  ∃ c', consume l c = (Ok tt, c') ∧ processed c' = processed c ++ to_process l ∧
        head_offset c ≤ head_offset c' ∧ (∀ msg, msg ∈ l → cm_Offset msg < head_offset c') ∧
        increasing (head_offset c') rest = true.
Proof.
  revert c. induction l as [|msg l IH]; intros c Hinc.
  { exists c. split_and!; [done|by rewrite app_nil_r|lia| |done]. intros ? Hm. by apply elem_of_nil in Hm. }
  cbn [increasing app] in Hinc. apply andb_true_iff in Hinc as [Hle%Z.leb_le Hinc].
  cbn [consume]. unfold bind, get, modify. rewrite (proj2 (Z.ltb_ge _ _)) by done.
  match goal with |- context [consume l ?c1] => destruct (IH c1 Hinc) as (c' & E & Hp & Hh & Ho & Hr) end.
  exists c'. split_and!; [done| |simpl in Hh; lia| |done].
  - rewrite Hp. unfold to_process. cbn [fmap list_fmap processed]. rewrite filter_cons.
    destruct (decode msg); simpl; [by rewrite <-app_assoc|by rewrite <-app_assoc|done].
  - intros m [->|Hm]%elem_of_cons; [simpl in Hh; lia|auto].
Qed.

(** Messages behind the head are skipped. *)
Lemma consume_old l c :
  (∀ msg, msg ∈ l → cm_Offset msg < head_offset c) → consume l c = (Ok tt, c).
Proof.
  induction l as [|msg l IH]; intros Hold; [done|]. cbn [consume]. unfold bind, get.
  rewrite (proj2 (Z.ltb_lt _ _)) by (apply Hold; left). apply IH. intros m Hm. apply Hold. by right.
Qed.


(* ---------------------------------------------------------------------- *)
(** ** Properties *)

(** C2: when recovery succeeds, a request to a service or to a session that was
    found without a completion, and whose chain of tail calls can be restarted (it
    holds no deferred lock, or the call that acquired the lock is itself found outside
    the live partitions), is not lost: afterwards a record of it is in a partition that was
    not emptied, at the sequence number of its latest copy or at the one its chain
    of tail calls restarts from (a copy that was there already, or one that was sent).
    Requests to a node are outside the statement: the code does not send them again. *)
Theorem recover_loses_no_request {R K} `{Redis R} `{KafkaLaws K} `{MapIter}
    (mangle : string → string) (fuel : nat) (g g' : Group) (claims : list Z)
    (channels : Z → option (list ConsumerMessage)) (w w' : world R K) (k : string) (p : Z)
    (q : Request) :
  recoverable w g claims → delivers w g claims channels →
  recover mangle fuel g claims channels w = (Ok g', w') →
  (p, MRequest q) ∈ history w claims → q_requestID q = k → ¬ completed (history w claims) k →
  (∀ p q, (p, MRequest q) ∈ history w claims → q_requestID q = k → ∀ id, q_target q ≠ Node id) →
  restartable w g claims k →
  ∃ p pm s, p ∉ filter (λ p, dead g p = true) claims ∧ pm ∈ k_log (w_kafka w') p ∧ pending k s pm ∧
    (s = zget (max_seq (scan_of w g claims)) k ∨ s = zget (min_seq (scan_of w g claims)) k).
Proof. apply no_request_lost. Qed.

(** C5: recovery repeats nothing that completed and nothing twice: whatever its
    outcome, among the records it adds at most one, in one partition, holds a
    given request, and none does if the history has a completion for it. *)
Theorem recover_resends_at_most_once {R K} `{Redis R} `{KafkaLaws K} `{MapIter}
    (mangle : string → string) (fuel : nat) (g : Group) (claims : list Z)
    (channels : Z → option (list ConsumerMessage)) (w w' : world R K) r (k : string) :
  recoverable w g claims → delivers w g claims channels →
  recover mangle fuel g claims channels w = (r, w') →
  ∃ p0, ∀ p, p ∉ filter (λ p, dead g p = true) claims →
    ∃ l, k_log (w_kafka w') p = k_log (w_kafka w) p ++ l ∧
         (p ≠ p0 ∨ completed (history w claims) k → filter (holds true k) l = []) ∧
         (length (filter (holds true k) l) ≤ 1)%nat.
Proof.
  intros Hrv Hd E. pose proof (scan_of_scanned w g claims Hrv) as Hsc.
  destruct (recover_run _ _ _ _ _ _ _ _ Hd E) as [(e & _ & Hl)|(w1 & r1 & w2 & Hl & _ & Er & Hr)].
  { exists 0. intros p _. exists []. rewrite Hl, app_nil_r.
    split_and!; [done|done|simpl; lia]. }
  destruct (run_resends mangle fuel (decisions_of w g claims) k w1 r1 w2) as [p0 Hp0]; [|done|].
  { apply (decisions_nodup g (history w claims) _ _ Hsc (rv_seq _ _ _ Hrv)).
    intros v. by apply orphan_in_history. }
  assert (completed (history w claims) k → k ∉ resent_ids (decisions_of w g claims)) as Hc.
  { intros Hc%(sd_responses _ _ _ Hsc) ([q drop|] & Hin & [= Hk])%list_elem_of_omap.
    destruct (decisions_resend g (history w claims) _ _ Hsc (rv_seq _ _ _ Hrv) _ _ _ _
                (λ v, orphan_in_history w g claims v Hrv) Hin) as [_ Hn]. by rewrite Hk in Hn. }
  exists p0. intros p Hp. destruct (Hp0 p) as (l & El & Hlen). exists l. split_and!.
  - assert (k_log (w_kafka w') p = k_log (w_kafka w2) p) as ->.
    { destruct r1; destruct Hr as [_ ->]; [|done..]. simpl. by apply k_delete_other. }
    by rewrite El, Hl.
  - intros Hor. apply nil_length_inv. case_decide as Hdec; [|lia]. exfalso. naive_solver.
  - case_decide; lia.
Qed.

(** C31: when recovery succeeds, a completed request that still has a copy in a
    partition that is not emptied has, afterwards, a completion in such a partition,
    so no later recovery repeats it.  (The completions of a request that has no copy
    outside the emptied partitions go with it.) *)
Theorem recover_keeps_completions {R K} `{Redis R} `{KafkaLaws K} `{MapIter}
    (mangle : string → string) (fuel : nat) (g g' : Group) (claims : list Z)
    (channels : Z → option (list ConsumerMessage)) (w w' : world R K) (k : string) (p : Z)
    (q : Request) :
  recoverable w g claims → delivers w g claims channels →
  recover mangle fuel g claims channels w = (Ok g', w') →
  completed (history w claims) k →
  (p, MRequest q) ∈ history w claims → q_requestID q = k → dead g p = false →
  ∃ p pm, p ∉ filter (λ p, dead g p = true) claims ∧ pm ∈ k_log (w_kafka w') p ∧ holds false k pm.
Proof. apply completion_kept. Qed.

(** Recovery deletes only what it has dealt with: an unsuccessful recovery
    leaves every partition's records in place, a successful one those of the
    live partitions and of partition 0. *)
Theorem recover_deletes_only_dead {R K} `{Redis R} `{KafkaLaws K} `{MapIter}
    (mangle : string → string) (fuel : nat) (g : Group) (claims : list Z)
    (channels : Z → option (list ConsumerMessage)) (w w' : world R K) r (p : Z) :
  delivers w g claims channels → recover mangle fuel g claims channels w = (r, w') →
  (∃ g', r = Ok g' ∧ p ∈ claims ∧ dead g p = true) ∨
  (∃ l, k_log (w_kafka w') p = k_log (w_kafka w) p ++ l).
Proof.
  intros Hd E.
  destruct (recover_run _ _ _ _ _ _ _ _ Hd E) as [(e & _ & Hl)|(w1 & r1 & w2 & Hl & _ & Er & Hr)].
  { right. exists []. by rewrite Hl, app_nil_r. }
  pose proof (sending_run mangle fuel (decisions_of w g claims) w1) as Hs. rewrite Er in Hs. simpl in Hs.
  destruct (sg_logs _ _ Hs p) as [l El]. rewrite Hl in El.
  destruct r1; destruct Hr as [-> ->]; [|by right; exists l..].
  destruct (decide (p ∈ filter (λ p, dead g p = true) claims)) as [[Hdead Hin]%list_elem_of_filter|Hn].
  - left. eauto.
  - right. exists l. simpl. by rewrite k_delete_other.
Qed.

(** A sidecar processes each message of its partition exactly once, in
    order, although a new generation delivers again what an earlier one already
    delivered. *)
Theorem consume_exactly_once (l1 l2 l3 : list ConsumerMessage) (c : consumer) :
  increasing (head_offset c) (l1 ++ l2 ++ l3) = true →
  ∃ c1 c2, consume (l1 ++ l2) c = (Ok tt, c1) ∧ consume (l2 ++ l3) c1 = (Ok tt, c2) ∧
           processed c2 = processed c ++ to_process (l1 ++ l2 ++ l3).
Proof.
  intros Hinc. rewrite app_assoc in Hinc.
  destruct (consume_new (l1 ++ l2) l3 c Hinc) as (c1 & E1 & P1 & _ & Hold & Hinc').
  rewrite <-(app_nil_r l3) in Hinc'. destruct (consume_new l3 [] c1 Hinc') as (c2 & E2 & P2 & _).
  exists c1, c2. split_and!; [done| |].
  - rewrite consume_app, consume_old; [done|]. intros msg Hm. apply Hold. apply elem_of_app. by right.
  - rewrite P2, P1, <-app_assoc. f_equal. by rewrite !to_process_app, app_assoc.
Qed.

(** The write mutex brackets each generation: [Setup], entered with the
    mutex held, releases it only when it returns without error outside recovery
    with a partition assigned, and the [Cleanup] that follows never blocks on
    the mutex and ends with it held again. *)
Theorem generation_mutex `{MapIter} (Unmarshal : string → info + gerror)
    (groups : gmap string memberDescription + gerror) (refresh : option gerror) (claims : list Z)
    (c c1 : consumer) :
  locked c = true → Setup Unmarshal groups refresh claims c = (Ok tt, c1) →
  locked c1 = negb (bool_decide (recovery (group c) = None) && negb (bool_decide (claims = []))) ∧
  ∃ c2, Cleanup claims c1 = (Ok tt, c2) ∧ locked c2 = true ∧ userData c2 = self (g_tab (group c1)).
Proof.
  intros Hl E. unfold Setup in E. apply bind_Ok in E as (? & ? & [= <- <-] & E).
  destruct claims as [|p ps]; [|destruct (recovery (group c)) as [rec|] eqn:Er].
  - injection E as <-. split; [by rewrite andb_false_r|].
    unfold Cleanup, bind, modify, get. simpl. rewrite andb_false_r. eexists. split; [reflexivity|done].
  - injection E as <-. split; [by rewrite Hl|].
    unfold Cleanup, bind, modify, get. simpl. rewrite Er. eexists. split; [reflexivity|done].
  - apply bind_Ok in E as (? & ? & [= <- <-] & E). apply bind_Ok in E as ([] & cu & Eu & E).
    destruct refresh; [done|]. apply bind_Ok in E as (? & ? & [= <- <-] & E).
    unfold on_tables in Eu. destruct (updateRoutes _ _ _) as [ru tu] in Eu. injection Eu as -> <-.
    unfold Unlock in E. simpl in E. rewrite Hl in E. injection E as <-.
    split; [done|]. unfold Cleanup, bind, modify, get. simpl. rewrite Er. eexists. split; [reflexivity|done].
Qed.


(* ---------------------------------------------------------------------- *)
(** ** The properties at work *)

Module Witness.
#[local] Existing Instance canonical_iter.

Definition t0 : Tables :=
  mkTables (mkInfo "n1" 0 ["svc"] 1) "app" {["svc" := ["n1"]]} {["n1" := 1]} ∅ ∅ false.

(** Partition 1 belongs to "n1"; the node of partition 2 died. *)
Definition g0 : Group := mkGroup t0 (Some {[1 := true]}) {[1 := 1; 2 := 2]} 0 0 [].

Definition tell (id : string) : Message :=
  MRequest (Tell (mkTell id "v" zeroTime (Service "svc") "m" 0 "" "" false)).

(** "r1" waits in the dead partition, which also has the response to "r3". *)
Definition k0 : gmap Z (list ProducerMessage) :=
  {[1 := [encode "n1" "app" 1 (tell "r3")];
    2 := [encode "n1" "app" 2 (tell "r1");
          encode "n1" "app" 2 (MResponse (mkResponse "r3" "" zeroTime "" "n2"))]]}.

Definition w0 : world (gmap string rvalue) (gmap Z (list ProducerMessage)) :=
  mkWorld t0 ∅ k0 [] [] [].

Definition claims0 : list Z := [0; 1; 2].

Definition channels0 (p : Z) : option (list ConsumerMessage) :=
  Some (imap (λ i pm, delivered (Z.of_nat i) pm) (mini_log k0 p)).

#[local] Existing Instance MiniRedis.
#[local] Existing Instance MiniKafka.
#[local] Existing Instance MiniKafka_laws.

Definition run0 : res Group * world (gmap string rvalue) (gmap Z (list ProducerMessage)) :=
  recover (KarMangleKey "a") 2 g0 claims0 channels0 w0.

Lemma history0 p m :
  (p, m) ∈ history w0 claims0 →
  (p = 1 ∧ m = tell "r3") ∨ (p = 2 ∧ m = tell "r1") ∨
  (p = 2 ∧ m = MResponse (mkResponse "r3" "" zeroTime "" "")).
Proof.
  intros Hin. apply list_elem_of_In in Hin. vm_compute in Hin.
  destruct Hin as [Hin|[Hin|[Hin|[]]]]; injection Hin as <- <-; auto.
Qed.

Lemma recoverable0 : recoverable w0 g0 claims0.
Proof.
  split; [reflexivity| |].
  - intros p q [[_ Hq]|[[_ Hq]|[_ Hq]]]%history0; try discriminate Hq;
      injection Hq as ->; split; vm_compute; done.
  - intros node. change (filter (λ p, dead g0 p = true) claims0) with [2].
    unfold partition_of. simpl. intros Hin. apply list_elem_of_singleton in Hin.
    destruct (decide (node = "n1")) as [->|Hn]; [done|].
    rewrite lookup_singleton_ne in Hin by done. done.
Qed.

Lemma delivers0 : delivers w0 g0 claims0 channels0.
Proof.
  intros p Hp. exists 0. apply list_elem_of_In in Hp. simpl in Hp.
  destruct Hp as [<-|[<-|[<-|[]]]]; split_and!; done || (vm_compute; reflexivity).
Qed.

Lemma in_history0 : (2, tell "r1") ∈ history w0 claims0.
Proof. apply list_elem_of_In. vm_compute. auto. Qed.

Lemma recover_loses_no_request_witness :
  ∃ p pm s, p ∉ filter (λ p, dead g0 p = true) claims0 ∧ pm ∈ k_log (w_kafka run0.2) p ∧
    pending "r1" s pm ∧
    (s = zget (max_seq (scan_of w0 g0 claims0)) "r1" ∨ s = zget (min_seq (scan_of w0 g0 claims0)) "r1").
Proof.
  apply (recover_loses_no_request (KarMangleKey "a") 2 g0 (set_offset0 0 g0) claims0 channels0 w0 run0.2
           "r1" 2 (Tell (mkTell "r1" "v" zeroTime (Service "svc") "m" 0 "" "" false))
           recoverable0 delivers0).
  - vm_compute. reflexivity.
  - exact in_history0.
  - reflexivity.
  - intros (p & m & [[_ ->]|[[_ ->]|[_ ->]]]%history0 & Hm & Hk); discriminate.
  - intros p q [[_ Hq]|[[_ Hq]|[_ Hq]]]%history0; try discriminate Hq; injection Hq as ->; done.
  - left. intros p q [[_ Hq]|[[_ Hq]|[_ Hq]]]%history0; try discriminate Hq; injection Hq as ->; done.
Defined.

Lemma recover_resends_at_most_once_witness :
  ∃ p0, ∀ p, p ∉ filter (λ p, dead g0 p = true) claims0 →
    ∃ l, k_log (w_kafka run0.2) p = k_log (w_kafka w0) p ++ l ∧
         (p ≠ p0 ∨ completed (history w0 claims0) "r1" → filter (holds true "r1") l = []) ∧
         (length (filter (holds true "r1") l) ≤ 1)%nat.
Proof.
  apply (recover_resends_at_most_once (KarMangleKey "a") 2 g0 claims0 channels0 w0 run0.2 run0.1 "r1"
           recoverable0 delivers0).
  vm_compute. reflexivity.
Defined.

Lemma recover_keeps_completions_witness :
  ∃ p pm, p ∉ filter (λ p, dead g0 p = true) claims0 ∧ pm ∈ k_log (w_kafka run0.2) p ∧ holds false "r3" pm.
Proof.
  apply (recover_keeps_completions (KarMangleKey "a") 2 g0 (set_offset0 0 g0) claims0 channels0 w0 run0.2
           "r3" 1 (Tell (mkTell "r3" "v" zeroTime (Service "svc") "m" 0 "" "" false))
           recoverable0 delivers0).
  - vm_compute. reflexivity.
  - exists 2, (MResponse (mkResponse "r3" "" zeroTime "" "")).
    split; [apply list_elem_of_In; vm_compute; auto|]. split; reflexivity.
  - apply list_elem_of_In. vm_compute. auto.
  - reflexivity.
  - reflexivity.
Defined.

Lemma recover_deletes_only_dead_witness :
  (∃ g', run0.1 = Ok g' ∧ 1 ∈ claims0 ∧ dead g0 1 = true) ∨
  (∃ l, k_log (w_kafka run0.2) 1 = k_log (w_kafka w0) 1 ++ l).
Proof.
  apply (recover_deletes_only_dead (KarMangleKey "a") 2 g0 claims0 channels0 w0 run0.2 run0.1 1 delivers0).
  vm_compute. reflexivity.
Defined.

Definition c0 : consumer := mkConsumer g0 true 0 (mkInfo "n1" 0 [] 0) 5 [].
Definition cm (o : Z) (id : string) : ConsumerMessage := delivered o (encode "n1" "app" 1 (tell id)).

Lemma consume_exactly_once_witness :
  ∃ c1 c2, consume ([cm 5 "a"] ++ [cm 6 "b"]) c0 = (Ok tt, c1) ∧
           consume ([cm 6 "b"] ++ [cm 9 "c"]) c1 = (Ok tt, c2) ∧
           processed c2 = processed c0 ++ to_process ([cm 5 "a"] ++ [cm 6 "b"] ++ [cm 9 "c"]).
Proof. apply (consume_exactly_once [cm 5 "a"] [cm 6 "b"] [cm 9 "c"] c0). reflexivity. Defined.

Definition c_clean : consumer := with_group (set_recovery None g0) c0.
Definition groups0 : gmap string memberDescription + gerror :=
  inl {["m" := mkMember (inl (Some "u")) (inl [3])]}.
Definition decode0 (u : string) : info + gerror := inl (mkInfo "n1" 0 ["svc"] 0).
Definition c_after : consumer := (Setup decode0 groups0 None [3] c_clean).2.

Lemma generation_mutex_witness :
  locked c_after = false ∧ ∃ c2, Cleanup [3] c_after = (Ok tt, c2) ∧ locked c2 = true.
Proof.
  destruct (generation_mutex decode0 groups0 None [3] c_clean c_after) as [Hl (c2 & E & L & _)].
  - reflexivity.
  - vm_compute. reflexivity.
  - split; [exact Hl|]. exists c2. split; [exact E|exact L].
Defined.
End Witness.
End Recovery.
