(* ===== verification/Lifecycle.v ===== *)
(** * Lifecycle: a sidecar from connecting to disconnecting

    The composition of src/core/pkg/rpc/dial.go (the loop that [Dial] starts), the
    callbacks of transport.go ([Recovery]), the plans of strategy.go ([Strategy]) and
    the goroutines that send (send.go, [Routing]), which share the routing tables under
    the RW mutex [mu].  The client of Kafka, which is not part of the repository, calls
    [Plan] (on the leader), [Setup], [ConsumeClaim] and [Cleanup]; the states and the
    order of its calls are a step relation. *)

From S2P Require Import Prelude GoLib Messages Store Kafka Routing Strategy Recovery.
Import Rpc Store Broker Routing Strategy Recovery.
Open Scope string_scope.
Open Scope Z_scope.
Open Scope list_scope.
Open Scope go_scope.

Module Lifecycle.

(* ---------------------------------------------------------------------- *)
(** ** The loop of Dial *)

(** Where the goroutine that [Dial] starts is: in [cg.Consume] without a session, in a
    session with its claims, after the loop, or ended by [logger.Fatal] or a panic;
    [Blocked] is waiting for the mutex that it holds itself. *)
Inductive phase : Type :=
| Joining
| Session (claims : list Z)
| Disconnected
| Exited
| Blocked.

(** What the goroutine does when the loop ends: the maps become nil, the channel
    [closed] is closed and the mutex is released. *)
Definition shutdown : M consumer unit :=
  modify (λ c, with_group (set_tab (set_cache ∅ (set_port ∅ (set_n2p ∅ (set_s2n ∅ (g_tab (group c)))))) (group c)) c) ;;*
  Unlock.

(** The errors of [Consume] that do not end the process. *)
Definition goes_on (err : option gerror) : bool :=
  match err with None => true | Some e => bool_decide (e = ETooFewPartitions) end.

Inductive event : Type :=
| EPlan
| ESetup
| EMessages
| ERecover
| ECleanup
| ESend (msg : Message) (r : res unit)
| EFail
| EShutdown.

Section lifecycle.
Context {R K : Type} `{Redis R} `{Kafka K} `{MapIter}.
Context (MangleKey : string → string) (fuel : nat) (Unmarshal : string → info + gerror).
(** Whether the client of Kafka calls [Cleanup] after a [Setup] that failed. *)
Context (CleanupAfterFailedSetup : bool).

Record node_state : Type := mkSidecar { ph : phase; cons : consumer; net : world R K }.

(** The tables, for a call that works on the world, and back. *)
Definition inside (c : consumer) (w : world R K) : world R K := with_tab (g_tab (group c)) w.
Definition back (c : consumer) (w : world R K) : consumer := with_group (set_tab (w_tab w) (group c)) c.

Definition after_plan {A} (r : res A) : phase :=
  match r with
  | Ok _ => Joining
  | Err e => if goes_on (Some e) then Joining else Exited
  | _ => Exited
  end.

(** The session starts, or [Consume] returns the error of [Setup]. *)
Definition after_setup (claims : list Z) (r : res unit) (c : consumer) : phase * consumer :=
  match r with
  | Ok _ => (Session claims, c)
  | Err e =>
      let ended := if goes_on (Some e) then Joining else Exited in
      if CleanupAfterFailedSetup then
        match Cleanup claims c with
        | (Ok _, c') => (ended, c')
        | (_, c') => (Blocked, c')
        end
      else (ended, c)
  | _ => (Exited, c)
  end.

(** The steps, with what is arbitrary in them: the plan and the session that the group
    agrees on, the messages, the errors of the client of Kafka ([st_fail] is a call of
    [Consume] that ends without a session), and when the context is done.  A send has
    the read mutex, so it is a step only while nobody has the write mutex. *)
Inductive step : node_state → event → node_state → Prop :=
| st_plan c w members partitions oldest newest create r g :
    Plan Unmarshal oldest newest create members partitions (group c) = (r, g) →
    step (mkSidecar Joining c w) EPlan (mkSidecar (after_plan r) (with_group g c) w)
| st_setup c w groups refresh claims r c1 p c2 :
    Setup Unmarshal groups refresh claims c = (r, c1) → after_setup claims r c1 = (p, c2) →
    step (mkSidecar Joining c w) ESetup (mkSidecar p c2 w)
| st_messages c w claims messages :
    recovery (group c) = None →
    step (mkSidecar (Session claims) c w) EMessages (mkSidecar (Session claims) (consume messages c).2 w)
| st_recover c w claims channels r w' :
    recovery (group c) ≠ None → recover MangleKey fuel (group c) claims channels (inside c w) = (r, w') →
    step (mkSidecar (Session claims) c w) ERecover
      (mkSidecar (Session claims) (match r with Ok g => back (with_group g c) w' | _ => back c w' end) w')
| st_cleanup c w claims r c' :
    Cleanup claims c = (r, c') →
    step (mkSidecar (Session claims) c w) ECleanup (mkSidecar (match r with Ok _ => Joining | _ => Blocked end) c' w)
| st_send p c w msg r w' :
    p ≠ Exited → locked c = false → (p = Disconnected → (ctxErr (inside c w)).1 = Ok true) →
    Send MangleKey fuel msg (inside c w) = (r, w') →
    step (mkSidecar p c w) (ESend msg r) (mkSidecar p (back c w') w')
| st_fail c w e :
    goes_on (Some e) = false →
    step (mkSidecar Joining c w) EFail (mkSidecar Exited c w)
| st_shutdown c w r c' :
    shutdown c = (r, c') →
    step (mkSidecar Joining c w) EShutdown (mkSidecar (match r with Ok _ => Disconnected | _ => Exited end) c' w).

Definition steps : node_state → node_state → Prop := rtc (λ s s', ∃ e, step s e s').

(* ---------------------------------------------------------------------- *)
(** ** What the calls do to the mutex *)

(** A session in which the sidecar processes messages. *)
Definition serving (g : Group) (claims : list Z) : bool :=
  bool_decide (recovery g = None) && negb (bool_decide (claims = [])).

(** The tables without the cache, whose entries the senders add. *)
Definition routes (t : Tables) : info * string * gmap string (list string) * gmap string Z * gmap string Z * bool :=
  (self t, appTopic t, service2nodes t, node2partition t, node2port t, PlacementCache t).

Definition routes_of (c : consumer) := routes (g_tab (group c)).

Lemma consume_frame messages c :
  group (consume messages c).2 = group c ∧ locked (consume messages c).2 = locked c ∧ ticks (consume messages c).2 = ticks c.
Proof.
  revert c. induction messages as [|msg rest IH]; intros c; [done|]. cbn. unfold bind, get, modify. cbn.
  case_match; [apply IH|]. by destruct (IH (mkConsumer (group c) (locked c) (ticks c) (userData c) (cm_Offset msg + 1)
    (match decode msg with MDone _ => processed c | m => processed c ++ [m] end))) as (-> & -> & ->).
Qed.

Lemma Cleanup_ok claims c : locked c = negb (serving (group c) claims) →
  ∃ c', Cleanup claims c = (Ok tt, c') ∧ locked c' = true ∧ group c' = group c ∧ ticks c' = ticks c.
Proof.
  unfold serving, Cleanup, bind, get, modify. cbn. destruct (bool_decide _ && _); cbn; intros L.
  - unfold Lock. cbn. rewrite L. by eexists.
  - by eexists.
Qed.

Lemma shutdown_ok c : locked c = true → ∃ c', shutdown c = (Ok tt, c') ∧ locked c' = false.
Proof. intros L. unfold shutdown, bind, modify, Unlock. cbn. rewrite L. by eexists. Qed.

(** updateRoutes does not touch [self]. *)
Lemma updateRoutes_self groups : preserves (λ t t', self t' = self t) (updateRoutes Unmarshal groups).
Proof.
  assert (Re : ∀ members, preserves (λ t t', self t' = self t) (rebuild Unmarshal members)).
  { induction members as [|[n m] members IH]; intros t; [done|]. cbn. unfold bind, of_sum, modify, ret, throw.
    destruct (md_metadata m) as [[u|]|]; [|apply IH|done]. destruct (Unmarshal u); [|done].
    destruct (md_assignment m) as [[|p ps]|]; [done| |done]. etrans; [apply IH|done]. }
  intros t. unfold updateRoutes, bind, of_sum, modify. destruct groups as [members|]; [|done]. cbn.
  etrans; [apply Re|done].
Qed.

(** The tables of a session: those that its [Setup] built from the members of the
    group, with the partition that was assigned to this sidecar. *)
Definition built (claims : list Z) (t : Tables) : Prop :=
  Some (i_Partition (self t)) = head claims ∧
  ∃ groups t0 t1, updateRoutes Unmarshal groups t0 = (Ok tt, t1) ∧ routes t = routes t1.

Lemma built_routes claims t t' : routes t' = routes t → built claims t → built claims t'.
Proof. intros E [Hd (g & t0 & t1 & U & Er)]. split; [by injection E as -> _ _ _ _ _|]. exists g, t0, t1. by rewrite E. Qed.

Lemma Setup_ok groups refresh claims c c1 :
  locked c = true → Setup Unmarshal groups refresh claims c = (Ok tt, c1) →
  recovery (group c1) = recovery (group c) ∧ locked c1 = negb (serving (group c1) claims) ∧
  (serving (group c1) claims = true → built claims (g_tab (group c1))).
Proof.
  intros L E. unfold Setup in E. apply bind_Ok in E as (? & ? & [= <- <-] & E). unfold serving.
  destruct claims as [|p ps]; [|destruct (recovery (group c)) as [rec|] eqn:Er].
  - injection E as <-. split_and!; [done| |]; by rewrite andb_false_r.
  - injection E as <-. rewrite Er. by split_and!.
  - apply bind_Ok in E as (? & c0 & [= <- <-] & E). apply bind_Ok in E as ([] & cu & Eu & E).
    destruct refresh; [done|]. apply bind_Ok in E as (? & ? & [= <- <-] & E).
    unfold on_tables in Eu. pose proof (updateRoutes_self groups (g_tab (set_partition p (group c)))) as S.
    cbn [group with_group] in Eu. destruct (updateRoutes _ _ _) as [ru tu] eqn:U. injection Eu as -> <-.
    unfold Unlock in E. cbn in E. rewrite L in E. injection E as <-. cbn. rewrite Er. cbn in S.
    split_and!; [done|done|]. intros _. split; [by rewrite S|by eexists _, _, _].
Qed.

(** Sending adds to the cache of the tables only. *)
Definition same_routes (w w' : world R K) : Prop := routes (w_tab w') = routes (w_tab w).

#[local] Instance same_routes_preorder : PreOrder same_routes.
Proof. split; [by intros w|]. intros w1 w2 w3 E1 E2. by etrans. Qed.

Lemma routing_same {A} (m : M (world R K) A) : preserves routing_frame m → preserves same_routes m.
Proof. intros F w. destruct (F w) as [_ E1 E2 E3 E4 E5 E6]. unfold same_routes, routes. by rewrite E1, E2, E3, E4, E5, E6. Qed.

Lemma same_produce pm : preserves same_routes (produce pm).
Proof. intros w. unfold produce. by destruct (k_send pm (w_kafka w)). Qed.

#[local] Hint Resolve same_produce : frame.
#[local] Hint Extern 1 (PreOrder _) => apply _ : frame.
#[local] Hint Extern 2 (preserves _ (match ?x with _ => _ end)) => destruct x : frame.
#[local] Hint Extern 1 (preserves same_routes ctxErr) => apply routing_same, frame_ctxErr : frame.
#[local] Hint Extern 1 (preserves same_routes tables) => apply routing_same, frame_tables : frame.
#[local] Hint Extern 1 (preserves same_routes (store _)) => apply routing_same, frame_store : frame.
#[local] Hint Extern 1 (preserves same_routes (route _ _ _)) => apply routing_same, frame_route : frame.
#[local] Hint Extern 1 (preserves same_routes (routeToService _)) => apply routing_same, frame_routeToService : frame.
#[local] Hint Extern 1 (preserves same_routes (routeToSession _ _ _ _)) => apply routing_same, frame_routeToSession : frame.

Lemma Send_same msg : preserves same_routes (Send MangleKey fuel msg).
Proof. unfold Send. auto 20 with frame. Qed.

Lemma resend_same q drop : preserves same_routes (resend MangleKey fuel q drop).
Proof. unfold resend, resend_to. auto 20 with frame. Qed.

Lemma respond_same d : preserves same_routes (respond d).
Proof. unfold respond. auto 20 with frame. Qed.

#[local] Hint Resolve resend_same respond_same : frame.

Lemma resend_loop_same sc mins msgs seen : preserves same_routes (resend_loop MangleKey fuel sc mins msgs seen).
Proof.
  revert seen. induction msgs as [|msg msgs IH]; intros seen; cbn [resend_loop]; [auto with frame|].
  destruct msg; auto 20 with frame.
Qed.

(** Recovery leaves the tables, and what it changes of the group is how far partition 0
    has been looked at. *)
Lemma recover_frame g claims channels w r w' :
  recover MangleKey fuel g claims channels w = (r, w') →
  routes (w_tab w') = routes (w_tab w) ∧ (∀ g', r = Ok g' → g' = set_offset0 (max0 g) g).
Proof.
  unfold recover, bind, of_res. destruct (read_claims _ _ _ _) as [sc| | |]; try by intros [= <- <-].
  destruct (k_refresh (w_kafka w)) as [[e|] k']; [by intros [= <- <-]|].
  pose proof (resend_loop_same sc (min_seq sc) (orphans sc ++ orphans0 sc) ∅ (with_kafka k' w)) as S.
  destruct (resend_loop _ _ _ _ _ _ _) as [[] w1]; intros [= <- <-]; (split; [exact S|congruence]).
Qed.

(* ---------------------------------------------------------------------- *)
(** ** The invariant *)

(** The mutex is held except while the sidecar serves a session, and after the end;
    while it serves, the tables are those of the session. *)
Definition mutex_inv (s : node_state) : Prop :=
  let c := cons s in
  match ph s with
  | Joining => locked c = true
  | Session claims => locked c = negb (serving (group c) claims) ∧
      (serving (group c) claims = true → built claims (g_tab (group c)))
  | Disconnected => locked c = false
  | Exited => True
  | Blocked => locked c = true
  end.

Lemma same_serving g g' claims : recovery g' = recovery g → serving g' claims = serving g claims.
Proof. unfold serving. by intros ->. Qed.

Lemma session_kept c c' w w' claims : locked c' = locked c → recovery (group c') = recovery (group c) →
  routes_of c' = routes_of c → mutex_inv (mkSidecar (Session claims) c w) → mutex_inv (mkSidecar (Session claims) c' w').
Proof.
  intros L Rc Rt [I1 I2]. cbn in *. rewrite (same_serving _ _ claims Rc), L. split; [done|].
  intros Sv. by eapply built_routes, I2.
Qed.

Lemma Cleanup_locked claims c r c' : locked c = true → Cleanup claims c = (r, c') → locked c' = true.
Proof.
  unfold Cleanup, bind, get, modify, Lock. cbn. intros L. case_match; cbn; rewrite ?L; by intros [= <- <-].
Qed.

Lemma Setup_err groups refresh claims c r c1 : locked c = true → Setup Unmarshal groups refresh claims c = (r, c1) →
  r ≠ Ok tt → locked c1 = true.
Proof.
  intros L. unfold Setup, bind, get, modify. destruct claims as [|p ps]; [by intros [= <- <-]|].
  cbn. destruct (recovery (group c)); [by intros [= <- <-]|]. unfold on_tables. cbn.
  destruct (updateRoutes _ _ _) as [[] t]; try (by intros [= <- <-]).
  destruct refresh; [by intros [= <- <-]|]. unfold Unlock. cbn. rewrite L. by intros [= <- <-].
Qed.

Lemma step_inv s e s' : step s e s' → mutex_inv s → mutex_inv s'.
Proof.
  destruct 1 as [c w members partitions o n cr r g E|c w groups refresh claims r c1 p c2 E A|c w claims msgs Rc|
    c w claims channels r w' Rc E|c w claims r c' E|p c w msg r w' X L P E|c w e Ge|c w r c' E]; intros I.
  - unfold mutex_inv, after_plan in *. cbn in *. destruct r; try done. by destruct (bool_decide _).
  - cbn in I. unfold after_setup in A. destruct r as [[]|e| |].
    + injection A as <- <-. cbn. by eapply (Setup_ok _ _ _ _ _ I) in E as (_ & L & Bt).
    + assert (L1 : locked c1 = true) by by eapply Setup_err.
      destruct CleanupAfterFailedSetup; [destruct (Cleanup claims c1) as [r2 c3] eqn:C|].
      * pose proof (Cleanup_locked _ _ _ _ L1 C) as L3. destruct r2; injection A as <- <-; cbn; try done.
        by destruct (bool_decide _).
      * injection A as <- <-. cbn. by destruct (bool_decide _).
    + by injection A as <- <-.
    + by injection A as <- <-.
  - destruct (consume_frame msgs c) as (G & L & _). eapply session_kept; [done| | |exact I]; unfold routes_of; by rewrite G.
  - apply recover_frame in E as [Er Eg]. eapply session_kept; [| | |exact I].
    + by destruct r.
    + destruct r as [g'| | |]; cbn; try done. by rewrite (Eg g' eq_refl).
    + destruct r; unfold routes_of; cbn; exact Er.
  - cbn in I. destruct I as [I _]. destruct (Cleanup_ok claims c I) as (c1 & E1 & L & _). rewrite E1 in E.
    by injection E as <- <-.
  - pose proof (Send_same msg (inside c w)) as S. rewrite E in S. destruct p; try done.
    eapply session_kept; [..|exact I]; done.
  - done.
  - cbn in I. destruct (shutdown_ok c I) as (c1 & E1 & L). rewrite E1 in E. by injection E as <- <-.
Qed.

(** The state that [Dial] leaves to its goroutine: the mutex is locked. *)
Definition dialed (s : node_state) : Prop := ph s = Joining ∧ locked (cons s) = true.

Lemma steps_inv s s' : dialed s → steps s s' → mutex_inv s'.
Proof.
  intros [P L]. revert s'. apply rtc_ind_r; [unfold mutex_inv; by rewrite P|].
  intros s1 s2 _ [e E] IH. by eapply step_inv.
Qed.

(** The tables, and the channel [tick], change only under the mutex. *)
Lemma step_tables s e s' : step s e s' → mutex_inv s →
  routes_of (cons s') ≠ routes_of (cons s) ∨ ticks (cons s') ≠ ticks (cons s) → locked (cons s) = true.
Proof.
  destruct 1 as [c w members partitions o n cr r g E|c w groups refresh claims r c1 p c2 E A|c w claims msgs Rc|
    c w claims channels r w' Rc E|c w claims r c' E|p c w msg r w' X L P E|c w e Ge|c w r c' E]; intros I; try done.
  - destruct (consume_frame msgs c) as (G & _ & T). unfold routes_of. cbn. rewrite G, T. by intros [].
  - apply recover_frame in E as [Er _]. intros Ch. exfalso. destruct r; destruct Ch as [Ch|Ch]; by apply Ch.
  - cbn in I. destruct I as [I _]. destruct (Cleanup_ok claims c I) as (c1 & E1 & _ & G & T). rewrite E1 in E.
    injection E as <- <-. unfold routes_of. cbn. rewrite G, T. by intros [].
  - pose proof (Send_same msg (inside c w)) as S. rewrite E in S. intros [Ch|Ch]; by destruct Ch.
Qed.

(** C7: From connecting to disconnecting the mutex is held whenever the routing tables
    are rebuilt or reset.  A session that has started can be cleaned up, which takes the
    mutex again if it was released, and the loop can end and release it, without waiting
    for itself and without releasing it twice; only a Setup that fails can block
    ([failed_setup_blocks]).  Messages are sent only while the sidecar serves a session,
    by the tables that the Setup of that session built from the members of the group
    and the partition it was given; after disconnecting a send fails with the error of
    its context and reaches no broker. *)
Theorem mutex_protocol s s' : dialed s → steps s s' →
  match ph s' with
  | Joining => ∃ c, shutdown (cons s') = (Ok tt, c) ∧ locked c = false
  | Session claims => ∃ c, Cleanup claims (cons s') = (Ok tt, c) ∧ locked c = true
  | _ => True
  end ∧
  ∀ e s2, step s' e s2 →
    (routes_of (cons s2) ≠ routes_of (cons s') ∨ ticks (cons s2) ≠ ticks (cons s') → locked (cons s') = true) ∧
    match e with
    | ESend msg r =>
        (∃ claims, ph s' = Session claims ∧ serving (group (cons s')) claims = true ∧
           built claims (g_tab (group (cons s')))) ∨
        (ph s' = Disconnected ∧ r = Err ECtx ∧ w_kafka (net s2) = w_kafka (net s'))
    | _ => True
    end.
Proof.
  intros D St. pose proof (steps_inv _ _ D St) as I. split.
  - unfold mutex_inv in I. destruct (ph s'); try done; [by apply shutdown_ok|].
    destruct I as [I _]. destruct (Cleanup_ok _ _ I) as (c & E & L & _). by exists c.
  - intros e s2 E. split; [by eapply step_tables|].
    destruct E as [| | | | |p c w msg r w' X L P E| |]; try done. unfold mutex_inv in I. cbn in *.
    destruct p as [|claims| | |]; try congruence.
    + left. exists claims. destruct I as [I Bt]. rewrite L in I. symmetry in I. apply negb_false_iff in I. by auto.
    + right. specialize (P eq_refl). unfold Send, bind in E. destruct (ctxErr (inside c w)) as [[] w1] eqn:C; try done.
      cbn in P. injection P as ->. injection E as <- <-. split_and!; [done|done|].
      pose proof (frame_ctxErr (inside c w)) as F. rewrite C in F. exact (rf_kafka _ _ F).
Qed.

(** A Setup that fails in its tables keeps the mutex, and a Cleanup that follows waits
    for it: nothing is sent or received any more. *)
Lemma failed_setup_blocks groups refresh claims c c1 e : CleanupAfterFailedSetup = true →
  locked c = true → Setup Unmarshal groups refresh claims c = (Err e, c1) →
  (after_setup claims (Err e) c1).1 = Blocked ∧ ∀ w ev s, ¬ step (mkSidecar Blocked (after_setup claims (Err e) c1).2 w) ev s.
Proof.
  intros Ca L E. pose proof (Setup_err _ _ _ _ _ _ L E ltac:(done)) as L1.
  assert (Sv : serving (group c1) claims = true).
  { unfold Setup, bind, get, modify in E. destruct claims as [|p ps]; [done|]. cbn in E.
    destruct (recovery (group c)) eqn:Er; [done|]. unfold on_tables in E. cbn in E. unfold serving.
    destruct (updateRoutes _ _ _) as [[] t]; try done; [|by injection E as _ <-; cbn; rewrite Er].
    destruct refresh; [injection E as _ <-; cbn; by rewrite Er|]. unfold Unlock in E. cbn in E. by rewrite L in E. }
  assert (Bl : ∃ c2, Cleanup claims c1 = (Panic "deadlock", c2) ∧ locked c2 = true).
  { unfold serving in Sv. unfold Cleanup, bind, get, modify. cbn. rewrite Sv. unfold Lock. cbn. rewrite L1.
    by eexists. }
  destruct Bl as (c2 & C & L2). unfold after_setup. rewrite Ca, C. split; [done|]. cbn.
  intros w ev s St. inversion St. congruence.
Qed.
End lifecycle.

(* ---------------------------------------------------------------------- *)
(** ** A session *)

Module Witness.
Import Recovery.Witness.
#[local] Existing Instance canonical_iter.
#[local] Existing Instance MiniRedis.
#[local] Existing Instance MiniKafka.

Definition net0 := node_state (R:=gmap string rvalue) (K:=gmap Z (list ProducerMessage)).
Definition mangle : string → string := KarMangleKey "a".

(** The sidecar "n1" has connected, and gets partition 3. *)
Definition joining : net0 := mkSidecar Joining c_clean w0.
Definition in_session : net0 := mkSidecar (Session [3]) c_after w0.

Definition sent : res unit * world (gmap string rvalue) (gmap Z (list ProducerMessage)) :=
  Send mangle 3 (tell "r9") (inside c_after w0).
Definition after_send : net0 := mkSidecar (Session [3]) (back c_after sent.2) sent.2.

Lemma session_starts : step mangle 3 decode0 true joining ESetup in_session.
Proof.
  eapply (st_setup _ _ _ _ c_clean w0 groups0 None [3] (Ok tt) c_after); [|reflexivity].
  unfold c_after. by destruct (Setup decode0 groups0 None [3] c_clean) as [r c] eqn:E; vm_compute in E; injection E as <- <-.
Qed.

Lemma session_sends : step mangle 3 decode0 true in_session (ESend (tell "r9") (Ok tt)) after_send.
Proof.
  apply st_send; [done|by vm_compute|done|]. unfold after_send, sent. by vm_compute.
Qed.

Lemma mutex_protocol_witness :
  (∃ c, Cleanup [3] c_after = (Ok tt, c) ∧ locked c = true) ∧
  serving (group c_after) [3] = true ∧ built decode0 [3] (g_tab (group c_after)) ∧
  length (mini_log (w_kafka (net after_send)) 3) = 1%nat.
Proof.
  destruct (mutex_protocol mangle 3 decode0 true joining in_session ltac:(by split)
    (rtc_once _ _ (ex_intro _ ESetup session_starts))) as [C S].
  destruct (S _ _ session_sends) as [_ [(claims & P & Sv & Bt)|(P & _)]]; [|discriminate P].
  injection P as <-. split_and!; [exact C|exact Sv|exact Bt|by vm_compute].
Defined.

(** The members of the group cannot be described: the sidecar waits for itself. *)
Example setup_fails : (after_setup true [3] (Err (EMsg "not available for this group"))
  (Setup decode0 (inr (EMsg "not available for this group")) None [3] c_clean).2).1 = Blocked.
Proof. by vm_compute. Qed.
End Witness.
End Lifecycle.
