(* ===== verification/Connect.v ===== *)
(** * Connect: the clients of Kafka and the topics

    Models src/core/pkg/rpc/dial.go up to the loop that [Lifecycle] continues, the
    connection [connect] of requests.go, and the topics and publishers of
    src/core/pkg/rpc/topics.go.  The package sarama and the brokers are the class
    [SaramaOps]; [AdminLaws] is what the administration of topics documents. *)

From S2P Require Import Prelude GoLib Backoff Messages Store Kafka Routing Strategy Recovery Lifecycle.
Import Rpc Routing Strategy Recovery Lifecycle Backoff.
Open Scope string_scope.
Open Scope Z_scope.
Open Scope list_scope.
Open Scope go_scope.

Module Connect.

(* ---------------------------------------------------------------------- *)
(** ** Configurations *)

(** Config specifies the Kafka configuration. *)
Record Config : Type := mkConfig {
  Version : string;
  Brokers : list string;
  User : string;
  Password : string;
  EnableTLS : bool;
  TLSSkipVerify : bool;
  TopicConfig : gmap string string;
  SessionBusyTimeout : Z;
  Cancellation : bool;
}.

Inductive acks : Type := NoResponse | WaitForLocal | WaitForAll.

(** The fields of [sarama.Config] that the code sets; [TLS_Config] is the
    [InsecureSkipVerify] of the configuration, if there is one, [Partitioner] and
    [Strategy] name the values. *)
Record sconf : Type := mkSconf {
  sc_Version : string;
  SASL_Enable : bool;
  SASL_User : string;
  SASL_Password : string;
  SASL_Handshake : bool;
  SASL_Mechanism : string;
  TLS_Enable : bool;
  TLS_Config : option bool;
  Return_Successes : bool;
  MaxOpenRequests : Z;
  RequiredAcks : acks;
  Idempotent : bool;
  Partitioner : string;
  Offsets_Initial : Z;
  Strategy : string;
}.

Definition OffsetOldest : Z := -2.

Record TopicDetail : Type := mkTopicDetail {
  NumPartitions : Z;
  ReplicationFactor : Z;
  ConfigEntries : gmap string string;
}.

#[export] Instance TopicDetail_eq_dec : EqDecision TopicDetail.
Proof. solve_decision. Defined.

(** The brokers and the clients of the process are [K]: each operation gives its error,
    if it has one.  [k_topics] are the topics of the brokers. *)
Class SaramaOps (K : Type) : Type := {
  NewConfig : sconf;
  ParseKafkaVersion : string → string;
  NewClient : list string → sconf → K → option gerror * K;
  NewSyncProducerFromClient : K → option gerror * K;
  NewClusterAdminFromClient : K → option gerror * K;
  NewConsumerGroupFromClient : string → K → option gerror * K;
  NewClusterAdmin : list string → sconf → K → option gerror * K;
  NewSyncProducer : list string → sconf → K → option gerror * K;
  NewConsumerGroup : list string → string → sconf → K → option gerror * K;
  CreateTopic : string → TopicDetail → K → option gerror * K;
  DeleteTopic : string → K → option gerror * K;
  SendMessage : string → string → K → option gerror * K;
  admin_Close : K → K;
  producer_Close : K → option gerror * K;
  (** a [TopicError] with [ErrTopicAlreadyExists], and [ErrUnknownTopicOrPartition] *)
  already_exists : gerror → bool;
  ErrUnknownTopicOrPartition : gerror;
  ctx_Err : K → option gerror;
  k_topics : K → gmap string TopicDetail;
}.

Section config.
Context {K : Type} `{SaramaOps K}.

Definition set_version (v : string) (c : sconf) : sconf :=
  mkSconf v (SASL_Enable c) (SASL_User c) (SASL_Password c) (SASL_Handshake c) (SASL_Mechanism c) (TLS_Enable c)
    (TLS_Config c) (Return_Successes c) (MaxOpenRequests c) (RequiredAcks c) (Idempotent c) (Partitioner c)
    (Offsets_Initial c) (Strategy c).

Definition set_sasl (user password : string) (c : sconf) : sconf :=
  mkSconf (sc_Version c) true user password true "PLAIN" (TLS_Enable c)
    (TLS_Config c) (Return_Successes c) (MaxOpenRequests c) (RequiredAcks c) (Idempotent c) (Partitioner c)
    (Offsets_Initial c) (Strategy c).

Definition set_tls (skip : bool) (c : sconf) : sconf :=
  mkSconf (sc_Version c) (SASL_Enable c) (SASL_User c) (SASL_Password c) (SASL_Handshake c) (SASL_Mechanism c) true
    (if skip then Some true else TLS_Config c) (Return_Successes c) (MaxOpenRequests c) (RequiredAcks c)
    (Idempotent c) (Partitioner c) (Offsets_Initial c) (Strategy c).

Definition set_successes (c : sconf) : sconf :=
  mkSconf (sc_Version c) (SASL_Enable c) (SASL_User c) (SASL_Password c) (SASL_Handshake c) (SASL_Mechanism c)
    (TLS_Enable c) (TLS_Config c) true (MaxOpenRequests c) (RequiredAcks c) (Idempotent c) (Partitioner c)
    (Offsets_Initial c) (Strategy c).

Definition set_producer (c : sconf) : sconf :=
  mkSconf (sc_Version c) (SASL_Enable c) (SASL_User c) (SASL_Password c) (SASL_Handshake c) (SASL_Mechanism c)
    (TLS_Enable c) (TLS_Config c) (Return_Successes c) 1 WaitForAll true "NewManualPartitioner"
    (Offsets_Initial c) (Strategy c).

Definition set_initial (o : Z) (c : sconf) : sconf :=
  mkSconf (sc_Version c) (SASL_Enable c) (SASL_User c) (SASL_Password c) (SASL_Handshake c) (SASL_Mechanism c)
    (TLS_Enable c) (TLS_Config c) (Return_Successes c) (MaxOpenRequests c) (RequiredAcks c) (Idempotent c)
    (Partitioner c) o (Strategy c).

Definition set_strategy (s : string) (c : sconf) : sconf :=
  mkSconf (sc_Version c) (SASL_Enable c) (SASL_User c) (SASL_Password c) (SASL_Handshake c) (SASL_Mechanism c)
    (TLS_Enable c) (TLS_Config c) (Return_Successes c) (MaxOpenRequests c) (RequiredAcks c) (Idempotent c)
    (Partitioner c) (Offsets_Initial c) s.

Definition configureClient (config : Config) : sconf :=
  let conf := set_version (ParseKafkaVersion (Version config)) NewConfig in
  let conf := if negb (String.eqb (Password config) "") then set_sasl (User config) (Password config) conf else conf in
  let conf := if EnableTLS config then set_tls (TLSSkipVerify config) conf else conf in
  set_successes conf.

(** Configure idempotent producer *)
Definition configureProducer (config : Config) : sconf := set_producer (configureClient config).

(** Configure consumer *)
Definition configureConsumer (config : Config) : sconf :=
  set_strategy "custom" (set_initial OffsetOldest (configureClient config)).

(* ---------------------------------------------------------------------- *)
(** ** Connecting *)

(** The state of the process: the variables that [connect] assigns, the consumer with
    the routing tables and the mutex, and the brokers. *)
Record process : Type := mkProcess {
  sessionBusyTimeout : Z;
  cancellation : bool;
  p_cons : consumer;
  p_kafka : K;
}.

Definition on_cons {A} (m : M consumer A) : M process A := λ p,
  let '(r, c) := m (p_cons p) in (r, mkProcess (sessionBusyTimeout p) (cancellation p) c (p_kafka p)).

(** A call whose error is looked at, and one whose error is returned. *)
Definition outcome_of (op : K → option gerror * K) : M process (option gerror) := λ p,
  let '(e, k) := op (p_kafka p) in (Ok e, mkProcess (sessionBusyTimeout p) (cancellation p) (p_cons p) k).

Definition return_error (e : option gerror) : M process unit :=
  match e with Some err => throw err | None => ret tt end.

Definition check (op : K → option gerror * K) : M process unit :=
  let* e := outcome_of op in return_error e.

Context `{!BackoffOps K}.

Definition one_attempt (op : K → option gerror * K) (k : K) : outcome * K :=
  let '(err, k') := op k in
  if decide (err = ctx_Err k') then (Permanent err, k')
  else match err with None => (Done, k') | Some e => (Failed e, k') end.

(** The client of the producer is asked for again for 30 seconds. *)
Definition producer_client (conf : Config) (k : K) : option gerror * K :=
  let op := NewClient (Brokers conf) (configureProducer conf) in
  match op k with
  | (None, k') => (None, k')
  | (Some _, k') => Retry 30000000000 (one_attempt op) k'
  end.

(** [self.Services = services], [self.Port = runtimePort], [appTopic = topic]. *)
Definition announce (topic : string) (runtimePort : Z) (services : list string) (c : consumer) : consumer :=
  let t := g_tab (group c) in
  with_group (set_tab (mkTables (mkInfo (i_Node (self t)) runtimePort services (i_Partition (self t))) topic
    (service2nodes t) (node2partition t) (node2port t) (session2NodeCache t) (PlacementCache t)) (group c)) c.

(** [consumerClient.Config().Consumer.Group.Member.UserData, _ = json.Marshal(self)] *)
Definition marshal_info (c : consumer) : consumer :=
  mkConsumer (group c) (locked c) (ticks c) (self (g_tab (group c))) (head_offset c) (processed c).

Definition detail (conf : Config) (replication : Z) : TopicDetail := mkTopicDetail 1 replication (TopicConfig conf).

(** Connect to Kafka; the goroutine that is started at the end is [Lifecycle]. *)
Definition Dial (topic : string) (runtimePort : Z) (conf : Config) (services : list string) : M process unit :=
  on_cons (modify (announce topic runtimePort services)) ;;*
  check (producer_client conf) ;;*
  check NewSyncProducerFromClient ;;*
  check (NewClient (Brokers conf) (configureConsumer conf)) ;;*
  check NewClusterAdminFromClient ;;*
  on_cons (modify marshal_info) ;;*
  on_cons Lock ;;*
  check (NewConsumerGroupFromClient topic) ;;*
  let* err := outcome_of (CreateTopic topic (detail conf 3)) in
  let* err := match err with
              | Some _ => outcome_of (CreateTopic topic (detail conf 1))
              | None => ret None
              end in
  match err with
  | Some e => if already_exists e then ret tt else throw e
  | None => ret tt
  end.

Definition connect (topic : string) (runtimePort : Z) (conf : Config) (services : list string) : M process unit :=
  modify (λ p, mkProcess (SessionBusyTimeout conf) (Cancellation conf) (p_cons p) (p_kafka p)) ;;*
  Dial topic runtimePort conf services.

(* ---------------------------------------------------------------------- *)
(** ** Topics *)

(** [json.Unmarshal] of the parameters of a topic. *)
Context (UnmarshalDetail : string → TopicDetail + gerror).

Definition set_replication (n : Z) (d : TopicDetail) : TopicDetail :=
  mkTopicDetail (NumPartitions d) n (ConfigEntries d).

(** Two attempts, of which the second is not made when the first succeeds. *)
Definition create_or (topic : string) (d d' : TopicDetail) (k : K) : option gerror * K :=
  match CreateTopic topic d k with
  | (None, k') => (None, k')
  | (Some _, k') => CreateTopic topic d' k'
  end.

Definition createTopic (conf : Config) (topic parameters : string) (k : K) : option gerror * K :=
  let params := if String.eqb parameters "" then inl (mkTopicDetail 0 0 ∅) else UnmarshalDetail parameters in
  match params with
  | inr err => (Some err, k)
  | inl params =>
      match NewClusterAdmin (Brokers conf) (configureClient conf) k with
      | (Some err, k') => (Some err, k')
      | (None, k') =>
          let '(err, k2) :=
            if String.eqb parameters "" then create_or topic (mkTopicDetail 1 3 ∅) (mkTopicDetail 1 1 ∅) k'
            else create_or topic params (set_replication 3 params) k' in
          (err, admin_Close k2)
      end
  end.

Definition deleteTopic (conf : Config) (topic : string) (k : K) : option gerror * K :=
  match NewClusterAdmin (Brokers conf) (configureClient conf) k with
  | (Some err, k') => (Some err, k')
  | (None, k') =>
      let '(err, k2) := DeleteTopic topic k' in
      (if decide (err = Some ErrUnknownTopicOrPartition) then None else err, admin_Close k2)
  end.

(** A publisher is a producer of its own. *)
Definition newPublisher (conf : Config) (k : K) : option gerror * K :=
  NewSyncProducer (Brokers conf) (configureClient conf) k.

Definition publisher_Close (k : K) : option gerror * K := producer_Close k.

Definition Publish (topic value : string) (k : K) : option gerror * K := SendMessage topic value k.

(** The consumer group of a subscription; the goroutine that consumes is in [Events]. *)
Definition subscribe_group (conf : Config) (group : string) (oldest : bool) (k : K) : option gerror * K :=
  let config := configureClient conf in
  NewConsumerGroup (Brokers conf) group (if oldest then set_initial OffsetOldest config else config) k.


(* ---------------------------------------------------------------------- *)
(** ** What connecting leaves *)

(** The administration of topics, as documented: an operation without an error was
    done; one with an error may have been done as well, unless the error says why
    not. *)
Class AdminLaws : Prop := {
  create_ok t d k k' : CreateTopic t d k = (None, k') → k_topics k' = <[t := d]> (k_topics k);
  create_err t d k e k' : CreateTopic t d k = (Some e, k') →
    k_topics k' = k_topics k ∨ (k_topics k !! t = None ∧ k_topics k' = <[t := d]> (k_topics k));
  create_exists t d k e k' : CreateTopic t d k = (Some e, k') → already_exists e = true →
    k_topics k' = k_topics k ∧ is_Some (k_topics k !! t);
  delete_ok t k k' : DeleteTopic t k = (None, k') → k_topics k' = delete t (k_topics k);
  delete_unknown t k k' : DeleteTopic t k = (Some ErrUnknownTopicOrPartition, k') →
    k_topics k' = k_topics k ∧ k_topics k !! t = None;
  admin_topics k : k_topics (admin_Close k) = k_topics k;
}.

Definition with_kafka (k : K) (p : process) : process :=
  mkProcess (sessionBusyTimeout p) (cancellation p) (p_cons p) k.

Definition with_cons (c : consumer) (p : process) : process :=
  mkProcess (sessionBusyTimeout p) (cancellation p) c (p_kafka p).

(** A call that may fail, and what follows. *)
Lemma check_then {B} op (k : M process B) p r p' : (check op ;;* k) p = (r, p') →
  ∃ k1, (∃ e, r = Err e ∧ p' = with_kafka k1 p) ∨ k (with_kafka k1 p) = (r, p').
Proof.
  unfold bind, check, outcome_of, bind. destruct (op (p_kafka p)) as [[e|] k1]; cbn; intros E; exists k1; [left|by right].
  injection E as <- <-. by exists e.
Qed.

Lemma modify_then {B} (f : consumer → consumer) (k : M process B) p r p' :
  (on_cons (modify f) ;;* k) p = (r, p') → k (with_cons (f (p_cons p)) p) = (r, p').
Proof. done. Qed.

Lemma lock_then {B} (k : M process B) p r p' : (on_cons Lock ;;* k) p = (r, p') →
  if locked (p_cons p) then r = Panic "deadlock"
  else k (with_cons (mkConsumer (group (p_cons p)) true (ticks (p_cons p)) (userData (p_cons p))
            (head_offset (p_cons p)) (processed (p_cons p))) p) = (r, p').
Proof. unfold bind, on_cons, Lock. destruct (locked (p_cons p)); [|done]. by intros [= <- <-]. Qed.

(** The topic exists after the two attempts to create it, if the error is none or
    that it exists. *)
Definition ensure_topic (topic : string) (conf : Config) : M process unit :=
  let* err := outcome_of (CreateTopic topic (detail conf 3)) in
  let* err := match err with
              | Some _ => outcome_of (CreateTopic topic (detail conf 1))
              | None => ret None
              end in
  match err with
  | Some e => if already_exists e then ret tt else throw e
  | None => ret tt
  end.

Lemma ensure_topic_spec `{!AdminLaws} topic conf p r p' : ensure_topic topic conf p = (r, p') →
  p_cons p' = p_cons p ∧
  match r with
  | Ok _ => is_Some (k_topics (p_kafka p') !! topic)
  | Err e => already_exists e = false
  | _ => False
  end.
Proof.
  unfold ensure_topic, bind, outcome_of. destruct (CreateTopic topic (detail conf 3) (p_kafka p)) as [[e1|] k1] eqn:E1; cbn.
  - destruct (CreateTopic topic (detail conf 1) k1) as [[e2|] k2] eqn:E2; cbn.
    + destruct (already_exists e2) eqn:A; intros [= <- <-]; cbn; [|done]. split; [done|].
      destruct (create_exists _ _ _ _ _ E2 A) as [-> S]. done.
    + intros [= <- <-]. split; [done|]. cbn. rewrite (create_ok _ _ _ _ E2), lookup_insert_eq. by eexists.
  - intros [= <- <-]. split; [done|]. cbn. rewrite (create_ok _ _ _ _ E1), lookup_insert_eq. by eexists.
Qed.

(** The state of the consumer when its mutex is taken. *)
Definition announced (topic : string) (runtimePort : Z) (services : list string) (c : consumer) : consumer :=
  marshal_info (announce topic runtimePort services c).

(** How Dial ends: with an error before the mutex is taken, after it, or connected. *)
Lemma Dial_ends `{!AdminLaws} topic port conf services p r p' :
  Dial topic port conf services p = (r, p') →
  (∃ e, r = Err e ∧ locked (p_cons p') = locked (p_cons p)) ∨
  (locked (p_cons p) = true ∧ r = Panic "deadlock") ∨
  (locked (p_cons p) = false ∧ locked (p_cons p') = true ∧
   group (p_cons p') = group (announced topic port services (p_cons p)) ∧
   userData (p_cons p') = userData (announced topic port services (p_cons p)) ∧
   match r with Ok _ => is_Some (k_topics (p_kafka p') !! topic) | Err _ => True | _ => False end).
Proof.
  intros E. apply modify_then in E. fold (ensure_topic topic conf) in E.
  do 4 (apply check_then in E as [? [(e & -> & ->)|E]]; [left; by exists e|]).
  apply modify_then, lock_then in E. cbn [p_cons with_cons with_kafka locked marshal_info announce with_group] in E.
  destruct (locked (p_cons p)) eqn:L; [right; left; by split|].
  right. right. apply check_then in E as [? [(e & -> & ->)|E]]; [by split_and!|].
  apply ensure_topic_spec in E as [-> E]. cbn. split_and!; try done. by destruct r.
Qed.

(** C22: Connecting a process that is not connected ends; when it succeeds the topic of
    the application exists, the sidecar is announced to the group with its port and its
    services under the topic, and it holds the mutex, so that the loop can start; when
    it fails after it took the mutex, the mutex stays held, and no later attempt to
    connect succeeds. *)
Theorem Dial_connects `{!AdminLaws} topic port conf services p r p' :
  locked (p_cons p) = false → Dial topic port conf services p = (r, p') →
  match r with
  | Ok _ =>
      is_Some (k_topics (p_kafka p') !! topic) ∧
      (∀ R' (w : world R' K), dialed (mkSidecar Joining (p_cons p') w)) ∧
      appTopic (g_tab (group (p_cons p'))) = topic ∧ userData (p_cons p') = self (g_tab (group (p_cons p'))) ∧
      userData (p_cons p') = mkInfo (i_Node (self (g_tab (group (p_cons p))))) port services
                               (i_Partition (self (g_tab (group (p_cons p)))))
  | Err _ => locked (p_cons p') = true →
      ∀ topic' port' conf' services', ¬ is_Ok (Dial topic' port' conf' services' p').1
  | _ => False
  end.
Proof.
  intros L E. destruct (Dial_ends _ _ _ _ _ _ _ E) as [(e & -> & L')|[[L' _]|(_ & L' & G & U & X)]]; [congruence..|].
  destruct r as [[]|e| |]; try done.
  - rewrite G, U. by split_and!.
  - intros _ topic' port' conf' services' [[] O].
    destruct (Dial topic' port' conf' services' p') as [r2 p2] eqn:E2. cbn in O. subst r2.
    destruct (Dial_ends _ _ _ _ _ _ _ E2) as [(e2 & [=] & _)|[[_ [=]]|(F & _)]]. congruence.
Qed.

(** C40: Creating a topic ends without an error only if the topic exists then, with the
    given parameters, or the same with three replicas, or without parameters with one
    partition and three replicas or one; deleting it ends without an error only if it
    does not exist then, whether or not it existed before. *)
Theorem topics_managed `{!AdminLaws} conf topic parameters k :
  (∀ k', createTopic conf topic parameters k = (None, k') →
    ∃ d, k_topics k' !! topic = Some d ∧
      if String.eqb parameters "" then d ∈ [mkTopicDetail 1 3 ∅; mkTopicDetail 1 1 ∅]
      else ∃ params, UnmarshalDetail parameters = inl params ∧ d ∈ [params; set_replication 3 params]) ∧
  (∀ k', deleteTopic conf topic k = (None, k') → k_topics k' !! topic = None).
Proof.
  assert (Cr : ∀ d d' k k', create_or topic d d' k = (None, k') → ∃ x, k_topics k' !! topic = Some x ∧ x ∈ [d; d']).
  { intros d d' k0 k'. unfold create_or. destruct (CreateTopic topic d k0) as [[e|] k1] eqn:E1.
    - intros E2. exists d'. rewrite (create_ok _ _ _ _ E2), lookup_insert_eq. set_solver.
    - intros [= <-]. exists d. rewrite (create_ok _ _ _ _ E1), lookup_insert_eq. set_solver. }
  split; intros k'.
  - unfold createTopic. destruct (String.eqb parameters "") eqn:Ep; [|destruct (UnmarshalDetail parameters) as [d|] eqn:D; [|done]];
      destruct (NewClusterAdmin _ _ k) as [[e|] k1]; try done.
    + destruct (create_or _ _ _ k1) as [err k2] eqn:C. intros [= -> <-]. rewrite admin_topics. by eapply Cr.
    + destruct (create_or _ _ _ k1) as [err k2] eqn:C. intros [= -> <-]. rewrite admin_topics.
      destruct (Cr _ _ _ _ C) as (x & Hx & X). exists x. split; [done|]. by exists d.
  - unfold deleteTopic. destruct (NewClusterAdmin _ _ k) as [[e|] k1]; [done|].
    destruct (DeleteTopic topic k1) as [err k2] eqn:E. case_decide as Du.
    + intros [= <-]. rewrite admin_topics. subst err. by destruct (delete_unknown _ _ _ E) as [-> U].
    + intros [= -> <-]. rewrite admin_topics, (delete_ok _ _ _ E). apply lookup_delete_eq.
Qed.
End config.

(* ---------------------------------------------------------------------- *)
(** ** One broker *)

Module Witness.

(** A broker alone: it refuses topics with more than one replica. *)
Record broker : Type := mkBroker { b_up : bool; b_groups : bool; b_topics : gmap string TopicDetail }.

Definition refuse (b : bool) (msg : string) (k : broker) : option gerror * broker := ((if b then None else Some (EMsg msg)), k).

Definition exists_msg : string := "Topic with this name already exists.".
Definition unknown_msg : string := "Request was for a topic or partition that does not exist on this broker.".

Definition create (t : string) (d : TopicDetail) (k : broker) : option gerror * broker :=
  match b_topics k !! t with
  | Some _ => (Some (EMsg exists_msg), k)
  | None =>
      if 1 <? ReplicationFactor d then (Some (EMsg "Replication-factor is invalid."), k)
      else (None, mkBroker (b_up k) (b_groups k) (<[t := d]> (b_topics k)))
  end.

#[local] Instance OneBroker : SaramaOps broker := {|
  NewConfig := mkSconf "1.0.0" false "" "" false "" false None false 5 WaitForLocal false "NewHashPartitioner" (-1) "range";
  ParseKafkaVersion := id;
  NewClient := λ _ _ k, refuse (b_up k) "client has run out of available brokers" k;
  NewSyncProducerFromClient := λ k, (None, k);
  NewClusterAdminFromClient := λ k, (None, k);
  NewConsumerGroupFromClient := λ _ k, refuse (b_groups k) "version requirements are not met" k;
  NewClusterAdmin := λ _ _ k, refuse (b_up k) "client has run out of available brokers" k;
  NewSyncProducer := λ _ _ k, refuse (b_up k) "client has run out of available brokers" k;
  NewConsumerGroup := λ _ _ _ k, refuse (b_groups k) "version requirements are not met" k;
  CreateTopic := create;
  DeleteTopic := λ t k,
    match b_topics k !! t with
    | Some _ => (None, mkBroker (b_up k) (b_groups k) (delete t (b_topics k)))
    | None => (Some (EMsg unknown_msg), k)
    end;
  SendMessage := λ _ _ k, (None, k);
  admin_Close := id;
  producer_Close := λ k, (None, k);
  already_exists := λ e, bool_decide (e = EMsg exists_msg);
  ErrUnknownTopicOrPartition := EMsg unknown_msg;
  ctx_Err := λ _, None;
  k_topics := b_topics;
|}.

#[local] Instance OneBroker_laws : AdminLaws.
Proof.
  split; cbn.
  - intros t d k k'. unfold create. destruct (b_topics k !! t); [done|]. case_match; [done|]. by intros [= <-].
  - intros t d k e k'. unfold create. destruct (b_topics k !! t); [by intros [= <- <-]; left|].
    case_match; [|done]. by intros [= <- <-]; left.
  - intros t d k e k'. unfold create. destruct (b_topics k !! t); [by intros [= <- <-]|].
    case_match; [|done]. by intros [= <- <-].
  - intros t k k'. destruct (b_topics k !! t); [|done]. by intros [= <-].
  - intros t k k'. destruct (b_topics k !! t) eqn:E; [done|]. by intros [= <-].
  - done.
Qed.

#[local] Instance no_retry : BackoffOps broker := {| Retry := λ _ op k, match op k with
  | (Done, k') => (None, k') | (Permanent e, k') => (e, k') | (Failed e, k') => (Some e, k') end |}.

Definition kar : Config := mkConfig "2.8.1" ["localhost:9092"] "token" "secret" true false ∅ 600000000000 true.
Definition fresh : consumer := with_group Recovery.Witness.g0
  (mkConsumer Recovery.Witness.g0 false 0 (mkInfo "" 0 [] 0) 0 []).
Definition starting (groups : bool) (topics : gmap string TopicDetail) : process := mkProcess 0 false fresh (mkBroker true groups topics).
Definition connected : res unit * process := connect "kar_app" 3500 kar ["A"] (starting true ∅).

Lemma Dial_connects_witness :
  is_Some (b_topics (p_kafka (Dial "kar_app" 3500 kar ["A"] (starting true ∅)).2) !! "kar_app") ∧
  userData (p_cons (Dial "kar_app" 3500 kar ["A"] (starting true ∅)).2) = mkInfo "n1" 3500 ["A"] 1.
Proof.
  destruct (Dial "kar_app" 3500 kar ["A"] (starting true ∅)) as [r p] eqn:E.
  pose proof (Dial_connects "kar_app" 3500 kar ["A"] (starting true ∅) r p eq_refl E) as D.
  assert (r = Ok tt) as -> by (vm_compute in E; by injection E as <- _).
  destruct D as (T & _ & _ & _ & U). split; [exact T|exact U].
Defined.

(** The consumer group is refused: connecting again waits for the mutex forever. *)
Example left_locked :
  (connect "kar_app" 3500 kar ["A"] (starting false ∅)).1 = Err (EMsg "version requirements are not met") ∧
  (connect "kar_app" 3500 kar ["A"] (connect "kar_app" 3500 kar ["A"] (starting false ∅)).2).1 = Panic "deadlock".
Proof. split; by vm_compute. Qed.

Definition two : TopicDetail := mkTopicDetail 2 1 ∅.

Lemma topics_managed_witness :
  (createTopic (λ _, inl two) kar "clicks" "params" (mkBroker true true ∅)).1 = None ∧
  (∃ d, k_topics (createTopic (λ _, inl two) kar "clicks" "params" (mkBroker true true ∅)).2 !! "clicks" = Some d ∧
     ∃ params, inl (B:=gerror) two = inl params ∧ d ∈ [params; set_replication 3 params]) ∧
  k_topics (deleteTopic kar "clicks" (mkBroker true true ∅)).2 !! "clicks" = None.
Proof.
  split; [by vm_compute|]. split.
  - destruct (topics_managed (λ _, inl two) kar "clicks" "params" (mkBroker true true ∅)) as [C _].
    exact (C _ ltac:(reflexivity)).
  - destruct (topics_managed (λ _, inl two) kar "clicks" "params" (mkBroker true true ∅)) as [_ D].
    exact (D _ ltac:(reflexivity)).
Defined.

(** A topic with the given parameters that the brokers refuse is tried with three
    replicas, which are more than were asked for: the error is that of this attempt. *)
Example topic_twice :
  (createTopic (λ _, inl (mkTopicDetail 0 1 ∅)) kar "clicks" "params" (mkBroker true true {["clicks" := two]})).1
    = Some (EMsg exists_msg).
Proof. by vm_compute. Qed.

Example producer_config : configureProducer kar =
  mkSconf "2.8.1" true "token" "secret" true "PLAIN" true None true 1 WaitForAll true "NewManualPartitioner" (-1) "range".
Proof. reflexivity. Qed.
End Witness.
End Connect.
