(* ===== verification/Queue.v ===== *)
(** * Queue: the lock discipline of sessions, as an abstract specification

    What src/core/pkg/rpc/requests.go promises about the tasks of a session,
    apart from messages, handlers and flows: each instance has one token, tasks
    queue for it in order of arrival, a tail call may leave it under the id of a
    deferred lock, and a deactivation that finds nobody behind it retires the
    instance.  [Sessions] shows that its steps are steps of this system. *)

From S2P Require Import Prelude.
Open Scope list_scope.

Module Queue.

(** A coordination channel: its instance and its rank. *)
Notation chanid := (nat * nat)%type.

(** A [chan struct{}] of capacity 1. *)
Inductive chan : Type := Empty | Full | Closed.

#[export] Instance chan_eq_dec : EqDecision chan.
Proof. solve_decision. Defined.

Notation key := (string * string)%type.

(** An instance: its session, the rank of its newest channel, and whether it is
    still in the table. *)
Record qinst : Type := mkInst { qi_key : key; qi_next : nat; qi_valid : bool }.

(** A task: whether it still waits for its turn, the channel it waits on and the
    one it must release. *)
Record qtask : Type := mkQ {
  q_wait : bool;
  q_before : option chanid;
  q_after : option chanid;
  q_inst : nat;
  q_key : key;
}.

Record queue : Type := mkQueue {
  u_table : gmap key nat;
  u_inst : gmap nat qinst;
  u_chans : gmap chanid chan;
  u_locks : gmap string chanid;
  u_tasks : gmap nat qtask;
  u_cancelled : bool;
}.

Definition q_waits (k : qtask) : option chanid := if q_wait k then q_before k else None.
Definition q_holds (k : qtask) : option chanid := if q_wait k then None else q_after k.

(** Where the token of an instance can be. *)
Inductive place : Type := PChan (c : chanid) | PTask (t : nat) | PLock (l : string).

#[export] Instance place_eq_dec : EqDecision place.
Proof. solve_decision. Defined.

(** The channel a token in that place will be sent on. *)
Definition place_at (u : queue) (pl : place) : option chanid :=
  match pl with
  | PChan c => match u_chans u !! c with Some Full => Some c | _ => None end
  | PTask t => u_tasks u !! t ≫= q_holds
  | PLock l => u_locks u !! l
  end.

Definition wait_at (u : queue) (t : nat) : option chanid := u_tasks u !! t ≫= q_waits.

Definition set_inst (x : gmap nat qinst) (u : queue) : queue :=
  mkQueue (u_table u) x (u_chans u) (u_locks u) (u_tasks u) (u_cancelled u).
Definition set_chan (c : chanid) (x : chan) (u : queue) : queue :=
  mkQueue (u_table u) (u_inst u) (<[c := x]> (u_chans u)) (u_locks u) (u_tasks u) (u_cancelled u).
Definition set_lock (x : gmap string chanid) (u : queue) : queue :=
  mkQueue (u_table u) (u_inst u) (u_chans u) x (u_tasks u) (u_cancelled u).
Definition set_task (x : gmap nat qtask) (u : queue) : queue :=
  mkQueue (u_table u) (u_inst u) (u_chans u) (u_locks u) x (u_cancelled u).
Definition set_table (x : gmap key nat) (u : queue) : queue :=
  mkQueue x (u_inst u) (u_chans u) (u_locks u) (u_tasks u) (u_cancelled u).

(** ** The steps *)

Inductive qstep (u : queue) : queue → Prop :=
| q_create i k :
    (** a new session instance, its token in its first channel *)
    u_inst u !! i = None → u_table u !! k = None →
    qstep u (set_table (<[k := i]> (u_table u))
              (set_chan (i, 0%nat) Full (set_inst (<[i := mkInst k 0 true]> (u_inst u)) u)))
| q_enqueue i e t :
    (** a task joins the queue of a valid instance *)
    u_inst u !! i = Some e → qi_valid e = true → u_tasks u !! t = None →
    qstep u (set_task (<[t := mkQ true (Some (i, qi_next e)) (Some (i, S (qi_next e))) i (qi_key e)]> (u_tasks u))
              (set_chan (i, S (qi_next e)) Empty
                (set_inst (<[i := mkInst (qi_key e) (S (qi_next e)) true]> (u_inst u)) u)))
| q_spawn i e t :
    (** a task that runs without the token *)
    u_inst u !! i = Some e → u_tasks u !! t = None →
    qstep u (set_task (<[t := mkQ false None None i (qi_key e)]> (u_tasks u)) u)
| q_take i e t l n :
    (** a tail call takes the token left under a lock id *)
    u_inst u !! i = Some e → u_tasks u !! t = None → u_locks u !! l = Some (i, n) →
    qstep u (set_task (<[t := mkQ false None (Some (i, n)) i (qi_key e)]> (u_tasks u))
              (set_lock (delete l (u_locks u)) u))
| q_turn t k c :
    (** a waiting task receives the token *)
    u_tasks u !! t = Some k → q_waits k = Some c → u_chans u !! c = Some Full →
    qstep u (set_task (<[t := mkQ false (q_before k) (q_after k) (q_inst k) (q_key k)]> (u_tasks u))
              (set_chan c Empty u))
| q_release t k c :
    (** the holder passes the token to the next task *)
    u_tasks u !! t = Some k → q_holds k = Some c → u_chans u !! c = Some Empty →
    qstep u (set_task (delete t (u_tasks u)) (set_chan c Full u))
| q_end t k :
    (** a task without the token ends *)
    u_tasks u !! t = Some k → q_wait k = false → q_after k = None →
    qstep u (set_task (delete t (u_tasks u)) u)
| q_defer t k l c :
    (** the holder leaves the token under a fresh lock id *)
    u_tasks u !! t = Some k → q_holds k = Some c → u_locks u !! l = None →
    qstep u (set_task (<[t := mkQ false (q_before k) None (q_inst k) (q_key k)]> (u_tasks u))
              (set_lock (<[l := c]> (u_locks u)) u))
| q_close t k i e :
    (** a holder with nobody behind it retires the instance *)
    u_tasks u !! t = Some k → q_holds k = Some (i, qi_next e) → u_inst u !! i = Some e →
    qi_valid e = true →
    qstep u (set_task (delete t (u_tasks u))
              (set_chan (i, qi_next e) Closed (set_table (delete (qi_key e) (u_table u))
                (set_inst (<[i := mkInst (qi_key e) (qi_next e) false]> (u_inst u)) u))))
| q_cancel :
    qstep u (mkQueue (u_table u) (u_inst u) (u_chans u) (u_locks u) (u_tasks u) true)
| q_exit t k :
    (** once the context is cancelled, tasks end wherever they wait *)
    u_tasks u !! t = Some k → u_cancelled u = true →
    qstep u (set_task (delete t (u_tasks u)) u).

Inductive qsteps (u : queue) : queue → Prop :=
| qs_refl : qsteps u u
| qs_step u' u'' : qsteps u u' → qstep u' u'' → qsteps u u''.

Definition init : queue := mkQueue ∅ ∅ ∅ ∅ ∅ false.

(** ** The invariant *)

Record inv (u : queue) : Prop := {
  (** the token of an instance is in one place *)
  i_token : ∀ pl1 pl2 i p1 p2,
    place_at u pl1 = Some (i, p1) → place_at u pl2 = Some (i, p2) → pl1 = pl2;
  i_place : ∀ pl i p, place_at u pl = Some (i, p) →
    ∃ e, u_inst u !! i = Some e ∧ qi_valid e = true ∧ (p ≤ qi_next e)%nat;
  (** the tasks that wait are behind the token *)
  i_order : ∀ pl i p t n,
    place_at u pl = Some (i, p) → wait_at u t = Some (i, n) → (p ≤ n)%nat;
  i_wait : ∀ t k i n, u_tasks u !! t = Some k → q_waits k = Some (i, n) →
    i = q_inst k ∧ q_after k = Some (i, S n) ∧
    ∃ e, u_inst u !! i = Some e ∧ qi_valid e = true ∧ (n < qi_next e)%nat;
  i_inj : ∀ t1 t2 c, wait_at u t1 = Some c → wait_at u t2 = Some c → t1 = t2;
  (** as long as nothing was cancelled, every place behind the token is taken *)
  i_cover : ∀ i e, u_cancelled u = false → u_inst u !! i = Some e → qi_valid e = true →
    ∃ pl p, place_at u pl = Some (i, p) ∧
      ∀ n, (p ≤ n < qi_next e)%nat → ∃ t, wait_at u t = Some (i, n);
  i_chans : ∀ i e n, u_inst u !! i = Some e → (n ≤ qi_next e)%nat →
    ∃ st, u_chans u !! (i, n) = Some st ∧ (st = Closed → qi_valid e = false);
  i_nochan : ∀ i n, u_inst u !! i = None → u_chans u !! (i, n) = None;
  i_holder : ∀ t k i n, u_tasks u !! t = Some k → q_holds k = Some (i, n) → i = q_inst k;
  i_key : ∀ t k, u_tasks u !! t = Some k →
    ∃ e, u_inst u !! q_inst k = Some e ∧ q_key k = qi_key e;
  i_table : ∀ k i, u_table u !! k = Some i ↔
    ∃ e, u_inst u !! i = Some e ∧ qi_valid e = true ∧ qi_key e = k;
}.


(** ** Preservation *)

(** Compute lookups in updated maps. *)
Ltac qlookup :=
  simpl in *;
  repeat (match goal with
    | H : context [<[_ := _]> _ !! _] |- _ => rewrite lookup_insert in H; case_decide
    | H : context [delete _ _ !! _] |- _ => rewrite lookup_delete in H; case_decide
    | |- context [<[_ := _]> _ !! _] => rewrite lookup_insert; case_decide
    | |- context [delete _ _ !! _] => rewrite lookup_delete; case_decide
    end; simplify_eq/=).

(** The token of instance [i] moved from [a] to [b], or appeared in [b] when
    the instance had none, and the other tokens did not move. *)
Definition token_to (u u' : queue) (i : nat) (b : place) (p' : nat) : Prop :=
  ∀ pl j q, place_at u' pl = Some (j, q) →
    (pl = b ∧ j = i ∧ q = p') ∨
    (pl ≠ b ∧ place_at u pl = Some (j, q) ∧ j ≠ i).

Lemma token_to_unique u u' i b p' :
  inv u → token_to u u' i b p' →
  ∀ pl1 pl2 j q1 q2, place_at u' pl1 = Some (j, q1) → place_at u' pl2 = Some (j, q2) → pl1 = pl2.
Proof.
  intros Hi Ht pl1 pl2 j q1 q2 P1 P2.
  destruct (Ht _ _ _ P1) as [(-> & E1 & _)|(_ & Q1 & J1)], (Ht _ _ _ P2) as [(-> & E2 & _)|(_ & Q2 & J2)];
    [done|congruence|congruence|]. eapply (i_token _ Hi); [exact Q1|exact Q2].


Qed.

(** Where another instance's token is, given that [a] has that of [i]. *)
Lemma elsewhere u a i p pl j q :
  inv u → place_at u a = Some (i, p) → place_at u pl = Some (j, q) → pl ≠ a → j ≠ i.
Proof. intros Hi Ha Hp Hne ->. by apply Hne, (i_token _ Hi pl a i q p). Qed.

Lemma inv_init : inv init.
Proof.
  assert (∀ pl, place_at init pl = None) as Hp by (by intros []).
  split; try (intros; rewrite Hp in *; done); try done.
  intros k i. split; [done|]. by intros (e & ? & _).
Qed.

Lemma fresh_no_token u i pl j q : inv u → u_inst u !! i = None → place_at u pl = Some (j, q) → j ≠ i.
Proof. intros Hi Hn Hp ->. destruct (i_place _ Hi _ _ _ Hp) as (e & He & _). congruence. Qed.

Lemma inv_create u i k :
  inv u → u_inst u !! i = None → u_table u !! k = None →
  inv (set_table (<[k := i]> (u_table u))
        (set_chan (i, 0%nat) Full (set_inst (<[i := mkInst k 0 true]> (u_inst u)) u))).
Proof.
  intros Hi Hn Hk. set (u' := set_table _ _).
  assert (∀ pl j q, place_at u' pl = Some (j, q) →
    (pl = PChan (i, 0%nat) ∧ j = i ∧ q = 0%nat) ∨ (pl ≠ PChan (i, 0%nat) ∧ place_at u pl = Some (j, q) ∧ j ≠ i)) as HF.
  { intros pl j q Hp. destruct (decide (pl = PChan (i, 0%nat))) as [->|Hne].
    - left. unfold u' in Hp. qlookup. done.
    - right. assert (place_at u pl = Some (j, q)) as Hp' by
        (destruct pl; [unfold u' in Hp; qlookup; done|exact Hp|exact Hp]).
      split_and!; [done|done|]. by eapply fresh_no_token. }
  assert (∀ t, wait_at u' t = wait_at u t) as HW by done.
  split.
  - by apply (token_to_unique u u' i (PChan (i, 0%nat)) 0).
  - intros pl j q [(_ & -> & ->)|(_ & Hp & Hj)]%HF.
    + exists (mkInst k 0 true). unfold u'. simpl. rewrite lookup_insert_eq. done.
    + destruct (i_place _ Hi _ _ _ Hp) as (e & He & ? & ?). exists e. unfold u'. simpl.
      by rewrite lookup_insert_ne.
  - intros pl j q t n [(_ & -> & ->)|(_ & Hp & Hj)]%HF Hw; [lia|]. exact (i_order _ Hi _ _ _ _ _ Hp Hw).
  - intros t k0 j n Ht Hw. destruct (i_wait _ Hi t k0 j n Ht Hw) as (? & ? & e & He & ? & ?).
    split_and!; try done. exists e. unfold u'. simpl. rewrite lookup_insert_ne; [done|congruence].
  - apply (i_inj _ Hi).
  - intros j e Hc He Hv. unfold u' in He. qlookup.
    + exists (PChan (j, 0%nat)), 0%nat. split; [unfold u'; by qlookup|]. intros n. lia.
    + destruct (i_cover _ Hi j e Hc He Hv) as (pl & q & Hp & Hq). exists pl, q. split; [|done].
      destruct pl; try done. unfold u'. qlookup; [|done].
      destruct (u_chans u !! _) as [[]|]; naive_solver.
  - intros j e n He Hn'. unfold u' in *. qlookup; try (by eexists).
    + assert (n = 0%nat) as -> by lia. naive_solver.
    + by apply (i_chans _ Hi).
  - intros j n Hj. unfold u' in *. qlookup. by apply (i_nochan _ Hi).
  - apply (i_holder _ Hi).
  - intros t k0 Ht. destruct (i_key _ Hi t k0 Ht) as (e & He & ?). exists e. unfold u'. simpl.
    rewrite lookup_insert_ne; [done|congruence].
  - intros k' j. unfold u'. simpl. rewrite !lookup_insert. destruct (decide (k = k')) as [->|Hkk].
    + split.
      * intros [= <-]. exists (mkInst k' 0 true). rewrite decide_True by done. done.
      * intros (e & He & Hv & He'). case_decide; [congruence|].
        exfalso. assert (u_table u !! k' = Some j); [|congruence]. apply (i_table _ Hi). eauto.
    + rewrite (i_table _ Hi). split; intros (e & He & Hv & He'); exists e.
      * rewrite decide_False; [done|]. intros ->. congruence.
      * case_decide; [by simplify_eq/=|done].
Qed.


(** *** Steps that leave the instances alone *)

Definition advanced (u u' : queue) (j q0 q : nat) : Prop :=
  q = q0 ∨ q = S q0 ∧ ∃ t, wait_at u t = Some (j, q0) ∧ wait_at u' t = None.

(** Every token of [u'] comes from a place [src] of [u], tasks only stop
    waiting, and no channel is opened or closed. *)
Record moved (u u' : queue) (src : place → place) : Prop := {
  mv_inst : u_inst u' = u_inst u;
  mv_table : u_table u' = u_table u;
  mv_src : ∀ pl j q, place_at u' pl = Some (j, q) →
    ∃ q0, place_at u (src pl) = Some (j, q0) ∧ advanced u u' j q0 q;
  mv_inj : ∀ pl1 pl2 c1 c2, place_at u' pl1 = Some c1 → place_at u' pl2 = Some c2 →
    src pl1 = src pl2 → pl1 = pl2;
  mv_wait : ∀ t k c, u_tasks u' !! t = Some k → q_waits k = Some c → u_tasks u !! t = Some k;
  mv_cover : u_cancelled u' = false → u_cancelled u = false ∧
    ∀ pl j q0, place_at u pl = Some (j, q0) →
      ∃ pl' q, place_at u' pl' = Some (j, q) ∧ (q0 ≤ q)%nat ∧
        ∀ t n, (q ≤ n)%nat → wait_at u t = Some (j, n) → wait_at u' t = Some (j, n);
  mv_open : ∀ c, is_Some (u_chans u !! c) ↔ is_Some (u_chans u' !! c);
  mv_closed : ∀ c, u_chans u' !! c = Some Closed → u_chans u !! c = Some Closed;
  mv_holder : ∀ t k i n, u_tasks u' !! t = Some k → q_holds k = Some (i, n) → i = q_inst k;
  mv_key : ∀ t k, u_tasks u' !! t = Some k →
    ∃ e, u_inst u !! q_inst k = Some e ∧ q_key k = qi_key e;
}.

Lemma moved_wait u u' src t c : moved u u' src → wait_at u' t = Some c → wait_at u t = Some c.
Proof.
  intros Hm. unfold wait_at. destruct (u_tasks u' !! t) as [k|] eqn:E; simpl; [|done]. intros Hk.
  by rewrite (mv_wait _ _ _ Hm t k c E Hk).
Qed.

Lemma inv_moved u u' src : inv u → moved u u' src → inv u'.
Proof.
  intros Hi Hm. split.
  - intros pl1 pl2 i p1 p2 P1 P2.
    destruct (mv_src _ _ _ Hm _ _ _ P1) as (q1 & Q1 & _), (mv_src _ _ _ Hm _ _ _ P2) as (q2 & Q2 & _).
    eapply (mv_inj _ _ _ Hm); [exact P1|exact P2|]. exact (i_token _ Hi _ _ _ _ _ Q1 Q2).
  - intros pl i p Hp. destruct (mv_src _ _ _ Hm _ _ _ Hp) as (q0 & Hq & Ha).
    rewrite (mv_inst _ _ _ Hm). destruct (i_place _ Hi _ _ _ Hq) as (e & He & Hv & Hle).
    exists e. split_and!; [done|done|]. destruct Ha as [->|(-> & t & Hw & _)]; [done|].
    unfold wait_at in Hw. destruct (u_tasks u !! t) as [k|] eqn:Et; [|done].
    destruct (i_wait _ Hi t k i q0 Et Hw) as (_ & _ & e' & He' & _ & Hlt).
    assert (e' = e) as -> by congruence. lia.
  - intros pl i p t n Hp Hw. pose proof (moved_wait _ _ _ _ _ Hm Hw) as Hw0.
    destruct (mv_src _ _ _ Hm _ _ _ Hp) as (q0 & Hq & Ha).
    pose proof (i_order _ Hi _ _ _ _ _ Hq Hw0) as Hle.
    destruct Ha as [->|(-> & t0 & Hw1 & Hw2)]; [done|].
    assert (n ≠ q0); [|lia]. intros ->. pose proof (i_inj _ Hi _ _ _ Hw0 Hw1) as ->. congruence.
  - intros t k i n Ht Hw. pose proof (mv_wait _ _ _ Hm t k _ Ht Hw) as Ht0.
    rewrite (mv_inst _ _ _ Hm). exact (i_wait _ Hi t k i n Ht0 Hw).
  - intros t1 t2 c W1 W2. eapply (i_inj _ Hi); eapply moved_wait; eauto.
  - intros i e Hc He Hv. rewrite (mv_inst _ _ _ Hm) in He.
    destruct (mv_cover _ _ _ Hm Hc) as [Hc0 Hcov].
    destruct (i_cover _ Hi i e Hc0 He Hv) as (pl & p & Hp & Hn).
    destruct (Hcov _ _ _ Hp) as (pl' & q & Hp' & Hle & Hw). exists pl', q. split; [done|].
    intros n Hr. destruct (Hn n) as [t Ht]; [lia|]. exists t. apply Hw; [lia|done].
  - intros i e n He Hn. rewrite (mv_inst _ _ _ Hm) in He.
    destruct (i_chans _ Hi i e n He Hn) as (st & Hst & _).
    destruct (proj1 (mv_open _ _ _ Hm (i, n))) as [st' Hst']; [eauto|]. exists st'. split; [done|].
    intros ->. destruct (i_chans _ Hi i e n He Hn) as (st'' & Hst2 & Hcl). apply Hcl.
    apply (mv_closed _ _ _ Hm) in Hst'. congruence.
  - intros i n Hn. rewrite (mv_inst _ _ _ Hm) in Hn.
    destruct (u_chans u' !! (i, n)) eqn:E; [|done].
    destruct (proj2 (mv_open _ _ _ Hm (i, n))) as [st Hst]; [eauto|].
    rewrite (i_nochan _ Hi i n Hn) in Hst. done.
  - apply (mv_holder _ _ _ Hm).
  - intros t k Ht. rewrite (mv_inst _ _ _ Hm). by apply (mv_key _ _ _ Hm t).
  - intros k i. rewrite (mv_inst _ _ _ Hm), (mv_table _ _ _ Hm). apply (i_table _ Hi).
Qed.

(** The token goes from [a] to [b]. *)
Definition swap (a b : place) (pl : place) : place := if decide (pl = b) then a else pl.

Lemma swap_inj u' a b pl1 pl2 c1 c2 :
  place_at u' a = None → place_at u' pl1 = Some c1 → place_at u' pl2 = Some c2 →
  swap a b pl1 = swap a b pl2 → pl1 = pl2.
Proof. unfold swap. intros Ha P1 P2. repeat case_decide; intros; subst; congruence. Qed.

(** Case analysis on the place or task looked at, and on the updates. *)
Ltac places :=
  unfold place_at, wait_at, q_waits, q_holds, swap in *; simpl in *;
  repeat (
    match goal with
    | H : context [<[_ := _]> _ !! _] |- _ => rewrite lookup_insert in H
    | H : context [delete _ _ !! _] |- _ => rewrite lookup_delete in H
    | |- context [<[_ := _]> _ !! _] => rewrite lookup_insert
    | |- context [delete _ _ !! _] => rewrite lookup_delete
    | H : context [decide _] |- _ => case_decide
    | |- context [decide _] => case_decide
    end; simplify_eq/=).

Lemma moved_spawn u i e t :
  inv u → u_inst u !! i = Some e → u_tasks u !! t = None →
  moved u (set_task (<[t := mkQ false None None i (qi_key e)]> (u_tasks u)) u) id.
Proof.
  intros Hi He Ht. split; try done.
  - intros pl j q Hp. exists q. split; [|by left]. destruct pl; places; try done.
  - intros t' k c Hk Hw. places. done.
  - intros Hc. split; [done|]. intros pl j q Hp. exists pl, q. split_and!; [|done|].
    + destruct pl; places; try done. by rewrite Ht in Hp.
    + intros t' n _ Hw. places; [|done]. by rewrite Ht in Hw.
  - intros t' k j n Hk Hh. places. by eapply (i_holder _ Hi t' k).
  - intros t' k Hk. places; [eauto|]. by apply (i_key _ Hi t').
Qed.

Lemma moved_take u i e t l n :
  inv u → u_inst u !! i = Some e → u_tasks u !! t = None → u_locks u !! l = Some (i, n) →
  moved u (set_task (<[t := mkQ false None (Some (i, n)) i (qi_key e)]> (u_tasks u))
            (set_lock (delete l (u_locks u)) u)) (swap (PLock l) (PTask t)).
Proof.
  intros Hi He Ht Hl. split; try done.
  - intros pl j q Hp. exists q. split; [|by left]. destruct pl; places; done.
  - intros pl1 pl2 c1 c2. apply swap_inj. by places.
  - intros t' k c Hk Hw. places. done.
  - intros Hc. split; [done|]. intros pl j q Hp.
    exists (if decide (pl = PLock l) then PTask t else pl), q. split_and!; [|done|].
    + destruct pl; places; try done. by rewrite Ht in Hp.
    + intros t' n' _ Hw. places; [|done]. by rewrite Ht in Hw.
  - intros t' k j n' Hk Hh. places; [done|]. by eapply (i_holder _ Hi t' k).
  - intros t' k Hk. places; [eauto|]. by apply (i_key _ Hi t').
Qed.

Lemma moved_turn u t k c :
  inv u → u_tasks u !! t = Some k → q_waits k = Some c → u_chans u !! c = Some Full →
  moved u (set_task (<[t := mkQ false (q_before k) (q_after k) (q_inst k) (q_key k)]> (u_tasks u))
            (set_chan c Empty u)) (swap (PChan c) (PTask t)).
Proof.
  intros Hi Ht Hw Hc. destruct c as [i n]. destruct (i_wait _ Hi t k i n Ht Hw) as (Hik & Ha & e & He & Hv & Hn).
  set (u' := set_task _ _).
  assert (wait_at u t = Some (i, n)) as Hwt by (unfold wait_at; by rewrite Ht).
  assert (wait_at u' t = None) as Hwt' by (unfold u'; by places).
  assert (place_at u (PChan (i, n)) = Some (i, n)) as Hpc by (simpl; by rewrite Hc).
  assert (place_at u' (PTask t) = Some (i, S n)) as Hpt by (unfold u'; by places).
  assert (∀ pl, pl ≠ PTask t → pl ≠ PChan (i, n) → place_at u' pl = place_at u pl) as Hsame
    by (unfold u'; intros []; places; done).
  split; try done.
  - intros pl j q Hp. destruct (decide (pl = PTask t)) as [->|Hne].
    + exists n. unfold swap. rewrite decide_True by done. rewrite Hpt in Hp. simplify_eq.
      split; [done|]. right. eauto.
    + exists q. unfold swap. rewrite decide_False by done. split; [|by left].
      destruct (decide (pl = PChan (i, n))) as [->|Hne']; [|by rewrite <-Hsame].
      unfold u' in Hp. by places.
  - intros pl1 pl2 c1 c2. apply swap_inj. unfold u'. by places.
  - intros t' k' c Hk Hw'. unfold u' in Hk. places. done.
  - intros Hcc. split; [done|]. intros pl j q0 Hp. destruct (decide (pl = PChan (i, n))) as [->|Hne].
    + rewrite Hpc in Hp. simplify_eq. exists (PTask t), (S q0). split_and!; [done|lia|].
      intros t' n' Hle Hw'. unfold u'. unfold wait_at in *. places; [|done]. lia.
    + exists pl, q0. split_and!; [|done|].
      * rewrite Hsame; [done| |done]. intros ->. unfold place_at, q_holds, q_waits in *. rewrite Ht in Hp.
        simpl in Hp. by destruct (q_wait k).
      * intros t' n' Hle Hw'. destruct (decide (t = t')) as [<-|Hne'].
        { exfalso. apply Hne. rewrite Hwt in Hw'. injection Hw' as <- <-.
          exact (i_token _ Hi _ _ _ _ _ Hp Hpc). }
        rewrite <-Hw'. unfold u', wait_at. simpl. by rewrite lookup_insert_ne.
  - intros c. unfold u'. places; [|done]. rewrite Hc. split; eauto.
  - intros c. unfold u'. places; done.
  - intros t' k' j n' Hk Hh. unfold u' in Hk. places; [done|]. by eapply (i_holder _ Hi t' k').
  - intros t' k' Hk. unfold u' in Hk. places; [apply (i_key _ Hi _ _ Ht)|]. by apply (i_key _ Hi t').
Qed.

Lemma moved_release u t k c :
  inv u → u_tasks u !! t = Some k → q_holds k = Some c → u_chans u !! c = Some Empty →
  moved u (set_task (delete t (u_tasks u)) (set_chan c Full u)) (swap (PTask t) (PChan c)).
Proof.
  intros Hi Ht Hh Hc. set (u' := set_task _ _).
  assert (wait_at u t = None) as Hwt by
    (unfold wait_at, q_holds, q_waits in *; rewrite Ht; simpl; by destruct (q_wait k)).
  assert (place_at u (PTask t) = Some c) as Hpt by (simpl; by rewrite Ht).
  assert (place_at u' (PChan c) = Some c) as Hpc by (unfold u'; by places).
  assert (∀ pl, pl ≠ PTask t → pl ≠ PChan c → place_at u' pl = place_at u pl) as Hsame
    by (unfold u'; intros []; places; done).
  assert (∀ t', wait_at u' t' = wait_at u t') as Hw.
  { intros t'. destruct (decide (t = t')) as [<-|]; [rewrite Hwt|]; unfold u', wait_at; by places. }
  split; try done.
  - intros pl j q Hp. exists q. unfold swap. case_decide as Hd; [subst; rewrite Hpc in Hp|].
    + split; [|by left]. by rewrite Hpt.
    + split; [|by left]. destruct (decide (pl = PTask t)) as [->|]; [unfold u' in Hp; by places|].
      by rewrite <-Hsame.
  - intros pl1 pl2 c1 c2. apply swap_inj. unfold u'. by places.
  - intros t' k' c' Hk Hw'. unfold u' in Hk. by places.
  - intros Hcc. split; [done|]. intros pl j q Hp. destruct (decide (pl = PTask t)) as [->|Hne].
    + exists (PChan c), q. rewrite Hpt in Hp. simplify_eq. split_and!; [done|done|].
      intros. by rewrite Hw.
    + exists pl, q. split_and!; [|done|intros; by rewrite Hw]. rewrite Hsame; [done|done|].
      intros ->. unfold place_at in Hp. by rewrite Hc in Hp.
  - intros c'. unfold u'. places; [|done]. rewrite Hc. split; eauto.
  - intros c'. unfold u'. places; done.
  - intros t' k' j n' Hk Hh'. unfold u' in Hk. places. by eapply (i_holder _ Hi t' k').
  - intros t' k' Hk. unfold u' in Hk. places. by apply (i_key _ Hi t').
Qed.

Lemma moved_end u t k :
  inv u → u_tasks u !! t = Some k → q_wait k = false → q_after k = None →
  moved u (set_task (delete t (u_tasks u)) u) id.
Proof.
  intros Hi Ht Hw Ha.
  assert (wait_at u t = None) as Hwt by (unfold wait_at, q_waits; rewrite Ht; simpl; by rewrite Hw).
  assert (place_at u (PTask t) = None) as Hpt by (simpl; rewrite Ht; unfold q_holds; simpl; by rewrite Hw).
  split; try done.
  - intros pl j q Hp. exists q. split; [|by left]. destruct pl; places; done.
  - intros t' k' c' Hk _. by places.
  - intros Hcc. split; [done|]. intros pl j q Hp. exists pl, q. split_and!; [|done|].
    + destruct (decide (pl = PTask t)) as [->|]; [congruence|]. destruct pl; places; done.
    + intros t' n _ Hw'. destruct (decide (t = t')) as [<-|]; [congruence|]. by places.
  - intros t' k' j n' Hk Hh'. places. by eapply (i_holder _ Hi t' k').
  - intros t' k' Hk. places. by apply (i_key _ Hi t').
Qed.

Lemma moved_defer u t k l c :
  inv u → u_tasks u !! t = Some k → q_holds k = Some c → u_locks u !! l = None →
  moved u (set_task (<[t := mkQ false (q_before k) None (q_inst k) (q_key k)]> (u_tasks u))
            (set_lock (<[l := c]> (u_locks u)) u)) (swap (PTask t) (PLock l)).
Proof.
  intros Hi Ht Hh Hl. set (u' := set_task _ _).
  assert (wait_at u t = None) as Hwt by
    (unfold wait_at, q_holds, q_waits in *; rewrite Ht; simpl; by destruct (q_wait k)).
  assert (place_at u (PTask t) = Some c) as Hpt by (simpl; by rewrite Ht).
  assert (place_at u' (PLock l) = Some c) as Hpl by (unfold u'; by places).
  assert (∀ pl, pl ≠ PTask t → pl ≠ PLock l → place_at u' pl = place_at u pl) as Hsame
    by (unfold u'; intros []; places; done).
  assert (∀ t', wait_at u' t' = wait_at u t') as Hw.
  { intros t'. destruct (decide (t = t')) as [<-|]; [rewrite Hwt|]; unfold u', wait_at; by places. }
  split; try done.
  - intros pl j q Hp. exists q. unfold swap. case_decide as Hd; [subst; rewrite Hpl in Hp|].
    + split; [|by left]. by rewrite Hpt.
    + split; [|by left]. destruct (decide (pl = PTask t)) as [->|]; [unfold u' in Hp; by places|].
      by rewrite <-Hsame.
  - intros pl1 pl2 c1 c2. apply swap_inj. unfold u'. by places.
  - intros t' k' c' Hk Hw'. unfold u' in Hk. by places.
  - intros Hcc. split; [done|]. intros pl j q Hp. destruct (decide (pl = PTask t)) as [->|Hne].
    + exists (PLock l), q. rewrite Hpt in Hp. simplify_eq. split_and!; [done|done|].
      intros. by rewrite Hw.
    + exists pl, q. split_and!; [|done|intros; by rewrite Hw]. rewrite Hsame; [done|done|].
      intros ->. unfold place_at in Hp. by rewrite Hl in Hp.
  - intros t' k' j n' Hk Hh'. unfold u' in Hk. places. by eapply (i_holder _ Hi t' k').
  - intros t' k' Hk. unfold u' in Hk. places; [apply (i_key _ Hi _ _ Ht)|]. by apply (i_key _ Hi t').
Qed.

Lemma moved_cancel u :
  inv u → moved u (mkQueue (u_table u) (u_inst u) (u_chans u) (u_locks u) (u_tasks u) true) id.
Proof.
  intros Hi. split; try done.
  - intros pl j q Hp. exists q. split; [done|by left].
  - apply (i_holder _ Hi).
  - apply (i_key _ Hi).
Qed.

Lemma moved_exit u t k :
  inv u → u_tasks u !! t = Some k → u_cancelled u = true →
  moved u (set_task (delete t (u_tasks u)) u) id.
Proof.
  intros Hi Ht Hc. split; try done.
  - intros pl j q Hp. exists q. split; [|by left]. destruct pl; places; done.
  - intros t' k' c' Hk _. by places.
  - simpl. congruence.
  - intros t' k' j n' Hk Hh'. places. by eapply (i_holder _ Hi t' k').
  - intros t' k' Hk. places. by apply (i_key _ Hi t').
Qed.

(** *** Steps that change an instance *)

Lemma inv_enqueue u i e t :
  inv u → u_inst u !! i = Some e → qi_valid e = true → u_tasks u !! t = None →
  inv (set_task (<[t := mkQ true (Some (i, qi_next e)) (Some (i, S (qi_next e))) i (qi_key e)]> (u_tasks u))
        (set_chan (i, S (qi_next e)) Empty
          (set_inst (<[i := mkInst (qi_key e) (S (qi_next e)) true]> (u_inst u)) u))).
Proof.
  intros Hi He Hv Ht. set (u' := set_task _ _).
  assert (place_at u (PTask t) = None) as Hpt by (simpl; by rewrite Ht).
  assert (∀ j q, place_at u (PChan (i, S (qi_next e))) = Some (j, q) → False) as Hpc.
  { intros j q Hp. assert (j = i ∧ q = S (qi_next e)) as [-> ->] by
      (simpl in Hp; destruct (u_chans u !! _) as [[]|]; naive_solver).
    destruct (i_place _ Hi _ _ _ Hp) as (e' & He' & _ & Hle). simplify_eq. lia. }
  assert (∀ pl j q, place_at u' pl = Some (j, q) ↔ place_at u pl = Some (j, q)) as HP.
  { intros pl j q. destruct (decide (pl = PChan (i, S (qi_next e)))) as [->|Hc].
    - split; [unfold u'; by places|]. intros Hp. by destruct (Hpc j q).
    - destruct (decide (pl = PTask t)) as [->|Hpl]; [rewrite Hpt; unfold u'; by places|].
      unfold u'. destruct pl; places; done. }
  assert (wait_at u t = None) as Hwt by (unfold wait_at; by rewrite Ht).
  assert (wait_at u' t = Some (i, qi_next e)) as Hwt' by (unfold u'; by places).
  assert (∀ t', t' ≠ t → wait_at u' t' = wait_at u t') as HW by (intros; unfold u', wait_at; by places).
  assert (∀ t' j n, wait_at u t' = Some (j, n) → j = i → (n < qi_next e)%nat) as Hlt.
  { intros t' j n Hw ->. unfold wait_at in Hw. destruct (u_tasks u !! t') as [k|] eqn:Ek; [|done].
    destruct (i_wait _ Hi t' k i n Ek Hw) as (_ & _ & e' & He' & _ & ?). by simplify_eq. }
  assert (∀ j e0, u_inst u !! j = Some e0 → qi_valid e0 = true → ∃ e1, u_inst u' !! j = Some e1 ∧
    qi_valid e1 = true ∧ (qi_next e0 ≤ qi_next e1)%nat ∧ qi_key e1 = qi_key e0) as HI.
  { intros j e0 Hj Hv0. unfold u'. places; [|eauto]. eexists. split; [done|]. simpl. auto. }
  split.
  - intros pl1 pl2 j p1 p2 P1%HP P2%HP. exact (i_token _ Hi _ _ _ _ _ P1 P2).
  - intros pl j p Hp%HP. destruct (i_place _ Hi _ _ _ Hp) as (e0 & He0 & Hv0 & Hle).
    destruct (HI j e0 He0 Hv0) as (e1 & ? & ? & ? & _). exists e1. split_and!; [done|done|lia].
  - intros pl j p t' n Hp%HP Hw. destruct (decide (t' = t)) as [->|Hne].
    + rewrite Hwt' in Hw. injection Hw as <- <-. destruct (i_place _ Hi _ _ _ Hp) as (e0 & He0 & _ & Hle).
      simplify_eq. done.
    + rewrite HW in Hw by done. exact (i_order _ Hi _ _ _ _ _ Hp Hw).
  - intros t' k j n Hk Hw. unfold u' in Hk. simpl in Hk. rewrite lookup_insert in Hk. case_decide as Hd.
    + simplify_eq/=. unfold q_waits in Hw. simpl in Hw. injection Hw as <- <-. split_and!; [done|done|].
      eexists. unfold u'. simpl. rewrite lookup_insert_eq. split; [done|]. simpl. split; [done|lia].
    + destruct (i_wait _ Hi t' k j n Hk Hw) as (? & ? & e0 & He0 & Hv0 & Hn).
      destruct (HI j e0 He0 Hv0) as (e1 & ? & ? & ? & _). split_and!; [done|done|].
      exists e1. split_and!; [done|done|lia].
  - intros t1 t2 [j n] W1 W2. destruct (decide (t1 = t)) as [->|N1], (decide (t2 = t)) as [->|N2]; [done|..].
    + rewrite Hwt' in W1. injection W1 as <- <-. rewrite HW in W2 by done.
      specialize (Hlt _ _ _ W2 eq_refl). lia.
    + rewrite Hwt' in W2. injection W2 as <- <-. rewrite HW in W1 by done.
      specialize (Hlt _ _ _ W1 eq_refl). lia.
    + rewrite HW in W1, W2 by done. exact (i_inj _ Hi _ _ _ W1 W2).
  - intros j e1 Hc He1 Hv1. change (u_cancelled u = false) in Hc. unfold u' in He1. simpl in He1.
    rewrite lookup_insert in He1. case_decide as Hd.
    + subst j. injection He1 as <-. destruct (i_cover _ Hi i e Hc He Hv) as (pl & p & Hp & Hn).
      exists pl, p. split; [by apply HP|]. simpl. intros n Hr. destruct (decide (n = qi_next e)) as [->|Hne].
      * by exists t.
      * destruct (Hn n) as [t' Ht']; [lia|]. exists t'. rewrite HW; [done|]. intros ->. congruence.
    + destruct (i_cover _ Hi j e1 Hc He1 Hv1) as (pl & p & Hp & Hn). exists pl, p. split; [by apply HP|].
      intros n Hr. destruct (Hn n Hr) as [t' Ht']. exists t'. rewrite HW; [done|]. intros ->. congruence.
  - intros j e1 n He1 Hn. unfold u'. simpl. rewrite lookup_insert.
    destruct (decide ((i, S (qi_next e)) = (j, n))) as [Hd|Hd]; [exists Empty; by split|].
    unfold u' in He1. simpl in He1. destruct (decide (i = j)) as [<-|Hj].
    + rewrite lookup_insert_eq in He1. injection He1 as <-. simpl in *. rewrite <-Hv.
      apply (i_chans _ Hi i e n He).
      assert (n ≠ S (qi_next e)) by (intros ->; by apply Hd). lia.
    + rewrite lookup_insert_ne in He1 by done. by apply (i_chans _ Hi).
  - intros j n Hj. unfold u' in *. simpl in *. destruct (decide (i = j)) as [<-|Hne].
    { by rewrite lookup_insert_eq in Hj. }
    rewrite lookup_insert_ne in Hj by done. rewrite lookup_insert_ne by congruence.
    by apply (i_nochan _ Hi).
  - intros t' k j n Hk Hh. unfold u' in Hk. places. by eapply (i_holder _ Hi t' k).
  - intros t' k Hk. unfold u' in *. simpl in *. rewrite lookup_insert in Hk. case_decide.
    + simplify_eq. simpl. rewrite lookup_insert_eq. eauto.
    + destruct (i_key _ Hi t' k Hk) as (e0 & He0 & Hk0). rewrite lookup_insert.
      case_decide; [|eauto]. simplify_eq. eauto.
  - intros k j. unfold u'. simpl. rewrite (i_table _ Hi), lookup_insert. case_decide; [|done]. subst.
    split; intros (e0 & He0 & Hv0 & Hk0); simplify_eq; eauto.
Qed.

Lemma inv_close u t k i e :
  inv u → u_tasks u !! t = Some k → q_holds k = Some (i, qi_next e) → u_inst u !! i = Some e →
  qi_valid e = true →
  inv (set_task (delete t (u_tasks u))
        (set_chan (i, qi_next e) Closed (set_table (delete (qi_key e) (u_table u))
          (set_inst (<[i := mkInst (qi_key e) (qi_next e) false]> (u_inst u)) u)))).
Proof.
  intros Hi Ht Hh He Hv. set (u' := set_task _ _).
  assert (place_at u (PTask t) = Some (i, qi_next e)) as Hpt by (simpl; by rewrite Ht).
  assert (∀ pl j q, place_at u pl = Some (j, q) → pl ≠ PTask t → j ≠ i) as Helse.
  { intros pl j q Hp Hne ->. apply Hne. exact (i_token _ Hi _ _ _ _ _ Hp Hpt). }
  assert (∀ t' n, wait_at u t' = Some (i, n) → False) as Hnw.
  { intros t' n Hw. pose proof (i_order _ Hi _ _ _ _ _ Hpt Hw) as Hle. unfold wait_at in Hw.
    destruct (u_tasks u !! t') as [k'|] eqn:Ek; [|done].
    destruct (i_wait _ Hi t' k' i n Ek Hw) as (_ & _ & e' & He' & _ & ?). simplify_eq. lia. }
  assert (∀ pl j q, place_at u' pl = Some (j, q) → j ≠ i ∧ place_at u pl = Some (j, q)) as HP.
  { intros pl j q Hp.
    assert (pl ≠ PTask t) as N1 by (intros ->; unfold u' in Hp; by places).
    assert (pl ≠ PChan (i, qi_next e)) as N2 by (intros ->; unfold u' in Hp; by places).
    assert (place_at u pl = Some (j, q)) as Hp0 by (unfold u' in Hp; destruct pl; places; done).
    split; [|done]. by eapply Helse. }
  assert (∀ pl j q, place_at u pl = Some (j, q) → j ≠ i → place_at u' pl = Some (j, q)) as HP'.
  { intros pl j q Hp Hj.
    assert (pl ≠ PTask t) as N1 by (intros ->; congruence).
    assert (pl ≠ PChan (i, qi_next e)) as N2 by
      (intros ->; simpl in Hp; destruct (u_chans u !! _) as [[]|]; naive_solver).
    unfold u'. destruct pl; places; done. }
  assert (∀ t' c, wait_at u' t' = Some c ↔ wait_at u t' = Some c) as HW.
  { intros t' c. destruct (decide (t = t')) as [<-|]; [|unfold u', wait_at; by places].
    unfold u', wait_at. simpl. rewrite lookup_delete_eq, Ht. simpl. unfold q_waits, q_holds in *.
    by destruct (q_wait k). }
  assert (∀ j e0, j ≠ i → u_inst u' !! j = u_inst u !! j) as HI
    by (intros; unfold u'; simpl; by rewrite lookup_insert_ne).
  split.
  - intros pl1 pl2 j p1 p2 [_ P1]%HP [_ P2]%HP. exact (i_token _ Hi _ _ _ _ _ P1 P2).
  - intros pl j p [Hj Hp]%HP. rewrite HI by done. exact (i_place _ Hi _ _ _ Hp).
  - intros pl j p t' n [Hj Hp]%HP Hw%HW. exact (i_order _ Hi _ _ _ _ _ Hp Hw).
  - intros t' k' j n Hk Hw. assert (u_tasks u !! t' = Some k') as Hk0 by (unfold u' in Hk; by places).
    destruct (i_wait _ Hi t' k' j n Hk0 Hw) as (? & ? & e0 & He0 & ? & ?). split_and!; [done|done|].
    exists e0. rewrite HI; [done|done|]. intros ->. apply (Hnw t' n). unfold wait_at. by rewrite Hk0.
  - intros t1 t2 c W1%HW W2%HW. exact (i_inj _ Hi _ _ _ W1 W2).
  - intros j e1 Hc He1 Hv1. change (u_cancelled u = false) in Hc. destruct (decide (j = i)) as [->|Hj].
    + unfold u' in He1. simpl in He1. rewrite lookup_insert_eq in He1. by simplify_eq.
    + rewrite HI in He1 by done. destruct (i_cover _ Hi j e1 Hc He1 Hv1) as (pl & p & Hp & Hn).
      exists pl, p. split; [by apply HP'|]. intros n Hr. destruct (Hn n Hr) as [t' Hw]. exists t'. by apply HW.
  - intros j e1 n He1 Hn. destruct (decide (j = i)) as [->|Hj].
    + unfold u' in *. simpl in *. rewrite lookup_insert_eq in He1. injection He1 as <-. simpl in Hn.
      rewrite lookup_insert. case_decide; [eexists; by split|].
      destruct (i_chans _ Hi i e n He Hn) as (st & ? & _). exists st. done.
    + rewrite HI in He1 by done. unfold u'. simpl. rewrite lookup_insert_ne by congruence.
      by apply (i_chans _ Hi).
  - intros j n Hj. unfold u' in *. simpl in *. destruct (decide (i = j)) as [<-|Hne].
    { by rewrite lookup_insert_eq in Hj. }
    rewrite lookup_insert_ne in Hj by done. rewrite lookup_insert_ne by congruence.
    by apply (i_nochan _ Hi).
  - intros t' k' j n Hk Hh'. unfold u' in Hk. places. by eapply (i_holder _ Hi t' k').
  - intros t' k' Hk. assert (u_tasks u !! t' = Some k') as Hk0 by (unfold u' in Hk; by places).
    destruct (i_key _ Hi t' k' Hk0) as (e0 & He0 & Hk1). unfold u'. simpl. rewrite lookup_insert.
    case_decide; [|eauto]. simplify_eq. eauto.
  - intros k' j. unfold u'. simpl. rewrite lookup_delete, lookup_insert. case_decide as Hk.
    + split; [done|]. intros (e0 & He0 & Hv0 & Hk0). case_decide; [by simplify_eq|].
      exfalso. assert (u_table u !! k' = Some j) as H1 by (apply (i_table _ Hi); eauto).
      assert (u_table u !! k' = Some i) as H2 by (apply (i_table _ Hi); eauto). congruence.
    + rewrite (i_table _ Hi). split; intros (e0 & He0 & Hv0 & Hk0).
      * exists e0. rewrite decide_False; [done|]. intros ->. congruence.
      * case_decide; [by simplify_eq|]. eauto.
Qed.

Lemma qstep_inv u u' : inv u → qstep u u' → inv u'.
Proof.
  intros Hi Hs. destruct Hs.
  - by apply inv_create.
  - by apply inv_enqueue.
  - eapply inv_moved; [done|]. by apply (moved_spawn _ i).
  - eapply inv_moved; [done|]. by eapply moved_take.
  - eapply inv_moved; [done|]. by apply moved_turn.
  - eapply inv_moved; [done|]. by eapply moved_release.
  - eapply inv_moved; [done|]. by eapply moved_end.
  - eapply inv_moved; [done|]. by apply moved_defer.
  - by eapply inv_close.
  - eapply inv_moved; [done|]. by apply moved_cancel.
  - eapply inv_moved; [done|]. by eapply moved_exit.
Qed.

Lemma qsteps_inv u u' : inv u → qsteps u u' → inv u'.
Proof. intros Hi Hs. induction Hs; [done|]. by eapply qstep_inv. Qed.

End Queue.
