(* ===== verification/Sessions.v ===== *)
(** * Sessions: accepting messages and running requests one at a time

    Models src/core/pkg/rpc/requests.go: the requests and the session instances
    of one sidecar.  The goroutines of the source are tasks with a program
    counter; a critical section under an instance's entry lock, and each
    operation on a channel, is one step of the model, so every interleaving of
    the goroutines at these points is a sequence of steps ([exec]).  What the
    registered handlers return, the clock, the fresh identifiers and the
    cancellation of the context are the labels of the steps. *)

From S2P Require Import Prelude GoLib Messages Store Kafka Routing Queue.
Import Rpc Routing.
Open Scope string_scope.
Open Scope Z_scope.
Open Scope list_scope.

Module Sessions.

Definition releasedFlow : string := "released".

(* ---------------------------------------------------------------------- *)
(** ** State *)

(** Coordination channels are named by their instance and by their rank among
    the values its field [next] has taken. *)
Notation chanid := Queue.chanid.
Notation chan := Queue.chan.
Notation Empty := Queue.Empty.
Notation Full := Queue.Full.
Notation Closed := Queue.Closed.

Record SessionInstance : Type := mkInstance {
  Name : string;
  ID : string;
  ActiveFlow : string;
  Activated : bool;
  lastAccess : Z;
  next : nat;
  valid : bool;
}.

Record Result : Type := mkResult { res_Value : string; res_Err : string }.

(** Where a goroutine is: the waits and the handler of [handleSessionRequest],
    then those of the deactivation started by [collectInactiveSessions]. *)
Inductive pc : Type :=
| WaitTurn      (** waiting for [before] *)
| TimedOut      (** timed out, still waiting for [before] to pass it on *)
| WaitChild     (** waiting for the child of a previous execution *)
| Ready         (** about to invoke the handler *)
| Running       (** in the handler *)
| Releasing     (** about to send on [after] *)
| DWait         (** deactivation: waiting for [before] *)
| DOwned        (** deactivation: [ActiveFlow] taken *)
| DChecked (canDeactivate : bool)
| DFinal.       (** deactivation: the callback returned *)

Record task : Type := mkTask {
  tk_before : option chanid;
  tk_child : option nat;
  tk_after : option chanid;
  tk_inst : nat;
  tk_target : Session;
  tk_msg : option Request;
  tk_clear : bool;
  tk_pc : pc;
}.

(** A goroutine of [accept] for a service or a node. *)
Record worker : Type := mkWorker { wk_child : option nat; wk_msg : Request }.

Record state : Type := mkState {
  sessionTable : gmap (string * string) nat;
  heap : gmap nat SessionInstance;
  chans : gmap chanid chan;
  deferredLocks : gmap string chanid;
  requests : gmap string nat;
  results : gmap nat (option Result);
  tasks : gmap nat task;
  workers : gmap nat worker;
  outbox : list Message;
  cancelled : bool;
}.

Inductive outcome : Type :=
| Blocked
| Panicked
| Next (s : state).

Definition init : state := mkState ∅ ∅ ∅ ∅ ∅ ∅ ∅ ∅ [] false.

Definition set_table x s := mkState x (heap s) (chans s) (deferredLocks s) (requests s) (results s)
  (tasks s) (workers s) (outbox s) (cancelled s).
Definition set_heap x s := mkState (sessionTable s) x (chans s) (deferredLocks s) (requests s)
  (results s) (tasks s) (workers s) (outbox s) (cancelled s).
Definition set_chans x s := mkState (sessionTable s) (heap s) x (deferredLocks s) (requests s)
  (results s) (tasks s) (workers s) (outbox s) (cancelled s).
Definition set_locks x s := mkState (sessionTable s) (heap s) (chans s) x (requests s) (results s)
  (tasks s) (workers s) (outbox s) (cancelled s).
Definition set_requests x s := mkState (sessionTable s) (heap s) (chans s) (deferredLocks s) x
  (results s) (tasks s) (workers s) (outbox s) (cancelled s).
Definition set_results x s := mkState (sessionTable s) (heap s) (chans s) (deferredLocks s)
  (requests s) x (tasks s) (workers s) (outbox s) (cancelled s).
Definition set_tasks x s := mkState (sessionTable s) (heap s) (chans s) (deferredLocks s)
  (requests s) (results s) x (workers s) (outbox s) (cancelled s).
Definition set_workers x s := mkState (sessionTable s) (heap s) (chans s) (deferredLocks s)
  (requests s) (results s) (tasks s) x (outbox s) (cancelled s).
(** [sendOrDie]: [outbox] has the messages that were handed to [Send], in their order.
    What becomes of them is [Routing.Send]: sendOrDie drops the message, silently, when
    [Send] finds no target (ErrUnavailable) or the context done, and ends the process at any
    other error. *)
Definition send (m : Message) s := mkState (sessionTable s) (heap s) (chans s) (deferredLocks s)
  (requests s) (results s) (tasks s) (workers s) (outbox s ++ [m]) (cancelled s).
Definition cancel s := mkState (sessionTable s) (heap s) (chans s) (deferredLocks s)
  (requests s) (results s) (tasks s) (workers s) (outbox s) true.

Definition set_flow (f : string) (e : SessionInstance) : SessionInstance :=
  mkInstance (Name e) (ID e) f (Activated e) (lastAccess e) (next e) (valid e).
Definition set_next (n : nat) (e : SessionInstance) : SessionInstance :=
  mkInstance (Name e) (ID e) (ActiveFlow e) (Activated e) (lastAccess e) n (valid e).
Definition set_valid (b : bool) (e : SessionInstance) : SessionInstance :=
  mkInstance (Name e) (ID e) (ActiveFlow e) (Activated e) (lastAccess e) (next e) b.
Definition set_activated (b : bool) (e : SessionInstance) : SessionInstance :=
  mkInstance (Name e) (ID e) (ActiveFlow e) b (lastAccess e) (next e) (valid e).
Definition set_access (t : Z) (e : SessionInstance) : SessionInstance :=
  mkInstance (Name e) (ID e) (ActiveFlow e) (Activated e) t (next e) (valid e).

Definition with_inst (i : nat) (f : SessionInstance → SessionInstance) (s : state) : state :=
  set_heap (alter f i (heap s)) s.

Definition set_pc (p : pc) (k : task) : task :=
  mkTask (tk_before k) (tk_child k) (tk_after k) (tk_inst k) (tk_target k) (tk_msg k) (tk_clear k) p.

Definition with_task (t : nat) (k : task) (s : state) : state := set_tasks (<[t := k]> (tasks s)) s.

(** The goroutine started by a [go] statement. *)
Definition spawn (k : task) (s : state) : state := with_task (fresh (dom (tasks s))) k s.

(* ---------------------------------------------------------------------- *)
(** ** acceptSession *)

Definition first_pc (before : option chanid) (child : option nat) : pc :=
  match before with
  | Some _ => WaitTurn
  | None => match child with Some _ => WaitChild | None => Ready end
  end.

Definition request_task (before : option chanid) (child : option nat) (after : option chanid)
    (i : nat) (target : Session) (msg : Request) (clear : bool) : task :=
  mkTask before child after i target (Some msg) clear (first_pc before child).

(** Give the next task of instance [i] its place in the queue. *)
Definition enqueue (i : nat) (e : SessionInstance) (mk : chanid → chanid → task) (s : state) : state :=
  let before := (i, next e) in
  let after := (i, S (next e)) in
  spawn (mk before after)
    (set_chans (<[after := Empty]> (chans s)) (set_heap (<[i := set_next (S (next e)) e]> (heap s)) s)).

(** Step 2 of [acceptSession], for the locked instance [i]. *)
Definition schedule (target : Session) (msg : Request) (child : option nat) (i : nat)
    (e : SessionInstance) (freshInstance : bool) (s : state) : state :=
  if negb freshInstance && String.eqb (ActiveFlow e) (s_Flow target) then
    let dl := if String.eqb (s_DeferredLockID target) "" then None
              else deferredLocks s !! s_DeferredLockID target in
    let s := match dl with
             | Some _ => set_locks (delete (s_DeferredLockID target) (deferredLocks s)) s
             | None => s
             end in
    spawn (request_task None child dl i target msg (match dl with Some _ => true | None => false end)) s
  else if String.eqb (s_Flow target) "nonexclusive" then
    spawn (request_task None child None i target msg false) s
  else
    enqueue i e (λ before after, request_task (Some before) child (Some after) i target msg true) s.

Definition find_instance (key : string * string) (s : state) : option (nat * SessionInstance) :=
  match sessionTable s !! key with
  | Some i =>
      match heap s !! i with
      | Some e => if valid e then Some (i, e) else None
      | None => None
      end
  | None => None
  end.

(** A new instance, with its first channel enabled. *)
Definition new_instance (target : Session) (child : option nat) : SessionInstance :=
  mkInstance (s_Name target) (s_ID target)
    (match child with None => releasedFlow | Some _ => s_Flow target end) false zeroTime 0 true.

Definition create (target : Session) (i : nat) (e : SessionInstance) (s : state) : state :=
  set_table (<[(s_Name target, s_ID target) := i]> (sessionTable s))
    (set_chans (<[(i, 0%nat) := Full]> (chans s)) (set_heap (<[i := e]> (heap s)) s)).

Definition acceptSession (target : Session) (msg : Request) (waitForChild : option nat) (s : state)
    : state :=
  match find_instance (s_Name target, s_ID target) s with
  | Some (i, e) => schedule target msg waitForChild i e false s
  | None =>
      let i := fresh (dom (heap s)) in
      let e := new_instance target waitForChild in
      schedule target msg waitForChild i e true (create target i e s)
  end.

(* ---------------------------------------------------------------------- *)
(** ** accept *)

Definition expired (deadline now : Z) : bool := negb (IsZero deadline) && Before deadline now.

Definition error_response (q : Request) (err value : string) : Message :=
  match q with
  | Call c => MResponse {| r_RequestID := c_RequestID c; r_Value := value; r_Deadline := c_Deadline c;
                           r_ErrMsg := err; r_Node := c_Caller c |}
  | Tell t => MDone {| dn_RequestID := t_RequestID t; dn_Deadline := t_Deadline t |}
  end.

(** The answer to a request that ran: a call's response, a tell's completion. *)
Definition answer (q : Request) (value : string) : Message := error_response q "" value.

(** A channel for the result of the child a recovered request waits for. *)
Definition await_child (childID : string) (s : state) : option nat * state :=
  if String.eqb childID "" then (None, s)
  else
    let r := fresh (dom (results s)) in
    (Some r, set_requests (<[childID := r]> (requests s)) (set_results (<[r := None]> (results s)) s)).

Section accept.
(** [fmt.Sprintf("%v", t)] of a time. *)
Context (fmt_time : Z → string).

Definition deadline_error (deadline now : Z) : string :=
  ("deadline expired: deadline was " ++ fmt_time deadline ++ " and it is now " ++ fmt_time now)%string.

(** accept must not block; it is executing on the primary go routine that is
    receiving messages. *)
Definition accept (now : Z) (msg : Message) (s : state) : outcome :=
  match msg with
  | MResponse m =>
      match requests s !! r_RequestID m with
      | None => Next s
      | Some ch =>
          let s := set_requests (delete (r_RequestID m) (requests s)) s in
          match results s !! ch with
          | Some None => Next (set_results (<[ch := Some (mkResult (r_Value m) (r_ErrMsg m))]> (results s)) s)
          | _ => Blocked
          end
      end
  | MRequest q =>
      if expired (q_deadline q) now then
        Next (send (error_response q (deadline_error (q_deadline q) now) "") s)
      else
        let '(child, s) := await_child (q_childID q) s in
        match q_target q with
        | SessionTarget target => Next (acceptSession target q child s)
        | Service _ => Next (set_workers (<[fresh (dom (workers s)) := mkWorker child q]> (workers s)) s)
        | Node _ => Next (set_workers (<[fresh (dom (workers s)) := mkWorker None q]> (workers s)) s)
        end
  | MDone _ => Next s
  end.
End accept.

(* ---------------------------------------------------------------------- *)
(** ** Making requests: async, call, tell, reclaim *)

(** Call method and return a result channel; [requestID] is the new id and
    [sent] tells whether [Send] succeeded. *)
Definition async (requestID : string) (dest : Destination) (deadline : Z) (parentID value : string)
    (isEdited sent : bool) (s : state) : option nat * state :=
  let ch := fresh (dom (results s)) in
  let s := set_requests (<[requestID := ch]> (requests s)) (set_results (<[ch := None]> (results s)) s) in
  if sent then
    (Some ch, send (MRequest (Call (mkCall requestID value deadline (d_Target dest) (d_Method dest) "" 0
                                      "" parentID isEdited))) s)
  else (None, set_requests (delete requestID (requests s)) s).

(** The wait of [call] on the channel of its request: the result, once it is
    there, and the table without the request. *)
Definition call_result (requestID : string) (ch : nat) (s : state) : option (Result * state) :=
  match results s !! ch with
  | Some (Some r) =>
      Some (r, set_requests (delete requestID (requests s)) (set_results (<[ch := None]> (results s)) s))
  | _ => None
  end.

Definition tell (requestID : string) (dest : Destination) (deadline : Z) (parentID value : string)
    (isEdited : bool) (s : state) : state :=
  send (MRequest (Tell (mkTell requestID value deadline (d_Target dest) (d_Method dest) 0 "" parentID
                          isEdited))) s.

(** The same for requests that the debugger edited: its callers make them by these. *)
Definition asyncEdited (requestID : string) (dest : Destination) (deadline : Z) (parentID value : string) (sent : bool)
    : state → option nat * state := async requestID dest deadline parentID value true sent.

Definition tellEdited (requestID : string) (dest : Destination) (deadline : Z) (parentID value : string)
    : state → state := tell requestID dest deadline parentID value true.

Definition reclaim (requestID : string) (s : state) : state :=
  set_requests (delete requestID (requests s)) s.

(* ---------------------------------------------------------------------- *)
(** ** handleSessionRequest *)

(** What a session handler gives back; [HCtx] is the error of the cancelled
    context, [value] of an error is the error serialized. *)
Inductive houtcome : Type :=
| HOk (value : string)
| HErr (err value : string)
| HCtx
| HTail (dest : Destination) (value : string).

(** What a service or node handler gives back; an undefined method is an error
    with an empty value. *)
Inductive woutcome : Type :=
| WOk (value : string)
| WErr (err value : string).

(** The tail call a request turns into. *)
Definition tail_request (q : Request) (dest : Destination) (deadline : Z) (value : string) : Request :=
  match q with
  | Call c => Call (mkCall (c_RequestID c) value deadline (d_Target dest) (d_Method dest) (c_Caller c)
                      (c_Sequence c + 1) "" "" false)
  | Tell t => Tell (mkTell (t_RequestID t) value deadline (d_Target dest) (d_Method dest)
                      (t_Sequence t + 1) "" "" false)
  end.

Definition release_flow (k : task) (s : state) : state :=
  if tk_clear k then with_inst (tk_inst k) (set_flow releasedFlow) s else s.

(** [next, ok := dest.Target.(Session); ok && after != nil && next.DeferredLockID != ""]. *)
Definition defers (k : task) (dest : Destination) : option (string * chanid) :=
  match d_Target dest, tk_after k with
  | SessionTarget next, Some after =>
      if String.eqb (s_DeferredLockID next) "" then None else Some (s_DeferredLockID next, after)
  | _, _ => None
  end.

(** From the return of the handler to the release of the lock. *)
Definition finish (t : nat) (k : task) (q : Request) (o : houtcome) (s : state) : state :=
  let done := set_pc Releasing k in
  match o with
  | HErr err value => with_task t done (send (error_response q err value) (release_flow k s))
  | HCtx => with_task t done (release_flow k s)
  | HOk value => with_task t done (send (answer q value) (release_flow k s))
  | HTail dest value =>
      match defers k dest with
      | Some (lock, after) =>
          let k' := mkTask (tk_before k) (tk_child k) None (tk_inst k) (tk_target k) (tk_msg k) false
                      Releasing in
          with_task t k' (send (MRequest (tail_request q dest zeroTime value))
            (set_locks (<[lock := after]> (deferredLocks s)) s))
      | None =>
          with_task t done (send (MRequest (tail_request q dest (q_deadline q) value)) (release_flow k s))
      end
  end.

(* ---------------------------------------------------------------------- *)
(** ** The steps *)

Inductive label : Type :=
| LAsync (requestID : string) (dest : Destination) (deadline : Z) (parentID value : string)
    (isEdited sent : bool)
| LCallResult (requestID : string) (ch : nat)
| LTell (requestID : string) (dest : Destination) (deadline : Z) (parentID value : string)
    (isEdited : bool)
| LReclaim (requestID : string)
| LAccept (now : Z) (msg : Message)
| LTurn (t : nat) (flow : string)       (** [<-before]; [flow] is a deactivation's fresh flow *)
| LTimeout (t : nat)                    (** [time.After(sessionBusyTimeout)] *)
| LChild (t : nat)                      (** [<-waitForChild] *)
| LStart (t : nat)                      (** invoke the handler *)
| LFinish (t : nat) (now : Z) (activated : bool) (o : houtcome)
| LRelease (t : nat)                    (** [after <- struct{}{}] *)
| LCollect (i : nat) (time : Z)         (** [collectInactiveSessions] on one instance *)
| LCheck (t : nat)
| LCallback (t : nat) (activated : bool)
| LFinal (t : nat)
| LWorker (w : nat) (o : woutcome)      (** a service or node handler returns *)
| LCancel                               (** the context is cancelled *)
| LExit (t : nat).                      (** [<-ctx.Done()] *)

(** Receive from a channel: its state afterwards, if it does not block. *)
Definition receive (c : chanid) (s : state) : option state :=
  match chans s !! c with
  | Some Full => Some (set_chans (<[c := Empty]> (chans s)) s)
  | Some Closed => Some s
  | _ => None
  end.

(** [waitForChild] or the handler comes next. *)
Definition after_turn (k : task) : pc :=
  match tk_child k with Some _ => WaitChild | None => Ready end.

Definition take_turn (t : nat) (flow : string) (k : task) (s : state) : outcome :=
  match tk_before k with
  | None => Blocked
  | Some c =>
      match receive c s with
      | None => Blocked
      | Some s' =>
          match tk_pc k with
          | WaitTurn => Next (with_task t (set_pc (after_turn k) k) s')
          | TimedOut => Next (with_task t (set_pc Releasing k) s')
          | DWait => Next (with_task t (set_pc DOwned k) (with_inst (tk_inst k) (set_flow flow) s'))
          | _ => Blocked
          end
      end
  end.

(** [fmt.Sprintf("%v", target)] of a session. *)
Definition fmt_session (t : Session) : string :=
  ("{" ++ s_Name t ++ " " ++ s_ID t ++ " " ++ s_Flow t ++ " " ++ s_DeferredLockID t ++ "}")%string.

Definition timeout_error (t : Session) : string :=
  ("Possible deadlock: timed out waiting in instance queue for " ++ fmt_session t)%string.

Definition timeout (t : nat) (k : task) (q : Request) (s : state) : state :=
  let s := send (error_response q (timeout_error (tk_target k)) "") s in
  match tk_after k with
  | Some _ => with_task t (set_pc TimedOut k) s
  | None => with_task t (set_pc (after_turn k) k) s
  end.

Definition start (defined : string → bool) (t : nat) (k : task) (q : Request) (s : state) : state :=
  let s := match tk_before k with
           | Some _ => with_inst (tk_inst k) (set_flow (s_Flow (tk_target k))) s
           | None => s
           end in
  if defined (q_method q) then with_task t (set_pc Running k) s
  else with_task t (set_pc Releasing k) (send (error_response q ("undefined method " ++ q_method q)%string "") (release_flow k s)).

Definition release (t : nat) (k : task) (s : state) : outcome :=
  let gone := delete t (tasks s) in
  match tk_after k with
  | None => Next (set_tasks gone s)
  | Some c =>
      match chans s !! c with
      | Some Empty => Next (set_tasks gone (set_chans (<[c := Full]> (chans s)) s))
      | Some Closed => Panicked
      | _ => Blocked
      end
  end.

Definition touch (k : task) (now : Z) (activated : bool) (s : state) : state :=
  with_inst (tk_inst k) (λ e,
    let e := set_activated activated e in
    if activated && negb (String.eqb (s_Flow (tk_target k)) "nonexclusive") then set_access now e else e) s.

(** The goroutine that deactivates an instance. *)
Definition deactivation (i : nat) (e : SessionInstance) (before after : chanid) : task :=
  mkTask (Some before) None (Some after) i (mkSession (Name e) (ID e) "" "") None true DWait.

(** The end of a deactivation, under the entry lock. *)
Definition final (t : nat) (k : task) (s : state) : outcome :=
  match heap s !! tk_inst k, tk_after k with
  | Some e, Some savedLast =>
      let s1 := with_inst (tk_inst k) (set_flow releasedFlow) s in
      if valid e && bool_decide (savedLast = (tk_inst k, next e)) then
        match chans s !! savedLast with
        | Some Closed => Panicked
        | _ =>
            Next (set_tasks (delete t (tasks s))
                   (set_chans (<[savedLast := Closed]> (chans s))
                     (set_table (delete (Name e, ID e) (sessionTable s))
                       (with_inst (tk_inst k) (set_valid false) s1))))
        end
      else Next (with_task t (set_pc Releasing k) s1)
  | _, _ => Blocked
  end.

(** A worker's answer; the completion of a tell to a node is not sent. *)
Definition worker_answers (q : Request) (o : woutcome) : list Message :=
  match q_target q, q with
  | Node _, Tell _ => []
  | _, _ =>
      match o with
      | WErr err value => [error_response q err value]
      | WOk value => [answer q value]
      end
  end.

Section step.
(** [sessionBusyTimeout > 0], the registered session methods and the format of
    times. *)
Context (busyTimeout : bool) (defined : string → bool) (fmt_time : Z → string).

Definition exec (l : label) (s : state) : outcome :=
  match l with
  | LAsync id dest dl parent value edited sent => Next (async id dest dl parent value edited sent s).2
  | LCallResult id ch => match call_result id ch s with Some (_, s') => Next s' | None => Blocked end
  | LTell id dest dl parent value edited => Next (tell id dest dl parent value edited s)
  | LReclaim id => Next (reclaim id s)
  | LAccept now msg => accept fmt_time now msg s
  | LTurn t flow => match tasks s !! t with Some k => take_turn t flow k s | None => Blocked end
  | LTimeout t =>
      match tasks s !! t with
      | Some k =>
          match tk_pc k, tk_msg k with
          | WaitTurn, Some q => if busyTimeout then Next (timeout t k q s) else Blocked
          | _, _ => Blocked
          end
      | None => Blocked
      end
  | LChild t =>
      match tasks s !! t with
      | Some k =>
          match tk_pc k, tk_child k with
          | WaitChild, Some r =>
              match results s !! r with
              | Some (Some _) =>
                  Next (with_task t (set_pc Ready k)
                    (with_inst (tk_inst k) (set_flow releasedFlow)
                      (set_results (<[r := None]> (results s)) s)))
              | _ => Blocked
              end
          | _, _ => Blocked
          end
      | None => Blocked
      end
  | LStart t =>
      match tasks s !! t with
      | Some k =>
          match tk_pc k, tk_msg k with
          | Ready, Some q => Next (start defined t k q s)
          | _, _ => Blocked
          end
      | None => Blocked
      end
  | LFinish t now activated o =>
      match tasks s !! t with
      | Some k =>
          match tk_pc k, tk_msg k with
          | Running, Some q => Next (finish t k q o (touch k now activated s))
          | _, _ => Blocked
          end
      | None => Blocked
      end
  | LRelease t =>
      match tasks s !! t with
      | Some k => match tk_pc k with Releasing => release t k s | _ => Blocked end
      | None => Blocked
      end
  | LCollect i time =>
      match heap s !! i with
      | Some e =>
          if bool_decide (sessionTable s !! (Name e, ID e) = Some i) && valid e && Before (lastAccess e) time
          then Next (enqueue i e (deactivation i e) s)
          else Blocked
      | None => Blocked
      end
  | LCheck t =>
      match tasks s !! t with
      | Some k =>
          match tk_pc k, heap s !! tk_inst k with
          | DOwned, Some e =>
              Next (with_task t (set_pc (DChecked (valid e && bool_decide (tk_after k = Some (tk_inst k, next e)))) k) s)
          | _, _ => Blocked
          end
      | None => Blocked
      end
  | LCallback t activated =>
      match tasks s !! t with
      | Some k =>
          match tk_pc k, heap s !! tk_inst k with
          | DChecked can, Some e =>
              Next (with_task t (set_pc DFinal k)
                (if can && Activated e then with_inst (tk_inst k) (set_activated activated) s else s))
          | _, _ => Blocked
          end
      | None => Blocked
      end
  | LFinal t =>
      match tasks s !! t with
      | Some k => match tk_pc k with DFinal => final t k s | _ => Blocked end
      | None => Blocked
      end
  | LWorker w o =>
      match workers s !! w with
      | Some k =>
          match wk_child k with
          | Some r =>
              match results s !! r with
              | Some (Some _) =>
                  Next (foldl (flip send)
                    (set_requests (delete (q_childID (wk_msg k)) (requests s))
                      (set_workers (delete w (workers s)) s)) (worker_answers (wk_msg k) o))
              | _ => Blocked
              end
          | None =>
              Next (foldl (flip send) (set_workers (delete w (workers s)) s) (worker_answers (wk_msg k) o))
          end
      | None => Blocked
      end
  | LCancel => Next (cancel s)
  | LExit t =>
      match tasks s !! t with
      | Some k =>
          match tk_pc k with
          | WaitTurn | TimedOut | WaitChild | DWait =>
              if cancelled s then Next (set_tasks (delete t (tasks s)) s) else Blocked
          | _ => Blocked
          end
      | None => Blocked
      end
  end.
End step.

(* ---------------------------------------------------------------------- *)
(** ** The rest of the file's operations *)

(** The local sessions that are activated, by name. *)
Definition getLocalActivatedSessions (name : string) (s : state) : gmap string (list string) :=
  foldl (λ information '(_, i),
    match heap s !! i with
    | Some e =>
        if valid e && Activated e && (String.eqb name "" || String.eqb (Name e) name)
        then push (Name e) (ID e) information else information
    | None => information
    end) ∅ (map_to_list (sessionTable s)).

(** The last loop of [collectInactiveSessions], on the placement cache: clear the
    used bits, drop the entries whose bit was clear. *)
Definition sweep (cache : gmap string placementCacheEntry) : gmap string placementCacheEntry :=
  omap (λ e, if pc_used e then Some (mkEntry (pc_node e) false) else None) cache.

(* ---------------------------------------------------------------------- *)
(** ** The lock discipline *)

Definition waiting_pc (p : pc) : bool :=
  match p with WaitTurn | TimedOut | DWait => true | _ => false end.

Definition qi_of (e : SessionInstance) : Queue.qinst := Queue.mkInst (Name e, ID e) (next e) (valid e).

Definition qt_of (k : task) : Queue.qtask :=
  Queue.mkQ (waiting_pc (tk_pc k)) (tk_before k) (tk_after k) (tk_inst k)
    (s_Name (tk_target k), s_ID (tk_target k)).

(** The queues of a state: its instances, channels and locks, and its tasks with
    their messages, handlers and flows left out. *)
Definition abs (s : state) : Queue.queue :=
  Queue.mkQueue (sessionTable s) (qi_of <$> heap s) (chans s) (deferredLocks s) (qt_of <$> tasks s)
    (cancelled s).

(** What the code above relies on: a request that names a deferred lock is for
    the session that left it, a tail call defers under a new lock id, and the
    error [ctx.Err()] means that the context is cancelled. *)
Definition allowed (l : label) (s : state) : Prop :=
  match l with
  | LAccept _ (MRequest q) =>
      match q_target q with
      | SessionTarget t => ∀ c, deferredLocks s !! s_DeferredLockID t = Some c →
          ∃ e, heap s !! c.1 = Some e ∧ (Name e, ID e) = (s_Name t, s_ID t)
      | _ => True
      end
  | LFinish t _ _ (HTail dest _) =>
      ∀ k lock c, tasks s !! t = Some k → defers k dest = Some (lock, c) → deferredLocks s !! lock = None
  | LFinish _ _ _ HCtx => cancelled s = true
  | _ => True
  end.

Definition is_some {A} (o : option A) : bool := match o with Some _ => true | None => false end.

(** The parameters a goroutine was started with fit the place where it is, and
    it clears the flow exactly when it has a lock to release. *)
Definition shape (k : task) : bool :=
  Bool.eqb (tk_clear k) (is_some (tk_after k)) &&
  match tk_pc k with
  | Releasing => true
  | _ => implb (is_some (tk_before k)) (is_some (tk_after k))
  end &&
  match tk_pc k with
  | WaitTurn | TimedOut => is_some (tk_before k) && is_some (tk_after k) && is_some (tk_msg k)
  | WaitChild => is_some (tk_child k) && is_some (tk_msg k)
  | Ready | Running => is_some (tk_msg k)
  | Releasing => true
  | DWait | DOwned | DChecked _ | DFinal =>
      is_some (tk_before k) && is_some (tk_after k) && negb (is_some (tk_msg k))
  end.

Definition shapes (s : state) : Prop := ∀ t k, tasks s !! t = Some k → shape k = true.

Lemma qi_alter (h : gmap nat SessionInstance) i f :
  (∀ e, qi_of (f e) = qi_of e) → qi_of <$> alter f i h = qi_of <$> h.
Proof.
  intros Hf. apply map_eq. intros j. rewrite !lookup_fmap, lookup_alter.
  case_decide; [|done]. subst. destruct (h !! j); simpl; [|done]. by rewrite Hf.
Qed.

Lemma fresh_task s : tasks s !! fresh (dom (tasks s)) = None.
Proof. apply not_elem_of_dom, is_fresh. Qed.

Lemma fresh_inst s : heap s !! fresh (dom (heap s)) = None.
Proof. apply not_elem_of_dom, is_fresh. Qed.

Lemma abs_task s t k : tasks s !! t = Some k → Queue.u_tasks (abs s) !! t = Some (qt_of k).
Proof. intros H. simpl. by rewrite lookup_fmap, H. Qed.

Lemma abs_inst s i e : heap s !! i = Some e → Queue.u_inst (abs s) !! i = Some (qi_of e).
Proof. intros H. simpl. by rewrite lookup_fmap, H. Qed.

(** Steps that only touch messages, flows and results do not move the queues. *)
Lemma abs_with_inst s i f : (∀ e, qi_of (f e) = qi_of e) → abs (with_inst i f s) = abs s.
Proof. intros Hf. unfold abs, with_inst. simpl. by rewrite qi_alter. Qed.

Lemma abs_with_task s t k k' :
  tasks s !! t = Some k → qt_of k' = qt_of k → abs (with_task t k' s) = abs s.
Proof.
  intros Ht Hk. unfold abs, with_task. simpl. rewrite fmap_insert, Hk.
  rewrite insert_id; [done|]. by rewrite lookup_fmap, Ht.
Qed.

Lemma abs_release_flow k s : abs (release_flow k s) = abs s.
Proof. unfold release_flow. destruct (tk_clear k); [|done]. by apply abs_with_inst. Qed.

Lemma tasks_release_flow k s : tasks (release_flow k s) = tasks s.
Proof. unfold release_flow. by destruct (tk_clear k). Qed.

Lemma qone u u' : Queue.qstep u u' → Queue.qsteps u u'.
Proof. intros H. eapply Queue.qs_step; [apply Queue.qs_refl|exact H]. Qed.

Lemma abs_spawn k s :
  abs (spawn k s) =
  Queue.set_task (<[fresh (dom (tasks s)) := qt_of k]> (Queue.u_tasks (abs s))) (abs s).
Proof. unfold abs, spawn, with_task. simpl. by rewrite fmap_insert. Qed.

Lemma abs_fresh s : Queue.u_tasks (abs s) !! fresh (dom (tasks s)) = None.
Proof. simpl. by rewrite lookup_fmap, fresh_task. Qed.

Lemma sim_enqueue i e mk s :
  heap s !! i = Some e → valid e = true →
  (∀ before after, qt_of (mk before after) = Queue.mkQ true (Some before) (Some after) i (Name e, ID e)) →
  Queue.qstep (abs s) (abs (enqueue i e mk s)).
Proof.
  intros He Hv Hmk. unfold enqueue. rewrite abs_spawn, Hmk.
  pose proof (Queue.q_enqueue (abs s) i (qi_of e) (fresh (dom (tasks s)))
                (abs_inst s i e He) Hv (abs_fresh s)) as Hs.
  assert (qi_of (set_next (S (next e)) e) = Queue.mkInst (Name e, ID e) (S (next e)) true) as Hq by
    (unfold qi_of; simpl; by rewrite Hv).
  unfold abs in *. simpl in *. rewrite fmap_insert, Hq. exact Hs.
Qed.

Lemma sim_schedule target msg child i e fr s :
  heap s !! i = Some e → valid e = true → (Name e, ID e) = (s_Name target, s_ID target) →
  (∀ c, deferredLocks s !! s_DeferredLockID target = Some c → c.1 = i) →
  Queue.qsteps (abs s) (abs (schedule target msg child i e fr s)).
Proof.
  intros He Hv Hk Hl. unfold schedule.
  destruct (negb fr && String.eqb (ActiveFlow e) (s_Flow target)).
  - destruct (String.eqb (s_DeferredLockID target) "");
      [|destruct (deferredLocks s !! s_DeferredLockID target) as [[i' n]|] eqn:El].
    + apply qone. rewrite abs_spawn.
      pose proof (Queue.q_spawn (abs s) i (qi_of e) _ (abs_inst s i e He) (abs_fresh s)) as Hs.
      unfold qt_of. simpl in *. rewrite <-Hk. by destruct child.
    + assert (i' = i) as -> by exact (Hl _ eq_refl). apply qone. rewrite abs_spawn.
      pose proof (Queue.q_take (abs s) i (qi_of e) _ (s_DeferredLockID target) n (abs_inst s i e He)
                    (abs_fresh s) El) as Hs.
      unfold qt_of. simpl in *. rewrite <-Hk. by destruct child.
    + apply qone. rewrite abs_spawn.
      pose proof (Queue.q_spawn (abs s) i (qi_of e) _ (abs_inst s i e He) (abs_fresh s)) as Hs.
      unfold qt_of. simpl in *. rewrite <-Hk. by destruct child.
  - destruct (String.eqb (s_Flow target) "nonexclusive").
    + apply qone. rewrite abs_spawn.
      pose proof (Queue.q_spawn (abs s) i (qi_of e) _ (abs_inst s i e He) (abs_fresh s)) as Hs.
      unfold qt_of. simpl in *. rewrite <-Hk. by destruct child.
    + apply qone. apply sim_enqueue; [done|done|]. intros. unfold qt_of. simpl. by rewrite Hk.
Qed.

Lemma qsteps_trans u1 u2 u3 : Queue.qsteps u1 u2 → Queue.qsteps u2 u3 → Queue.qsteps u1 u3.
Proof. intros H1 H2. induction H2; [done|]. by eapply Queue.qs_step. Qed.

Lemma find_instance_Some key s i e :
  find_instance key s = Some (i, e) →
  sessionTable s !! key = Some i ∧ heap s !! i = Some e ∧ valid e = true.
Proof.
  unfold find_instance. destruct (sessionTable s !! key) as [j|]; [|done].
  destruct (heap s !! j) as [e'|] eqn:E; [|done]. destruct (valid e') eqn:V; [|done].
  intros [= -> ->]. done.
Qed.

(** In the table, an instance is valid and has the session it is stored under. *)
Lemma table_entry s key i :
  Queue.inv (abs s) → sessionTable s !! key = Some i →
  ∃ e, heap s !! i = Some e ∧ valid e = true ∧ (Name e, ID e) = key.
Proof.
  intros Hi Hk. apply (Queue.i_table _ Hi) in Hk as (q & Hq & Hv & Hkey). simpl in Hq.
  rewrite lookup_fmap in Hq. destruct (heap s !! i) as [e|]; [|done]. injection Hq as <-. eauto.
Qed.

Lemma find_instance_None key s :
  Queue.inv (abs s) → find_instance key s = None → sessionTable s !! key = None.
Proof.
  intros Hi. unfold find_instance. destruct (sessionTable s !! key) as [i|] eqn:E; [|done].
  destruct (table_entry s key i Hi E) as (e & He & Hv & _). by rewrite He, Hv.
Qed.

(** The instance a valid lock belongs to is the one its session finds. *)
Lemma lock_instance s l c t :
  Queue.inv (abs s) → deferredLocks s !! l = Some c →
  (∃ e, heap s !! c.1 = Some e ∧ (Name e, ID e) = (s_Name t, s_ID t)) →
  ∃ e, find_instance (s_Name t, s_ID t) s = Some (c.1, e).
Proof.
  intros Hi Hl (e & He & Hk). destruct c as [i n]. simpl in *.
  destruct (Queue.i_place _ Hi (Queue.PLock l) i n Hl) as (q & Hq & Hv & _).
  rewrite (abs_inst s i e He) in Hq. injection Hq as <-. simpl in Hv.
  assert (sessionTable s !! (s_Name t, s_ID t) = Some i) as Ht.
  { apply (Queue.i_table _ Hi). exists (qi_of e). by rewrite (abs_inst s i e He). }
  exists e. unfold find_instance. by rewrite Ht, He, Hv.
Qed.

Lemma sim_acceptSession target msg child s :
  Queue.inv (abs s) →
  (∀ c, deferredLocks s !! s_DeferredLockID target = Some c →
     ∃ e, heap s !! c.1 = Some e ∧ (Name e, ID e) = (s_Name target, s_ID target)) →
  Queue.qsteps (abs s) (abs (acceptSession target msg child s)).
Proof.
  intros Hi Hl. unfold acceptSession.
  destruct (find_instance (s_Name target, s_ID target) s) as [[i e]|] eqn:Ef.
  - destruct (find_instance_Some _ _ _ _ Ef) as (Ht & He & Hv).
    destruct (table_entry s _ i Hi Ht) as (e' & He' & _ & Hk).
    assert (e' = e) as -> by congruence. apply sim_schedule; try done.
    intros c Hc. destruct (lock_instance s _ c target Hi Hc (Hl c Hc)) as [e2 E2]. congruence.
  - pose proof (find_instance_None _ _ Hi Ef) as Ht.
    set (i := fresh (dom (heap s))). set (e := new_instance target child).
    eapply qsteps_trans.
    + apply qone, (Queue.q_create (abs s) i (s_Name target, s_ID target)); [|done].
      simpl. rewrite lookup_fmap. unfold i. by rewrite fresh_inst.
    + assert (abs (create target i e s) =
        Queue.set_table (<[(s_Name target, s_ID target) := i]> (Queue.u_table (abs s)))
          (Queue.set_chan (i, 0%nat) Queue.Full (Queue.set_inst
            (<[i := Queue.mkInst (s_Name target, s_ID target) 0 true]> (Queue.u_inst (abs s))) (abs s)))) as <-.
      { unfold abs, create. simpl. by rewrite fmap_insert. }
      apply sim_schedule; [|done|done|].
      * unfold create. simpl. by rewrite lookup_insert_eq.
      * intros c Hc. change (deferredLocks s !! s_DeferredLockID target = Some c) in Hc.
        destruct (lock_instance s _ c target Hi Hc (Hl c Hc)) as [e2 E2]. congruence.
Qed.

Lemma await_child_frame id s child s' :
  await_child id s = (child, s') →
  abs s' = abs s ∧ tasks s' = tasks s ∧ heap s' = heap s ∧ deferredLocks s' = deferredLocks s.
Proof. unfold await_child. destruct (String.eqb id ""); intros [= <- <-]; done. Qed.

Lemma sim_accept fmt now msg s s' :
  Queue.inv (abs s) → allowed (LAccept now msg) s → accept fmt now msg s = Next s' →
  Queue.qsteps (abs s) (abs s').
Proof.
  intros Hi Ha E. destruct msg as [q|r|d]; cbn [accept] in E.
  - destruct (expired (q_deadline q) now); [injection E as <-; apply Queue.qs_refl|].
    destruct (await_child (q_childID q) s) as [child s1] eqn:Ec.
    destruct (await_child_frame _ _ _ _ Ec) as (Habs & Ht & Hh & Hl). simpl in Ha.
    destruct (q_target q) as [name|t|id]; injection E as <-; [rewrite <-Habs; apply Queue.qs_refl| |rewrite <-Habs; apply Queue.qs_refl].
    rewrite <-Habs. apply sim_acceptSession; [by rewrite Habs|]. by rewrite Hl, Hh.
  - destruct (requests s !! r_RequestID r) as [ch|]; [|injection E as <-; apply Queue.qs_refl].
    destruct (results _ !! ch) as [[|]|]; try discriminate E; injection E as <-; apply Queue.qs_refl.
  - injection E as <-. apply Queue.qs_refl.
Qed.

(** A channel a task waits on is never closed. *)
Lemma turn_not_closed s t k c :
  Queue.inv (abs s) → tasks s !! t = Some k → waiting_pc (tk_pc k) = true → tk_before k = Some c →
  chans s !! c ≠ Some Closed.
Proof.
  intros Hi Ht Hw Hb Hc. destruct c as [i n].
  destruct (Queue.i_wait _ Hi t (qt_of k) i n (abs_task s t k Ht)) as (_ & _ & e & He & Hv & Hn).
  { unfold Queue.q_waits, qt_of. simpl. by rewrite Hw. }
  destruct (Queue.i_chans _ Hi i e n He) as (st & Hst & Hcl); [lia|]. simpl in Hst.
  rewrite Hc in Hst. injection Hst as <-. rewrite Hcl in Hv; done.
Qed.

Lemma sim_turn t flow k s s' :
  Queue.inv (abs s) → tasks s !! t = Some k → take_turn t flow k s = Next s' →
  Queue.qsteps (abs s) (abs s').
Proof.
  intros Hi Ht E. unfold take_turn in E. destruct (tk_before k) as [c|] eqn:Eb; [|done].
  unfold receive in E. destruct (chans s !! c) as [[]|] eqn:Ec; try done.
  - assert (waiting_pc (tk_pc k) = true) as Hw by (by destruct (tk_pc k)).
    apply qone.
    pose proof (Queue.q_turn (abs s) t (qt_of k) c (abs_task s t k Ht)) as Hs.
    assert (Queue.q_waits (qt_of k) = Some c) as Hq by (unfold Queue.q_waits, qt_of; simpl; by rewrite Hw).
    specialize (Hs Hq Ec).
    assert (∀ p f s1, waiting_pc p = false → abs s1 = Queue.set_chan c Empty (abs s) →
      abs (with_task t (set_pc p k) (with_inst (tk_inst k) (set_flow f) s1)) =
      Queue.set_task (<[t := Queue.mkQ false (tk_before k) (tk_after k) (tk_inst k)
                              (s_Name (tk_target k), s_ID (tk_target k))]> (Queue.u_tasks (abs s)))
        (Queue.set_chan c Empty (abs s))) as Habs.
    { intros p f s1 Hp Hs1. unfold abs, with_task, with_inst. simpl. rewrite fmap_insert, qi_alter by done.
      unfold abs in Hs1. injection Hs1 as -> -> -> -> -> ->. unfold qt_of at 1. simpl. by rewrite Hp. }
    assert (∀ p s1, waiting_pc p = false → abs s1 = Queue.set_chan c Empty (abs s) →
      abs (with_task t (set_pc p k) s1) =
      Queue.set_task (<[t := Queue.mkQ false (tk_before k) (tk_after k) (tk_inst k)
                              (s_Name (tk_target k), s_ID (tk_target k))]> (Queue.u_tasks (abs s)))
        (Queue.set_chan c Empty (abs s))) as Habs'.
    { intros p s1 Hp Hs1. unfold abs, with_task. simpl. rewrite fmap_insert.
      unfold abs in Hs1. injection Hs1 as -> -> -> -> -> ->. unfold qt_of at 1. simpl. by rewrite Hp. }
    destruct (tk_pc k); try done; injection E as <-.
    + rewrite Habs'; [exact Hs| |done]. unfold after_turn. by destruct (tk_child k).
    + rewrite Habs'; [exact Hs|done|done].
    + rewrite Habs; [exact Hs|done|done].
  - exfalso. assert (waiting_pc (tk_pc k) = true) as Hw by (by destruct (tk_pc k)).
    by eapply (turn_not_closed s t k c).
Qed.

Lemma sim_release t k s s' :
  Queue.inv (abs s) → tasks s !! t = Some k → tk_pc k = Releasing → release t k s = Next s' →
  Queue.qsteps (abs s) (abs s').
Proof.
  intros Hi Ht Hpc E. unfold release in E. destruct (tk_after k) as [c|] eqn:Ea.
  - destruct (chans s !! c) as [[]|] eqn:Ec; try done. injection E as <-. apply qone.
    pose proof (Queue.q_release (abs s) t (qt_of k) c (abs_task s t k Ht)) as Hs.
    unfold abs in *. simpl in *. rewrite fmap_delete. apply Hs; [|done].
    unfold Queue.q_holds, qt_of. simpl. by rewrite Hpc.
  - injection E as <-. apply qone.
    pose proof (Queue.q_end (abs s) t (qt_of k) (abs_task s t k Ht)) as Hs.
    unfold abs in *. simpl in *. rewrite fmap_delete. apply Hs; [by rewrite Hpc|done].
Qed.

Lemma sim_finish t k q o s :
  tasks s !! t = Some k → tk_pc k = Running →
  (∀ dest v lock c, o = HTail dest v → defers k dest = Some (lock, c) → deferredLocks s !! lock = None) →
  Queue.qsteps (abs s) (abs (finish t k q o s)).
Proof.
  intros Ht Hpc Hl.
  assert (∀ m, abs (with_task t (set_pc Releasing k) (send m (release_flow k s))) = abs s) as Hskip.
  { intros m. rewrite (abs_with_task _ t k); [apply abs_release_flow| |].
    - simpl. by rewrite tasks_release_flow.
    - unfold qt_of. simpl. by rewrite Hpc. }
  destruct o as [v|err v| |dest v]; cbn [finish]; [rewrite Hskip; apply Queue.qs_refl..| |].
  - rewrite (abs_with_task _ t k); [rewrite abs_release_flow; apply Queue.qs_refl| |].
    + by rewrite tasks_release_flow.
    + unfold qt_of. simpl. by rewrite Hpc.
  - destruct (defers k dest) as [[lock c]|] eqn:Ed; [|rewrite Hskip; apply Queue.qs_refl].
    apply qone. specialize (Hl dest v lock c eq_refl Ed).
    assert (tk_after k = Some c) as Ha.
    { unfold defers in Ed. destruct (d_Target dest), (tk_after k); try done.
      by destruct (String.eqb _ _); simplify_eq. }
    pose proof (Queue.q_defer (abs s) t (qt_of k) lock c (abs_task s t k Ht)) as Hs.
    unfold abs, with_task in *. simpl in *. rewrite fmap_insert. unfold qt_of at 1. simpl.
    apply Hs; [|done]. unfold Queue.q_holds, qt_of. simpl. by rewrite Hpc.
Qed.

Lemma sim_final t k s s' :
  tasks s !! t = Some k → tk_pc k = DFinal → final t k s = Next s' →
  Queue.qsteps (abs s) (abs s').
Proof.
  intros Ht Hpc E. unfold final in E. destruct (heap s !! tk_inst k) as [e|] eqn:He; [|done].
  destruct (tk_after k) as [c|] eqn:Ea; [|done]. destruct (valid e && bool_decide (c = (tk_inst k, next e))) eqn:Ev.
  - apply andb_true_iff in Ev as [Hv Hc%bool_decide_eq_true]. subst c.
    assert (∀ s'', Next (set_tasks (delete t (tasks s)) (set_chans (<[(tk_inst k, next e) := Closed]> (chans s))
              (set_table (delete (Name e, ID e) (sessionTable s))
                (with_inst (tk_inst k) (set_valid false) (with_inst (tk_inst k) (set_flow releasedFlow) s))))) = Next s'' →
              Queue.qsteps (abs s) (abs s'')) as Hstep.
    { intros s'' [= <-]. apply qone.
      pose proof (Queue.q_close (abs s) t (qt_of k) (tk_inst k) (qi_of e) (abs_task s t k Ht)) as Hs.
      assert (qi_of <$> alter (set_valid false) (tk_inst k) (alter (set_flow releasedFlow) (tk_inst k) (heap s)) =
              <[tk_inst k := Queue.mkInst (Name e, ID e) (next e) false]> (qi_of <$> heap s)) as Hh.
      { apply map_eq. intros j. rewrite lookup_fmap, lookup_insert, lookup_alter.
        case_decide as Hj; [subst j; by rewrite lookup_alter_eq, He|].
        rewrite lookup_alter_ne by done. by rewrite lookup_fmap. }
      unfold abs, with_inst in *. simpl in *. rewrite Hh, fmap_delete. apply Hs; [|by rewrite lookup_fmap, He|done].
      unfold Queue.q_holds, qt_of. simpl. by rewrite Hpc. }
    destruct (chans s !! _) as [[]|]; try done; by apply Hstep.
  - injection E as <-. rewrite (abs_with_task _ t k); [rewrite abs_with_inst by done; apply Queue.qs_refl|done|].
    unfold qt_of. simpl. by rewrite Hpc.
Qed.

(** *** Refinement: every step of the code is a step of the queues *)
Lemma sim_exec busy defined fmt l s s' :
  Queue.inv (abs s) → shapes s → allowed l s → exec busy defined fmt l s = Next s' →
  Queue.qsteps (abs s) (abs s').
Proof.
  intros Hi Ht0 Ha E.
  assert (∀ u, u = abs s → Queue.qsteps (abs s) u) as Hskip by (intros ? ->; apply Queue.qs_refl).
  destruct l; cbn [exec] in E;
    try (destruct (tasks s !! t) as [k|] eqn:Ht; [|done]); cbn [allowed] in Ha.
  - injection E as <-. apply Hskip. unfold async. by destruct sent.
  - unfold call_result in E. destruct (results s !! ch) as [[]|]; [|done..]. injection E as <-. by apply Hskip.
  - injection E as <-. by apply Hskip.
  - injection E as <-. by apply Hskip.
  - by eapply sim_accept.
  - by eapply sim_turn.
  - destruct (tk_pc k) eqn:Hpc; try done. destruct (tk_msg k) as [q|]; [|done].
    destruct busy; [|done]. injection E as <-. unfold timeout. destruct (tk_after k) as [c|] eqn:Ea.
    + apply Hskip. rewrite (abs_with_task _ t k); [done|done|]. unfold qt_of. simpl. by rewrite Hpc.
    + exfalso. specialize (Ht0 t k Ht). unfold shape in Ht0. rewrite Hpc, Ea in Ht0.
      by destruct (tk_before k), (tk_clear k).
  - destruct (tk_pc k) eqn:Hpc; try done. destruct (tk_child k) as [r|]; [|done].
    destruct (results s !! r) as [[]|]; try done. injection E as <-. apply Hskip.
    rewrite (abs_with_task _ t k); [by rewrite abs_with_inst|done|]. unfold qt_of. simpl. by rewrite Hpc.
  - destruct (tk_pc k) eqn:Hpc; try done. destruct (tk_msg k) as [q|]; [|done].
    injection E as <-. apply Hskip. unfold start.
    set (s1 := match tk_before k with Some _ => _ | None => s end).
    assert (abs s1 = abs s) as H1 by (unfold s1; destruct (tk_before k); [by apply abs_with_inst|done]).
    assert (tasks s1 !! t = Some k) as H2 by (unfold s1; by destruct (tk_before k)).
    destruct (defined (q_method q)).
    + rewrite (abs_with_task _ t k); [done|done|]. unfold qt_of. simpl. by rewrite Hpc.
    + rewrite (abs_with_task _ t k); [by rewrite <-H1, <-(abs_release_flow k s1)| |].
      * simpl. by rewrite tasks_release_flow.
      * unfold qt_of. simpl. by rewrite Hpc.
  - destruct (tk_pc k) eqn:Hpc; try done. destruct (tk_msg k) as [q|]; [|done]. injection E as <-.
    assert (abs (touch k now activated s) = abs s) as H1.
    { unfold touch. apply abs_with_inst. intros e. by destruct (_ && _). }
    rewrite <-H1. apply sim_finish; [done|done|]. intros dest v lock c -> Hd. by eapply (Ha k).
  - destruct (tk_pc k) eqn:Hpc; try done. by eapply sim_release.
  - destruct (heap s !! i) as [e|] eqn:He; [|done].
    destruct (bool_decide _ && valid e && Before (lastAccess e) time) eqn:Eb; [|done]. injection E as <-.
    apply andb_true_iff in Eb as [[_ Hv]%andb_true_iff _]. apply qone. by apply sim_enqueue.
  - destruct (tk_pc k) eqn:Hpc; try done. destruct (heap s !! tk_inst k) as [e|]; [|done]. injection E as <-.
    apply Hskip. apply (abs_with_task _ t k); [done|]. unfold qt_of. simpl. by rewrite Hpc.
  - destruct (tk_pc k) eqn:Hpc; try done. destruct (heap s !! tk_inst k) as [e|]; [|done]. injection E as <-.
    apply Hskip. destruct (canDeactivate && Activated e).
    + rewrite (abs_with_task _ t k); [by apply abs_with_inst|done|]. unfold qt_of. simpl. by rewrite Hpc.
    + apply (abs_with_task _ t k); [done|]. unfold qt_of. simpl. by rewrite Hpc.
  - destruct (tk_pc k) eqn:Hpc; try done. by eapply sim_final.
  - destruct (workers s !! w) as [wk|]; [|done].
    assert (∀ ms s0, abs s0 = abs s → abs (foldl (flip send) s0 ms) = abs s) as Hsend.
    { intros ms. induction ms as [|m ms IH]; intros s0 Hs0; [done|]. by apply IH. }
    destruct (wk_child wk) as [r|]; [destruct (results s !! r) as [[]|]|]; try done;
      injection E as <-; apply Hskip, Hsend; done.
  - injection E as <-. apply qone, Queue.q_cancel.
  - destruct (tk_pc k) eqn:Hpc; try done; destruct (cancelled s) eqn:Hc; try done; injection E as <-;
      apply qone; unfold abs; simpl; rewrite fmap_delete;
      apply (Queue.q_exit (abs s) t (qt_of k) (abs_task s t k Ht) Hc).
Qed.

(** *** Every step keeps the shape of the tasks *)
Lemma shapes_task s t k s' :
  shapes s → tasks s' = <[t := k]> (tasks s) → shape k = true → shapes s'.
Proof.
  intros Hs Ht Hk t' k'. rewrite Ht, lookup_insert. case_decide; [intros [= <-]; done|apply Hs].
Qed.

Lemma shapes_delete s t s' : shapes s → tasks s' = delete t (tasks s) → shapes s'.
Proof. intros Hs Ht t' k'. rewrite Ht, lookup_delete. case_decide; [done|apply Hs]. Qed.

Lemma shapes_same s s' : shapes s → tasks s' = tasks s → shapes s'.
Proof. intros Hs Ht t k. rewrite Ht. apply Hs. Qed.

Lemma shape_request before child after i target q clear :
  is_some before = true → is_some after = true ∨ before = None → clear = is_some after →
  shape (request_task before child after i target q clear) = true.
Proof.
  intros Hb Ha ->. unfold shape, request_task, first_pc. simpl.
  destruct before; [|done]. destruct Ha as [Ha|]; [|done]. simpl. by rewrite Ha.
Qed.

Lemma shape_bypass child after i target q clear :
  clear = is_some after → shape (request_task None child after i target q clear) = true.
Proof. intros ->. unfold shape. simpl. by destruct child, after. Qed.

Lemma shapes_acceptSession target msg child s : shapes s → shapes (acceptSession target msg child s).
Proof.
  intros Hs. unfold acceptSession.
  assert (∀ i e fr s0, shapes s0 → shapes (schedule target msg child i e fr s0)) as Hsch.
  { intros i e fr s0 Hs0. unfold schedule. destruct (_ && _).
    - set (dl := if String.eqb _ _ then _ else _).
      destruct dl; (eapply (shapes_task s0); [done|done|]); by apply shape_bypass.
    - destruct (String.eqb _ _); (eapply (shapes_task s0); [done|done|]); [by apply shape_bypass|].
      apply shape_request; eauto. }
  destruct (find_instance _ s) as [[i e]|]; [by apply Hsch|]. apply Hsch. by apply (shapes_same s).
Qed.

Lemma shape_set_pc p k :
  shape k = true →
  match p with
  | Ready | Running => tk_pc k ≠ Releasing ∧ is_some (tk_msg k) = true
  | WaitChild => tk_pc k ≠ Releasing ∧ is_some (tk_child k) && is_some (tk_msg k) = true
  | Releasing => True
  | TimedOut => tk_pc k = WaitTurn
  | DOwned | DChecked _ | DFinal =>
      match tk_pc k with DWait | DOwned | DChecked _ => True | _ => False end
  | WaitTurn | DWait => False
  end → shape (set_pc p k) = true.
Proof.
  unfold shape. simpl.
  destruct (tk_before k), (tk_after k), (tk_msg k), (tk_child k), (tk_clear k), (tk_pc k), p; simpl;
    intros; try done; by destruct_and?.
Qed.

Lemma shape_clear k : shape k = true → tk_clear k = is_some (tk_after k).
Proof. unfold shape. intros [[H _]%andb_true_iff _]%andb_true_iff. by apply Bool.eqb_prop. Qed.

Lemma shape_after_turn k :
  shape k = true → tk_pc k ≠ Releasing → is_some (tk_msg k) = true → shape (set_pc (after_turn k) k) = true.
Proof.
  intros Hk Hr Hm. apply shape_set_pc; [done|]. unfold after_turn.
  destruct (tk_child k); [by rewrite Hm|done].
Qed.

Lemma shape_msg k :
  shape k = true → match tk_pc k with WaitTurn | TimedOut | WaitChild | Ready | Running => True | _ => False end →
  is_some (tk_msg k) = true.
Proof.
  unfold shape. destruct (tk_before k), (tk_after k), (tk_msg k), (tk_child k), (tk_clear k), (tk_pc k);
    simpl; intros; done.
Qed.

Lemma shapes_exec busy defined fmt l s s' :
  shapes s → exec busy defined fmt l s = Next s' → shapes s'.
Proof.
  intros Hs E. destruct l; cbn [exec] in E;
    try (destruct (tasks s !! t) as [k|] eqn:Ht; [pose proof (Hs _ _ Ht) as Hk|done]).
  - injection E as <-. apply (shapes_same s); [done|]. unfold async. by destruct sent.
  - unfold call_result in E. destruct (results s !! ch) as [[]|]; [|done..]. injection E as <-.
    by apply (shapes_same s).
  - injection E as <-. by apply (shapes_same s).
  - injection E as <-. by apply (shapes_same s).
  - destruct msg as [q|r|d]; cbn [accept] in E.
    + destruct (expired _ _); [injection E as <-; by apply (shapes_same s)|].
      destruct (await_child _ s) as [child s1] eqn:Ec. destruct (await_child_frame _ _ _ _ Ec) as (_ & Ht & _).
      assert (shapes s1) as Hs1 by by apply (shapes_same s).
      destruct (q_target q); injection E as <-;
        [by apply (shapes_same s1)|by apply shapes_acceptSession|by apply (shapes_same s1)].
    + destruct (requests s !! _) as [ch|]; [destruct (results _ !! ch) as [[]|]|]; try done;
        injection E as <-; by apply (shapes_same s).
    + by injection E as <-.
  - unfold take_turn, receive in E. destruct (tk_before k) as [c|] eqn:Eb; [|done].
    destruct (chans s !! c) as [[]|]; try done; destruct (tk_pc k) eqn:Hp; try done; injection E as <-;
      (eapply (shapes_task s); [done|done|]);
      first [ apply shape_after_turn; [done|by rewrite Hp|apply shape_msg; [done|by rewrite Hp]]
            | apply shape_set_pc; [done|by rewrite ?Hp] ].
  - destruct (tk_pc k) eqn:Hp; try done. destruct (tk_msg k) eqn:Em; [|done]. destruct busy; [|done]. injection E as <-.
    unfold timeout. destruct (tk_after k); (eapply (shapes_task s); [done|done|]).
    + by apply shape_set_pc.
    + apply shape_after_turn; [done|by rewrite Hp|by rewrite Em].
  - destruct (tk_pc k) eqn:Hp; try done. destruct (tk_child k); [|done]. destruct (results s !! _) as [[]|]; try done.
    injection E as <-. eapply (shapes_task s); [done|done|]. apply shape_set_pc; [done|].
    split; [by rewrite Hp|]. apply shape_msg; [done|by rewrite Hp].
  - destruct (tk_pc k) eqn:Hp; try done. destruct (tk_msg k) eqn:Em; [|done]. injection E as <-. unfold start.
    destruct (tk_before k); destruct (defined _);
      (eapply (shapes_task s); [done|simpl; rewrite ?tasks_release_flow; reflexivity|]);
      (apply shape_set_pc; [done|by rewrite ?Em, ?Hp]).
  - destruct (tk_pc k) eqn:Hp; try done. destruct (tk_msg k) eqn:Em; [|done]. injection E as <-.
    unfold finish. destruct o; [..|destruct (defers k dest) as [[]|]];
      (eapply (shapes_task s); [done|simpl; rewrite ?tasks_release_flow; reflexivity|]);
      [by apply shape_set_pc..|done|by apply shape_set_pc].
  - destruct (tk_pc k); try done. unfold release in E. destruct (tk_after k); [destruct (chans s !! _) as [[]|]|];
      try done; injection E as <-; by eapply shapes_delete.
  - destruct (heap s !! i) as [e|]; [|done]. destruct (_ && _); [|done]. injection E as <-.
    by eapply (shapes_task s).
  - destruct (tk_pc k) eqn:Hp; try done. destruct (heap s !! _); [|done]. injection E as <-.
    eapply (shapes_task s); [done|done|]. apply shape_set_pc; [done|by rewrite Hp].
  - destruct (tk_pc k) eqn:Hp; try done. destruct (heap s !! _) as [e|]; [|done]. injection E as <-.
    destruct (_ && _); (eapply (shapes_task s); [done|done|]); (apply shape_set_pc; [done|by rewrite Hp]).
  - destruct (tk_pc k); try done. unfold final in E. destruct (heap s !! _) as [e|]; [|done].
    destruct (tk_after k) as [c|]; [|done]. destruct (_ && _).
    + destruct (chans s !! c) as [[]|]; try done; injection E as <-; by eapply shapes_delete.
    + injection E as <-. eapply (shapes_task s); [done|done|]. by apply shape_set_pc.
  - destruct (workers s !! w) as [wk|]; [|done].
    assert (∀ ms s0, tasks s0 = tasks s → shapes (foldl (flip send) s0 ms)) as Hsend.
    { intros ms. induction ms as [|m ms IH]; intros s0 Hs0; [by apply (shapes_same s)|]. by apply IH. }
    destruct (wk_child wk) as [r|]; [destruct (results s !! r) as [[]|]|]; try done;
      injection E as <-; by apply Hsend.
  - injection E as <-. by apply (shapes_same s).
  - destruct (tk_pc k); try done; destruct (cancelled s); try done; injection E as <-; by eapply shapes_delete.
Qed.

(** *** The tables of pending requests *)

(** A pending request has a channel of its own, still empty. *)
Record pending (s : state) : Prop := {
  p_empty : ∀ id ch, requests s !! id = Some ch → results s !! ch = Some None;
  p_inj : ∀ id1 id2 ch, requests s !! id1 = Some ch → requests s !! id2 = Some ch → id1 = id2;
}.

Lemma pending_same s s' : pending s → requests s' = requests s → results s' = results s → pending s'.
Proof. intros [He Hi] H1 H2. split; [rewrite H1, H2|rewrite H1]; eauto. Qed.

Lemma pending_new s id :
  pending s →
  pending (set_requests (<[id := fresh (dom (results s))]> (requests s))
    (set_results (<[fresh (dom (results s)) := None]> (results s)) s)).
Proof.
  intros [He Hi]. assert (∀ id', requests s !! id' ≠ Some (fresh (dom (results s)))) as Hf.
  { intros id' H%He. apply elem_of_dom_2 in H. by apply is_fresh in H. }
  split; intros id1; simpl.
  - intros ch. rewrite !lookup_insert. case_decide as Hid.
    + intros [= <-]. by rewrite decide_True.
    + intros H. case_decide as Hch; [by subst|eauto].
  - intros id2 ch. rewrite !lookup_insert. repeat case_decide; subst; try done; intros H1 H2; simplify_eq; eauto.
    + by apply Hf in H2.
    + by apply Hf in H1.
Qed.

Lemma pending_delete s id : pending s → pending (set_requests (delete id (requests s)) s).
Proof. intros [He Hi]. split; intros id1; simpl; [intros ch|intros id2 ch]; rewrite ?lookup_delete_Some; naive_solver. Qed.

(** A result may arrive, or be taken, on a channel no request has. *)
Lemma pending_result s ch r :
  pending s → (∀ id, requests s !! id ≠ Some ch) → pending (set_results (<[ch := r]> (results s)) s).
Proof.
  intros [He Hi] Hn. split; [|done]. intros id ch' H. simpl in *.
  rewrite lookup_insert_ne; [eauto|]. intros <-. by apply (Hn id).
Qed.

Lemma pending_taken s ch r : pending s → results s !! ch = Some (Some r) → ∀ id, requests s !! id ≠ Some ch.
Proof. intros [He _] H id Hid%He. congruence. Qed.

(** The parts of a state that accepting a session request leaves alone. *)
Lemma acceptSession_frame target msg child s :
  requests (acceptSession target msg child s) = requests s ∧ results (acceptSession target msg child s) = results s ∧
  outbox (acceptSession target msg child s) = outbox s ∧ workers (acceptSession target msg child s) = workers s ∧
  cancelled (acceptSession target msg child s) = cancelled s.
Proof.
  assert (∀ i e fr s0, let s' := schedule target msg child i e fr s0 in
    requests s' = requests s0 ∧ results s' = results s0 ∧ outbox s' = outbox s0 ∧ workers s' = workers s0 ∧
    cancelled s' = cancelled s0) as Hsch.
  { intros i e fr s0. unfold schedule. destruct (_ && _); [|by destruct (String.eqb _ _)].
    set (dl := if String.eqb _ _ then _ else _). by destruct dl. }
  unfold acceptSession. destruct (find_instance _ s) as [[i e]|]; [apply Hsch|].
  apply (Hsch _ _ true (create _ _ _ s)).
Qed.

Lemma pending_await id s child s' : pending s → await_child id s = (child, s') → pending s'.
Proof.
  unfold await_child. intros Hp. destruct (String.eqb id ""); intros [= <- <-]; [done|]. by apply pending_new.
Qed.

Lemma pending_sends ms s : pending s → pending (foldl (flip send) s ms).
Proof.
  revert s. induction ms as [|m ms IH]; intros s Hs; [done|]. apply IH. by apply (pending_same s).
Qed.

Lemma tables_release_flow k s :
  requests (release_flow k s) = requests s ∧ results (release_flow k s) = results s.
Proof. unfold release_flow. by destruct (tk_clear k). Qed.

Lemma pending_exec busy defined fmt l s s' :
  pending s → exec busy defined fmt l s = Next s' → pending s'.
Proof.
  intros Hp E. destruct l; cbn [exec] in E;
    try (destruct (tasks s !! t) as [k|] eqn:Ht; [|done]).
  - injection E as <-. unfold async. destruct sent; simpl.
    + eapply (pending_same (set_requests _ _)); [by apply pending_new|done|done].
    + by apply (pending_delete (set_requests _ _)), pending_new.
  - unfold call_result in E. destruct (results s !! ch) as [[r|]|] eqn:Er; [|done..]. injection E as <-.
    apply (pending_delete (set_results _ s)), pending_result; [done|]. by eapply pending_taken.
  - injection E as <-. by apply (pending_same s).
  - injection E as <-. by apply pending_delete.
  - destruct msg as [q|r|d]; cbn [accept] in E.
    + destruct (expired _ _); [injection E as <-; by apply (pending_same s)|].
      destruct (await_child _ s) as [child s1] eqn:Ec. pose proof (pending_await _ _ _ _ Hp Ec) as Hp1.
      destruct (q_target q) as [|t|]; injection E as <-; [by apply (pending_same s1)| |by apply (pending_same s1)].
      destruct (acceptSession_frame t q child s1) as (H1 & H2 & _). by apply (pending_same s1).
    + destruct (requests s !! _) as [ch|] eqn:Ech; [|by simplify_eq].
      simpl in E. destruct (results s !! ch) as [[|]|]; try done. injection E as <-.
      apply (pending_result (set_requests _ s)); [by apply pending_delete|]. intros id. simpl.
      rewrite lookup_delete_Some. intros [Hid Hch]. by apply Hid, (p_inj _ Hp _ _ ch).
    + by injection E as <-.
  - unfold take_turn, receive in E. destruct (tk_before k) as [c|]; [|done].
    destruct (chans s !! c) as [[]|]; try done; destruct (tk_pc k); try done; injection E as <-;
      by apply (pending_same s).
  - destruct (tk_pc k); try done. destruct (tk_msg k); [|done]. destruct busy; [|done]. injection E as <-.
    unfold timeout. destruct (tk_after k); by apply (pending_same s).
  - destruct (tk_pc k); try done. destruct (tk_child k) as [r|]; [|done].
    destruct (results s !! r) as [[]|] eqn:Er; try done. injection E as <-.
    eapply (pending_same (set_results _ s)); [by eapply pending_result, pending_taken|done|done].
  - destruct (tk_pc k); try done. destruct (tk_msg k); [|done]. injection E as <-. unfold start.
    set (s1 := match tk_before k with Some _ => _ | None => s end).
    assert (requests s1 = requests s ∧ results s1 = results s) as [H1 H2] by (unfold s1; by destruct (tk_before k)).
    destruct (tables_release_flow k s1) as [H3 H4].
    destruct (defined _); apply (pending_same s); simpl; congruence.
  - destruct (tk_pc k); try done. destruct (tk_msg k); [|done]. injection E as <-.
    destruct (tables_release_flow k (touch k now activated s)) as [H1 H2].
    unfold finish. destruct o; [..|destruct (defers k dest) as [[]|]]; by apply (pending_same s).
  - destruct (tk_pc k); try done. unfold release in E. destruct (tk_after k); [destruct (chans s !! _) as [[]|]|];
      try done; injection E as <-; by apply (pending_same s).
  - destruct (heap s !! i) as [e|]; [|done]. destruct (_ && _); [|done]. injection E as <-.
    by apply (pending_same s).
  - destruct (tk_pc k); try done. destruct (heap s !! _); [|done]. injection E as <-. by apply (pending_same s).
  - destruct (tk_pc k); try done. destruct (heap s !! _) as [e|]; [|done]. injection E as <-.
    destruct (_ && _); by apply (pending_same s).
  - destruct (tk_pc k); try done. unfold final in E. destruct (heap s !! _) as [e|]; [|done].
    destruct (tk_after k) as [c|]; [|done]. destruct (_ && _).
    + destruct (chans s !! c) as [[]|]; try done; injection E as <-; by apply (pending_same s).
    + injection E as <-. by apply (pending_same s).
  - destruct (workers s !! w) as [wk|]; [|done].
    destruct (wk_child wk) as [r|]; [destruct (results s !! r) as [[]|]|]; try done;
      injection E as <-; apply pending_sends; [|by apply (pending_same s)].
    apply (pending_delete (set_workers _ s)). by apply (pending_same s).
  - injection E as <-. by apply (pending_same s).
  - destruct (tk_pc k); try done; destruct (cancelled s); try done; injection E as <-; by apply (pending_same s).
Qed.

(** *** Who owns the flow of an instance *)

(** The instance a task owns, with the flow it runs there; a deactivation's flow
    is nobody else's. *)
Definition own (k : task) : option (nat * option string) :=
  match tk_after k with
  | None => None
  | Some (i, _) =>
      match tk_pc k with
      | Running => Some (i, Some (s_Flow (tk_target k)))
      | Ready => match tk_before k with
                 | None => Some (i, Some (s_Flow (tk_target k)))
                 | Some _ => None
                 end
      | DOwned | DChecked _ | DFinal => Some (i, None)
      | _ => None
      end
  end.

Definition owned (s : state) (i : nat) : Prop :=
  (∃ l n, deferredLocks s !! l = Some (i, n)) ∨
  (∃ t k f, tasks s !! t = Some k ∧ own k = Some (i, f)).

(** A flow that is not released is that of an owner, which then is the only one. *)
Definition flow_ok (s : state) (i : nat) (e : SessionInstance) : Prop :=
  (ActiveFlow e ≠ releasedFlow → owned s i) ∧
  (∀ t k f, tasks s !! t = Some k → own k = Some (i, Some f) → ActiveFlow e = f).

Definition flows (s : state) : Prop := ∀ i e, heap s !! i = Some e → flow_ok s i e.

(** What the runs below have in common: no request waits for a child of a previous
    execution, no flow is called released, and a tail call keeps its flow when it
    keeps its lock. *)
Definition plain (l : label) (s : state) : Prop :=
  match l with
  | LAccept _ (MRequest q) =>
      q_childID q = "" ∧
      match q_target q with SessionTarget t => s_Flow t ≠ releasedFlow | _ => True end
  | _ => True
  end.

Definition no_child (s : state) : Prop := ∀ t k, tasks s !! t = Some k → tk_child k = None.

(** The flows of the other instances do not change. *)
Definition same_flows (s s' : state) (P : nat → Prop) : Prop :=
  ∀ i e', P i → heap s' !! i = Some e' → ∃ e, heap s !! i = Some e ∧ ActiveFlow e = ActiveFlow e'.

(** A step that moves one task without a change of owner. *)
Lemma flows_keep s s' t o :
  flows s → same_flows s s' (λ _, True) → deferredLocks s' = deferredLocks s →
  tasks s' = partial_alter (λ _, o) t (tasks s) → o ≫= own = tasks s !! t ≫= own → flows s'.
Proof.
  intros Hf Hh Hl Ht Ho i e' He'. destruct (Hh i e' I He') as (e & He & Hflow).
  destruct (Hf i e He) as [H1 H2].
  assert (∀ t' k f, tasks s' !! t' = Some k → own k = Some f →
    ∃ k', tasks s !! t' = Some k' ∧ own k' = Some f) as Hback.
  { intros t' k f. rewrite Ht. destruct (decide (t' = t)) as [->|].
    - rewrite lookup_partial_alter_eq. intros -> Hk. simpl in Ho. rewrite Hk in Ho.
      destruct (tasks s !! t) as [k'|]; [simpl in Ho; eauto|done].
    - rewrite lookup_partial_alter_ne by done. eauto. }
  split.
  - rewrite <-Hflow. intros [(l & n & H)|(t' & k & f & H & Hk)]%H1; [left; rewrite Hl; eauto|right].
    destruct (decide (t' = t)) as [->|].
    + rewrite H in Ho. simpl in Ho. rewrite Hk in Ho. destruct o as [k'|]; [|done]. exists t, k', f.
      rewrite Ht. by rewrite lookup_partial_alter_eq.
    + exists t', k, f. rewrite Ht. by rewrite lookup_partial_alter_ne.
  - intros t' k f Hk Hf'. destruct (Hback _ _ _ Hk Hf') as (k' & Hk' & Hf''). rewrite <-Hflow. eauto.
Qed.

(** A step of the only owner of an instance. *)
Lemma flows_move s s' t o i0 :
  flows s → same_flows s s' (λ i, i ≠ i0) →
  (∀ l i n, i ≠ i0 → deferredLocks s !! l = Some (i, n) → ∃ l' n', deferredLocks s' !! l' = Some (i, n')) →
  tasks s' = partial_alter (λ _, o) t (tasks s) →
  (∀ t' k f, t' ≠ t → tasks s !! t' = Some k → own k ≠ Some (i0, f)) →
  (∀ k i f, tasks s !! t = Some k → own k = Some (i, f) → i = i0) →
  (∀ i f, o ≫= own = Some (i, f) → i = i0) →
  (∀ e', heap s' !! i0 = Some e' →
     (ActiveFlow e' ≠ releasedFlow →
       (∃ f, o ≫= own = Some (i0, f)) ∨ (∃ l n, deferredLocks s' !! l = Some (i0, n))) ∧
     (∀ f, o ≫= own = Some (i0, Some f) → ActiveFlow e' = f)) →
  flows s'.
Proof.
  intros Hf Hh Hl Ht Hother Hold Hnew Hi0 i e' He'. destruct (decide (i = i0)) as [->|Hne].
  - destruct (Hi0 e' He') as [H1 H2]. split.
    + intros [[f Hf']|Hlock]%H1; [|by left]. right. destruct o as [k|]; [|done]. exists t, k, f.
      rewrite Ht. by rewrite lookup_partial_alter_eq.
    + intros t' k f. rewrite Ht. destruct (decide (t' = t)) as [->|].
      * rewrite lookup_partial_alter_eq. intros -> Hk. by apply H2.
      * rewrite lookup_partial_alter_ne by done. intros Hk Ho. by destruct (Hother t' k (Some f) n Hk).
  - destruct (Hh i e' Hne He') as (e & He & Hflow). destruct (Hf i e He) as [H1 H2]. unfold flow_ok. rewrite <-Hflow. split.
    + intros [(l & n & H)|(t' & k & f & H & Hk)]%H1; [left; by eapply Hl|right].
      exists t', k, f. rewrite Ht. rewrite lookup_partial_alter_ne; [done|]. intros ->.
      by apply Hne, (Hold k i f).
    + intros t' k f. rewrite Ht. destruct (decide (t' = t)) as [->|].
      * rewrite lookup_partial_alter_eq. intros -> Hk. by destruct (Hne (Hnew i (Some f) Hk)).
      * rewrite lookup_partial_alter_ne by done. eauto.
Qed.

(** An owner holds the token of its instance. *)
Lemma own_place s t k i f :
  tasks s !! t = Some k → own k = Some (i, f) →
  ∃ n, tk_after k = Some (i, n) ∧ Queue.place_at (abs s) (Queue.PTask t) = Some (i, n).
Proof.
  unfold own. intros Ht Ho. destruct (tk_after k) as [[i' n]|] eqn:Ha; [|done].
  assert (i' = i ∧ waiting_pc (tk_pc k) = false) as [-> Hw].
  { destruct (tk_pc k); try done; [destruct (tk_before k); [done|]|..]; by simplify_eq. }
  exists n. split; [done|]. simpl. rewrite lookup_fmap, Ht. simpl. unfold Queue.q_holds, qt_of. simpl.
  by rewrite Hw, Ha.
Qed.

(** When the token is elsewhere, no other task owns the instance. *)
Lemma not_own s pl i n t k f :
  Queue.inv (abs s) → Queue.place_at (abs s) pl = Some (i, n) → pl ≠ Queue.PTask t →
  tasks s !! t = Some k → own k ≠ Some (i, f).
Proof.
  intros Hi Hp Hne Ht Ho. destruct (own_place s t k i f Ht Ho) as (n' & _ & Hp').
  by apply Hne, (Queue.i_token _ Hi _ _ i n n').
Qed.

Lemma same_flows_alter s s' i f P :
  heap s' = alter f i (heap s) → (∀ e, P i → ActiveFlow (f e) = ActiveFlow e) → same_flows s s' P.
Proof.
  intros Hh Hf j e' Hj. rewrite Hh, lookup_alter. case_decide; [|eauto]. subst.
  destruct (heap s !! j) as [e|]; [|done]. intros [= <-]. exists e. by rewrite Hf.
Qed.

Lemma same_flows_refl s s' P : heap s' = heap s → same_flows s s' P.
Proof. intros Hh i e _. rewrite Hh. eauto. Qed.

Lemma insert_partial {A} (m : gmap nat A) i x : <[i := x]> m = partial_alter (λ _, Some x) i m.
Proof. done. Qed.

Lemma delete_partial {A} (m : gmap nat A) i : delete i m = partial_alter (λ _, None) i m.
Proof. done. Qed.

(** A goroutine that starts without a lock changes no owner. *)
Lemma flows_spawn s s' k :
  flows s → same_flows s s' (λ _, True) → deferredLocks s' = deferredLocks s →
  tasks s' = <[fresh (dom (tasks s)) := k]> (tasks s) → own k = None → flows s'.
Proof.
  intros Hf Hh Hl Ht Hk. eapply (flows_keep s s' _ (Some k)); [done|done|done|exact Ht|].
  rewrite fresh_task. exact Hk.
Qed.

(** A token in the queue or under a lock leaves its instance without owner. *)
Lemma no_owner s pl i n :
  Queue.inv (abs s) → Queue.place_at (abs s) pl = Some (i, n) → (∀ t, pl ≠ Queue.PTask t) →
  ∀ t k f, tasks s !! t = Some k → own k ≠ Some (i, f).
Proof. intros Hi Hp Hne t k f Ht. by eapply not_own. Qed.

Lemma flows_schedule target q i e fr s :
  Queue.inv (abs s) → flows s → heap s !! i = Some e → s_Flow target ≠ releasedFlow →
  (∀ c, deferredLocks s !! s_DeferredLockID target = Some c → c.1 = i) →
  flows (schedule target q None i e fr s).
Proof.
  intros Hi Hf He Hr Hl. unfold schedule.
  destruct (negb fr && String.eqb (ActiveFlow e) (s_Flow target)) eqn:Eb.
  - apply andb_true_iff in Eb as [_ Eb%String.eqb_eq].
    destruct (String.eqb (s_DeferredLockID target) "");
      [by eapply (flows_spawn s); [done|apply same_flows_refl|..]|].
    destruct (deferredLocks s !! s_DeferredLockID target) as [[i' n]|] eqn:El;
      [|by eapply (flows_spawn s); [done|apply same_flows_refl|..]].
    assert (i' = i) as -> by exact (Hl _ eq_refl).
    eapply (flows_move s _ (fresh (dom (tasks s))) (Some _) i);
      [done|by apply same_flows_refl| |reflexivity|..].
    + intros l j n' Hj Hlj. exists l, n'. simpl. rewrite lookup_delete_ne; [done|]. intros <-. congruence.
    + intros t' k f _ Ht'. eapply (no_owner s (Queue.PLock (s_DeferredLockID target)) i n); done.
    + intros k j f. by rewrite fresh_task.
    + intros j f. simpl. intros [= <- _]. done.
    + intros e' He'. change (heap s !! i = Some e') in He'. rewrite He in He'. injection He' as <-. split.
      * intros _. left. by eexists.
      * intros f. simpl. by intros [= <-].
  - destruct (String.eqb (s_Flow target) "nonexclusive");
      [by eapply (flows_spawn s); [done|apply same_flows_refl|..]|].
    eapply (flows_spawn s _ _ Hf); [|done|done|done].
    intros j e'. simpl. rewrite lookup_insert. intros _. case_decide; [|eauto].
    subst j. intros [= <-]. by exists e.
Qed.

Lemma flows_acceptSession target q s :
  Queue.inv (abs s) → flows s → s_Flow target ≠ releasedFlow →
  (∀ c, deferredLocks s !! s_DeferredLockID target = Some c →
     ∃ e, heap s !! c.1 = Some e ∧ (Name e, ID e) = (s_Name target, s_ID target)) →
  flows (acceptSession target q None s).
Proof.
  intros Hi Hf Hr Hl. unfold acceptSession.
  destruct (find_instance (s_Name target, s_ID target) s) as [[i e]|] eqn:Ef.
  - destruct (find_instance_Some _ _ _ _ Ef) as (Ht & He & Hv). apply flows_schedule; try done.
    intros c Hc. destruct (lock_instance s _ c target Hi Hc (Hl c Hc)) as [e2 E2]. congruence.
  - unfold schedule. simpl. set (i := fresh (dom (heap s))).
    assert (flows (create target i (new_instance target None) s)) as Hc.
    { intros j e. unfold create. simpl. rewrite lookup_insert. case_decide; [|by apply Hf].
      intros [= <-]. split; [done|]. intros t k f Hk Ho.
      destruct (own_place s t k i (Some f) Hk) as (n & _ & Hp); [by subst|].
      destruct (Queue.i_place _ Hi _ _ _ Hp) as (q' & Hq & _). simpl in Hq.
      rewrite lookup_fmap in Hq. unfold i in Hq. by rewrite fresh_inst in Hq. }
    destruct (String.eqb _ _); (eapply (flows_spawn _ _ _ Hc); [|done|done|done]).
    + by apply same_flows_refl.
    + intros j e'. simpl. rewrite !lookup_insert. intros _. case_decide; [|eauto].
      subst j. intros [= <-]. by eexists.
Qed.

Lemma own_inst s t k i f :
  Queue.inv (abs s) → tasks s !! t = Some k → own k = Some (i, f) → i = tk_inst k.
Proof.
  intros Hi Ht Ho. destruct (own_place s t k i f Ht Ho) as (n & Ha & Hp).
  simpl in Hp. rewrite lookup_fmap, Ht in Hp. simpl in Hp.
  by apply (Queue.i_holder _ Hi t (qt_of k) i n (abs_task s t k Ht)).
Qed.

(** The step of a task that has the token, or is about to take it. *)
Lemma flows_token s s' t k o pl n :
  Queue.inv (abs s) → flows s → tasks s !! t = Some k →
  Queue.place_at (abs s) pl = Some (tk_inst k, n) → (∀ t', pl = Queue.PTask t' → t' = t) →
  same_flows s s' (λ i, i ≠ tk_inst k) →
  (∀ l c, deferredLocks s !! l = Some c → deferredLocks s' !! l = Some c) →
  tasks s' = partial_alter (λ _, o) t (tasks s) →
  (∀ i f, o ≫= own = Some (i, f) → i = tk_inst k) →
  (∀ e', heap s' !! tk_inst k = Some e' →
     (ActiveFlow e' ≠ releasedFlow →
       (∃ f, o ≫= own = Some (tk_inst k, f)) ∨ (∃ l n, deferredLocks s' !! l = Some (tk_inst k, n))) ∧
     (∀ f, o ≫= own = Some (tk_inst k, Some f) → ActiveFlow e' = f)) →
  flows s'.
Proof.
  intros Hi Hf Ht Hp Hpl Hh Hl Ht' Hnew Hk. eapply (flows_move s s' t o (tk_inst k)); try done.
  - eauto.
  - intros t' k' f Hne Hk'. eapply (not_own s pl); [done|done| |done]. intros E. by apply Hne, Hpl.
  - intros k' i f Hk' Ho. assert (k' = k) as -> by congruence. by eapply own_inst.
Qed.

(** The place of a task that holds the token. *)
Lemma holder_place s t k c :
  Queue.inv (abs s) → tasks s !! t = Some k → waiting_pc (tk_pc k) = false → tk_after k = Some c →
  ∃ n, c = (tk_inst k, n) ∧ Queue.place_at (abs s) (Queue.PTask t) = Some (tk_inst k, n).
Proof.
  intros Hi Ht Hw Ha. destruct c as [i n].
  assert (Queue.q_holds (qt_of k) = Some (i, n)) as Hh by (unfold Queue.q_holds, qt_of; simpl; by rewrite Hw).
  pose proof (Queue.i_holder _ Hi t (qt_of k) i n (abs_task s t k Ht) Hh) as E. simpl in E. subst i.
  exists n. split; [done|]. simpl. by rewrite lookup_fmap, Ht.
Qed.

(** A task without lock to release moves no flow. *)
Lemma own_none k : tk_after k = None → own k = None.
Proof. unfold own. by intros ->. Qed.

Lemma flows_send m s : flows s → flows (send m s).
Proof. done. Qed.

(** The end of a request: its flow is released if it has a lock to release. *)
Lemma flows_release_flow s s' t k k' :
  Queue.inv (abs s) → shape k = true → flows s → tasks s !! t = Some k → waiting_pc (tk_pc k) = false →
  own k' = None → deferredLocks s' = deferredLocks s → tasks s' = <[t := k']> (tasks s) →
  heap s' = heap (release_flow k s) → flows s'.
Proof.
  intros Hi Hs Hf Ht Hw Hk' Hl Ht' Hh.
  pose proof (shape_clear k Hs) as Hc.
  destruct (tk_after k) as [c|] eqn:Ha.
  - destruct (holder_place s t k c Hi Ht Hw Ha) as (n & -> & Hp).
    unfold release_flow in Hh. rewrite Hc in Hh. simpl in Hh.
    eapply (flows_token s s' t k (Some k') (Queue.PTask t)); try done.
    + by intros t' [= <-].
    + eapply same_flows_alter; [exact Hh|done].
    + by rewrite Hl.
    + simpl. by rewrite Hk'.
    + intros e' He'. rewrite Hh, lookup_alter_eq in He'. destruct (heap s !! tk_inst k); [|done].
      injection He' as <-. simpl. split; [done|]. by rewrite Hk'.
  - unfold release_flow in Hh. rewrite Hc in Hh. eapply (flows_keep s s' t (Some k')); try done.
    + by apply same_flows_refl.
    + simpl. rewrite Hk', Ht. simpl. by rewrite own_none.
Qed.

Lemma flows_touch k now activated s : flows s → flows (touch k now activated s).
Proof.
  intros Hf. eapply (flows_keep s _ 0%nat (tasks s !! 0%nat)); [done| |done| |done].
  - eapply same_flows_alter; [done|]. intros e _. by destruct (_ && _).
  - apply map_eq. intros j. destruct (decide (j = 0%nat)) as [->|];
      [by rewrite lookup_partial_alter_eq|by rewrite lookup_partial_alter_ne].
Qed.

Lemma flows_finish s t k q o :
  Queue.inv (abs s) → shape k = true → flows s → tasks s !! t = Some k → tk_pc k = Running →
  (∀ dest v lock c, o = HTail dest v → defers k dest = Some (lock, c) → deferredLocks s !! lock = None) →
  flows (finish t k q o s).
Proof.
  intros Hi Hs Hf Ht Hpc Hl.
  assert (∀ m, flows (with_task t (set_pc Releasing k) (send m (release_flow k s)))) as Hrel.
  { intros m. eapply (flows_release_flow s _ t k (set_pc Releasing k)); try done.
    - by rewrite Hpc.
    - unfold own. simpl. by destruct (tk_after k) as [[]|].
    - unfold release_flow. by destruct (tk_clear k).
    - simpl. by rewrite tasks_release_flow. }
  destruct o as [v|err v| |dest v]; cbn [finish]; try done.
  - exact (Hrel (MDone {| dn_RequestID := ""; dn_Deadline := 0 |})).
  - destruct (defers k dest) as [[lock c]|] eqn:Ed; [|done].
    specialize (Hl dest v lock c eq_refl Ed).
    assert (tk_after k = Some c) as Ha.
    { unfold defers in Ed. destruct (d_Target dest), (tk_after k); try done.
      by destruct (String.eqb _ _); simplify_eq. }
    destruct (holder_place s t k c Hi Ht) as (n & -> & Hp); [by rewrite Hpc|done|].
    eapply (flows_token s _ t k (Some _) (Queue.PTask t)); try done.
    + by intros t' [= <-].
    + by apply same_flows_refl.
    + intros l c Hlc. simpl. rewrite lookup_insert_ne; [done|congruence].
    + intros e' He'. simpl. split; [|done]. intros _. right. exists lock, n. apply lookup_insert_eq.
Qed.

Lemma flows_same s s' :
  flows s → heap s' = heap s → deferredLocks s' = deferredLocks s → tasks s' = tasks s → flows s'.
Proof. intros Hf Hh Hl Ht. unfold flows, flow_ok, owned. rewrite Hh, Hl, Ht. exact Hf. Qed.

(** A task that moves on without taking or leaving a flow. *)
Lemma flows_pc s s' t k k' :
  flows s → tasks s !! t = Some k → own k' = own k → heap s' = heap s →
  deferredLocks s' = deferredLocks s → tasks s' = <[t := k']> (tasks s) → flows s'.
Proof.
  intros Hf Ht Ho Hh Hl Ht'. eapply (flows_keep s s' t (Some k')); try done; [by apply same_flows_refl|].
  by rewrite Ht.
Qed.

(** A waiting task that takes its turn: the token was in its channel. *)
Lemma turn_place s t k c :
  Queue.inv (abs s) → tasks s !! t = Some k → waiting_pc (tk_pc k) = true → tk_before k = Some c →
  chans s !! c = Some Full → ∃ n, c = (tk_inst k, n) ∧
  Queue.place_at (abs s) (Queue.PChan c) = Some (tk_inst k, n).
Proof.
  intros Hi Ht Hw Hb Hc. destruct c as [i n].
  destruct (Queue.i_wait _ Hi t (qt_of k) i n (abs_task s t k Ht)) as (E & _).
  { unfold Queue.q_waits, qt_of. simpl. by rewrite Hw. }
  simpl in E. subst i. exists n. split; [done|]. simpl. by rewrite Hc.
Qed.

Lemma flows_turn s t flow k s' :
  Queue.inv (abs s) → shape k = true → no_child s → flows s → tasks s !! t = Some k →
  take_turn t flow k s = Next s' → flows s'.
Proof.
  intros Hi Hs Hn Hf Ht E. unfold take_turn, receive in E. destruct (tk_before k) as [c|] eqn:Eb; [|done].
  destruct (chans s !! c) as [[]|] eqn:Ec; try done; destruct (tk_pc k) eqn:Hpc; try done; injection E as <-;
    try (exfalso; eapply (turn_not_closed s t k c); [done|done|by rewrite Hpc|done|exact Ec]).
  - eapply (flows_pc s _ t k); [done|done| |done|done|done].
    unfold own, after_turn. rewrite (Hn t k Ht), Hpc. simpl. rewrite Eb. by destruct (tk_after k) as [[]|].
  - eapply (flows_pc s _ t k (set_pc Releasing k)); [done|done| |done|done|done].
    unfold own. rewrite Hpc. simpl. by destruct (tk_after k) as [[]|].
  - destruct (turn_place s t k c Hi Ht) as (n & -> & Hp); [by rewrite Hpc|done|done|].
    assert (∃ n', tk_after k = Some (tk_inst k, n')) as [n' Ha].
    { destruct (Queue.i_wait _ Hi t (qt_of k) (tk_inst k) n (abs_task s t k Ht)) as (_ & Ha & _); [|by eexists].
      unfold Queue.q_waits, qt_of. simpl. by rewrite Hpc, Eb. }
    assert (own (set_pc DOwned k) = Some (tk_inst k, None)) as Ho by (unfold own; simpl; by rewrite Ha).
    eapply (flows_token s _ t k (Some (set_pc DOwned k)) (Queue.PChan (tk_inst k, n))); try done.
    + by eapply same_flows_alter.
    + cbn [mbind option_bind]. rewrite Ho. by intros i f [= <- _].
    + intros e' He'. cbn [mbind option_bind]. rewrite Ho. split; [eauto|done].
Qed.

Lemma flows_start s defined t k q :
  Queue.inv (abs s) → shape k = true → flows s → tasks s !! t = Some k → tk_pc k = Ready →
  flows (start defined t k q s).
Proof.
  intros Hi Hs Hf Ht Hpc. unfold start.
  set (s1 := match tk_before k with Some _ => _ | None => s end).
  assert (deferredLocks s1 = deferredLocks s ∧ tasks s1 = tasks s ∧ abs s1 = abs s) as (Hl1 & Ht1 & Ha1).
  { unfold s1. destruct (tk_before k); [|done]. split_and!; [done|done|by apply abs_with_inst]. }
  assert (flows (with_task t (set_pc Running k) s1)) as Hrun.
  { destruct (tk_before k) as [b|] eqn:Hb.
    - assert (∃ c, tk_after k = Some c) as [c Ha].
      { unfold shape in Hs. rewrite Hpc, Hb in Hs. destruct (tk_after k); [eauto|].
        by destruct (tk_clear k). }
      destruct (holder_place s t k c Hi Ht) as (n & -> & Hp); [by rewrite Hpc|done|].
      assert (own (set_pc Running k) = Some (tk_inst k, Some (s_Flow (tk_target k)))) as Ho
        by (unfold own; simpl; by rewrite Ha).
      eapply (flows_token s _ t k (Some (set_pc Running k)) (Queue.PTask t)); try done.
      + by intros t' [= <-].
      + by eapply same_flows_alter.
      + cbn [mbind option_bind]. rewrite Ho. by intros i f [= <- _].
      + intros e' He'. cbn [mbind option_bind]. rewrite Ho. split; [eauto|]. intros f [= <-].
        unfold s1 in He'. simpl in He'. rewrite lookup_alter_eq in He'.
        destruct (heap s !! tk_inst k); [by injection He' as <-|done].
    - eapply (flows_pc s _ t k (set_pc Running k)); try done. unfold own. simpl. by rewrite Hpc, Hb. }
  destruct (defined (q_method q)); [exact Hrun|].
  eapply (flows_release_flow (with_task t (set_pc Running k) s1) _ t (set_pc Running k) (set_pc Releasing k)); try done.
  - rewrite (abs_with_task s1 t k); [by rewrite Ha1|by rewrite Ht1|].
    unfold qt_of. simpl. by rewrite Hpc.
  - apply shape_set_pc; [done|]. split; [by rewrite Hpc|]. apply shape_msg; [done|by rewrite Hpc].
  - simpl. apply lookup_insert_eq.
  - unfold own. simpl. by destruct (tk_after k) as [[]|].
  - unfold release_flow. by destruct (tk_clear k).
  - simpl. rewrite tasks_release_flow. by rewrite insert_insert_eq.
  - unfold release_flow. simpl. by destruct (tk_clear k).
Qed.

Lemma flows_final s t k s' :
  Queue.inv (abs s) → flows s → tasks s !! t = Some k → tk_pc k = DFinal → final t k s = Next s' →
  flows s'.
Proof.
  intros Hi Hf Ht Hpc E. unfold final in E. destruct (heap s !! tk_inst k) as [e|] eqn:He; [|done].
  destruct (tk_after k) as [c|] eqn:Ha; [|done].
  destruct (holder_place s t k c Hi Ht) as (n & -> & Hp); [by rewrite Hpc|done|].
  assert (∀ o s0, o ≫= own = None → deferredLocks s0 = deferredLocks s →
    tasks s0 = partial_alter (λ _, o) t (tasks s) →
    (∃ f, heap s0 = alter f (tk_inst k) (heap s) ∧ ∀ e, ActiveFlow (f e) = releasedFlow) → flows s0) as Hmove.
  { intros o s0 Ho Hl Ht' (f & Hh & Hfl). eapply (flows_token s s0 t k o (Queue.PTask t)); try done.
    - by intros t' [= <-].
    - by eapply same_flows_alter.
    - by rewrite Hl.
    - by rewrite Ho.
    - intros e'. rewrite Ho, Hh, lookup_alter_eq, He. intros [= <-]. split; [|done]. by rewrite Hfl. }
  destruct (valid e && _).
  - destruct (chans s !! _) as [[]|]; try done; injection E as <-;
      (eapply (Hmove None); [done|done|done|]);
      (exists (λ e, set_valid false (set_flow releasedFlow e)); split; [|done]); simpl;
      by rewrite alter_alter_eq.
  - injection E as <-. eapply (Hmove (Some (set_pc Releasing k))); [|done|done|by eexists].
    simpl. unfold own. simpl. by rewrite Ha.
Qed.

Lemma flows_exec busy defined fmt l s s' :
  Queue.inv (abs s) → shapes s → no_child s → flows s → allowed l s → plain l s →
  exec busy defined fmt l s = Next s' → flows s'.
Proof.
  intros Hi Hs Hn Hf Ha Hp E. destruct l; cbn [exec] in E;
    try (destruct (tasks s !! t) as [k|] eqn:Ht; [pose proof (Hs _ _ Ht) as Hk|done]); cbn [allowed plain] in Ha, Hp.
  - injection E as <-. apply (flows_same s); [done|by unfold async; destruct sent..].
  - unfold call_result in E. destruct (results s !! ch) as [[]|]; [|done..]. by injection E as <-.
  - by injection E as <-.
  - by injection E as <-.
  - destruct msg as [q|r|d]; cbn [accept] in E.
    + destruct Hp as [Hc Hr]. destruct (expired _ _); [by injection E as <-|].
      unfold await_child in E. rewrite Hc in E. simpl in E.
      destruct (q_target q) as [|target|]; injection E as <-; [done| |done]. by apply flows_acceptSession.
    + destruct (requests s !! _) as [ch|]; [destruct (results _ !! ch) as [[]|]|]; try done; by injection E as <-.
    + by injection E as <-.
  - by eapply flows_turn.
  - destruct (tk_pc k) eqn:Hpc; try done. destruct (tk_msg k) eqn:Em; [|done]. destruct busy; [|done]. injection E as <-.
    unfold timeout. destruct (tk_after k) as [[]|] eqn:Ea; (eapply (flows_pc s _ t k); [done|done| |done|done|done]);
      unfold own; by rewrite Ea, ?Hpc; simpl; rewrite ?Ea.
  - destruct (tk_pc k) eqn:Hpc; try done. by rewrite (Hn t k Ht) in E.
  - destruct (tk_pc k) eqn:Hpc; try done. destruct (tk_msg k); [|done]. injection E as <-. by apply flows_start.
  - destruct (tk_pc k) eqn:Hpc; try done. destruct (tk_msg k) as [q|]; [|done]. injection E as <-.
    apply flows_finish; [|done|by apply flows_touch|done|done|].
    + replace (abs (touch k now activated s)) with (abs s); [done|]. symmetry.
      unfold touch. apply abs_with_inst. intros e. by destruct (_ && _).
    + intros dest v lock c -> Hd. by eapply (Ha k).
  - destruct (tk_pc k) eqn:Hpc; try done. unfold release in E.
    assert (own k = None) as Ho by (unfold own; rewrite Hpc; by destruct (tk_after k) as [[]|]).
    assert (∀ s0, heap s0 = heap s → deferredLocks s0 = deferredLocks s → tasks s0 = delete t (tasks s) → flows s0) as Hd.
    { intros s0 H1 H2 H3. eapply (flows_keep s s0 t None); try done; [by apply same_flows_refl|].
      rewrite Ht. symmetry. exact Ho. }
    destruct (tk_after k); [destruct (chans s !! _) as [[]|]|]; try done; injection E as <-; by apply Hd.
  - destruct (heap s !! i) as [e|] eqn:He; [|done]. destruct (_ && _); [|done]. injection E as <-.
    eapply (flows_spawn s _ _ Hf); [|done|done|done].
    intros j e'. simpl. rewrite lookup_insert. intros _. case_decide; [|eauto]. subst j. intros [= <-]. by exists e.
  - destruct (tk_pc k) eqn:Hpc; try done. destruct (heap s !! tk_inst k); [|done]. injection E as <-.
    eapply (flows_pc s _ t k); [done|done| |done|done|done]. unfold own. simpl. by rewrite Hpc.
  - destruct (tk_pc k) eqn:Hpc; try done. destruct (heap s !! _) as [e|]; [|done]. injection E as <-.
    assert (own (set_pc DFinal k) = own k) as Ho by (unfold own; simpl; by rewrite Hpc).
    destruct (_ && _); eapply (flows_keep s _ t (Some (set_pc DFinal k))); try done;
      [by eapply same_flows_alter|by rewrite Ht|by apply same_flows_refl|by rewrite Ht].
  - destruct (tk_pc k) eqn:Hpc; try done. by eapply flows_final.
  - destruct (workers s !! w) as [wk|]; [|done].
    assert (∀ ms s0, flows s0 → flows (foldl (flip send) s0 ms)) as Hsend.
    { intros ms. induction ms as [|m ms IH]; intros s0 Hs0; [done|]. by apply IH. }
    destruct (wk_child wk) as [r|]; [destruct (results s !! r) as [[]|]|]; try done; injection E as <-; by apply Hsend.
  - by injection E as <-.
  - assert (waiting_pc (tk_pc k) = true → own k = None) as Ho.
    { unfold own. destruct (tk_pc k); try done; by destruct (tk_after k) as [[]|]. }
    assert (tk_pc k ≠ WaitChild) as Hwc.
    { unfold shape in Hk. rewrite (Hn t k Ht) in Hk. intros Hpc. rewrite Hpc in Hk. simpl in Hk.
      by rewrite andb_false_r in Hk. }
    destruct (tk_pc k) eqn:Hpc; try done; destruct (cancelled s); try done; injection E as <-;
      (eapply (flows_keep s _ t None); [done|by apply same_flows_refl|done|done|]);
      rewrite Ht; symmetry; by apply Ho.
Qed.

(** *** Counting the answers to a request *)

Definition count {A} (f : A → bool) (m : gmap nat A) : nat :=
  map_fold (λ _ a n, if f a then S n else n) 0%nat m.

Section count.
Context {A : Type} (f : A → bool).

Lemma count_fresh (m : gmap nat A) i a :
  m !! i = None → count f (<[i := a]> m) = ((if f a then 1 else 0) + count f m)%nat.
Proof.
  intros Hi. unfold count. rewrite map_fold_insert_L; [by destruct (f a)| |done].
  intros j1 j2 z1 z2 y _ _ _. by destruct (f z1), (f z2).
Qed.

Lemma count_delete (m : gmap nat A) i a :
  m !! i = Some a → count f m = ((if f a then 1 else 0) + count f (delete i m))%nat.
Proof.
  intros Hi. rewrite <-(count_fresh (delete i m) i a) by apply lookup_delete_eq. by rewrite insert_delete_id.
Qed.

Lemma count_update (m : gmap nat A) i a b :
  m !! i = Some a →
  (count f (<[i := b]> m) + (if f a then 1 else 0) = count f m + (if f b then 1 else 0))%nat.
Proof.
  intros Hi. rewrite (count_delete m i a Hi), <-(insert_delete_eq m i b), count_fresh by apply lookup_delete_eq.
  lia.
Qed.
End count.

(** Requests that wait for their answer: those of a goroutine that will run, or is
    running, their handler. *)
Definition waits (id : string) (k : task) : bool :=
  match tk_msg k, tk_pc k with
  | Some q, (WaitTurn | WaitChild | Ready | Running) => String.eqb (q_requestID q) id
  | _, _ => false
  end.

(** A tell to a node has no answer. *)
Definition silent (q : Request) : bool :=
  match q_target q, q with Node _, Tell _ => true | _, _ => false end.

Definition works (id : string) (w : worker) : bool :=
  String.eqb (q_requestID (wk_msg w)) id && negb (silent (wk_msg w)).

Definition answers (id : string) (ms : list Message) : nat :=
  length (filter (λ m, requestID m = id) ms).

(** The answers sent for a request and those still due. *)
Definition ledger (id : string) (s : state) : nat :=
  (answers id (outbox s) + count (waits id) (tasks s) + count (works id) (workers s))%nat.

(** Whether a step accepts a request that gets an answer. *)
Definition accepts (id : string) (l : label) : nat :=
  match l with
  | LAccept now (MRequest q) =>
      if String.eqb (q_requestID q) id && (expired (q_deadline q) now || negb (silent q)) then 1 else 0
  | _ => 0
  end.

(** Whether a step makes a request of its own under that id. *)
Definition issues (id : string) (l : label) : bool :=
  match l with
  | LAsync id' _ _ _ _ _ _ | LTell id' _ _ _ _ _ => String.eqb id' id
  | _ => false
  end.

Lemma answers_app id ms ms' : answers id (ms ++ ms') = (answers id ms + answers id ms')%nat.
Proof. unfold answers. by rewrite filter_app, length_app. Qed.

Lemma answers_one id m : answers id [m] = if String.eqb (requestID m) id then 1%nat else 0%nat.
Proof.
  unfold answers. rewrite filter_cons. destruct (String.eqb_spec (requestID m) id);
    [by rewrite decide_True|by rewrite decide_False].
Qed.

Lemma error_response_id q err v : requestID (error_response q err v) = q_requestID q.
Proof. by destruct q. Qed.

Lemma tail_request_id q dest dl v : q_requestID (tail_request q dest dl v) = q_requestID q.
Proof. by destruct q. Qed.

Lemma ledger_same id s s' :
  outbox s' = outbox s → tasks s' = tasks s → workers s' = workers s → ledger id s' = ledger id s.
Proof. unfold ledger. by intros -> -> ->. Qed.

(** A task that moves on owes the same answer, or sends it. *)
Lemma ledger_task id s s' t k k' ms :
  outbox s' = outbox s ++ ms → tasks s !! t = Some k → tasks s' = <[t := k']> (tasks s) →
  workers s' = workers s →
  (answers id ms + (if waits id k' then 1 else 0) = if waits id k then 1 else 0)%nat →
  ledger id s' = ledger id s.
Proof.
  unfold ledger. intros -> Ht -> -> H. rewrite answers_app.
  pose proof (count_update (waits id) (tasks s) t k k' Ht). lia.
Qed.

Lemma ledger_end id s s' t k :
  outbox s' = outbox s → tasks s !! t = Some k → tasks s' = delete t (tasks s) →
  workers s' = workers s → waits id k = false → ledger id s' = ledger id s.
Proof.
  unfold ledger. intros -> Ht -> -> H. pose proof (count_delete (waits id) (tasks s) t k Ht) as Hc.
  rewrite H in Hc. lia.
Qed.

Lemma ledger_spawn id s s' k :
  outbox s' = outbox s → tasks s' = <[fresh (dom (tasks s)) := k]> (tasks s) → workers s' = workers s →
  ledger id s' = (ledger id s + if waits id k then 1 else 0)%nat.
Proof.
  unfold ledger. intros -> -> ->. rewrite count_fresh by apply fresh_task. lia.
Qed.

Lemma waits_request id before child after i target q clear :
  waits id (request_task before child after i target q clear) = String.eqb (q_requestID q) id.
Proof. unfold waits. simpl. by destruct before, child. Qed.

Lemma ledger_acceptSession id target q child s :
  ledger id (acceptSession target q child s) =
  (ledger id s + if String.eqb (q_requestID q) id then 1 else 0)%nat.
Proof.
  assert (∀ i e fr s0, ledger id (schedule target q child i e fr s0) =
    (ledger id s0 + if String.eqb (q_requestID q) id then 1 else 0)%nat) as Hsch.
  { intros i e fr s0. unfold schedule. destruct (_ && _).
    - set (dl := if String.eqb _ _ then _ else _).
      destruct dl; erewrite (ledger_spawn id s0); try done; by rewrite waits_request.
    - destruct (String.eqb _ _); erewrite (ledger_spawn id s0); try done; by rewrite waits_request. }
  unfold acceptSession. destruct (find_instance _ s) as [[i e]|]; [apply Hsch|]. by rewrite Hsch.
Qed.

Lemma ledger_workers id s q o w child :
  workers s !! w = Some (mkWorker child q) →
  ∀ s', outbox s' = outbox s → tasks s' = tasks s → workers s' = delete w (workers s) →
  ledger id (foldl (flip send) s' (worker_answers q o)) = ledger id s.
Proof.
  intros Hw s' Ho Ht Hs.
  assert (∀ ms s0, outbox (foldl (flip send) s0 ms) = outbox s0 ++ ms ∧
    tasks (foldl (flip send) s0 ms) = tasks s0 ∧ workers (foldl (flip send) s0 ms) = workers s0) as Hsends.
  { intros ms. induction ms as [|m ms IH]; intros s0; simpl; [by rewrite app_nil_r|].
    destruct (IH (send m s0)) as (-> & -> & ->). simpl. by rewrite <-app_assoc. }
  unfold ledger. destruct (Hsends (worker_answers q o) s') as (-> & -> & ->).
  rewrite Ho, Ht, Hs, answers_app. pose proof (count_delete (works id) (workers s) w _ Hw) as Hc.
  assert (answers id (worker_answers q o) = if works id (mkWorker child q) then 1 else 0)%nat; [|lia].
  unfold works, silent, worker_answers. simpl.
  destruct (q_target q), q, o; simpl; rewrite ?andb_true_r, ?andb_false_r, ?answers_one; done.
Qed.

Lemma ledger_exec busy defined fmt id l s s' :
  shapes s → cancelled s = false → allowed l s → issues id l = false →
  exec busy defined fmt l s = Next s' → ledger id s' = (ledger id s + accepts id l)%nat.
Proof.
  intros Hs Hc Ha Hid E.
  assert (∀ s0, outbox s0 = outbox s → tasks s0 = tasks s → workers s0 = workers s →
    ledger id s0 = (ledger id s + 0)%nat) as Hsame by (intros; rewrite Nat.add_0_r; by apply ledger_same).
  assert (∀ m s0, requestID m ≠ id → outbox s0 = outbox s ++ [m] → tasks s0 = tasks s → workers s0 = workers s →
    ledger id s0 = (ledger id s + 0)%nat) as Hissue.
  { intros m s0 Hm H1 H2 H3. unfold ledger. rewrite H1, H2, H3, answers_app, answers_one.
    rewrite (proj2 (String.eqb_neq _ _) Hm). lia. }
  destruct l; cbn [exec] in E;
    try (destruct (tasks s !! t) as [k|] eqn:Ht; [pose proof (Hs _ _ Ht) as Hk|done]); cbn [allowed issues accepts] in *;
    try rewrite Nat.add_0_r.
  - apply String.eqb_neq in Hid. injection E as <-. rewrite <-(Nat.add_0_r (ledger id s)).
    unfold async. destruct sent; [|by apply Hsame]. by eapply Hissue; [|reflexivity|..].
  - unfold call_result in E. destruct (results s !! ch) as [[]|]; [|done..]. by injection E as <-.
  - apply String.eqb_neq in Hid. injection E as <-. rewrite <-(Nat.add_0_r (ledger id s)).
    by eapply Hissue; [|reflexivity|..].
  - by injection E as <-.
  - destruct msg as [q|r|d]; cbn [accept] in E.
    + destruct (expired _ _) eqn:Ex; simpl.
      * injection E as <-. unfold ledger. simpl. rewrite answers_app, answers_one, error_response_id.
        rewrite andb_true_r. destruct (String.eqb _ _); lia.
      * destruct (await_child (q_childID q) s) as [child s1] eqn:Ec.
        assert (ledger id s1 = ledger id s) as Hl.
        { unfold await_child in Ec. by destruct (String.eqb _ ""); injection Ec as <- <-. }
        assert (workers s1 = workers s) as Hw.
        { unfold await_child in Ec. by destruct (String.eqb _ ""); injection Ec as <- <-. }
        rewrite <-Hl.
        assert (∀ c, ledger id (set_workers (<[fresh (dom (workers s1)) := mkWorker c q]> (workers s1)) s1) =
          (ledger id s1 + if String.eqb (q_requestID q) id && negb (silent q) then 1 else 0)%nat) as Hwork.
        { intros c. unfold ledger. simpl. rewrite count_fresh by (apply not_elem_of_dom, is_fresh).
          unfold works at 1. simpl. lia. }
        unfold silent in *. destruct (q_target q) as [|target|]; injection E as <-; [apply Hwork| |apply Hwork].
        rewrite ledger_acceptSession. by rewrite andb_true_r.
    + destruct (requests s !! _) as [ch|]; [destruct (results _ !! ch) as [[]|]|]; try done;
        injection E as <-; by apply Hsame.
    + injection E as <-. by apply Hsame.
  - unfold take_turn, receive in E. destruct (tk_before k) as [c|] eqn:Eb; [|done].
    destruct (chans s !! c) as [[]|]; try done; destruct (tk_pc k) eqn:Hp; try done; injection E as <-;
      (eapply (ledger_task id s _ t k _ []); [by rewrite app_nil_r|done|done|done|]);
      unfold waits, after_turn; simpl; rewrite ?Hp; destruct (tk_msg k), (tk_child k); done.
  - destruct (tk_pc k) eqn:Hp; try done. destruct (tk_msg k) as [q|] eqn:Em; [|done]. destruct busy; [|done].
    injection E as <-. unfold timeout. destruct (tk_after k) eqn:Ea.
    + eapply (ledger_task id s _ t k); [done|done|done|done|].
      rewrite answers_one, error_response_id. unfold waits. simpl. rewrite Hp, Em. lia.
    + exfalso. unfold shape in Hk. rewrite Hp, Ea in Hk. by destruct (tk_before k), (tk_clear k).
  - destruct (tk_pc k) eqn:Hp; try done. destruct (tk_child k); [|done]. destruct (results s !! _) as [[]|]; try done.
    injection E as <-. eapply (ledger_task id s _ t k _ []); [by rewrite app_nil_r|done|done|done|].
    unfold waits. simpl. by rewrite Hp.
  - destruct (tk_pc k) eqn:Hp; try done. destruct (tk_msg k) as [q|] eqn:Em; [|done]. injection E as <-. unfold start.
    set (s1 := match tk_before k with Some _ => _ | None => s end).
    assert (outbox s1 = outbox s ∧ tasks s1 = tasks s ∧ workers s1 = workers s) as (H1 & H2 & H3)
      by (unfold s1; by destruct (tk_before k)).
    destruct (defined _).
    + eapply (ledger_task id s _ t k _ []); [by rewrite app_nil_r|done|by simpl; rewrite H2|done|].
      unfold waits. simpl. by rewrite Hp, Em.
    + eapply (ledger_task id s _ t k (set_pc Releasing k)); [|done| | |].
      * simpl. unfold release_flow. destruct (tk_clear k); simpl; by rewrite H1.
      * simpl. by rewrite tasks_release_flow, H2.
      * simpl. unfold release_flow. by destruct (tk_clear k).
      * rewrite answers_one, error_response_id. unfold waits. simpl. rewrite Hp, Em. lia.
  - destruct (tk_pc k) eqn:Hp; try done. destruct (tk_msg k) as [q|] eqn:Em; [|done]. injection E as <-.
    set (s1 := touch k now activated s).
    assert (∀ k' m, waits id k' = false → requestID m = q_requestID q →
      ∀ s2, outbox s2 = outbox s ++ [m] → tasks s2 = <[t := k']> (tasks s) → workers s2 = workers s →
      ledger id s2 = ledger id s) as Hone.
    { intros k' m Hk' Hm s2 H1 H2 H3. eapply (ledger_task id s s2 t k); [exact H1|done|exact H2|done|].
      rewrite answers_one, Hm, Hk'. unfold waits. rewrite Hp, Em. lia. }
    assert (outbox (release_flow k s1) = outbox s ∧ tasks (release_flow k s1) = tasks s ∧
      workers (release_flow k s1) = workers s) as (H1 & H2 & H3) by (unfold release_flow; by destruct (tk_clear k)).
    assert (waits id (set_pc Releasing k) = false) as Hdone by (unfold waits; simpl; by destruct (tk_msg k)).
    unfold finish. destruct o as [v|err v| |dest v]; [..|destruct (defers k dest) as [[lock c]|]].
    + eapply Hone; [exact Hdone|apply error_response_id|simpl; by rewrite H1|simpl; by rewrite H2|done].
    + eapply Hone; [exact Hdone|apply error_response_id|simpl; by rewrite H1|simpl; by rewrite H2|done].
    + congruence.
    + eapply (Hone _ (MRequest _)); [|exact (tail_request_id q dest zeroTime v)|reflexivity..].
      unfold waits. simpl. by destruct (tk_msg k).
    + eapply (Hone _ (MRequest _)); [exact Hdone|exact (tail_request_id q dest (q_deadline q) v)|simpl; by rewrite H1|simpl; by rewrite H2|done].
  - destruct (tk_pc k) eqn:Hp; try done.
    assert (waits id k = false) as Hw by (unfold waits; rewrite Hp; by destruct (tk_msg k)).
    unfold release in E. destruct (tk_after k); [destruct (chans s !! _) as [[]|]|]; try done; injection E as <-;
      by eapply (ledger_end id s _ t k).
  - destruct (heap s !! i) as [e|]; [|done]. destruct (_ && _); [|done]. injection E as <-.
    erewrite (ledger_spawn id s); [|done..]. unfold waits. simpl. lia.
  - destruct (tk_pc k) eqn:Hp; try done. destruct (heap s !! _); [|done]. injection E as <-.
    eapply (ledger_task id s _ t k _ []); [by rewrite app_nil_r|done|done|done|].
    unfold waits. simpl. rewrite Hp. by destruct (tk_msg k).
  - destruct (tk_pc k) eqn:Hp; try done. destruct (heap s !! _) as [e|]; [|done]. injection E as <-.
    destruct (_ && _); (eapply (ledger_task id s _ t k _ []); [by rewrite app_nil_r|done|done|done|]);
      unfold waits; simpl; rewrite Hp; by destruct (tk_msg k).
  - destruct (tk_pc k) eqn:Hp; try done.
    assert (waits id k = false) as Hw by (unfold waits; rewrite Hp; by destruct (tk_msg k)).
    unfold final in E. destruct (heap s !! _) as [e|]; [|done]. destruct (tk_after k) as [c|]; [|done].
    destruct (_ && _).
    + destruct (chans s !! c) as [[]|]; try done; injection E as <-; by eapply (ledger_end id s _ t k).
    + injection E as <-. eapply (ledger_task id s _ t k _ []); [by rewrite app_nil_r|done|done|done|].
      rewrite Hw. unfold waits. simpl. by destruct (tk_msg k).
  - destruct (workers s !! w) as [[child q]|] eqn:Ew; [|done]. simpl in E.
    destruct child as [r|]; [destruct (results s !! r) as [[]|]|]; try done; injection E as <-;
      by eapply (ledger_workers id s q o w).
  - by injection E as <-.
  - rewrite Hc in E. by destruct (tk_pc k).
Qed.

Lemma no_child_task s t k s' :
  no_child s → tasks s' = <[t := k]> (tasks s) → tk_child k = None → no_child s'.
Proof.
  intros Hs Ht Hk t' k'. rewrite Ht, lookup_insert. case_decide; [intros [= <-]; done|apply Hs].
Qed.

Lemma no_child_acceptSession target q s : no_child s → no_child (acceptSession target q None s).
Proof.
  intros Hs. assert (∀ i e fr s0, tasks s0 = tasks s → no_child (schedule target q None i e fr s0)) as Hsch.
  { intros i e fr s0 Ht. assert (no_child s0) as Hs0 by (intros t k; rewrite Ht; apply Hs).
    unfold schedule. destruct (_ && _).
    - set (dl := if String.eqb _ _ then _ else _). by destruct dl; eapply (no_child_task s0).
    - by destruct (String.eqb _ _); eapply (no_child_task s0). }
  unfold acceptSession. destruct (find_instance _ s) as [[i e]|]; by apply Hsch.
Qed.

Lemma no_child_exec busy defined fmt l s s' :
  no_child s → plain l s → exec busy defined fmt l s = Next s' → no_child s'.
Proof.
  intros Hs Hp E.
  assert (∀ t s0, tasks s0 = delete t (tasks s) → no_child s0) as Hdel.
  { intros t s0 Ht t' k'. rewrite Ht, lookup_delete. case_decide; [done|apply Hs]. }
  assert (∀ s0, tasks s0 = tasks s → no_child s0) as Hsame by (intros s0 Ht t' k'; rewrite Ht; apply Hs).
  destruct l; cbn [exec] in E;
    try (destruct (tasks s !! t) as [k|] eqn:Ht; [pose proof (Hs _ _ Ht) as Hk|done]); cbn [plain] in Hp.
  - injection E as <-. apply Hsame. unfold async. by destruct sent.
  - unfold call_result in E. destruct (results s !! ch) as [[]|]; [|done..]. by injection E as <-.
  - by injection E as <-.
  - by injection E as <-.
  - destruct msg as [q|r|d]; cbn [accept] in E.
    + destruct Hp as [Hc _]. destruct (expired _ _); [by injection E as <-|].
      unfold await_child in E. rewrite Hc in E. simpl in E.
      destruct (q_target q); injection E as <-; [done|by apply no_child_acceptSession|done].
    + destruct (requests s !! _) as [ch|]; [destruct (results _ !! ch) as [[]|]|]; try done; by injection E as <-.
    + by injection E as <-.
  - unfold take_turn, receive in E. destruct (tk_before k) as [c|]; [|done].
    destruct (chans s !! c) as [[]|]; try done; destruct (tk_pc k); try done; injection E as <-;
      by eapply (no_child_task s).
  - destruct (tk_pc k); try done. destruct (tk_msg k); [|done]. destruct busy; [|done]. injection E as <-.
    unfold timeout. by destruct (tk_after k); eapply (no_child_task s).
  - destruct (tk_pc k); try done. by rewrite Hk in E.
  - destruct (tk_pc k); try done. destruct (tk_msg k); [|done]. injection E as <-. unfold start.
    by destruct (tk_before k); destruct (defined _); (eapply (no_child_task s);
      [done|simpl; rewrite ?tasks_release_flow; reflexivity|done]).
  - destruct (tk_pc k); try done. destruct (tk_msg k); [|done]. injection E as <-.
    unfold finish. by destruct o; [..|destruct (defers k dest) as [[]|]]; (eapply (no_child_task s);
      [done|simpl; rewrite ?tasks_release_flow; reflexivity|done]).
  - destruct (tk_pc k); try done. unfold release in E.
    destruct (tk_after k); [destruct (chans s !! _) as [[]|]|]; try done; injection E as <-; by eapply Hdel.
  - destruct (heap s !! i); [|done]. destruct (_ && _); [|done]. injection E as <-. by eapply (no_child_task s).
  - destruct (tk_pc k); try done. destruct (heap s !! _); [|done]. injection E as <-. by eapply (no_child_task s).
  - destruct (tk_pc k); try done. destruct (heap s !! _); [|done]. injection E as <-.
    by destruct (_ && _); eapply (no_child_task s).
  - destruct (tk_pc k); try done. unfold final in E. destruct (heap s !! _); [|done].
    destruct (tk_after k); [|done]. destruct (_ && _).
    + destruct (chans s !! _) as [[]|]; try done; injection E as <-; by eapply Hdel.
    + injection E as <-. by eapply (no_child_task s).
  - destruct (workers s !! w) as [wk|]; [|done].
    assert (∀ ms s0, no_child s0 → no_child (foldl (flip send) s0 ms)) as Hsend.
    { intros ms. induction ms as [|m ms IH]; intros s0 Hs0; [done|]. by apply IH. }
    destruct (wk_child wk) as [r|]; [destruct (results s !! r) as [[]|]|]; try done; injection E as <-; by apply Hsend.
  - by injection E as <-.
  - destruct (tk_pc k); try done; destruct (cancelled s); try done; injection E as <-; by eapply Hdel.
Qed.

(** A cancelled context stays cancelled. *)
Lemma cancelled_exec busy defined fmt l s s' :
  exec busy defined fmt l s = Next s' → cancelled s = true → cancelled s' = true.
Proof.
  intros E Hc.
  assert (∀ ms s0, cancelled s0 = true → cancelled (foldl (flip send) s0 ms) = true) as Hsend.
  { intros ms. induction ms as [|m ms IH]; intros s0 Hs0; [done|]. by apply IH. }
  assert (∀ k s0, cancelled s0 = true → cancelled (release_flow k s0) = true) as Hrel
    by (intros k s0 H; unfold release_flow; by destruct (tk_clear k)).
  destruct l; cbn [exec] in E;
    unfold async, call_result, take_turn, receive, timeout, start, finish, release, final in E.
  5: { destruct msg as [q|r|d]; cbn [accept] in E.
    + destruct (expired _ _); [by injection E as <-|].
      destruct (await_child _ s) as [child s1] eqn:Ec.
      assert (cancelled s1 = true) as Hc1 by (unfold await_child in Ec; by destruct (String.eqb _ ""); simplify_eq).
      destruct (q_target q) as [|target|]; injection E as <-; [done| |done].
      destruct (acceptSession_frame target q child s1) as (_ & _ & _ & _ & ->). done.
    + repeat case_match; simplify_eq; done.
    + by injection E as <-. }
  all: repeat case_match; simplify_eq; simpl; rewrite ?Hrel; eauto.
Qed.

(* ---------------------------------------------------------------------- *)
(** ** Runs *)

Section runs.
Context (busyTimeout : bool) (defined : string → bool) (fmt_time : Z → string).

(** The states that sequences of steps of a kind reach, with the steps, the
    latest one first. *)
Inductive run (P : label → state → Prop) : list label → state → Prop :=
| run_init : run P [] init
| run_step ls l s s' :
    run P ls s → P l s → exec busyTimeout defined fmt_time l s = Next s' → run P (l :: ls) s'.

Definition reachable (s : state) : Prop := ∃ ls, run allowed ls s.

(** The states reached without recovering requests that wait for a child. *)
Definition reachable_plain (s : state) : Prop := ∃ ls, run (λ l s, allowed l s ∧ plain l s) ls s.

Lemma run_weaken (P Q : label → state → Prop) ls s :
  (∀ l s, P l s → Q l s) → run P ls s → run Q ls s.
Proof. intros HPQ. induction 1; econstructor; eauto. Qed.

Lemma reachable_inv s : reachable s → Queue.inv (abs s) ∧ shapes s ∧ pending s.
Proof.
  intros [ls Hr]. induction Hr as [|ls l s s' Hr (Hi & Hs & Hp) Ha E].
  - split_and!; [exact Queue.inv_init|done|by split].
  - split_and!.
    + eapply Queue.qsteps_inv; [exact Hi|]. by eapply sim_exec.
    + by eapply shapes_exec.
    + by eapply pending_exec.
Qed.

Lemma plain_reachable s : reachable_plain s → reachable s.
Proof. intros [ls Hr]. exists ls. eapply run_weaken; [|exact Hr]. by intros l s0 []. Qed.

Lemma plain_flows s : reachable_plain s → flows s ∧ no_child s.
Proof.
  intros [ls Hr]. induction Hr as [|ls l s s' Hr [Hf Hn] [Ha Hp] E]; [done|].
  assert (reachable s) as (Hi & Hs & _)%reachable_inv by (apply plain_reachable; by exists ls).
  split; [by eapply flows_exec|by eapply no_child_exec].
Qed.

Lemma run_ledger id ls s :
  run allowed ls s → cancelled s = false → (∀ l, l ∈ ls → issues id l = false) →
  ledger id s = sum_list_with (accepts id) ls.
Proof.
  intros Hr. induction Hr as [|ls l s s' Hr IH Ha E]; intros Hc Hid; [done|].
  assert (reachable s) as (_ & Hs & _)%reachable_inv by by exists ls.
  assert (cancelled s = false) as Hc0.
  { destruct (cancelled s) eqn:E0; [|done]. by rewrite (cancelled_exec _ _ _ _ _ _ E E0) in Hc. }
  rewrite (ledger_exec _ _ _ id l s s' Hs Hc0 Ha (Hid l (list_elem_of_here _ _)) E).
  rewrite IH; [simpl; lia|done|]. intros l' Hl'. apply Hid. by right.
Qed.

(** *** Executable runs *)

Definition allowedb (l : label) (s : state) : bool :=
  match l with
  | LAccept _ (MRequest q) =>
      match q_target q with
      | SessionTarget t =>
          match deferredLocks s !! s_DeferredLockID t with
          | Some c =>
              match heap s !! c.1 with
              | Some e => bool_decide ((Name e, ID e) = (s_Name t, s_ID t))
              | None => false
              end
          | None => true
          end
      | _ => true
      end
  | LFinish t _ _ (HTail dest _) =>
      match tasks s !! t with
      | Some k =>
          match defers k dest with
          | Some (lock, _) => bool_decide (deferredLocks s !! lock = None)
          | None => true
          end
      | None => true
      end
  | LFinish _ _ _ HCtx => cancelled s
  | _ => true
  end.

Definition plainb (l : label) : bool :=
  match l with
  | LAccept _ (MRequest q) =>
      String.eqb (q_childID q) "" &&
      match q_target q with SessionTarget t => negb (String.eqb (s_Flow t) releasedFlow) | _ => true end
  | _ => true
  end.

Lemma allowedb_spec l s : allowedb l s = true → allowed l s.
Proof.
  destruct l; simpl; try done.
  - destruct msg as [q| |]; try done. destruct (q_target q) as [|tg|]; try done.
    destruct (deferredLocks s !! _) as [c|]; [|done]. destruct (heap s !! c.1) as [e|] eqn:He; [|done].
    intros H%bool_decide_eq_true c' [= <-]. eauto.
  - destruct o; try done. destruct (tasks s !! t) as [k|]; [|done]. intros H k' lock c [= <-] Hd.
    rewrite Hd in H. by apply bool_decide_eq_true in H.
Qed.

Lemma plainb_spec l s : plainb l = true → plain l s.
Proof.
  destruct l; try done. simpl. destruct msg as [q| |]; try done. intros [H1%String.eqb_eq H2]%andb_true_iff.
  split; [done|]. destruct (q_target q); try done. apply negb_true_iff in H2. by apply String.eqb_neq.
Qed.

(** Run a list of steps, in order, as long as they are possible. *)
Fixpoint exec_all (ls : list label) (s : state) : option state :=
  match ls with
  | [] => Some s
  | l :: ls' =>
      if allowedb l s then
        match exec busyTimeout defined fmt_time l s with
        | Next s' => exec_all ls' s'
        | _ => None
        end
      else None
  end.

Definition state_after (ls : list label) : state := default init (exec_all ls init).

Lemma exec_all_run ls ls0 s0 s :
  run allowed ls0 s0 → exec_all ls s0 = Some s → run allowed (rev ls ++ ls0) s.
Proof.
  revert ls0 s0. induction ls as [|l ls IH]; intros ls0 s0 Hr E; simpl in *; [by simplify_eq|].
  destruct (allowedb l s0) eqn:Ha; [|done].
  destruct (exec _ _ _ l s0) as [| |s1] eqn:El; [done..|]. rewrite <-app_assoc. apply (IH _ s1); [|done].
  eapply run_step; [exact Hr|by apply allowedb_spec|exact El].
Qed.

Lemma exec_all_plain ls ls0 s0 s :
  run (λ l s, allowed l s ∧ plain l s) ls0 s0 → forallb plainb ls = true → exec_all ls s0 = Some s →
  run (λ l s, allowed l s ∧ plain l s) (rev ls ++ ls0) s.
Proof.
  revert ls0 s0. induction ls as [|l ls IH]; intros ls0 s0 Hr Hp E; simpl in *; [by simplify_eq|].
  apply andb_true_iff in Hp as [Hl Hp].
  destruct (allowedb l s0) eqn:Ha; [|done].
  destruct (exec _ _ _ l s0) as [| |s1] eqn:El; [done..|]. rewrite <-app_assoc. apply (IH _ s1); [|done..].
  eapply run_step; [exact Hr|split; [by apply allowedb_spec|by apply plainb_spec]|exact El].
Qed.

Lemma reachable_after ls : reachable (state_after ls).
Proof.
  unfold state_after. destruct (exec_all ls init) as [s|] eqn:E; [|exists []; apply run_init].
  exists (rev ls ++ []). eapply exec_all_run; [apply run_init|exact E].
Qed.

Lemma plain_after ls : forallb plainb ls = true → reachable_plain (state_after ls).
Proof.
  unfold state_after. intros Hp. destruct (exec_all ls init) as [s|] eqn:E; [|exists []; apply run_init].
  exists (rev ls ++ []). by eapply exec_all_plain; [apply run_init|..].
Qed.

End runs.

End Sessions.
