(* ===== verification/SessionProps.v ===== *)
(** * SessionProps: what the session locks of requests.go guarantee

    The properties of the runs of [Sessions]: mutual exclusion and fairness of
    the tasks of a session, the operations that must not block, progress, the
    ownership of flows, the answers to requests, and the recovery of re-entrant
    requests. *)

From S2P Require Import Prelude GoLib Messages Store Kafka Routing Queue Sessions.
Import Rpc Routing Sessions.
Open Scope string_scope.
Open Scope Z_scope.
Open Scope list_scope.

Module SessionProps.

(** The session a goroutine works for. *)
Definition session_of (k : task) : string * string := (s_Name (tk_target k), s_ID (tk_target k)).

Definition waits_turn (k : task) : bool := waiting_pc (tk_pc k).

(** It is past its turn and has a lock to release. *)
Definition holds_lock (k : task) : bool := negb (waiting_pc (tk_pc k)) && is_some (tk_after k).

Section helpers.
Context (s : state) (Hi : Queue.inv (abs s)).

Lemma holds_place t k :
  tasks s !! t = Some k → holds_lock k = true →
  ∃ n, tk_after k = Some (tk_inst k, n) ∧ Queue.place_at (abs s) (Queue.PTask t) = Some (tk_inst k, n).
Proof using Hi.
  intros Ht [Hw Ha]%andb_true_iff. apply negb_true_iff in Hw.
  destruct (tk_after k) as [c|] eqn:Ea; [|done].
  destruct (holder_place s t k c Hi Ht Hw Ea) as (n & -> & Hp). eauto.
Qed.

(** The instance of a task has the session of its target. *)
Lemma task_session t k :
  tasks s !! t = Some k → ∃ e, heap s !! tk_inst k = Some e ∧ (Name e, ID e) = session_of k.
Proof using Hi.
  intros Ht. destruct (Queue.i_key _ Hi t (qt_of k) (abs_task s t k Ht)) as (q & Hq & Hk).
  simpl in Hq. rewrite lookup_fmap in Hq. destruct (heap s !! tk_inst k) as [e|]; [|done].
  injection Hq as <-. eauto.
Qed.

(** Where there is a token, the instance is the session's current one. *)
Lemma place_table pl i n e :
  Queue.place_at (abs s) pl = Some (i, n) → heap s !! i = Some e →
  valid e = true ∧ sessionTable s !! (Name e, ID e) = Some i.
Proof using Hi.
  intros Hp He. destruct (Queue.i_place _ Hi _ _ _ Hp) as (q & Hq & Hv & _).
  rewrite (abs_inst s i e He) in Hq. injection Hq as <-. split; [done|].
  apply (Queue.i_table _ Hi). exists (qi_of e). by rewrite (abs_inst s i e He).
Qed.

Lemma wait_rank t k :
  shapes s → tasks s !! t = Some k → waits_turn k = true →
  ∃ n e, tk_before k = Some (tk_inst k, n) ∧ tk_after k = Some (tk_inst k, S n) ∧
    Queue.wait_at (abs s) t = Some (tk_inst k, n) ∧
    heap s !! tk_inst k = Some e ∧ valid e = true ∧ (n < next e)%nat ∧
    sessionTable s !! session_of k = Some (tk_inst k).
Proof using Hi.
  unfold waits_turn. intros Hs Ht Hw. assert (∃ c, tk_before k = Some c) as [[i n] Hb].
  { specialize (Hs t k Ht). unfold shape in Hs. destruct (tk_before k); [eauto|].
    by destruct (tk_pc k), (tk_clear k), (tk_after k). }
  assert (Queue.q_waits (qt_of k) = Some (i, n)) as Hq by (unfold Queue.q_waits, qt_of; simpl; by rewrite Hw).
  destruct (Queue.i_wait _ Hi t (qt_of k) i n (abs_task s t k Ht) Hq) as (E & Ha & q & Hqi & Hv & Hn).
  simpl in E, Ha. subst i. destruct (task_session t k Ht) as (e & He & Hk).
  rewrite (abs_inst s _ e He) in Hqi. injection Hqi as <-. exists n, e. rewrite <-Hk.
  split_and!; try done.
  - unfold Queue.wait_at. by rewrite (abs_task s t k Ht).
  - apply (Queue.i_table _ Hi). exists (qi_of e). by rewrite (abs_inst s _ e He).
Qed.
End helpers.

Section props.
Context (busyTimeout : bool) (defined : string → bool) (fmt_time : Z → string).

Notation reachable := (reachable busyTimeout defined fmt_time).
Notation reachable_plain := (reachable_plain busyTimeout defined fmt_time).
Notation exec := (exec busyTimeout defined fmt_time).
Notation run := (run busyTimeout defined fmt_time).

(** C1: at any moment at most one goroutine has the lock of a session, and no
    deferred lock of that session waits for a tail call meanwhile; this holds
    across the deactivation and the re-creation of the session's instance. *)
Theorem session_mutual_exclusion s t1 t2 k1 k2 :
  reachable s → tasks s !! t1 = Some k1 → tasks s !! t2 = Some k2 →
  session_of k1 = session_of k2 → holds_lock k1 = true →
  (holds_lock k2 = true → t1 = t2) ∧
  (∀ l c e, deferredLocks s !! l = Some c → heap s !! c.1 = Some e → (Name e, ID e) ≠ session_of k1).
Proof.
  intros (Hi & _)%reachable_inv H1 H2 Hk Hh1.
  destruct (holds_place s Hi t1 k1 H1 Hh1) as (n1 & _ & P1).
  destruct (task_session s Hi t1 k1 H1) as (e1 & He1 & K1).
  destruct (place_table s Hi _ _ _ _ P1 He1) as [_ T1]. split.
  - intros Hh2. destruct (holds_place s Hi t2 k2 H2 Hh2) as (n2 & _ & P2).
    destruct (task_session s Hi t2 k2 H2) as (e2 & He2 & K2).
    destruct (place_table s Hi _ _ _ _ P2 He2) as [_ T2].
    rewrite K1, Hk, <-K2, T2 in T1. injection T1 as E. rewrite E in P2.
    assert (Queue.PTask t1 = Queue.PTask t2) as [=] by by eapply (Queue.i_token _ Hi).
    done.
  - intros l [i n] e Hl He Hs. simpl in He.
    assert (Queue.place_at (abs s) (Queue.PLock l) = Some (i, n)) as P2 by exact Hl.
    destruct (place_table s Hi _ _ _ _ P2 He) as [_ T2].
    rewrite Hs, <-K1, T1 in T2. injection T2 as <-.
    by assert (Queue.PTask t1 = Queue.PLock l) by by eapply (Queue.i_token _ Hi).
Qed.

(** The tasks of a session take their turns in the order of their places in
    the queue: when one takes its turn, every other one that waits is behind it. *)
Theorem session_fifo s s' t k flow t' k' :
  reachable s → tasks s !! t = Some k → exec (LTurn t flow) s = Next s' →
  tasks s !! t' = Some k' → waits_turn k' = true → session_of k' = session_of k → t' ≠ t →
  ∃ n n', tk_before k = Some (tk_inst k, n) ∧ tk_before k' = Some (tk_inst k, n') ∧ (n < n')%nat.
Proof.
  intros (Hi & Hs & _)%reachable_inv Ht E Ht' Hw' Hk Hne. cbn [Sessions.exec] in E. rewrite Ht in E.
  unfold take_turn, receive in E.
  destruct (tk_before k) as [c|] eqn:Eb; [|done].
  assert (waits_turn k = true) as Hw.
  { unfold waits_turn. destruct (chans s !! c) as [[]|]; try done; by destruct (tk_pc k). }
  destruct (wait_rank s Hi t k Hs Ht Hw) as (n & e & Hb & _ & W & _ & _ & _ & T).
  destruct (wait_rank s Hi t' k' Hs Ht' Hw') as (n' & e' & Hb' & _ & W' & _ & _ & _ & T').
  rewrite Hk, T in T'. injection T' as Ei. rewrite <-Ei in *. assert (c = (tk_inst k, n)) as -> by congruence.
  assert (chans s !! (tk_inst k, n) = Some Full) as Hc.
  { pose proof (turn_not_closed s t k _ Hi Ht Hw Eb). by destruct (chans s !! _) as [[]|]. }
  exists n, n'. split_and!; [done|done|].
  assert (Queue.place_at (abs s) (Queue.PChan (tk_inst k, n)) = Some (tk_inst k, n)) as P by (simpl; by rewrite Hc).
  pose proof (Queue.i_order _ Hi _ _ _ _ _ P W').
  assert (n ≠ n'); [|lia]. intros ->. by apply Hne, (Queue.i_inj _ Hi t' t (tk_inst k, n')).
Qed.

(** C10: a message is accepted without blocking; a finished task passes the lock on
    without blocking; the end of a deactivation does not block; no step sends on
    or closes a closed channel. *)
Theorem coordination_never_blocks s :
  reachable s →
  (∀ now msg, ∃ s', exec (LAccept now msg) s = Next s') ∧
  (∀ t k, tasks s !! t = Some k → tk_pc k = Releasing → ∃ s', exec (LRelease t) s = Next s') ∧
  (∀ t k, tasks s !! t = Some k → tk_pc k = DFinal → ∃ s', exec (LFinal t) s = Next s') ∧
  (∀ l, exec l s ≠ Panicked).
Proof.
  intros (Hi & Hs & Hp)%reachable_inv.
  assert (∀ t k c, tasks s !! t = Some k → waiting_pc (tk_pc k) = false → tk_after k = Some c →
    chans s !! c = Some Empty) as Hempty.
  { intros t k c Ht Hw Ha. destruct (holder_place s t k c Hi Ht Hw Ha) as (n & -> & P).
    destruct (Queue.i_place _ Hi _ _ _ P) as (q & Hq & Hv & Hn).
    destruct (Queue.i_chans _ Hi _ _ n Hq Hn) as (st & Hst & Hcl). simpl in Hst. rewrite Hst.
    destruct st; [done| |rewrite Hcl in Hv; done].
    assert (Queue.PChan (tk_inst k, n) = Queue.PTask t); [|done].
    eapply (Queue.i_token _ Hi); [|exact P]. simpl. by rewrite Hst. }
  assert (∀ now msg, ∃ s', exec (LAccept now msg) s = Next s') as Hacc.
  { intros now [q|r|d]; cbn [Sessions.exec accept]; [|destruct (requests s !! _) as [ch|] eqn:E|]; try by eexists.
    - destruct (expired _ _); [by eexists|]. destruct (await_child _ s). destruct (q_target q); by eexists.
    - simpl. rewrite (p_empty _ Hp _ _ E). by eexists. }
  assert (∀ t k, tasks s !! t = Some k → tk_pc k = Releasing → ∃ s', release t k s = Next s') as Hrel.
  { intros t k Ht Hpc. unfold release. destruct (tk_after k) as [c|] eqn:Ha; [|by eexists].
    rewrite (Hempty t k c Ht); [by eexists|by rewrite Hpc|done]. }
  assert (∀ t k, tasks s !! t = Some k → tk_pc k = DFinal → ∃ s', final t k s = Next s') as Hfin.
  { intros t k Ht Hpc. unfold final. destruct (task_session s Hi t k Ht) as (e & -> & _).
    specialize (Hs t k Ht). unfold shape in Hs. rewrite Hpc in Hs.
    destruct (tk_after k) as [c|] eqn:Ha; [|exfalso; by destruct (tk_before k), (tk_clear k)].
    rewrite (Hempty t k c Ht); [|by rewrite Hpc|done].
    destruct (valid e && _); by eexists. }
  split_and!; [exact Hacc| | |].
  - intros t k Ht Hpc. cbn [Sessions.exec]. rewrite Ht, Hpc. eauto.
  - intros t k Ht Hpc. cbn [Sessions.exec]. rewrite Ht, Hpc. eauto.
  - intros l. destruct l; cbn [Sessions.exec]; try (destruct (tasks s !! t) as [k|] eqn:Ht; [|done]); try done.
    + by destruct (call_result _ _ s) as [[]|].
    + destruct (Hacc now msg) as [s' E]. cbn [Sessions.exec] in E. by rewrite E.
    + unfold take_turn. destruct (tk_before k); [|done]. destruct (receive _ s); [|done]. by destruct (tk_pc k).
    + destruct (tk_pc k); try done. destruct (tk_msg k); [|done]. by destruct busyTimeout.
    + destruct (tk_pc k); try done. destruct (tk_child k); [|done]. by destruct (results s !! _) as [[]|].
    + destruct (tk_pc k); try done. by destruct (tk_msg k).
    + destruct (tk_pc k); try done. by destruct (tk_msg k).
    + destruct (tk_pc k) eqn:Hpc; try done. destruct (Hrel t k Ht Hpc) as [s' ->]. done.
    + destruct (heap s !! i); [|done]. by destruct (_ && _).
    + destruct (tk_pc k); try done. by destruct (heap s !! _).
    + destruct (tk_pc k); try done. by destruct (heap s !! _).
    + destruct (tk_pc k) eqn:Hpc; try done. destruct (Hfin t k Ht Hpc) as [s' ->]. done.
    + destruct (workers s !! w) as [wk|]; [|done]. destruct (wk_child wk); [|done]. by destruct (results s !! _) as [[]|].
    + destruct (tk_pc k); try done; by destruct (cancelled s).
Qed.

(** C9: as long as the context is not cancelled, the queue of a session is not
    stuck: when a task waits for its turn, another one has the lock, or a tail
    call is to pick up the deferred lock, or the head of the queue can take its
    turn now. *)
Theorem session_progress s t k :
  reachable s → cancelled s = false → tasks s !! t = Some k → waits_turn k = true →
  (∃ t' k', tasks s !! t' = Some k' ∧ session_of k' = session_of k ∧ holds_lock k' = true) ∨
  (∃ l n, deferredLocks s !! l = Some (tk_inst k, n)) ∨
  (∃ t' k', tasks s !! t' = Some k' ∧ session_of k' = session_of k ∧ waits_turn k' = true ∧
    ∀ flow, ∃ s', exec (LTurn t' flow) s = Next s').
Proof.
  intros (Hi & Hs & _)%reachable_inv Hc Ht Hw.
  destruct (wait_rank s Hi t k Hs Ht Hw) as (n & e & _ & _ & W & He & Hv & Hn & _).
  assert (∀ t' k', tasks s !! t' = Some k' → tk_inst k' = tk_inst k → session_of k' = session_of k) as Hsame.
  { intros t' k' Ht' E. destruct (task_session s Hi t k Ht) as (e1 & He1 & <-).
    destruct (task_session s Hi t' k' Ht') as (e2 & He2 & <-). rewrite E in He2. congruence. }
  destruct (Queue.i_cover _ Hi (tk_inst k) (qi_of e) Hc (abs_inst s _ e He) Hv) as (pl & p & P & Hcov).
  pose proof (Queue.i_order _ Hi _ _ _ _ _ P W) as Hpn. destruct pl as [c|t'|l].
  - right. right. simpl in P. destruct (chans s !! c) as [[]|] eqn:Ec; try done. injection P as ->.
    destruct (Hcov p) as [t' W']; [simpl; lia|]. unfold Queue.wait_at in W'. simpl in W'.
    rewrite lookup_fmap in W'. destruct (tasks s !! t') as [k'|] eqn:Ht'; [|done].
    assert (waits_turn k' = true ∧ tk_before k' = Some (tk_inst k, p)) as [Hw' Hb'].
    { simpl in W'. unfold Queue.q_waits, qt_of in W'. simpl in W'. unfold waits_turn. by destruct (waiting_pc _). }
    destruct (wait_rank s Hi t' k' Hs Ht' Hw') as (n' & _ & Hb2 & _). exists t', k'.
    split_and!; [done|apply (Hsame t'); [done|congruence]|done|]. intros flow. cbn [Sessions.exec]. rewrite Ht'.
    unfold take_turn, receive. rewrite Hb', Ec. unfold waits_turn in Hw'. destruct (tk_pc k'); try done; by eexists.
  - left. simpl in P. rewrite lookup_fmap in P. destruct (tasks s !! t') as [k'|] eqn:Ht'; [|done]. simpl in P.
    exists t', k'. unfold Queue.q_holds in P. simpl in P. destruct (waiting_pc (tk_pc k')) eqn:Ew; [done|].
    split_and!; [done| |unfold holds_lock; by rewrite Ew, P].
    apply (Hsame t'); [done|]. destruct (holder_place s t' k' _ Hi Ht' Ew P) as (n2 & E & _). congruence.
  - right. left. exists l, p. exact P.
Qed.

(** C36: the instance a deactivation retired is out of its session: the session has
    another instance or none, no goroutine waits for a turn on it or has its lock, and
    no deferred lock is to be picked up there, so no exclusive request is stranded.
    What can still run on it are requests that were accepted without a turn
    (nonexclusive or re-entrant ones), which have no lock to release. *)
Theorem deactivation_safe s i e :
  reachable s → heap s !! i = Some e → valid e = false →
  sessionTable s !! (Name e, ID e) ≠ Some i ∧
  (∀ t k, tasks s !! t = Some k → tk_inst k = i →
    waits_turn k = false ∧ tk_after k = None ∧ (tk_pc k = Releasing ∨ tk_before k = None)) ∧
  (∀ l n, deferredLocks s !! l ≠ Some (i, n)).
Proof.
  intros (Hi & Hs & _)%reachable_inv He Hv. split_and!.
  - intros HT. destruct (table_entry s _ i Hi HT) as (e' & He' & Hv' & _). congruence.
  - intros t k Ht <-. assert (waits_turn k = false) as Hw.
    { apply not_true_is_false. intros H.
      destruct (wait_rank s Hi t k Hs Ht H) as (n & e' & _ & _ & _ & He' & Hv' & _). congruence. }
    assert (tk_after k = None) as Ha.
    { destruct (tk_after k) eqn:Ea; [exfalso|done].
      assert (holds_lock k = true) as H by (unfold holds_lock, waits_turn in *; by rewrite Hw, Ea).
      destruct (holds_place s Hi t k Ht H) as (n & _ & P).
      destruct (place_table s Hi _ _ _ _ P He) as [? _]. congruence. }
    split_and!; [done|done|]. specialize (Hs t k Ht). unfold shape in Hs. rewrite Ha in Hs.
    destruct (tk_before k); [left|by right]. simpl in Hs. rewrite !andb_false_r in Hs || idtac.
    destruct (tk_pc k), (tk_clear k), (tk_child k), (tk_msg k); done.
  - intros l n Hl. assert (Queue.place_at (abs s) (Queue.PLock l) = Some (i, n)) as P by exact Hl.
    destruct (place_table s Hi _ _ _ _ P He) as [? _]. congruence.
Qed.

(** C8: every step of the goroutines is a sequence of steps of the queue
    specification [Queue], which keep its invariant. *)
Theorem session_refinement s l s' :
  reachable s → allowed l s → exec l s = Next s' →
  Queue.qsteps (abs s) (abs s') ∧ Queue.inv (abs s').
Proof.
  intros (Hi & Hs & _)%reachable_inv Ha E.
  pose proof (sim_exec _ _ _ l s s' Hi Hs Ha E) as Hq. split; [exact Hq|]. by eapply Queue.qsteps_inv.
Qed.

(** When no request waits for a child of a previous execution, the checks that
    log a flow violation never fail: a queued task that is about to run its
    handler, and a deactivation whose turn has come, find the flow of the
    instance released; and a flow that is not released has an owner. *)
Theorem no_flow_violation s i e :
  reachable_plain s → heap s !! i = Some e →
  (∀ t k, tasks s !! t = Some k → tk_inst k = i → tk_pc k = Ready → is_some (tk_before k) = true →
     ActiveFlow e = releasedFlow) ∧
  (∀ t k c, tasks s !! t = Some k → tk_inst k = i → tk_pc k = DWait → tk_before k = Some c →
     chans s !! c = Some Full → ActiveFlow e = releasedFlow) ∧
  (ActiveFlow e ≠ releasedFlow →
     (∃ l n, deferredLocks s !! l = Some (i, n)) ∨
     (∃ t k, tasks s !! t = Some k ∧ tk_inst k = i ∧ holds_lock k = true ∧
        (tk_pc k = Running → s_Flow (tk_target k) = ActiveFlow e))).
Proof.
  intros Hr He. destruct (plain_flows _ _ _ _ Hr) as [Hf Hn].
  apply plain_reachable, reachable_inv in Hr as (Hi & Hs & _). destruct (Hf i e He) as [Howned Hflow].
  assert (∀ pl n, Queue.place_at (abs s) pl = Some (i, n) →
    (∀ t k f, pl = Queue.PTask t → tasks s !! t = Some k → own k ≠ Some (i, f)) →
    (∀ l, pl ≠ Queue.PLock l) → ActiveFlow e = releasedFlow) as Hfree.
  { intros pl n P Hno Hnl. destruct (decide (ActiveFlow e = releasedFlow)) as [|Hne]; [done|exfalso].
    destruct (Howned Hne) as [(l & n' & Hl)|(t & k & f & Ht & Ho)].
    - apply (Hnl l). eapply (Queue.i_token _ Hi); [exact P|exact Hl].
    - destruct (own_place s t k i f Ht Ho) as (n' & _ & P').
      eapply (Hno t k f); [|done|done]. by eapply (Queue.i_token _ Hi). }
  split_and!.
  - intros t k Ht <- Hpc Hb. assert (∃ c, tk_after k = Some c) as [c Ha].
    { specialize (Hs t k Ht). unfold shape in Hs. rewrite Hpc, Hb in Hs. destruct (tk_after k); [eauto|].
      exfalso. by destruct (tk_clear k). }
    destruct (holder_place s t k c Hi Ht) as (n & -> & P); [by rewrite Hpc|done|].
    apply (Hfree _ n P); [|done]. intros t' k' f [= <-] Ht' Ho. assert (k' = k) as -> by congruence.
    unfold own in Ho. rewrite Ha, Hpc in Ho. by destruct (tk_before k).
  - intros t k c Ht <- Hpc Hb Hc.
    destruct (turn_place s t k c Hi Ht) as (n & -> & P); [by rewrite Hpc|done|done|].
    by apply (Hfree _ n P).
  - intros [(l & n & Hl)|(t & k & f & Ht & Ho)]%Howned; [left; eauto|right].
    exists t, k. pose proof (own_inst s t k i f Hi Ht Ho) as ->. split_and!; [done|done| |].
    + unfold own in Ho. unfold holds_lock. destruct (tk_after k) as [[]|]; [|done].
      destruct (tk_pc k); try done; by destruct (tk_before k).
    + intros Hpc. symmetry. apply (Hflow t k); [done|]. unfold own in *.
      destruct (tk_after k) as [[]|]; [|done]. rewrite Hpc in *. by simplify_eq.
Qed.

(** C4: in a run that is not cancelled, the answers sent for a request id (a
    response, a completion, or the request of a tail call) and the accepted
    requests that still wait for theirs are together the requests accepted under
    that id: nothing is answered twice, and nothing is dropped. *)
Theorem requests_answered_once ls s id :
  run allowed ls s → cancelled s = false → (∀ l, l ∈ ls → issues id l = false) →
  (answers id (outbox s) + (count (waits id) (tasks s) + count (works id) (workers s)) =
   sum_list_with (accepts id) ls)%nat.
Proof.
  intros Hr Hc Hid. rewrite <-(run_ledger _ _ _ id ls s Hr Hc Hid). unfold ledger. lia.
Qed.

(** The response to a pending call reaches its caller, once: it is accepted
    without blocking, the caller then reads exactly its value and its error, and
    afterwards another response to the same call changes nothing. *)
Theorem call_gets_its_response s id ch now r :
  reachable s → requests s !! id = Some ch → r_RequestID r = id →
  ∃ s1 s2, exec (LAccept now (MResponse r)) s = Next s1 ∧
    call_result id ch s1 = Some (mkResult (r_Value r) (r_ErrMsg r), s2) ∧
    exec (LAccept now (MResponse r)) s1 = Next s1 ∧
    exec (LAccept now (MResponse r)) s2 = Next s2.
Proof.
  intros (_ & _ & Hp)%reachable_inv Hid <-. cbn [Sessions.exec accept]. rewrite Hid. simpl.
  rewrite (p_empty _ Hp _ _ Hid). eexists _, _. split; [reflexivity|].
  unfold call_result. simpl. rewrite lookup_insert_eq. split; [reflexivity|].
  simpl. rewrite !lookup_delete_eq. done.
Qed.

(** *** Arrival *)

Lemma schedule_target target q child i e fr s t k :
  tasks s !! t = None → tasks (schedule target q child i e fr s) !! t = Some k →
  session_of k = (s_Name target, s_ID target).
Proof.
  intros Hn Ht. unfold schedule in Ht. destruct (_ && _).
  - set (dl := if String.eqb _ _ then _ else _) in Ht.
    destruct dl; simpl in Ht; rewrite lookup_insert in Ht; case_decide; by simplify_eq.
  - destruct (String.eqb _ _); simpl in Ht; rewrite lookup_insert in Ht; case_decide; by simplify_eq.
Qed.

Lemma acceptSession_target target q child s t k :
  tasks s !! t = None → tasks (acceptSession target q child s) !! t = Some k →
  session_of k = (s_Name target, s_ID target).
Proof.
  unfold acceptSession. intros Hn. destruct (find_instance _ s) as [[i e]|]; by apply schedule_target.
Qed.

Lemma schedule_arrival target q child i e fr s t k :
  tasks s !! t = None → tasks (schedule target q child i e fr s) !! t = Some k →
  waits_turn k = true → tk_before k = Some (i, next e).
Proof.
  intros Hn Ht Hw. unfold schedule in Ht.
  destruct (_ && _).
  - set (dl := if String.eqb _ _ then _ else _) in Ht.
    assert (k = request_task None child dl i target q (match dl with Some _ => true | None => false end)) as ->.
    { destruct dl; simpl in Ht; rewrite lookup_insert in Ht; case_decide; by simplify_eq. }
    unfold waits_turn in Hw. simpl in Hw. by destruct child.
  - destruct (String.eqb _ _); simpl in Ht; rewrite lookup_insert in Ht; case_decide; simplify_eq; [|done].
    unfold waits_turn in Hw. simpl in Hw. by destruct child.
Qed.

(** A request that has to wait for its turn is placed behind every task that
    already waits for the same session. *)
Theorem session_arrival s now q s' t k t' k' :
  reachable s → allowed (LAccept now (MRequest q)) s → exec (LAccept now (MRequest q)) s = Next s' →
  tasks s !! t = None → tasks s' !! t = Some k → waits_turn k = true →
  tasks s !! t' = Some k' → waits_turn k' = true → session_of k' = session_of k →
  ∃ i n n', tk_before k' = Some (i, n') ∧ tk_before k = Some (i, n) ∧ (n' < n)%nat.
Proof.
  intros Hr Ha E Hnew Ht Hw Ht' Hw' Hk. destruct (reachable_inv _ _ _ s Hr) as (Hi & Hs & _).
  destruct (wait_rank s Hi t' k' Hs Ht' Hw') as (n' & e' & Hb' & _ & _ & He' & Hv' & Hn' & T').
  cbn [Sessions.exec accept] in E.
  destruct (expired _ _); [injection E as <-; simpl in Ht; congruence|].
  destruct (await_child _ s) as [child s1] eqn:Ec.
  assert (tasks s1 = tasks s ∧ heap s1 = heap s ∧ sessionTable s1 = sessionTable s) as (E1 & E2 & E3).
  { unfold await_child in Ec. by destruct (String.eqb _ ""); simplify_eq. }
  destruct (q_target q) as [|target|]; injection E as <-; [simpl in Ht; congruence| |simpl in Ht; congruence].
  assert (session_of k = (s_Name target, s_ID target)) as Hkt.
  { eapply acceptSession_target; [|exact Ht]. by rewrite E1. }
  assert (find_instance (s_Name target, s_ID target) s1 = Some (tk_inst k', e')) as Hfind.
  { unfold find_instance. by rewrite E3, E2, <-Hkt, <-Hk, T', He', Hv'. }
  unfold acceptSession in Ht. rewrite Hfind in Ht.
  exists (tk_inst k'), (next e'), n'. split_and!; [done| |done].
  eapply schedule_arrival; [|exact Ht|exact Hw]. by rewrite E1.
Qed.

End props.

(* ---------------------------------------------------------------------- *)
(** ** Concrete runs *)

Module Witness.

Definition request (id parent flow lock child : string) : Request :=
  Call (mkCall id "v" zeroTime (SessionTarget (mkSession "Account" "1" flow lock)) "m" "n0" 0 child parent false).

Definition arrive (id parent flow child : string) : label := LAccept 1 (MRequest (request id parent flow "" child)).

Definition after (ls : list label) : state := state_after true (λ _, true) (λ _, "") ls.

Definition task0 : task := mkTask None None None 0 (mkSession "" "" "" "") None false Releasing.

Definition nth_task (t : nat) (s : state) : task := default task0 (tasks s !! t).

Definition inst0 (s : state) : SessionInstance :=
  default (mkInstance "" "" "" false 0 0 false) (heap s !! 0%nat).

(** Two requests to one actor; the first runs. *)
Definition two : list label := [arrive "r1" "" "f" ""; arrive "r2" "" "g" ""; LTurn 0 ""; LStart 0].

Definition s_two : state := after two.

Ltac compute_side := vm_compute; reflexivity.

Lemma mutual_exclusion_witness :
  holds_lock (nth_task 0 s_two) = true ∧ holds_lock (nth_task 1 s_two) = false.
Proof.
  assert (holds_lock (nth_task 0 s_two) = true) as H0 by compute_side.
  split; [exact H0|]. apply not_true_is_false. intros H.
  assert (0%nat = 1%nat) as Hf; [|discriminate Hf].
  apply (session_mutual_exclusion true (λ _, true) (λ _, "") s_two 0 1 (nth_task 0 s_two)
    (nth_task 1 s_two) (reachable_after _ _ _ two)); [compute_side..|exact H0|exact H].
Defined.

(** Two requests that wait. *)
Definition waiting : list label := [arrive "r1" "" "f" ""; arrive "r2" "" "g" ""].

Definition s_waiting : state := after waiting.

Definition next_state (l : label) (s : state) : state :=
  match exec true (λ _, true) (λ _, "") l s with Next s' => s' | _ => s end.

Lemma fifo_witness :
  ∃ n n', tk_before (nth_task 0 s_waiting) = Some (tk_inst (nth_task 0 s_waiting), n) ∧
    tk_before (nth_task 1 s_waiting) = Some (tk_inst (nth_task 0 s_waiting), n') ∧ (n < n')%nat.
Proof.
  apply (session_fifo true (λ _, true) (λ _, "") s_waiting (next_state (LTurn 0 "") s_waiting) 0
    (nth_task 0 s_waiting) "" 1 (nth_task 1 s_waiting) (reachable_after _ _ _ waiting));
    [compute_side..|discriminate].
Defined.

Definition s_first : state := after [arrive "r1" "" "f" ""].

Lemma arrival_witness :
  ∃ i n n', tk_before (nth_task 0 s_first) = Some (i, n') ∧
    tk_before (nth_task 1 s_waiting) = Some (i, n) ∧ (n' < n)%nat.
Proof.
  apply (session_arrival true (λ _, true) (λ _, "") s_first 1
    (request "r2" "" "g" "" "") s_waiting 1 (nth_task 1 s_waiting) 0
    (nth_task 0 s_first) (reachable_after _ _ _ [arrive "r1" "" "f" ""]));
    [apply allowedb_spec; compute_side|compute_side..].
Defined.

Lemma never_blocks_witness : ∃ s', exec true (λ _, true) (λ _, "") (arrive "r3" "" "h" "") s_two = Next s'.
Proof.
  exact (proj1 (coordination_never_blocks true (λ _, true) (λ _, "") s_two (reachable_after _ _ _ two)) 1 _).
Defined.

Lemma progress_witness :
  let k := nth_task 1 s_waiting in
  (∃ t' k', tasks s_waiting !! t' = Some k' ∧ session_of k' = session_of k ∧ holds_lock k' = true) ∨
  (∃ l n, deferredLocks s_waiting !! l = Some (tk_inst k, n)) ∨
  (∃ t' k', tasks s_waiting !! t' = Some k' ∧ session_of k' = session_of k ∧ waits_turn k' = true ∧
    ∀ flow, ∃ s', exec true (λ _, true) (λ _, "") (LTurn t' flow) s_waiting = Next s').
Proof.
  apply (session_progress true (λ _, true) (λ _, "") s_waiting 1 (nth_task 1 s_waiting)
    (reachable_after _ _ _ waiting)); compute_side.
Defined.

(** One request to completion, then the deactivation of its actor. *)
Definition deactivated : list label :=
  [arrive "r1" "" "f" ""; LTurn 0 ""; LStart 0; LFinish 0 5 true (HOk "done"); LRelease 0;
   LCollect 0 9; LTurn 0 "flow-deactivate-1"; LCheck 0; LCallback 0 false; LFinal 0].

Definition s_deactivated : state := after deactivated.

Lemma deactivation_witness :
  sessionTable s_deactivated !! (Name (inst0 s_deactivated), ID (inst0 s_deactivated)) ≠ Some 0%nat ∧
  (∀ t k, tasks s_deactivated !! t = Some k → tk_inst k = 0%nat →
    waits_turn k = false ∧ tk_after k = None ∧ (tk_pc k = Releasing ∨ tk_before k = None)) ∧
  (∀ l n, deferredLocks s_deactivated !! l ≠ Some (0%nat, n)).
Proof.
  apply (deactivation_safe true (λ _, true) (λ _, "") s_deactivated 0 (inst0 s_deactivated)
    (reachable_after _ _ _ deactivated)); compute_side.
Defined.

(** A nonexclusive request that arrives while the callback deactivates the actor is
    accepted on the instance, which is then retired: its handler runs on it. *)
Definition retired : list label :=
  [arrive "r1" "" "f" ""; LTurn 0 ""; LStart 0; LFinish 0 5 true (HOk "done"); LRelease 0;
   LCollect 0 9; LTurn 0 "flow-deactivate-1"; LCheck 0; arrive "r2" "" "nonexclusive" "";
   LCallback 0 false; LFinal 0; LStart 1].

Example nonexclusive_on_retired :
  let s := after retired in
  valid (inst0 s) = false ∧ sessionTable s = ∅ ∧
  tk_inst (nth_task 1 s) = 0%nat ∧ tk_pc (nth_task 1 s) = Running.
Proof. vm_compute. done. Qed.

Lemma refinement_witness :
  Queue.qsteps (abs s_two) (abs (next_state (LFinish 0 5 true (HOk "done")) s_two)) ∧
  Queue.inv (abs (next_state (LFinish 0 5 true (HOk "done")) s_two)).
Proof.
  apply (session_refinement true (λ _, true) (λ _, "") s_two (LFinish 0 5 true (HOk "done"))
    (next_state (LFinish 0 5 true (HOk "done")) s_two) (reachable_after _ _ _ two)); [exact I|compute_side].
Defined.

Definition turned : list label := waiting ++ [LTurn 0 ""].

Definition s_turned : state := after turned.

Lemma no_flow_violation_witness : ActiveFlow (inst0 s_turned) = "released".
Proof.
  destruct (no_flow_violation true (λ _, true) (λ _, "") s_turned 0 (inst0 s_turned)
    (plain_after _ _ _ turned eq_refl)) as [H _]; [compute_side|].
  apply (H 0%nat (nth_task 0 s_turned)); compute_side.
Defined.

Lemma answered_once_witness :
  (answers "r1" (outbox s_deactivated) +
    (count (waits "r1") (tasks s_deactivated) + count (works "r1") (workers s_deactivated)) =
   sum_list_with (accepts "r1") (rev deactivated ++ []))%nat.
Proof.
  assert (exec_all true (λ _, true) (λ _, "") deactivated init = Some s_deactivated) as E by compute_side.
  apply (requests_answered_once true (λ _, true) (λ _, "") (rev deactivated ++ []) s_deactivated "r1"
    (exec_all_run _ _ _ deactivated [] init _ (run_init _ _ _ _) E)); [compute_side|].
  intros l Hl. repeat (apply elem_of_cons in Hl as [->|Hl]; [reflexivity|]). by apply elem_of_nil in Hl.
Defined.

(** A call, its response, and its reader. *)
Definition calling : state :=
  after [LAsync "c1" (mkDestination (Service "svc") "m") zeroTime "" "v" false true].

Definition c1_response : Response := mkResponse "c1" "42" zeroTime "" "n0".

Lemma call_response_witness :
  ∃ s1 s2, exec true (λ _, true) (λ _, "") (LAccept 1 (MResponse c1_response)) calling = Next s1 ∧
    call_result "c1" 0 s1 = Some (mkResult "42" "", s2) ∧
    exec true (λ _, true) (λ _, "") (LAccept 1 (MResponse c1_response)) s1 = Next s1 ∧
    exec true (λ _, true) (λ _, "") (LAccept 1 (MResponse c1_response)) s2 = Next s2.
Proof.
  apply (call_gets_its_response true (λ _, true) (λ _, "") calling "c1" 0 1 c1_response
    (reachable_after _ _ _ _)); compute_side.
Defined.

(** *** Re-entrant requests after a failure

    [r1] called its own actor with [r2], which called elsewhere with [r3], when the
    sidecar failed.  Recovery resends [r1] and [r2], each waiting for its child.
    When [r3] completes, [r2] releases the flow although [r1] has the lock. *)
Definition recovered : list label :=
  [arrive "r1" "" "f" "r2"; arrive "r2" "r1" "f" "r3"; LTurn 0 "";
   LAccept 1 (MResponse (mkResponse "r3" "v" zeroTime "" "n0")); LChild 1; LStart 1;
   arrive "r4" "r2" "f" ""].

(** The same calls without a failure. *)
Definition undisturbed : list label :=
  [arrive "r1" "" "f" ""; LTurn 0 ""; LStart 0; arrive "r2" "r1" "f" ""; LStart 1;
   arrive "r4" "r2" "f" ""].

(** A re-entrant call made by [r2] is queued behind [r1], which waits for [r2]:
    neither can go on; without the failure the call runs at once. *)
Example reentrant_recovery_deadlock :
  let s := after recovered in
  (tk_pc (nth_task 0 s), tk_pc (nth_task 1 s), tk_pc (nth_task 2 s)) = (WaitChild, Running, WaitTurn) ∧
  (tk_before (nth_task 2 s), holds_lock (nth_task 0 s)) = (tk_after (nth_task 0 s), true) ∧
  (∀ flow, exec true (λ _, true) (λ _, "") (LTurn 2 flow) s = Blocked) ∧
  exec true (λ _, true) (λ _, "") (LChild 0) s = Blocked ∧
  tk_pc (nth_task 2 (after undisturbed)) = Ready.
Proof. vm_compute. done. Qed.

End Witness.

End SessionProps.
