(* ===== verification/Heap.v ===== *)
(** * Heap: Go's package container/heap

    The sources use package [heap] of Go's standard library through its
    interface (Len, Less, Swap, Push, Pop).  [HeapItem] is what an element must
    provide; [up], [down], [heap_Push] and [heap_Pop] are the package's loops on
    a slice of elements whose [Swap] and [Push] also record positions.  Indexing
    out of range is a panic, the [None] of these functions; the lemmas show that
    it does not occur, that the heap order is kept, and that the smallest element
    comes out first. *)

From S2P Require Import Prelude.
Open Scope Z_scope.
Open Scope list_scope.

(** An element: its priority (the smallest first), the part that the heap does not
    change, and the field where it keeps its position. *)
Class HeapItem (A : Type) : Type := {
  Content : Type;
  content : A → Content;
  priority : Content → Z;
  position : A → Z;
  set_position : Z → A → A;
}.

Class HeapItemLaws (A : Type) `{HeapItem A} : Prop := {
  content_set_position : ∀ i a, content (set_position i a) = content a;
  position_set_position : ∀ i a, position (set_position i a) = i;
}.

Section heap.
Context {A : Type} `{HeapItem A}.

Definition Less (q : list A) (i j : nat) : option bool :=
  match q !! i, q !! j with
  | Some a, Some b => Some (priority (content a) <? priority (content b))
  | _, _ => None
  end.

Definition Swap (q : list A) (i j : nat) : option (list A) :=
  match q !! i, q !! j with
  | Some a, Some b => Some (<[j := set_position (Z.of_nat j) a]> (<[i := set_position (Z.of_nat i) b]> q))
  | _, _ => None
  end.

(** The loop of [heap.up], from position [j] towards the root. *)
Fixpoint up (fuel : nat) (q : list A) (j : nat) : option (list A) :=
  let i := ((j - 1) / 2)%nat in
  if Nat.eqb i j then Some q
  else match Less q j i with
       | None => None
       | Some false => Some q
       | Some true =>
           match fuel, Swap q i j with
           | S f, Some q' => up f q' i
           | _, _ => None
           end
       end.

(** The loop of [heap.down], from position [i] among the first [n]. *)
Fixpoint down (fuel : nat) (q : list A) (i n : nat) : option (list A) :=
  let j1 := (2 * i + 1)%nat in
  if (n <=? j1)%nat then Some q
  else
    match (if (S j1 <? n)%nat then Less q (S j1) j1 else Some false) with
    | None => None
    | Some second =>
        let j := if second : bool then S j1 else j1 in
        match Less q j i with
        | None => None
        | Some false => Some q
        | Some true =>
            match fuel, Swap q i j with
            | S f, Some q' => down f q' j n
            | _, _ => None
            end
        end
    end.

Definition heap_Push (q : list A) (x : A) : option (list A) :=
  up (length q) (q ++ [set_position (Z.of_nat (length q)) x]) (length q).

Definition heap_Pop (q : list A) : option (A * list A) :=
  match q with
  | [] => None
  | _ =>
      let n := (length q - 1)%nat in
      match Swap q 0 n with
      | None => None
      | Some q1 =>
          match down n q1 0 n with
          | None => None
          | Some q2 =>
              match q2 !! n with
              | None => None
              | Some x => Some (set_position (-1) x, take n q2)
              end
          end
      end
  end.

(** ** The heap order *)

Definition key_at (q : list A) (i : nat) : Z :=
  match q !! i with Some a => priority (content a) | None => 0 end.

Definition parent (i : nat) : nat := ((i - 1) / 2)%nat.

(** Below [n], no element precedes its parent. *)
Definition ordered (n : nat) (q : list A) : Prop :=
  ∀ i, (0 < i < n)%nat → key_at q (parent i) ≤ key_at q i.

Definition heap_ok (q : list A) : Prop := ordered (length q) q.

(** Every element knows where it is. *)
Definition positions_ok (q : list A) : Prop := ∀ i a, q !! i = Some a → position a = Z.of_nat i.

Context `{!HeapItemLaws A}.

Lemma parent_lt i : (0 < i)%nat → (parent i < i)%nat.
Proof. intros. unfold parent. apply Nat.Div0.div_lt_upper_bound; lia. Qed.

Lemma parent_child i c : (0 < c)%nat → parent c = i → c = (2 * i + 1)%nat ∨ c = S (2 * i + 1).
Proof.
  unfold parent. intros Hc <-. pose proof (Nat.div_mod_eq (c - 1) 2).
  pose proof (Nat.mod_upper_bound (c - 1) 2). lia.
Qed.

Lemma child_parent i : parent (2 * i + 1) = i ∧ parent (S (2 * i + 1)) = i.
Proof.
  unfold parent. split; [symmetry; apply (Nat.div_unique _ 2 _ 0); lia|].
  symmetry; apply (Nat.div_unique _ 2 _ 1); lia.
Qed.

Lemma Less_spec q i j :
  (i < length q)%nat → (j < length q)%nat → Less q i j = Some (key_at q i <? key_at q j).
Proof.
  intros Hi Hj. unfold Less, key_at.
  destruct (lookup_lt_is_Some_2 q i Hi) as [a ->], (lookup_lt_is_Some_2 q j Hj) as [b ->]. done.
Qed.

Record swapped (q q' : list A) (i j : nat) : Prop := {
  sw_length : length q' = length q;
  sw_perm : content <$> q' ≡ₚ content <$> q;
  sw_pos : positions_ok q → positions_ok q';
  sw_other : ∀ k, k ≠ i → k ≠ j → q' !! k = q !! k;
  sw_i : content <$> q' !! i = content <$> q !! j;
  sw_j : content <$> q' !! j = content <$> q !! i;
}.

Lemma Swap_spec q i j :
  (i < length q)%nat → (j < length q)%nat → ∃ q', Swap q i j = Some q' ∧ swapped q q' i j.
Proof using All.
  intros Hi Hj. unfold Swap.
  destruct (lookup_lt_is_Some_2 q i Hi) as [a Ha], (lookup_lt_is_Some_2 q j Hj) as [b Hb].
  rewrite Ha, Hb. eexists. split; [done|].
  set (q' := <[j := set_position (Z.of_nat j) a]> (<[i := set_position (Z.of_nat i) b]> q)).
  assert (∀ k, q' !! k = if decide (k = j) then Some (set_position (Z.of_nat j) a)
                        else if decide (k = i) then Some (set_position (Z.of_nat i) b) else q !! k) as Hq.
  { intros k. unfold q'. destruct (decide (k = j)) as [->|].
    - rewrite list_lookup_insert_eq; [done|]. by rewrite length_insert.
    - rewrite list_lookup_insert_ne by done. destruct (decide (k = i)) as [->|].
      + by rewrite list_lookup_insert_eq.
      + by rewrite list_lookup_insert_ne. }
  split.
  - unfold q'. by rewrite !length_insert.
  - unfold q'. rewrite !list_fmap_insert, !content_set_position.
    assert ((content <$> q) !! i = Some (content a)) as Hci by by rewrite list_lookup_fmap, Ha.
    assert ((content <$> q) !! j = Some (content b)) as Hcj by by rewrite list_lookup_fmap, Hb.
    by apply Permutation_insert_swap.
  - intros Hp k x. rewrite Hq. repeat case_decide; intros ?; simplify_eq; rewrite ?position_set_position; auto.
  - intros k Hki Hkj. rewrite Hq. by rewrite !decide_False.
  - rewrite Hq, Hb. case_decide; simplify_eq; simpl; rewrite ?content_set_position; [congruence|].
    rewrite decide_True by done. simpl. by rewrite content_set_position.
  - rewrite Hq, Ha, decide_True by done. simpl. by rewrite content_set_position.
Qed.

(** What every loop keeps; [n] is the part of the slice it works on. *)
Record rearranged (n : nat) (q q' : list A) : Prop := {
  ra_length : length q' = length q;
  ra_perm : content <$> q' ≡ₚ content <$> q;
  ra_pos : positions_ok q → positions_ok q';
  ra_tail : ∀ k, (n ≤ k)%nat → q' !! k = q !! k;
}.

Lemma rearranged_refl n q : rearranged n q q.
Proof. done. Qed.

Lemma rearranged_trans n q1 q2 q3 : rearranged n q1 q2 → rearranged n q2 q3 → rearranged n q1 q3.
Proof.
  intros [L1 P1 S1 T1] [L2 P2 S2 T2]. split; [congruence|by rewrite P2|auto|].
  intros k Hk. by rewrite T2, T1.
Qed.

Lemma swapped_rearranged n q q' i j :
  swapped q q' i j → (i < n)%nat → (j < n)%nat → rearranged n q q'.
Proof. intros [L P S O _ _] Hi Hj. split; [done..|]. intros k Hk. apply O; lia. Qed.

Lemma key_at_content q q' i j :
  content <$> q' !! i = content <$> q !! j → key_at q' i = key_at q j.
Proof. unfold key_at. destruct (q' !! i), (q !! j); simpl; intros [=]; congruence. Qed.

Lemma swapped_keys q q' i j :
  swapped q q' i j →
  key_at q' i = key_at q j ∧ key_at q' j = key_at q i ∧
  ∀ k, k ≠ i → k ≠ j → key_at q' k = key_at q k.
Proof.
  intros [_ _ _ O Si Sj]. split_and!; [by apply key_at_content..|].
  intros k Hi Hj. unfold key_at. by rewrite O.
Qed.

(** The order holds but for [j], which may precede its parent. *)
Definition ordered_up (n : nat) (q : list A) (j : nat) : Prop :=
  (∀ i, (0 < i < n)%nat → i ≠ j → key_at q (parent i) ≤ key_at q i) ∧
  (∀ c, (0 < c < n)%nat → parent c = j → (0 < j)%nat → key_at q (parent j) ≤ key_at q c).

Lemma ordered_up_swap n q q' j :
  (0 < j < n)%nat → ordered_up n q j → key_at q j < key_at q (parent j) →
  swapped q q' (parent j) j → ordered_up n q' (parent j).
Proof.
  intros Hj [H1 H2] Hlt Hsw. destruct (swapped_keys _ _ _ _ Hsw) as (Ki & Kj & Ko).
  pose proof (parent_lt j ltac:(lia)) as Hp. set (i := parent j) in *. split.
  - intros k Hk Hki. destruct (decide (k = j)) as [->|Hkj].
    + change (parent j) with i. rewrite Ki, Kj. lia.
    + rewrite (Ko k) by done. destruct (decide (parent k = j)) as [E|E1].
      { rewrite E, Kj. apply (H2 k); [done|done|lia]. }
      specialize (H1 k Hk Hkj). destruct (decide (parent k = i)) as [E|E2].
      * rewrite E in *. rewrite Ki. lia.
      * by rewrite (Ko (parent k)).
  - intros c Hc Hci Hi. pose proof (parent_lt i Hi). rewrite (Ko (parent i)) by lia.
    assert (key_at q (parent i) ≤ key_at q i) by (apply H1; lia).
    destruct (decide (c = j)) as [->|Hcj]; [by rewrite Kj|].
    rewrite (Ko c) by (done || (intros ->; pose proof (parent_lt i Hi); lia)).
    specialize (H1 c Hc Hcj). rewrite Hci in H1. lia.
Qed.

Lemma up_spec fuel q j :
  (j < length q)%nat → (j ≤ fuel)%nat → ordered_up (length q) q j →
  ∃ q', up fuel q j = Some q' ∧ rearranged (length q) q q' ∧ heap_ok q'.
Proof using All.
  revert q j. induction fuel as [|f IH]; intros q j Hj Hf Ho.
  { assert (j = 0%nat) as -> by lia. exists q. split_and!; [done|apply rearranged_refl|].
    intros i Hi. apply (proj1 Ho); lia. }
  cbn [up]. change ((j - 1) / 2)%nat with (parent j). destruct (Nat.eqb_spec (parent j) j) as [E|Hne].
  { exists q. split_and!; [done|apply rearranged_refl|]. intros i Hi. apply (proj1 Ho); [done|].
    intros ->. pose proof (parent_lt j ltac:(lia)). lia. }
  assert (0 < j)%nat as Hj0. { destruct j; [done|lia]. }
  pose proof (parent_lt j Hj0). rewrite Less_spec by lia. destruct (Z.ltb_spec (key_at q j) (key_at q (parent j))).
  - destruct (Swap_spec q (parent j) j) as (q' & -> & Hsw); [lia..|].
    destruct (IH q' (parent j)) as (q'' & E & Hr & Hh).
    + rewrite (sw_length _ _ _ _ Hsw). lia.
    + lia.
    + rewrite (sw_length _ _ _ _ Hsw). apply ordered_up_swap with q; [lia|done..].
    + exists q''. split_and!; [done| |done]. rewrite (sw_length _ _ _ _ Hsw) in Hr.
      eapply rearranged_trans; [|exact Hr]. eapply swapped_rearranged; [exact Hsw|lia..].
  - exists q. split_and!; [done|apply rearranged_refl|]. intros i Hi.
    destruct (decide (i = j)) as [->|]; [lia|]. by apply (proj1 Ho).
Qed.

(** The order holds but for [i], which its children may precede. *)
Definition ordered_down (n : nat) (q : list A) (i : nat) : Prop :=
  (∀ k, (0 < k < n)%nat → parent k ≠ i → key_at q (parent k) ≤ key_at q k) ∧
  (∀ c, (0 < c < n)%nat → parent c = i → (0 < i)%nat → key_at q (parent i) ≤ key_at q c).

Lemma ordered_down_swap n q q' i j :
  (j < n)%nat → (0 < j)%nat → parent j = i → ordered_down n q i → key_at q j < key_at q i →
  (∀ c, (0 < c < n)%nat → parent c = i → key_at q j ≤ key_at q c) →
  swapped q q' i j → ordered_down n q' j.
Proof.
  intros Hjn Hj Hpj [H1 H2] Hlt Hmin Hsw. destruct (swapped_keys _ _ _ _ Hsw) as (Ki & Kj & Ko).
  pose proof (parent_lt j Hj) as Hp. rewrite Hpj in Hp. split.
  - intros k Hk Hkj. destruct (decide (k = j)) as [->|Hkj'].
    + rewrite Hpj, Ki, Kj. lia.
    + destruct (decide (k = i)) as [->|Hki].
      * pose proof (parent_lt i ltac:(lia)). rewrite (Ko (parent i)) by lia. rewrite Ki.
        apply (H2 j); [lia|done|lia].
      * rewrite (Ko k) by done. destruct (decide (parent k = i)) as [E|E].
        -- rewrite E, Ki. by apply Hmin.
        -- rewrite (Ko (parent k)) by done. by apply H1.
  - intros c Hc Hcj _. rewrite Hpj, Ki. pose proof (parent_lt c ltac:(lia)).
    rewrite (Ko c) by lia. rewrite <-Hcj. apply H1; [done|lia].
Qed.

Lemma down_spec fuel q i n :
  (n ≤ length q)%nat → (n ≤ fuel + i)%nat → ordered_down n q i →
  ∃ q', down fuel q i n = Some q' ∧ rearranged n q q' ∧ ordered n q'.
Proof using All.
  revert q i. induction fuel as [|f IH]; intros q i Hn Hf Ho; cbn [down].
  { rewrite (proj2 (Nat.leb_le _ _)) by lia. exists q. split_and!; [done|apply rearranged_refl|].
    intros k Hk. apply (proj1 Ho); [done|]. intros E. destruct (parent_child i k); lia. }
  destruct (Nat.leb_spec n (2 * i + 1)) as [Hle|Hlt].
  { exists q. split_and!; [done|apply rearranged_refl|].
    intros k Hk. apply (proj1 Ho); [done|]. intros E. destruct (parent_child i k); lia. }
  set (j1 := (2 * i + 1)%nat) in *. destruct (child_parent i) as [C1 C2]. fold j1 in C1, C2.
  set (right := if (S j1 <? n)%nat then Less q (S j1) j1 else Some false).
  assert (∃ b : bool, right = Some b ∧ let j := if b then S j1 else j1 in
    (j < n)%nat ∧ parent j = i ∧ ∀ c, (0 < c < n)%nat → parent c = i → key_at q j ≤ key_at q c) as (b & -> & Hb).
  { unfold right. destruct (Nat.ltb_spec (S j1) n).
    - rewrite Less_spec by lia. eexists. split; [done|].
      destruct (Z.ltb_spec (key_at q (S j1)) (key_at q j1)); (split_and!; [lia|done|]);
        intros c Hc Hci; destruct (parent_child i c) as [->| ->]; try lia; fold j1; lia.
    - exists false. split_and!; [done|lia|done|]. intros c Hc Hci.
      destruct (parent_child i c) as [->| ->]; try lia; fold j1; lia. }
  cbv zeta in Hb. set (j := if b then S j1 else j1) in *. destruct Hb as (Hjn & Hpj & Hmin).
  assert (i < j)%nat by (unfold j, j1; destruct b; lia).
  rewrite Less_spec by lia. destruct (Z.ltb_spec (key_at q j) (key_at q i)).
  - destruct (Swap_spec q i j) as (q' & -> & Hsw); [lia..|]. pose proof (sw_length _ _ _ _ Hsw) as HL.
    destruct (IH q' j) as (q'' & E & Hr & Hh); [lia|lia| |].
    + apply ordered_down_swap with q i; try done; lia.
    + exists q''. split_and!; [done| |done].
      eapply rearranged_trans; [|exact Hr]. eapply swapped_rearranged; [exact Hsw|lia..].
  - exists q. split_and!; [done|apply rearranged_refl|]. intros k Hk.
    destruct (decide (parent k = i)) as [E|]; [|by apply (proj1 Ho)]. specialize (Hmin k Hk E). rewrite E. lia.
Qed.

(** ** The operations *)

Lemma key_at_app q x i : (i < length q)%nat → key_at (q ++ [x]) i = key_at q i.
Proof. intros Hi. unfold key_at. by rewrite lookup_app_l. Qed.

Theorem heap_Push_spec q x :
  heap_ok q → positions_ok q →
  ∃ q', heap_Push q x = Some q' ∧ heap_ok q' ∧ positions_ok q' ∧
    content <$> q' ≡ₚ content x :: (content <$> q).
Proof using All.
  intros Hh Hp. unfold heap_Push. set (n := length q). set (y := set_position (Z.of_nat n) x).
  destruct (up_spec n (q ++ [y]) n) as (q' & E & [L P S _] & Ho).
  - rewrite length_app. simpl. lia.
  - done.
  - rewrite length_app. simpl. split.
    + intros i Hi Hne. pose proof (parent_lt i ltac:(lia)). rewrite !key_at_app by lia. apply Hh. lia.
    + intros c Hc Hcn Hn. pose proof (parent_lt c ltac:(lia)). lia.
  - exists q'. split_and!; [done|done| |].
    + apply S. intros i a [Ha|[Hi Ha]]%lookup_app_Some; [by apply Hp|].
      apply list_lookup_singleton_Some in Ha as [Hi' <-]. unfold y. rewrite position_set_position. f_equal. lia.
    + rewrite P, fmap_app. simpl. unfold y. rewrite content_set_position. symmetry. apply Permutation_cons_append.
Qed.

(** The first element has the least priority. *)
Lemma heap_ok_first n q i : ordered n q → (i < n)%nat → key_at q 0 ≤ key_at q i.
Proof.
  intros Ho. induction i as [i IH] using (well_founded_induction Nat.lt_wf_0). intros Hi.
  destruct (decide (i = 0%nat)) as [->|]; [lia|]. pose proof (parent_lt i ltac:(lia)).
  specialize (IH (parent i) ltac:(lia) ltac:(lia)). specialize (Ho i ltac:(lia)). lia.
Qed.

Theorem heap_Pop_spec a q :
  heap_ok (a :: q) → positions_ok (a :: q) →
  ∃ x q', heap_Pop (a :: q) = Some (x, q') ∧ content x = content a ∧ position x = -1 ∧
    heap_ok q' ∧ positions_ok q' ∧ content <$> a :: q ≡ₚ content a :: (content <$> q').
Proof using All.
  intros Hh Hp. unfold heap_Pop. set (q0 := a :: q) in *. set (n := (length q0 - 1)%nat).
  assert (length q0 = S n) as HL by (unfold n, q0; simpl; lia).
  destruct (Swap_spec q0 0 n) as (q1 & -> & Hsw); [lia..|]. pose proof (sw_length _ _ _ _ Hsw) as L1.
  destruct (swapped_keys _ _ _ _ Hsw) as (K0 & Kn & Ko).
  destruct (down_spec n q1 0 n) as (q2 & -> & [L2 P2 S2 T2] & Ho2); [lia|lia| |].
  { split; [|lia]. intros k Hk Hpk. pose proof (parent_lt k ltac:(lia)). rewrite !Ko by lia. apply Hh. lia. }
  assert (content <$> q2 !! n = Some (content a)) as Hn.
  { rewrite T2 by lia. by rewrite (sw_j _ _ _ _ Hsw). }
  destruct (q2 !! n) as [x|] eqn:Ex; [|done]. injection Hn as Hx.
  exists (set_position (-1) x), (take n q2). split_and!; [done| | | | |].
  - by rewrite content_set_position.
  - by rewrite position_set_position.
  - assert (∀ i, (i < n)%nat → key_at (take n q2) i = key_at q2 i) as Kt
      by (intros i Hi; unfold key_at; by rewrite lookup_take_lt).
    unfold heap_ok. rewrite length_take. intros i Hi. pose proof (parent_lt i ltac:(lia)).
    rewrite !Kt by lia. apply Ho2. lia.
  - intros i b Hb. apply lookup_take_Some in Hb as [Hb _].
    apply S2; [|done]. by apply (sw_pos _ _ _ _ Hsw).
  - rewrite <-(sw_perm _ _ _ _ Hsw), <-P2.
    assert (q2 = take n q2 ++ [x]) as E2.
    { rewrite <-(take_drop n q2) at 1. f_equal. apply list_eq. intros [|i].
      - rewrite lookup_drop, Nat.add_0_r. done.
      - rewrite lookup_drop. simpl. apply lookup_ge_None. lia. }
    rewrite E2 at 1. rewrite fmap_app. simpl. rewrite Hx. by rewrite <-Permutation_cons_append.
Qed.

End heap.
