(* ===== verification/Reminders.v ===== *)
(** * Reminders: the queue of reminders and its processing

    Models src/core/internal/runtime/reminder_queue.go and reminders.go.  The
    queue is the slice of entries that package [heap] keeps in order; an entry is
    a pointer that occurs in no other place than its slot, so it is a value here,
    with its [index] field.  The two Prometheus gauges are counters. *)

From Stdlib Require Import Sorted.
From S2P Require Import Prelude GoLib Store Heap.
Import Store.
Open Scope string_scope.
Open Scope Z_scope.
Open Scope list_scope.
Open Scope go_scope.

Module Reminders.

(** actors.go. *)
Record Actor : Type := mkActor { a_Type : string; a_ID : string }.

#[export] Instance Actor_eq_dec : EqDecision Actor.
Proof. solve_decision. Defined.

Record Reminder : Type := mkReminder {
  r_Actor : Actor;
  r_ID : string;
  r_key : string;
  r_Path : string;
  r_TargetTime : Z;
  r_Period : Z;
  r_EncodedData : string;
}.

#[export] Instance Reminder_eq_dec : EqDecision Reminder.
Proof. solve_decision. Defined.

Record reminderEntry : Type := mkEntry { e_r : Reminder; e_cancelled : bool; e_index : Z }.

Definition e_content (e : reminderEntry) : Reminder * bool := (e_r e, e_cancelled e).

#[export] Instance reminder_item : HeapItem reminderEntry := {|
  Content := Reminder * bool;
  content := e_content;
  priority c := r_TargetTime c.1;
  position := e_index;
  set_position i e := mkEntry (e_r e) (e_cancelled e) i;
|}.

#[export] Instance reminder_item_laws : HeapItemLaws reminderEntry.
Proof. by split. Qed.

(** The queue and the gauges of active and of cancelled reminders. *)
Record reminderQueue : Type := mkQueue {
  entries : list reminderEntry;
  active : Z;
  cancelled : Z;
}.

Definition StatusOK : Z := 200.

(* ---------------------------------------------------------------------- *)
(** ** reminder_queue.go *)

(** A failed operation of package [heap] is an index out of range. *)
Definition in_range {W A} (o : option A) : M W A := λ w,
  match o with Some a => (Ok a, w) | None => (Panic "index out of range", w) end.

Definition add (b : Reminder) : M reminderQueue Z :=
  let* st := get in
  let* q := in_range (heap_Push (entries st) (mkEntry b false 0)) in
  modify (λ _, mkQueue q (active st + 1) (cancelled st)) ;;*
  ret StatusOK.

Definition matching (actor : Actor) (ID : string) (e : reminderEntry) : bool :=
  negb (e_cancelled e) && bool_decide (r_Actor (e_r e) = actor) &&
  (String.eqb ID "" || String.eqb (r_ID (e_r e)) ID).

Definition cancel_entry (e : reminderEntry) : reminderEntry := mkEntry (e_r e) true (e_index e).

(** The loop of [cancel], from the entry [idx] on. *)
Fixpoint cancel_loop (actor : Actor) (ID : string) (rest : list reminderEntry) (idx : nat)
    (st : reminderQueue) (found : list Reminder) : list Reminder * reminderQueue :=
  match rest with
  | [] => (found, st)
  | e :: rest' =>
      if matching actor ID e then
        cancel_loop actor ID rest' (S idx)
          (mkQueue (<[idx := cancel_entry e]> (entries st)) (active st - 1) (cancelled st + 1))
          (found ++ [e_r e])
      else cancel_loop actor ID rest' (S idx) st found
  end.

Definition cancel (actor : Actor) (ID : string) (st : reminderQueue) : list Reminder * reminderQueue :=
  cancel_loop actor ID (entries st) 0 st [].

Fixpoint find_loop (actor : Actor) (ID : string) (rest : list reminderEntry) (result : list Reminder)
    : list Reminder :=
  match rest with
  | [] => result
  | e :: rest' => find_loop actor ID rest' (if matching actor ID e then result ++ [e_r e] else result)
  end.

Definition find (actor : Actor) (ID : string) (st : reminderQueue) : list Reminder :=
  find_loop actor ID (entries st) [].

(** The loop of [nextReminderBefore]; each turn takes an entry out. *)
Fixpoint next_loop (fuel : nat) (t : Z) : M reminderQueue (option Reminder) :=
  let* st := get in
  match entries st with
  | [] => ret None
  | e :: _ =>
      if Before (r_TargetTime (e_r e)) t then
        match fuel with
        | O => λ w, (OutOfFuel, w)
        | S f =>
            let* '(re, q) := in_range (heap_Pop (entries st)) in
            if e_cancelled re then
              modify (λ _, mkQueue q (active st) (cancelled st - 1)) ;;*
              next_loop f t
            else
              modify (λ _, mkQueue q (active st - 1) (cancelled st)) ;;*
              ret (Some (e_r re))
        end
      else ret None
  end.

Definition nextReminderBefore (t : Z) : M reminderQueue (option Reminder) := λ st,
  next_loop (length (entries st)) t st.

(* ---------------------------------------------------------------------- *)
(** ** reminders.go: the persisted form *)

(** The text forms of instants ([time.Time.MarshalText]) and durations
    ([time.Duration.String], [time.ParseDuration]). *)
Class TimeText : Type := {
  MarshalText : Z → string + gerror;
  UnmarshalText : string → Z + gerror;
  Duration_String : Z → string;
  ParseDuration : string → Z + gerror;
}.

(** Their documented round trips: instants of the years 0 to 9999, positive
    durations of 64 bits. *)
Class TimeTextLaws `{TimeText} : Prop := {
  time_text : ∀ t s, MarshalText t = inl s → UnmarshalText s = inl t;
  duration_text : ∀ d, 0 < d < 2 ^ 63 → ParseDuration (Duration_String d) = inl d;
}.

Section persist.
Context `{TimeText}.

(** The text of a time, empty when it has none. *)
Definition time_string (t : Z) : string := match MarshalText t with inl s => s | inr _ => "" end.

Definition persistReminder (r : Reminder) : gmap string string :=
  let rMap : gmap string string := ∅ in
  let rMap := <["actorType" := a_Type (r_Actor r)]> rMap in
  let rMap := <["actorId" := a_ID (r_Actor r)]> rMap in
  let rMap := <["id" := r_ID r]> rMap in
  let rMap := <["path" := r_Path r]> rMap in
  let rMap := <["targetTime" := time_string (r_TargetTime r)]> rMap in
  let rMap := if 0 <? r_Period r then <["period" := Duration_String (r_Period r)]> rMap else rMap in
  if String.eqb (r_EncodedData r) "" then rMap else <["encodedData" := r_EncodedData r]> rMap.

Definition field (k : string) (m : gmap string string) : string := default "" (m !! k).

Definition load (actor : Actor) (id key : string) (rMap : gmap string string) : Reminder + gerror :=
  match UnmarshalText (field "targetTime" rMap) with
  | inr err => inr err
  | inl targetTime =>
      let made period :=
        mkReminder (mkActor (field "actorType" rMap) (field "actorId" rMap)) (field "id" rMap) key
          (field "path" rMap) targetTime period (field "encodedData" rMap) in
      match rMap !! "period" with
      | Some ps =>
          match ParseDuration ps with
          | inl period => inl (made period)
          | inr err => inr err
          end
      | None => inl (made 0)
      end
  end.

(** The request body that schedules a reminder, decoded; [p_Data] is the JSON
    text of its data, if any. *)
Record scheduleReminderPayload : Type := mkPayload {
  p_Path : string;
  p_TargetTime : Z;
  p_Period : string;
  p_Data : option (string + gerror);
}.

Section parse.
(** [json.Unmarshal] of a body. *)
Context (Unmarshal : string → scheduleReminderPayload + gerror).

Definition parse (actor : Actor) (id key payload : string)
    : (Reminder * gmap string string) + gerror :=
  match Unmarshal payload with
  | inr err => inr err
  | inl data =>
      match (if String.eqb (p_Period data) "" then inl 0 else ParseDuration (p_Period data)) with
      | inr err => inr err
      | inl period =>
          match p_Data data with
          | Some (inr err) => inr err
          | d =>
              let encoded := match d with Some (inl buf) => buf | _ => "" end in
              let r := mkReminder actor id key (p_Path data) (p_TargetTime data) period encoded in
              inl (r, persistReminder r)
          end
      end
  end.
End parse.
End persist.

(* ---------------------------------------------------------------------- *)
(** ** reminders.go: processReminders *)

Section process.
Context {R T : Type} `{Redis R} `{TimeText}.
Context (MangleKey : string → string).

(** [TellActor] of commands.go, on the state [T] of the rpc layer. *)
Context (TellActor : Actor → string → string → M T unit).

Record world : Type := mkWorld { w_queue : reminderQueue; w_redis : R; w_rpc : T }.

Definition on_queue {A} (m : M reminderQueue A) : M world A := λ w,
  let '(a, q) := m (w_queue w) in (a, mkWorld q (w_redis w) (w_rpc w)).
Definition on_redis {A} (m : M R A) : M world A := λ w,
  let '(a, r) := m (w_redis w) in (a, mkWorld (w_queue w) r (w_rpc w)).
Definition on_rpc {A} (m : M T A) : M world A := λ w,
  let '(a, t) := m (w_rpc w) in (a, mkWorld (w_queue w) (w_redis w) t).

Definition persistTargetTime (key : string) (targetTime : Z) : M R Z :=
  HSet MangleKey key "targetTime" (time_string targetTime).

Definition at_time (t : Z) (r : Reminder) : Reminder :=
  mkReminder (r_Actor r) (r_ID r) (r_key r) (r_Path r) t (r_Period r) (r_EncodedData r).

Fixpoint process_loop (fuel : nat) (fireTime : Z) : M world unit :=
  let* o := on_queue (nextReminderBefore fireTime) in
  match o with
  | None => ret tt
  | Some r =>
      let* told := attempt (on_rpc (TellActor (r_Actor r) (r_Path r) (r_EncodedData r))) in
      match told with
      | inr _ => on_queue (add r) ;;* ret tt
      | inl _ =>
          (if 0 <? r_Period r then
             let r := at_time (fireTime + r_Period r) r in
             on_queue (add r) ;;*
             attempt (on_redis (persistTargetTime (r_key r) (r_TargetTime r))) ;;* ret tt
           else attempt (on_redis (Del MangleKey (r_key r))) ;;* ret tt) ;;*
          match fuel with
          | O => λ w, (OutOfFuel, w)
          | S f => process_loop f fireTime
          end
      end
  end.

Definition processReminders (fireTime : Z) : M world unit := λ w,
  process_loop (length (entries (w_queue w))) fireTime w.
End process.

(* ---------------------------------------------------------------------- *)
(** ** The invariant of the queue *)

(** The reminders of the queue, cancelled or not. *)
Definition contents (st : reminderQueue) : list (Reminder * bool) := e_content <$> entries st.

Definition live (l : list (Reminder * bool)) : list Reminder := (filter (λ c, c.2 = false) l).*1.

Definition dead (l : list (Reminder * bool)) : list Reminder := (filter (λ c, c.2 = true) l).*1.

(** The slice is a heap whose entries know their place, and the gauges count. *)
Record wf (st : reminderQueue) : Prop := {
  wf_heap : heap_ok (entries st);
  wf_positions : positions_ok (entries st);
  wf_active : active st = Z.of_nat (length (live (contents st)));
  wf_cancelled : cancelled st = Z.of_nat (length (dead (contents st)));
}.

Definition empty_queue : reminderQueue := mkQueue [] 0 0.

Lemma wf_empty : wf empty_queue.
Proof. by split. Qed.

#[export] Instance live_perm : Proper (Permutation ==> Permutation) live.
Proof. intros l1 l2 Hl. unfold live. by rewrite Hl. Qed.

#[export] Instance dead_perm : Proper (Permutation ==> Permutation) dead.
Proof. intros l1 l2 Hl. unfold dead. by rewrite Hl. Qed.

Lemma live_cons c l : live (c :: l) = (if c.2 then [] else [c.1]) ++ live l.
Proof. unfold live. rewrite filter_cons. by destruct c as [r []]. Qed.

Lemma dead_cons c l : dead (c :: l) = (if c.2 then [c.1] else []) ++ dead l.
Proof. unfold dead. rewrite filter_cons. by destruct c as [r []]. Qed.

Lemma live_app l1 l2 : live (l1 ++ l2) = live l1 ++ live l2.
Proof. unfold live. by rewrite filter_app, fmap_app. Qed.

Lemma elem_of_live r l : r ∈ live l ↔ (r, false) ∈ l.
Proof.
  unfold live. rewrite list_elem_of_fmap. split.
  - intros ([r' b] & -> & [Hb Hin]%list_elem_of_filter). simpl in *. by subst.
  - intros Hin. exists (r, false). by rewrite list_elem_of_filter.
Qed.

Lemma contents_key st i e : entries st !! i = Some e → key_at (entries st) i = r_TargetTime (e_r e).
Proof. intros He. unfold key_at. by rewrite He. Qed.

(** The first entry is the earliest. *)
Lemma first_earliest st e rest c :
  heap_ok (entries st) → entries st = e :: rest → c ∈ contents st → r_TargetTime (e_r e) ≤ r_TargetTime c.1.
Proof.
  intros Hh Ee (e' & -> & Hin)%list_elem_of_fmap. apply list_elem_of_lookup in Hin as [i Hi].
  pose proof (lookup_lt_Some _ _ _ Hi). change (r_TargetTime (e_r e) ≤ r_TargetTime (e_r e')).
  rewrite <-(contents_key st 0 e), <-(contents_key st i e') by (done || by rewrite Ee).
  by apply (heap_ok_first (length (entries st))).
Qed.

Lemma add_spec r st :
  wf st → ∃ st', add r st = (Ok StatusOK, st') ∧ wf st' ∧ contents st' ≡ₚ (r, false) :: contents st.
Proof.
  intros [Hh Hp Ha Hc].
  destruct (heap_Push_spec (entries st) (mkEntry r false 0) Hh Hp) as (q & E & Hh' & Hp' & P).
  change (e_content <$> q ≡ₚ (r, false) :: contents st) in P.
  exists (mkQueue q (active st + 1) (cancelled st)). unfold add, get, bind. rewrite E. split_and!; [done| |exact P].
  split; [done|done| |]; unfold contents at 1; simpl.
  - rewrite P, live_cons. simpl. lia.
  - rewrite P, dead_cons. simpl. lia.
Qed.

(** *** nextReminderBefore *)
Lemma next_loop_spec fuel t st :
  wf st → (length (entries st) ≤ fuel)%nat →
  ∃ o st' dropped, next_loop fuel t st = (Ok o, st') ∧ wf st' ∧
    Forall (λ c, c.2 = true ∧ r_TargetTime c.1 < t) dropped ∧
    match o with
    | Some r => contents st ≡ₚ dropped ++ (r, false) :: contents st' ∧ r_TargetTime r < t ∧
                Forall (λ c, r_TargetTime r ≤ r_TargetTime c.1) (contents st')
    | None => contents st ≡ₚ dropped ++ contents st' ∧ Forall (λ c, t ≤ r_TargetTime c.1) (contents st')
    end.
Proof.
  revert st. induction fuel as [|f IH]; intros st Hwf Hf; cbn [next_loop]; unfold get, bind.
  - destruct (entries st) as [|e q] eqn:E; [|simpl in Hf; lia].
    exists None, st, []. unfold contents. rewrite E. by split_and!.
  - destruct (entries st) as [|e q] eqn:E.
    { exists None, st, []. unfold contents. rewrite E. by split_and!. }
    assert (∀ c, c ∈ contents st → r_TargetTime (e_r e) ≤ r_TargetTime c.1) as Hfirst
      by (intros c; by eapply first_earliest; [apply wf_heap|]).
    unfold Before. destruct (Z.ltb_spec (r_TargetTime (e_r e)) t) as [Hlt|Hge].
    + destruct Hwf as [Hh Hp Ha Hc]. rewrite E in Hh, Hp.
      destruct (heap_Pop_spec e q Hh Hp) as (x & q' & -> & Hx & _ & Hh' & Hp' & P). unfold in_range.
      change (e_content x = e_content e) in Hx. change (e_content <$> e :: q ≡ₚ e_content e :: (e_content <$> q')) in P.
      assert (contents st = e_content <$> e :: q) as Hct by (unfold contents; by rewrite E).
      rewrite <-Hct in P. injection Hx as Hxr Hxc. rewrite Hxc.
      assert (length q' = length q) as Hlen.
      { apply Permutation_length in P. rewrite Hct in P. simpl in P. rewrite !length_fmap in P. lia. }
      assert (active st = Z.of_nat (length (live (e_content e :: (e_content <$> q'))))) as Ha' by (by rewrite <-P).
      assert (cancelled st = Z.of_nat (length (dead (e_content e :: (e_content <$> q'))))) as Hc' by (by rewrite <-P).
      rewrite live_cons in Ha'. rewrite dead_cons in Hc'. unfold e_content at 1 in Ha'. unfold e_content at 1 in Hc'.
      simpl in Ha', Hc'. destruct (e_cancelled e) eqn:Ec.
      * simpl in Ha', Hc'. destruct (IH (mkQueue q' (active st) (cancelled st - 1))) as (o & st' & dropped & E' & Hwf' & Hd & Ho).
        { split; [done|done|exact Ha'|]. simpl. unfold contents. simpl. lia. }
        { simpl. simpl in Hf. lia. }
        exists o, st', (e_content e :: dropped). unfold modify.
        rewrite E'. split_and!; [done|done| |].
        { constructor; [|done]. by unfold e_content. }
        destruct o as [r|]; destruct Ho as (P' & Ho); (split; [|done]); rewrite P; simpl; by rewrite <-P'.
      * simpl in Ha', Hc'. exists (Some (e_r x)), (mkQueue q' (active st - 1) (cancelled st)), []. unfold modify.
        split_and!; [done| |done| |by rewrite Hxr|].
        { split; [done|done| |exact Hc']. simpl. unfold contents. simpl. lia. }
        { rewrite P. simpl. unfold e_content at 1. by rewrite Ec, Hxr. }
        apply Forall_forall. intros c Hin. rewrite Hxr. apply Hfirst. rewrite P. by right.
    + exists None, st, []. split_and!; [done|done|done|done|].
      apply Forall_forall. intros c Hin. specialize (Hfirst c Hin). lia.
Qed.

(** *** cancel and find *)
Lemma find_loop_spec actor ID rest result :
  find_loop actor ID rest result = result ++ (e_r <$> filter (λ e, matching actor ID e = true) rest).
Proof.
  revert result. induction rest as [|e rest IH]; intros result; simpl; [by rewrite app_nil_r|].
  rewrite IH, filter_cons. destruct (matching actor ID e); [|by rewrite decide_False].
  rewrite decide_True by done. simpl. by rewrite <-app_assoc.
Qed.

Lemma find_spec actor ID st :
  find actor ID st = e_r <$> filter (λ e, matching actor ID e = true) (entries st).
Proof. apply find_loop_spec. Qed.

(** What [cancel] makes of an entry. *)
Definition cancelled_entry (actor : Actor) (ID : string) (e : reminderEntry) : reminderEntry :=
  if matching actor ID e then cancel_entry e else e.

Lemma cancel_loop_spec actor ID rest idx st found pre :
  entries st = pre ++ rest → length pre = idx →
  cancel_loop actor ID rest idx st found =
    (found ++ (e_r <$> filter (λ e, matching actor ID e = true) rest),
     mkQueue (pre ++ (cancelled_entry actor ID <$> rest))
       (active st - Z.of_nat (length (filter (λ e, matching actor ID e = true) rest)))
       (cancelled st + Z.of_nat (length (filter (λ e, matching actor ID e = true) rest)))).
Proof.
  revert idx st found pre. induction rest as [|e rest IH]; intros idx st found pre E Hl; simpl.
  - destruct st as [es a c]. simpl in *. subst es. rewrite !app_nil_r. f_equal. f_equal; lia.
  - rewrite filter_cons. unfold cancelled_entry at 1. destruct (matching actor ID e) eqn:Em.
    + rewrite decide_True by done. rewrite (IH (S idx) _ _ (pre ++ [cancel_entry e])).
      * simpl. rewrite <-!app_assoc. simpl. f_equal. f_equal; lia.
      * simpl. rewrite E, <-Hl, insert_app_r_alt, Nat.sub_diag by lia. simpl. by rewrite <-app_assoc.
      * rewrite length_app. simpl. lia.
    + rewrite decide_False by done. rewrite (IH (S idx) st _ (pre ++ [e])).
      * by rewrite <-app_assoc.
      * by rewrite E, <-app_assoc.
      * rewrite length_app. simpl. lia.
Qed.

Lemma cancel_spec actor ID st :
  cancel actor ID st =
    (find actor ID st,
     mkQueue (cancelled_entry actor ID <$> entries st)
       (active st - Z.of_nat (length (find actor ID st)))
       (cancelled st + Z.of_nat (length (find actor ID st)))).
Proof.
  unfold cancel. rewrite (cancel_loop_spec actor ID (entries st) 0 st [] []) by done.
  by rewrite find_spec, length_fmap.
Qed.

Lemma cancelled_entry_r actor ID e : e_r (cancelled_entry actor ID e) = e_r e.
Proof. unfold cancelled_entry. by destruct (matching actor ID e). Qed.

Lemma cancelled_entry_index actor ID e : e_index (cancelled_entry actor ID e) = e_index e.
Proof. unfold cancelled_entry. by destruct (matching actor ID e). Qed.

(** Whether an identifier names a reminder. *)
Definition named (actor : Actor) (ID : string) (r : Reminder) : bool :=
  bool_decide (r_Actor r = actor) && (String.eqb ID "" || String.eqb (r_ID r) ID).

Lemma matching_named actor ID e : matching actor ID e = negb (e_cancelled e) && named actor ID (e_r e).
Proof. unfold matching, named. by rewrite andb_assoc. Qed.

Lemma cancel_contents actor ID st c :
  c ∈ contents (cancel actor ID st).2 ↔
  ∃ b, (c.1, b) ∈ contents st ∧ c.2 = b || named actor ID c.1.
Proof.
  rewrite cancel_spec. unfold contents. simpl. rewrite <-list_fmap_compose, list_elem_of_fmap. split.
  - intros (e & -> & He). exists (e_cancelled e). simpl. rewrite cancelled_entry_r. split.
    + apply list_elem_of_fmap. by exists e.
    + unfold cancelled_entry. rewrite matching_named. by destruct (e_cancelled e) eqn:E, (named actor ID (e_r e)).
  - intros (b & (e & [= Hr Hb] & He)%list_elem_of_fmap & Hc). exists e. split; [|done].
    destruct c as [r d]. simpl in *. subst r b d. unfold compose, e_content. rewrite cancelled_entry_r.
    f_equal. unfold cancelled_entry. rewrite matching_named. by destruct (e_cancelled e) eqn:E, (named actor ID (e_r e)).
Qed.

(** What is found are the live reminders of that name, in the order of the queue. *)
Lemma find_live actor ID st :
  find actor ID st = filter (λ r, named actor ID r = true) (live (contents st)).
Proof.
  rewrite find_spec. unfold contents. induction (entries st) as [|e q IH]; [done|].
  rewrite fmap_cons, live_cons, filter_cons, matching_named. unfold e_content at 1. simpl.
  destruct (e_cancelled e); simpl; [exact IH|].
  rewrite filter_cons. destruct (named actor ID (e_r e)); simpl; [f_equal; exact IH|exact IH].
Qed.

(** What is left alive by [cancel]. *)
Lemma live_cancel actor ID st :
  live (contents (cancel actor ID st).2) = filter (λ r, named actor ID r = false) (live (contents st)).
Proof.
  rewrite cancel_spec. unfold contents. simpl. induction (entries st) as [|e q IH]; [done|].
  rewrite !fmap_cons, !live_cons. unfold e_content at 1 3. rewrite cancelled_entry_r. simpl.
  unfold cancelled_entry at 1. rewrite matching_named. destruct (e_cancelled e) eqn:Ec; simpl; [by rewrite Ec|].
  destruct (named actor ID (e_r e)) eqn:En; simpl; rewrite ?Ec; rewrite filter_cons, En; simpl;
    [exact IH|rewrite cancelled_entry_r; f_equal; exact IH].
Qed.

Lemma live_length_cancel actor ID q :
  (length (live (e_content <$> (cancelled_entry actor ID <$> q))) +
     length (filter (λ e, matching actor ID e = true) q) = length (live (e_content <$> q)))%nat ∧
  (length (dead (e_content <$> (cancelled_entry actor ID <$> q))) =
     length (dead (e_content <$> q)) + length (filter (λ e, matching actor ID e = true) q))%nat.
Proof.
  induction q as [|e q [IH1 IH2]]; [done|]. rewrite !fmap_cons, !live_cons, !dead_cons, filter_cons.
  assert (e_content (cancelled_entry actor ID e) = (e_r e, e_cancelled e || matching actor ID e)) as ->.
  { unfold e_content. rewrite cancelled_entry_r. f_equal. unfold cancelled_entry.
    destruct (matching actor ID e) eqn:Em; simpl; [by rewrite orb_true_r|by rewrite orb_false_r]. }
  assert (e_content e = (e_r e, e_cancelled e)) as -> by done.
  pose proof (matching_named actor ID e) as Em.
  destruct (matching actor ID e); [rewrite decide_True by done|rewrite decide_False by done];
    destruct (e_cancelled e); try done; simpl; lia.
Qed.

Lemma cancel_wf actor ID st : wf st → wf (cancel actor ID st).2.
Proof.
  intros [Hh Hp Ha Hc]. rewrite cancel_spec. simpl. rewrite find_spec, length_fmap.
  destruct (live_length_cancel actor ID (entries st)) as [L1 L2]. split; simpl.
  - intros i Hi. rewrite length_fmap in Hi. assert (∀ j, key_at (cancelled_entry actor ID <$> entries st) j = key_at (entries st) j) as Hk.
    { intros j. unfold key_at. rewrite list_lookup_fmap. destruct (entries st !! j) as [e|]; [|done]. simpl.
      by rewrite cancelled_entry_r. }
    rewrite !Hk. by apply Hh.
  - intros i e He. rewrite list_lookup_fmap in He. destruct (entries st !! i) as [e'|] eqn:E; [|done].
    injection He as <-. simpl. rewrite cancelled_entry_index. by apply (Hp i e').
  - rewrite Ha. unfold contents in *. simpl. lia.
  - rewrite Hc. unfold contents in *. simpl. lia.
Qed.

(* ---------------------------------------------------------------------- *)
(** ** processReminders *)

Section processing.
Context {R T : Type} `{RedisLaws R} `{TimeText}.
Context (MangleKey : string → string) (TellActor : Actor → string → string → M T unit).
Context (fireTime : Z).

Notation process_loop := (process_loop MangleKey TellActor).
Notation processReminders := (processReminders MangleKey TellActor).

(** [TellActor] returns, with or without an error. *)
Definition tells : Prop := ∀ a p d t, match (TellActor a p d t).1 with Ok _ | Err _ => True | _ => False end.

Definition tell_of (r : Reminder) : M T unit := TellActor (r_Actor r) (r_Path r) (r_EncodedData r).

(** The calls of [TellActor] for a list of reminders, in order. *)
Definition tell_all (rs : list Reminder) (t : T) : T := foldl (λ t r, (tell_of r t).2) t rs.

(** Where reminders are persisted there are hashes, if anything. *)
Definition keys_ok (w : @world R T) : Prop :=
  ∀ c, c ∈ contents (w_queue w) → is_Some (hash_at (rview (w_redis w)) (MangleKey (r_key c.1))).

(** What firing a reminder does to the keyspace. *)
Definition persisted_one (v : gmap string rvalue) (r : Reminder) : gmap string rvalue :=
  let k := MangleKey (r_key r) in
  if 0 <? r_Period r then
    <[k := VHash (<["targetTime" := time_string (fireTime + r_Period r)]> (default ∅ (hash_at v k)))]> v
  else delete k v.

Definition persisted (rs : list Reminder) (v : gmap string rvalue) : gmap string rvalue :=
  foldl persisted_one v rs.

(** The reminder that is put back after a periodic one fired. *)
Definition rescheduled (r : Reminder) : list (Reminder * bool) :=
  if 0 <? r_Period r then [(at_time (fireTime + r_Period r) r, false)] else [].

Definition due (c : Reminder * bool) : Prop := r_TargetTime c.1 < fireTime.

#[local] Instance due_dec c : Decision (due c).
Proof. unfold due. apply _. Defined.

(** What a round achieves: [dropped] were cancelled, [fired] were told, [failed] is
    the one whose [TellActor] failed and ended the round, [rest] stays. *)
Record round (w w' : @world R T) (dropped : list (Reminder * bool)) (fired : list Reminder)
    (failed : option Reminder) (rest : list (Reminder * bool)) : Prop := {
  ro_wf : wf (w_queue w');
  ro_keys : keys_ok w';
  ro_before : contents (w_queue w) ≡ₚ dropped ++ ((λ r, (r, false)) <$> fired) ++ rest;
  ro_after : contents (w_queue w') ≡ₚ (fired ≫= rescheduled) ++ rest;
  ro_dropped : Forall (λ c, c.2 = true ∧ due c) dropped;
  ro_fired : Forall (λ r, due (r, false)) fired;
  ro_sorted : StronglySorted (λ a b, r_TargetTime a ≤ r_TargetTime b) fired;
  ro_rpc : w_rpc w' = tell_all (fired ++ option_list failed) (w_rpc w);
  ro_redis : rview (w_redis w') = persisted fired (rview (w_redis w));
  ro_rest : match failed with
            | None => Forall (λ c, ¬ due c) rest
            | Some r => (r, false) ∈ rest ∧ due (r, false) ∧
                        ∃ e, (tell_of r (tell_all fired (w_rpc w))).1 = Err e
            end;
}.

Lemma hash_put v k k' h : is_Some (hash_at v k) → is_Some (hash_at (<[k' := VHash h]> v) k).
Proof. unfold hash_at. intros Hh. rewrite lookup_insert. by case_decide. Qed.

Lemma hash_delete v k k' : is_Some (hash_at v k) → is_Some (hash_at (delete k' v) k).
Proof. unfold hash_at. intros Hh. rewrite lookup_delete. by case_decide. Qed.

(** After a reminder was told: put it back, or forget it. *)
Lemma fire_spec r w :
  connected → wf (w_queue w) → keys_ok w → is_Some (hash_at (rview (w_redis w)) (MangleKey (r_key r))) →
  ∃ w1, (if 0 <? r_Period r then
           let r := at_time (fireTime + r_Period r) r in
           on_queue (add r) ;;*
           attempt (on_redis (persistTargetTime MangleKey (r_key r) (r_TargetTime r))) ;;* ret tt
         else attempt (on_redis (Del MangleKey (r_key r))) ;;* ret tt) w = (Ok tt, w1) ∧
    wf (w_queue w1) ∧ keys_ok w1 ∧ contents (w_queue w1) ≡ₚ rescheduled r ++ contents (w_queue w) ∧
    w_rpc w1 = w_rpc w ∧ rview (w_redis w1) = persisted_one (rview (w_redis w)) r.
Proof.
  intros Hc Hwf Hk Hr. unfold rescheduled, persisted_one. destruct (0 <? r_Period r) eqn:Ep.
  - destruct (add_spec (at_time (fireTime + r_Period r) r) (w_queue w) Hwf) as (q & Ea & Hwf' & P).
    destruct Hr as [h Hh]. rewrite Hh.
    destruct (HSet_spec MangleKey (r_key r) "targetTime" (time_string (fireTime + r_Period r)) h (w_redis w) Hc Hh)
      as (rd & Es & V).
    exists (mkWorld q rd (w_rpc w)). unfold bind, on_queue, on_redis, attempt. rewrite Ea. simpl.
    unfold persistTargetTime. rewrite Es. split_and!; [done|done| |exact P|done|exact V].
    intros c. simpl. rewrite P, V. intros [->|Hin]%elem_of_cons; apply hash_put; simpl; [by rewrite Hh|by apply Hk].
  - destruct (Del_spec MangleKey (r_key r) (w_redis w) Hc) as (rd & Ed & V).
    exists (mkWorld (w_queue w) rd (w_rpc w)). unfold bind, on_redis, attempt. rewrite Ed.
    split_and!; [done|done| |done|done|exact V]. intros c Hin. simpl. rewrite V. by apply hash_delete, Hk.
Qed.

Lemma filter_due_none l : Forall (λ c, ¬ due c) l → length (filter due l) = 0%nat.
Proof. intros Hl. rewrite filter_none; [done|]. by apply Forall_forall. Qed.

Lemma rescheduled_not_due r : Forall (λ c, ¬ due c) (rescheduled r).
Proof.
  unfold rescheduled. destruct (Z.ltb_spec 0 (r_Period r)); [|done].
  constructor; [|done]. unfold due. simpl. lia.
Qed.

(** An entry that is not due is in none of the parts that a round takes out. *)
Lemma not_due_rest x l dropped fired rest :
  ¬ due x → x :: l ≡ₚ dropped ++ ((λ r, (r, false)) <$> fired) ++ rest →
  Forall (λ c, c.2 = true ∧ due c) dropped → Forall (λ r, due (r, false)) fired →
  ∃ rest', rest ≡ₚ x :: rest' ∧ l ≡ₚ dropped ++ ((λ r, (r, false)) <$> fired) ++ rest'.
Proof.
  intros Hx P Hd Hf.
  assert (x ∈ dropped ++ ((λ r, (r, false)) <$> fired) ++ rest) as Hin by (rewrite <-P; by left).
  rewrite !elem_of_app in Hin. destruct Hin as [Hin|[Hin|Hin]].
  - rewrite Forall_forall in Hd. by destruct (Hd x Hin).
  - apply list_elem_of_fmap in Hin as (r & -> & Hin). rewrite Forall_forall in Hf. by destruct (Hx (Hf r Hin)).
  - apply elem_of_Permutation in Hin as [rest' P']. exists rest'. split; [done|].
    rewrite P' in P. rewrite app_assoc in P. rewrite <-Permutation_middle in P.
    apply Permutation_cons_inv in P. by rewrite <-app_assoc in P.
Qed.

Lemma process_loop_spec fuel w :
  connected → tells → wf (w_queue w) → keys_ok w →
  (length (filter due (contents (w_queue w))) ≤ fuel)%nat →
  ∃ w' dropped fired failed rest,
    process_loop fuel fireTime w = (Ok tt, w') ∧ round w w' dropped fired failed rest.
Proof.
  intros Hc Ht. revert w. induction fuel as [fuel IH] using (well_founded_induction Nat.lt_wf_0).
  intros w Hwf Hk Hf.
  destruct (next_loop_spec (length (entries (w_queue w))) fireTime (w_queue w) Hwf ltac:(lia))
    as (o & st' & dropped & E & Hwf' & Hd & Ho).
  assert (∀ c, c ∈ contents st' → c ∈ contents (w_queue w)) as Hsub.
  { intros c Hin. destruct o; destruct Ho as [P _]; rewrite P; set_solver. }
  assert (on_queue (nextReminderBefore fireTime) w = (Ok o, mkWorld st' (w_redis w) (w_rpc w))) as Eq.
  { unfold on_queue, nextReminderBefore. by rewrite E. }
  assert (process_loop fuel fireTime w = match o with
    | None => (Ok tt, mkWorld st' (w_redis w) (w_rpc w))
    | Some r => (let* told := attempt (on_rpc (tell_of r)) in
        match told with
        | inr _ => on_queue (add r) ;;* ret tt
        | inl _ =>
          (if 0 <? r_Period r then
             let r := at_time (fireTime + r_Period r) r in
             on_queue (add r) ;;*
             attempt (on_redis (persistTargetTime MangleKey (r_key r) (r_TargetTime r))) ;;* ret tt
           else attempt (on_redis (Del MangleKey (r_key r))) ;;* ret tt) ;;*
          match fuel with
          | O => λ w, (OutOfFuel, w)
          | S f => process_loop f fireTime
          end
        end) (mkWorld st' (w_redis w) (w_rpc w))
    end) as ->.
  { destruct fuel; cbn [Reminders.process_loop]; unfold bind at 1; rewrite Eq; by destruct o. }
  destruct o as [r|].
  2:{ destruct Ho as [P Hrest]. eexists _, dropped, [], None, (contents st'). split; [done|].
      split; try done.
      - intros c Hin. apply Hk, Hsub, Hin.
      - constructor.
      - eapply Forall_impl; [exact Hrest|]. intros c. unfold due. lia. }
  destruct Ho as (P & Hlt & Hmin). unfold bind at 1, attempt at 1, on_rpc at 1. cbn [w_rpc w_queue w_redis].
  assert (is_Some (hash_at (rview (w_redis w)) (MangleKey (r_key r)))) as Hrk.
  { apply (Hk (r, false)). rewrite P. set_solver. }
  assert (keys_ok (mkWorld st' (w_redis w) (w_rpc w))) as Hk' by (intros c Hin; apply Hk, Hsub, Hin).
  specialize (Ht (r_Actor r) (r_Path r) (r_EncodedData r) (w_rpc w)).
  change (TellActor (r_Actor r) (r_Path r) (r_EncodedData r) (w_rpc w)) with (tell_of r (w_rpc w)) in Ht.
  destruct (tell_of r (w_rpc w)) as [[[]|e| |] t'] eqn:Et; [| |done..].
  - destruct (fire_spec r (mkWorld st' (w_redis w) t') Hc Hwf') as (w1 & Ef & Hwf1 & Hk1 & P1 & Hrpc & Hrd);
      [exact Hk'|exact Hrk|].
    cbv zeta in Ef. unfold bind at 1. rewrite Ef. simpl in P1, Hrpc, Hrd.
    assert (length (filter due (contents (w_queue w))) =
            length (filter due dropped) + S (length (filter due (contents st'))))%nat as Hdue.
    { rewrite P, filter_app, filter_cons, decide_True by done. rewrite length_app. simpl. lia. }
    destruct fuel as [|f]; [lia|].
    assert (length (filter due (contents (w_queue w1))) = length (filter due (contents st'))) as Hdue1.
    { rewrite P1, filter_app, length_app, filter_due_none by apply rescheduled_not_due. done. }
    destruct (IH f ltac:(lia) w1 Hwf1 Hk1 ltac:(lia)) as (w' & dropped1 & fired & failed & rest1 & E' & Hround).
    exists w'. rewrite E'. destruct Hround as [W K B A D F S RPC RD RS].
    assert (∃ rest, rest1 ≡ₚ rescheduled r ++ rest ∧
      contents st' ≡ₚ dropped1 ++ ((λ r, (r, false)) <$> fired) ++ rest) as (rest & Pr & Pc).
    { rewrite P1 in B. pose proof (rescheduled_not_due r) as Hn. unfold rescheduled in *.
      destruct (0 <? r_Period r); [|by exists rest1].
      apply Forall_cons in Hn as [Hn _]. simpl in B. by apply (not_due_rest _ _ _ _ _ Hn B D F). }
    exists (dropped ++ dropped1), (r :: fired), failed, rest. split; [done|]. split; try done.
    + rewrite P, Pc. simpl. rewrite <-!app_assoc. f_equiv. by rewrite Permutation_middle.
    + rewrite A, Pr. simpl. rewrite <-app_assoc, (Permutation_app_swap_app (fired ≫= _)). done.
    + apply Forall_app. split; [|done]. eapply Forall_impl; [exact Hd|]. done.
    + by constructor.
    + constructor; [done|]. apply Forall_forall. intros x Hx.
      rewrite Forall_forall in Hmin. apply (Hmin (x, false)). rewrite Pc. rewrite !elem_of_app, list_elem_of_fmap.
      right. left. by exists x.
    + rewrite RPC, Hrpc. unfold tell_all. simpl. by rewrite Et.
    + rewrite RD, Hrd. done.
    + destruct failed as [x|].
      * destruct RS as (Hx & Hxd & e & He). split_and!; [|done|].
        { rewrite Pr in Hx. apply elem_of_app in Hx as [Hx|Hx]; [|done].
          pose proof (rescheduled_not_due r) as Hn. rewrite Forall_forall in Hn. by destruct (Hn _ Hx). }
        exists e. rewrite <-He, Hrpc. unfold tell_all. simpl. by rewrite Et.
      * rewrite Pr in RS. by apply Forall_app in RS as [_ ?].
  - destruct (add_spec r st' Hwf') as (q & Ea & Hwf1 & P1).
    exists (mkWorld q (w_redis w) t'), dropped, [], (Some r), ((r, false) :: contents st').
    unfold bind, on_queue. simpl. rewrite Ea. split; [done|]. split; try done.
    + intros c. simpl. rewrite P1. intros [->|Hin]%elem_of_cons; [exact Hrk|]. by apply Hk, Hsub.
    + constructor.
    + simpl. by rewrite Et.
    + split_and!; [by left|done|]. exists e. simpl. by rewrite Et.
Qed.

End processing.

(* ---------------------------------------------------------------------- *)
(** ** The properties *)

(** Asked for a reminder before [t], the queue answers after finitely many
    turns: with an earliest one among those that are not cancelled, which it takes
    out, or with none when every remaining reminder is at [t] or later.  Besides,
    only cancelled reminders before [t] leave the queue, and the slice stays a
    heap, the entries keep their index and the gauges their count. *)
Theorem next_reminder_earliest t st :
  wf st →
  ∃ o st' dropped, nextReminderBefore t st = (Ok o, st') ∧ wf st' ∧
    Forall (λ c, c.2 = true ∧ r_TargetTime c.1 < t) dropped ∧
    match o with
    | Some r => contents st ≡ₚ dropped ++ (r, false) :: contents st' ∧ r_TargetTime r < t ∧
                Forall (λ c, r_TargetTime r ≤ r_TargetTime c.1) (contents st')
    | None => contents st ≡ₚ dropped ++ contents st' ∧ Forall (λ c, t ≤ r_TargetTime c.1) (contents st')
    end.
Proof. intros Hwf. by apply next_loop_spec. Qed.

(** [cancel] returns the reminders of an actor that [find] would return; they
    are then found no more and never fire, and the other reminders stay as they
    are, with the heap, the indices and the gauges in order. *)
Theorem cancel_removes actor ID st :
  wf st →
  let '(found, st') := cancel actor ID st in
  found = find actor ID st ∧ find actor ID st' = [] ∧ wf st' ∧
  active st' = active st - Z.of_nat (length found) ∧
  (∀ r, r ∈ found ↔ r ∈ live (contents st) ∧ named actor ID r = true) ∧
  (∀ r, r ∈ live (contents st') ↔ r ∈ live (contents st) ∧ named actor ID r = false).
Proof.
  intros Hwf. pose proof (cancel_wf actor ID st Hwf) as Hwf'. pose proof (cancel_contents actor ID st) as Hc.
  destruct (cancel actor ID st) as [found st'] eqn:E. simpl in *.
  pose proof (cancel_spec actor ID st) as Es. rewrite E in Es. injection Es as Ef Est.
  assert (∀ st0 r, r ∈ find actor ID st0 ↔ r ∈ live (contents st0) ∧ named actor ID r = true) as Hfind.
  { intros st0 r. rewrite find_spec, elem_of_live, list_elem_of_fmap. unfold contents. rewrite list_elem_of_fmap. split.
    - intros (e & -> & [Hm He]%list_elem_of_filter). rewrite matching_named in Hm.
      apply andb_true_iff in Hm as [Hn Hm]. apply negb_true_iff in Hn. split; [|done]. exists e. unfold e_content. by rewrite Hn.
    - intros [(e & [= -> Hb] & He) Hn]. exists e. split; [done|]. apply list_elem_of_filter. split; [|done].
      by rewrite matching_named, <-Hb, Hn. }
  assert (∀ r, r ∈ live (contents st') ↔ r ∈ live (contents st) ∧ named actor ID r = false) as Hlive.
  { intros r. rewrite !elem_of_live, Hc. simpl. split.
    - intros (b & Hin & Hb). symmetry in Hb. apply orb_false_iff in Hb as [-> Hn]. done.
    - intros [Hin Hn]. exists false. by rewrite Hn. }
  split_and!; [exact Ef| |exact Hwf'| | |exact Hlive].
  - destruct (find actor ID st') as [|r l] eqn:Er; [done|exfalso].
    assert (r ∈ find actor ID st') as [Hr Hn]%Hfind by (rewrite Er; by left).
    apply Hlive in Hr as [_ Hr]. congruence.
  - rewrite Est. simpl. by rewrite Ef.
  - intros r. rewrite Ef. apply Hfind.
Qed.

(** A round of [processReminders] that is given the length of the queue as fuel. *)
Lemma processReminders_round {R T : Type} `{RedisLaws R} `{TimeText} (MangleKey : string → string)
    (TellActor : Actor → string → string → M T unit) (fireTime : Z) (w : @world R T) :
  connected → tells TellActor → wf (w_queue w) → keys_ok MangleKey w →
  ∃ w' dropped fired failed rest,
    processReminders MangleKey TellActor fireTime w = (Ok tt, w') ∧
    round MangleKey TellActor fireTime w w' dropped fired failed rest ∧
    (failed = None → fired ≡ₚ filter (λ r, r_TargetTime r < fireTime) (live (contents (w_queue w)))).
Proof.
  intros Hc Ht Hwf Hk.
  destruct (process_loop_spec MangleKey TellActor fireTime (length (entries (w_queue w))) w Hc Ht Hwf Hk)
    as (w' & dropped & fired & failed & rest & E & Hr).
  { rewrite length_filter. unfold contents. by rewrite length_fmap. }
  exists w', dropped, fired, failed, rest. split_and!; [exact E|exact Hr|].
  intros ->. destruct Hr as [_ _ B _ D F _ _ _ RS]. rewrite B, !live_app, !filter_app.
  assert (live ((λ r, (r, false)) <$> fired) = fired) as ->.
  { clear. induction fired as [|r l IH]; [done|]. rewrite fmap_cons, live_cons. simpl. by rewrite IH. }
  rewrite (filter_none _ (live dropped)), (filter_none _ (live rest)), (filter_all _ fired).
  - by rewrite app_nil_r.
  - intros r Hr. rewrite Forall_forall in F. by apply F.
  - intros r Hr%elem_of_live. rewrite Forall_forall in RS. by apply (RS _ Hr).
  - intros r Hr%elem_of_live. rewrite Forall_forall in D. by destruct (D _ Hr).
Qed.

(** C20: a round of [processReminders] terminates; unless a [TellActor] fails, it
    tells every reminder before [fireTime] that is not cancelled, once and in
    the order of their times, and then nothing before [fireTime] is left;
    periodic reminders are back in the queue at [fireTime] plus their period, in
    memory and in Redis, and one-shot ones are deleted from both.  When a
    [TellActor] fails, the round ends with that reminder, and all that is left, in
    the queue. *)
Theorem process_fires_due {R T : Type} `{RedisLaws R} `{TimeText} (MangleKey : string → string)
    (TellActor : Actor → string → string → M T unit) (fireTime : Z) (w : @world R T) :
  connected → tells TellActor → wf (w_queue w) → keys_ok MangleKey w →
  ∃ w' dropped fired failed rest,
    processReminders MangleKey TellActor fireTime w = (Ok tt, w') ∧
    round MangleKey TellActor fireTime w w' dropped fired failed rest ∧
    (failed = None → fired ≡ₚ filter (λ r, r_TargetTime r < fireTime) (live (contents (w_queue w)))).
Proof. apply processReminders_round. Qed.

Lemma persist_load `{TimeTextLaws} actor id r s :
  MarshalText (r_TargetTime r) = inl s → 0 ≤ r_Period r < 2 ^ 63 →
  load actor id (r_key r) (persistReminder r) = inl r.
Proof.
  intros Ht Hp. unfold load, persistReminder, field, time_string. rewrite Ht.
  destruct r as [[ty ai] i k pa tt pe da]. simpl in *.
  destruct (Z.ltb_spec 0 pe), (String.eqb_spec da "") as [->|]; simplify_map_eq;
    rewrite (time_text tt s Ht), ?duration_text by lia; try done; by replace pe with 0 by lia.
Qed.

(** A reminder whose time has a text form is read back from its persisted form
    as it was, for every period of 64 bits. *)
Theorem persist_load_roundtrip `{TimeTextLaws} actor id r s :
  MarshalText (r_TargetTime r) = inl s → 0 ≤ r_Period r < 2 ^ 63 →
  load actor id (r_key r) (persistReminder r) = inl r.
Proof. apply persist_load. Qed.

Module Witness.

Definition acct : Actor := mkActor "Account" "1".

Definition rem (id : string) (t period : Z) : Reminder := mkReminder acct id ("key_" ++ id) "tick" t period "".

Definition added (rs : list Reminder) : reminderQueue := foldl (λ st r, (add r st).2) empty_queue rs.

Lemma added_wf rs : wf (added rs).
Proof.
  unfold added. generalize wf_empty. generalize empty_queue. induction rs as [|r rs IH]; intros st Hst; [done|].
  simpl. apply IH. by destruct (add_spec r st Hst) as (st' & -> & Hst' & _).
Qed.

Definition queue0 : reminderQueue := added [rem "a" 30 0; rem "b" 10 5; rem "c" 20 0; rem "d" 90 0].

Definition queue1 : reminderQueue := (cancel acct "c" queue0).2.

Lemma next_witness :
  ∃ o st' dropped, nextReminderBefore 50 queue0 = (Ok o, st') ∧ wf st' ∧
    Forall (λ c, c.2 = true ∧ r_TargetTime c.1 < 50) dropped ∧
    match o with
    | Some r => contents queue0 ≡ₚ dropped ++ (r, false) :: contents st' ∧ r_TargetTime r < 50 ∧
                Forall (λ c, r_TargetTime r ≤ r_TargetTime c.1) (contents st')
    | None => contents queue0 ≡ₚ dropped ++ contents st' ∧ Forall (λ c, 50 ≤ r_TargetTime c.1) (contents st')
    end.
Proof. apply (next_reminder_earliest 50 queue0), added_wf. Defined.

Lemma cancel_witness :
  find acct "c" queue0 = [rem "c" 20 0] ∧ find acct "c" queue1 = [] ∧ active queue1 = 3.
Proof.
  pose proof (cancel_removes acct "c" queue0 (added_wf _)) as Hc.
  assert (find acct "c" queue0 = [rem "c" 20 0]) as Hf by reflexivity.
  assert (cancel acct "c" queue0 = ([rem "c" 20 0], queue1)) as E by reflexivity.
  rewrite E in Hc. destruct Hc as (_ & Hn & _ & Ha & _). split_and!; [exact Hf|exact Hn|exact Ha].
Defined.

(** Texts of times and durations in decimal. *)
Definition decimal (z : Z) : string := FormatInt z.
Definition of_decimal (s : string) : Z + gerror :=
  match ParseInt 64 s with (z, None) => inl z | _ => inr (EMsg "parse") end.

#[local] Instance decimal_text : TimeText := {|
  MarshalText t := if bool_decide (- 2 ^ 63 ≤ t < 2 ^ 63) then inl (decimal t) else inr (EMsg "year outside of range");
  UnmarshalText := of_decimal;
  Duration_String := decimal;
  ParseDuration := of_decimal;
|}.

#[local] Instance decimal_text_laws : TimeTextLaws.
Proof.
  split.
  - intros t s. simpl. destruct (bool_decide_reflect (- 2 ^ 63 ≤ t < 2 ^ 63)) as [Ht|]; [|done].
    intros [= <-]. unfold of_decimal, decimal. by rewrite ParseInt_FormatInt.
  - intros d Hd. simpl. unfold of_decimal, decimal. by rewrite ParseInt_FormatInt by lia.
Qed.

Lemma roundtrip_witness :
  load acct "x" "key_b" (persistReminder (rem "b" 10 5)) = inl (rem "b" 10 5).
Proof. apply (persist_load_roundtrip acct "x" (rem "b" 10 5) (decimal 10)); [reflexivity|done]. Defined.

Definition counting (a : Actor) (p d : string) : M nat unit := λ n, (Ok tt, S n).

Definition w0 : @world (gmap string rvalue) nat := mkWorld queue1 ∅ 0%nat.

#[local] Existing Instance MiniRedis.
#[local] Existing Instance MiniRedis_laws.

Lemma process_witness :
  ∃ w' dropped fired failed rest,
    processReminders (λ k, k) counting 50 w0 = (Ok tt, w') ∧
    round (λ k, k) counting 50 w0 w' dropped fired failed rest ∧
    (failed = None → fired ≡ₚ filter (λ r, r_TargetTime r < 50) (live (contents (w_queue w0)))).
Proof.
  apply (process_fires_due (λ k, k) counting 50 w0).
  - by intros r.
  - by intros a p d t.
  - apply (cancel_wf acct "c" queue0), added_wf.
  - intros c _. exists ∅. reflexivity.
Defined.

End Witness.

End Reminders.
