(* ===== verification/Bindings.v ===== *)
(** * Bindings: actors bound to reminders and to event sources

    Models src/core/internal/runtime/bindings.go.  A binding lives in memory, in
    the collection of its kind, and in Redis, under a key that names its kind, its
    actor and its identifier.  [Bindings] is the interface of the collections and
    [BindingsLaws] what the operations rely on; the theorems are proved against
    it, and the queue of [Reminders] implements it. *)

From S2P Require Import Prelude GoLib Store Heap Reminders.
Import Store.
Open Scope string_scope.
Open Scope Z_scope.
Open Scope list_scope.
Open Scope go_scope.

Module Bindings.
Notation Actor := Reminders.Actor.
Notation mkActor := Reminders.mkActor.

(** The interfaces [binding] and [bindings]. *)
Class Bindings (Q B : Type) : Type := {
  k : B → string;
  add : B → M Q (Z * option gerror);   (** the status code and the error, if any *)
  cancel : Actor → string → Q → list B * Q;
  find : Actor → string → Q → list B;
  parse : Actor → string → string → string → (B * gmap string string) + gerror;
  load : Actor → string → string → gmap string string → B + gerror;
}.

(** What a collection promises: [wf] is its invariant, [matches] tells which
    bindings an actor and an identifier (or the empty one, for all) stand for. *)
Class BindingsLaws (Q B : Type) `{Bindings Q B} : Type := {
  wf : Q → Prop;
  matches : Actor → string → B → bool;
  find_matches : ∀ a i q b, wf q → b ∈ find a i q → matches a i b = true;
  parse_matches : ∀ a i key payload b m, parse a i key payload = inl (b, m) → matches a i b = true ∧ k b = key;
  (** a binding that is not there yet is added, or there is an error *)
  add_law : ∀ a i b q, wf q → matches a i b = true → find a i q = [] →
    ∃ code err q', add b q = (Ok (code, err), q') ∧ wf q' ∧
      ∀ a' i', find a' i' q' ≡ₚ
        (match err with None => if matches a' i' b then [b] else [] | Some _ => [] end) ++ find a' i' q;
  (** what is found is what is cancelled *)
  cancel_law : ∀ a i q, wf q →
    (cancel a i q).1 ≡ₚ find a i q ∧ wf (cancel a i q).2 ∧
    ∀ a' i', find a' i' (cancel a i q).2 ≡ₚ filter (λ b, matches a i b = false) (find a' i' q);
}.

(* ---------------------------------------------------------------------- *)
(** ** Keys *)

(** redis key for binding *)
Definition bindingKey (kind : string) (actor : Actor) (partition id : string) : string :=
  ("binding" ++ sep ++ partition ++ sep ++ kind ++ sep ++ Reminders.a_Type actor ++ sep ++
   Reminders.a_ID actor ++ sep ++ id)%string.

(** redis key for all bindings for a partition *)
Definition bindingPattern (partition : string) : string :=
  ("binding" ++ sep ++ partition ++ sep ++ "*")%string.

(** binding for redis key *)
Definition keyBinding (key : string) : res (string * Actor * Z * string) :=
  match Split Separator key with
  | _ :: p :: parts =>
      match ParseInt 32 p with
      | (_, Some _) => Panic "Unable to parse partition as an int"
      | (p64, None) =>
          match parts with
          | kind :: ty :: aid :: id :: _ => Ok (kind, mkActor ty aid, p64, id)
          | _ => Panic "index out of range"
          end
      end
  | _ => Panic "index out of range"
  end.

(** rpc.go: the partition assigned to handle bindings. *)
Definition BindingPartition : Z := 0.

Definition StatusOK : Z := 200.
Definition StatusNoContent : Z := 204.
Definition StatusBadRequest : Z := 400.

(* ---------------------------------------------------------------------- *)
(** ** The operations, for one kind of bindings *)

Section operations.
Context {R Q B : Type} `{Redis R} `{MapIter} `{Bindings Q B}.
Context (MangleKey : string → string) (UnmangleKey : string → res string).

Record world : Type := mkWorld { w_pair : Q; w_redis : R }.

Definition on_pair {A} (m : M Q A) : M world A := λ w,
  let '(a, q) := m (w_pair w) in (a, mkWorld q (w_redis w)).
Definition on_redis {A} (m : M R A) : M world A := λ w,
  let '(a, r) := m (w_redis w) in (a, mkWorld (w_pair w) r).

Definition cancel_m (actor : Actor) (id : string) : M Q (list B) := λ q,
  let '(found, q') := cancel actor id q in (Ok found, q').
Definition find_m (actor : Actor) (id : string) : M Q (list B) := λ q, (Ok (find actor id q), q).

(** load binding from redis in memory *)
Definition loadBinding (kind : string) (actor : Actor) (partition id : string) : M world unit :=
  let key := bindingKey kind actor partition id in
  let* found := on_pair (find_m actor id) in
  match found with
  | _ :: _ => ret tt
  | [] =>
      let* data := on_redis (HGetAll MangleKey key) in
      if decide (size data = 0%nat) then ret tt
      else
        match load actor id key data with
        | inr err => throw err
        | inl b =>
            let* added := on_pair (add b) in
            match added with
            | (_, Some err) => throw err
            | (_, None) => ret tt
            end
        end
  end.

Fixpoint del_all (found : list B) : M world unit :=
  match found with
  | [] => ret tt
  | b :: found' => attempt (on_redis (Del MangleKey (k b))) ;;* del_all found'
  end.

(** delete bindings in redis and memory *)
Definition deleteBindings (actor : Actor) (id : string) : M world Z :=
  let* found := on_pair (cancel_m actor id) in
  del_all found ;;*
  ret (Z.of_nat (length found)).

(** find bindings in memory *)
Definition getBindings (actor : Actor) (id : string) : M world (list B) :=
  on_pair (find_m actor id).

(** create or update a binding in redis and memory *)
Definition putBinding (kind : string) (actor : Actor) (id payload : string) : M world (Z * option gerror) :=
  let* found := attempt (on_redis (Keys MangleKey UnmangleKey (bindingKey kind actor "*" id))) in
  let keys := match found with inl keys => keys | inr _ => [] end in
  let '(key, successCode) :=
    match keys with
    | key :: _ => (key, StatusOK)
    | [] => (bindingKey kind actor (Itoa BindingPartition) id, StatusNoContent)
    end in
  match parse actor id key payload with
  | inr err => ret (StatusBadRequest, Some err)
  | inl (b, m) =>
      on_pair (cancel_m actor id) ;;*
      let* added := on_pair (add b) in
      match added with
      | (code, Some err) => ret (code, Some err)
      | (_, None) =>
          attempt (on_redis (HSetMultiple MangleKey key m)) ;;*
          ret (successCode, None)
      end
  end.
End operations.

(** The loops of [loadBindings]; [LoadBinding] of commands.go tells the sidecar
    that hosts the actor to load the binding. *)
Section reload.
Context {R : Type} `{Redis R}.
Context (MangleKey : string → string) (UnmangleKey : string → res string).
Context (LoadBinding : string → Actor → Z → string → M R unit).

Fixpoint load_keys (keys : list string) : M R bool :=
  match keys with
  | [] => ret true
  | key :: keys' =>
      let* '(kind, actor, partition, id) := of_res (keyBinding key) in
      let* told := attempt (LoadBinding kind actor partition id) in
      match told with
      | inl _ => load_keys keys'
      | inr _ => ret false
      end
  end.

(** ensure bindings for this partition are loaded from redis in memory *)
Fixpoint loadBindings (partitions : list Z) : M R unit :=
  match partitions with
  | [] => ret tt
  | p :: partitions' =>
      let* keys := Keys MangleKey UnmangleKey (bindingPattern (Itoa p)) in
      let* going := load_keys keys in
      if going : bool then loadBindings partitions' else ret tt
  end.
End reload.

(* ---------------------------------------------------------------------- *)
(** ** Lemmas *)

Lemma bindingKey_Join kind actor partition id :
  bindingKey kind actor partition id =
  Join (String Separator EmptyString)
    ["binding"; partition; kind; Reminders.a_Type actor; Reminders.a_ID actor; id].
Proof. reflexivity. Qed.

Lemma digits_no_sep fuel n acc :
  0 ≤ n → n < 10 * 2 ^ Z.of_nat fuel → has_char Separator acc = false →
  has_char Separator (fmt_digits fuel n acc) = false.
Proof.
  assert (∀ d, 0 ≤ d < 10 → digit_ascii d ≠ Separator) as Hd.
  { intros d Hd E. pose proof (digit_val_ascii d Hd) as Hv. by rewrite E in Hv. }
  revert n acc. induction fuel as [|f IH]; intros n acc Hn Hf Ha; cbn [fmt_digits].
  - simpl in Hf. destruct (Z.ltb_spec n 10); [|lia]. simpl. rewrite bool_decide_eq_false_2; [done|apply Hd; lia].
  - destruct (Z.ltb_spec n 10).
    + simpl. rewrite bool_decide_eq_false_2; [done|apply Hd; lia].
    + rewrite Nat2Z.inj_succ, Z.pow_succ_r in Hf by lia. apply IH.
      * apply Z.div_pos; lia.
      * apply Z.div_lt_upper_bound; lia.
      * simpl. rewrite bool_decide_eq_false_2; [done|]. apply Hd. by apply Z.mod_pos_bound.
Qed.

Lemma Itoa_no_sep z : 0 ≤ z → has_char Separator (Itoa z) = false.
Proof.
  intros Hz. unfold Itoa, FormatInt. destruct (Z.ltb_spec z 0); [lia|]. unfold fmt_uint.
  apply digits_no_sep; [done|by apply log2_fuel|done].
Qed.

Lemma ParseInt32_Itoa z : 0 ≤ z < 2 ^ 31 → ParseInt 32 (Itoa z) = (z, None).
Proof.
  intros Hz. unfold Itoa, FormatInt. destruct (Z.ltb_spec z 0); [lia|].
  pose proof (log2_fuel z ltac:(lia)) as Hf.
  destruct (fmt_digits_head (Z.to_nat (Z.log2 z)) z "" ltac:(lia) Hf) as (d & s & E & Hd).
  pose proof (ParseUint_fmt 32 z ltac:(lia)) as HP.
  unfold fmt_uint in *. rewrite E in *.
  rewrite ParseInt_sign_none by done. rewrite HP.
  change (2 ^ (32 - 1)) with (2 ^ 31). destruct (Z.leb_spec (2 ^ 31) z); [lia|done].
Qed.

Section lemmas.
Context {R Q B : Type} `{RedisLaws R} `{BindingsLaws Q B}.
Context (MangleKey : string → string).

Lemma del_all_spec found (w : @world R Q) :
  connected →
  ∃ r', del_all MangleKey found w = (Ok tt, mkWorld (w_pair w) r') ∧
    (∀ key, rview r' !! key = if bool_decide (key ∈ (λ b, MangleKey (k b)) <$> found) then None
                              else rview (w_redis w) !! key).
Proof.
  intros Hc. revert w. induction found as [|b found IH]; intros w; simpl.
  - exists (w_redis w). by destruct w.
  - destruct (Del_spec MangleKey (k b) (w_redis w) Hc) as (r1 & E & V).
    destruct (IH (mkWorld (w_pair w) r1)) as (r' & E' & V'). exists r'. split.
    + unfold bind, attempt, on_redis. rewrite E. exact E'.
    + intros key. rewrite V'. simpl. rewrite V, lookup_delete.
      repeat case_bool_decide; repeat case_decide; try done; set_solver.
Qed.

Context (UnmangleKey : string → res string).

(** The state of Redis at the keys of one binding: what matches the pattern are
    hashes, under names that the mangling of keys is inverse on. *)
Definition keys_ok (pattern : string) (v : gmap string rvalue) (r : R) : Prop :=
  ∀ m, is_Some (v !! m) → rglob (MangleKey pattern) m = true →
    ∃ u, UnmangleKey m = Ok u ∧ MangleKey u = m ∧ is_Some (hash_at v m).

Lemma hash_at_absent v m : v !! m = None → hash_at v m = Some ∅.
Proof. unfold hash_at. by intros ->. Qed.

(** The key [putBinding] uses, and whether it is a new one. *)
Definition chosen (kind : string) (actor : Actor) (id : string) (r : R) (key : string) (code : Z) : Prop :=
  (code = StatusOK ∧ is_Some (rview r !! MangleKey key) ∧
     rglob (MangleKey (bindingKey kind actor "*" id)) (MangleKey key) = true) ∨
  (code = StatusNoContent ∧ key = bindingKey kind actor (Itoa BindingPartition) id ∧
     ∀ m, rglob (MangleKey (bindingKey kind actor "*" id)) m = true → rview r !! m = None).

Lemma putBinding_keys kind actor id r :
  connected → keys_ok (bindingKey kind actor "*" id) (rview r) r →
  ∃ ks r', Keys MangleKey UnmangleKey (bindingKey kind actor "*" id) r = (Ok ks, r') ∧ rview r' = rview r ∧
    match ks with
    | key :: _ => is_Some (rview r !! MangleKey key) ∧
        rglob (MangleKey (bindingKey kind actor "*" id)) (MangleKey key) = true ∧
        is_Some (hash_at (rview r) (MangleKey key))
    | [] => ∀ m, rglob (MangleKey (bindingKey kind actor "*" id)) m = true → rview r !! m = None
    end.
Proof.
  intros Hc Hk.
  destruct (Keys_spec MangleKey UnmangleKey (bindingKey kind actor "*" id) r Hc) as (ks & r' & E & V & Hin).
  { intros m Hm Hg. destruct (Hk m Hm Hg) as (u & Hu & _). eauto. }
  exists ks, r'. split_and!; [done|done|]. destruct ks as [|key ks].
  - intros m Hg. destruct (rview r !! m) eqn:Em; [|done].
    destruct (Hk m (ex_intro _ _ Em) Hg) as (u & Hu & _).
    assert (u ∈ []) as Hu0%elem_of_nil; [|done]. apply Hin. eauto.
  - destruct (proj1 (Hin key)) as (m & Hm & Hg & Hu); [by left|].
    destruct (Hk m Hm Hg) as (u & Hu' & Hmk & Hh). assert (u = key) as -> by congruence. by rewrite Hmk.
Qed.
End lemmas.

(* ---------------------------------------------------------------------- *)
(** ** The reminders are such a collection *)

Section reminders.
Context `{Reminders.TimeText} (Unmarshal : string → Reminders.scheduleReminderPayload + gerror).

#[export] Instance reminder_bindings : Bindings Reminders.reminderQueue Reminders.Reminder := {|
  k := Reminders.r_key;
  add b := let* code := Reminders.add b in ret (code, None);
  cancel := Reminders.cancel;
  find := Reminders.find;
  parse := Reminders.parse Unmarshal;
  load := Reminders.load;
|}.

Lemma reminder_parse_matches a i key payload b m :
  Reminders.parse Unmarshal a i key payload = inl (b, m) →
  Reminders.r_Actor b = a ∧ Reminders.r_ID b = i ∧ Reminders.r_key b = key ∧ m = Reminders.persistReminder b.
Proof. unfold Reminders.parse. intros E. repeat case_match; by simplify_eq/=. Qed.

#[export] Program Instance reminder_bindings_laws :
    BindingsLaws Reminders.reminderQueue Reminders.Reminder := {|
  wf := Reminders.wf;
  matches := Reminders.named;
|}.
Next Obligation. intros a i q b _. simpl. rewrite Reminders.find_live. by intros [? _]%list_elem_of_filter. Qed.
Next Obligation.
  simpl. intros a i key payload b m (<- & <- & <- & _)%reminder_parse_matches. split; [|done].
  unfold Reminders.named. rewrite bool_decide_eq_true_2 by done. by rewrite String.eqb_refl, orb_true_r.
Qed.
Next Obligation.
  intros a i b q Hwf _ _. destruct (Reminders.add_spec b q Hwf) as (q' & E & Hwf' & P).
  exists Reminders.StatusOK, None, q'. simpl. unfold bind. rewrite E. split_and!; [done|done|].
  pose proof (Reminders.live_perm _ _ P) as L. rewrite Reminders.live_cons in L.
  intros a' i'. rewrite !Reminders.find_live, L. simpl.
  rewrite filter_cons. by destruct (Reminders.named a' i' b).
Qed.
Next Obligation.
  intros a i q Hwf. split_and!.
  - by rewrite Reminders.cancel_spec.
  - by apply Reminders.cancel_wf.
  - intros a' i'. simpl. rewrite !Reminders.find_live, Reminders.live_cancel.
    rewrite !list_filter_filter. apply reflexive_eq, list_filter_iff. tauto.
Qed.
End reminders.

(* ---------------------------------------------------------------------- *)
(** ** The properties *)

(** The key of a binding names it: parsing the key gives back its kind, actor,
    partition and identifier, when these are free of the separator. *)
Theorem key_roundtrip kind actor p id :
  Forall (λ s, has_char Separator s = false) [kind; Reminders.a_Type actor; Reminders.a_ID actor; id] →
  0 ≤ p < 2 ^ 31 →
  keyBinding (bindingKey kind actor (Itoa p) id) = Ok (kind, actor, p, id).
Proof.
  intros Hsep Hp. unfold keyBinding. rewrite bindingKey_Join, Split_Join; [|done|].
  - rewrite ParseInt32_Itoa by done. by destruct actor.
  - constructor; [done|]. constructor; [apply Itoa_no_sep; lia|exact Hsep].
Qed.

(** C21: [putBinding] rejects a payload that does not parse without touching memory
    or Redis; otherwise, in memory, the new binding takes the place of the
    bindings of that actor and identifier and leaves the others alone, unless it
    cannot be added, and then Redis is not touched; and in Redis its fields are
    written to the key of the binding, an existing one if there is one. *)
Theorem putBinding_replaces {R Q B : Type} `{RedisLaws R} `{MapIter} `{BindingsLaws Q B}
    (MangleKey : string → string) (UnmangleKey : string → res string) kind actor id payload
    (w : @world R Q) :
  connected → wf (w_pair w) →
  keys_ok MangleKey UnmangleKey (bindingKey kind actor "*" id) (rview (w_redis w)) (w_redis w) →
  rglob (MangleKey (bindingKey kind actor "*" id))
    (MangleKey (bindingKey kind actor (Itoa BindingPartition) id)) = true →
  ∃ key success w' result,
    chosen MangleKey kind actor id (w_redis w) key success ∧
    putBinding MangleKey UnmangleKey kind actor id payload w = (Ok result, w') ∧
    match parse actor id key payload with
    | inr err => result = (StatusBadRequest, Some err) ∧ w_pair w' = w_pair w ∧ rview (w_redis w') = rview (w_redis w)
    | inl (b, m) =>
        wf (w_pair w') ∧
        (∀ a i, find a i (w_pair w') ≡ₚ
           (if result.2 then [] else if matches a i b then [b] else []) ++
           filter (λ b', matches actor id b' = false) (find a i (w_pair w))) ∧
        match result.2 with
        | Some _ => rview (w_redis w') = rview (w_redis w)
        | None => result.1 = success ∧ (m ≠ ∅ →
            ∃ old, hash_at (rview (w_redis w)) (MangleKey key) = Some old ∧
              rview (w_redis w') = <[MangleKey key := VHash (m ∪ old)]> (rview (w_redis w)))
        end
    end.
Proof.
  intros Hc Hwf Hk Hnew.
  destruct (putBinding_keys MangleKey UnmangleKey kind actor id (w_redis w) Hc Hk) as (ks & r' & E & V & Hks).
  set (choice := match ks with
                 | key :: _ => (key, StatusOK)
                 | [] => (bindingKey kind actor (Itoa BindingPartition) id, StatusNoContent)
                 end).
  assert (chosen MangleKey kind actor id (w_redis w) choice.1 choice.2 ∧
    ∃ old, hash_at (rview (w_redis w)) (MangleKey choice.1) = Some old) as [Hchosen [old Hold]].
  { unfold choice, chosen. destruct ks as [|key ks]; simpl.
    - split; [by right|]. exists ∅. by apply hash_at_absent, Hks.
    - destruct Hks as (Hin & Hg & old & Ho). split; [by left|by exists old]. }
  exists choice.1, choice.2. unfold putBinding, bind, attempt, on_redis. rewrite E. fold choice.
  destruct choice as [key code]. simpl in *.
  destruct (parse actor id key payload) as [[b m]|err] eqn:Ep; [|by eexists _, _].
  destruct (parse_matches _ _ _ _ _ _ Ep) as [Hm _].
  destruct (cancel_law actor id (w_pair w) Hwf) as (_ & Hwf1 & Hf1).
  unfold on_pair, cancel_m. simpl. destruct (cancel actor id (w_pair w)) as [found q1]. simpl in *.
  assert (find actor id q1 = []) as Hnone.
  { apply Permutation_nil_r. rewrite Hf1, filter_none; [done|]. intros b' Hb'%(find_matches _ _ _ _ Hwf). by rewrite Hb'. }
  destruct (add_law actor id b q1 Hwf1 Hm Hnone) as (c & err & q2 & Ea & Hwf2 & Hf2). rewrite Ea.
  assert (∀ a i, find a i q2 ≡ₚ (if err then [] else if matches a i b then [b] else []) ++
    filter (λ b', matches actor id b' = false) (find a i (w_pair w))) as Hf.
  { intros a i. rewrite Hf2, Hf1. by destruct err. }
  destruct err as [err|]; [by eexists _, (c, Some err)|].
  destruct (decide (m = ∅)) as [->|Hne].
  - eexists _, (code, None). split; [done|]. split; [by unfold HSetMultiple|]. done.
  - destruct (HSetMultiple_spec MangleKey key m old r' Hc Hne) as (r2 & Eh & Vh); [by rewrite V|].
    simpl. rewrite Eh. eexists _, (code, None). split; [done|]. split; [done|].
    split; [done|]. split; [done|]. split; [done|]. intros _. exists old. simpl. by rewrite Vh, V.
Qed.

(** [deleteBindings] removes the bindings of an actor and an identifier from
    memory and their keys from Redis, leaves the others, and returns how many
    they were. *)
Theorem deleteBindings_removes {R Q B : Type} `{RedisLaws R} `{BindingsLaws Q B}
    (MangleKey : string → string) actor id (w : @world R Q) :
  connected → wf (w_pair w) →
  ∃ w', deleteBindings MangleKey actor id w = (Ok (Z.of_nat (length (find actor id (w_pair w)))), w') ∧
    wf (w_pair w') ∧ find actor id (w_pair w') = [] ∧
    (∀ a i, find a i (w_pair w') ≡ₚ filter (λ b, matches actor id b = false) (find a i (w_pair w))) ∧
    (∀ key, rview (w_redis w') !! key =
       if bool_decide (key ∈ (λ b, MangleKey (k b)) <$> find actor id (w_pair w)) then None
       else rview (w_redis w) !! key).
Proof.
  intros Hc Hwf. destruct (cancel_law actor id (w_pair w) Hwf) as (P & Hwf' & Hf).
  unfold deleteBindings, bind, on_pair, cancel_m. destruct (cancel actor id (w_pair w)) as [found q]. simpl in *.
  destruct (del_all_spec MangleKey found (mkWorld q (w_redis w)) Hc) as (r' & -> & V). simpl in *.
  eexists. split; [by rewrite <-P|]. simpl. split_and!; [done| |done|].
  - apply Permutation_nil_r. rewrite Hf, filter_none; [done|]. intros b Hb%(find_matches _ _ _ _ Hwf). by rewrite Hb.
  - intros key. rewrite V. f_equal.
    rewrite (bool_decide_ext _ (key ∈ (λ b, MangleKey (k b)) <$> find actor id (w_pair w))); [done|]. by rewrite P.
Qed.

(** C34: a reminder that was put under a new key is read back by [loadBinding] into an
    empty memory, as a restarted sidecar does, exactly as it was; and when it is
    in memory already, [loadBinding] changes nothing. *)
Theorem reminder_survives_restart {R : Type} `{RedisLaws R} `{MapIter} `{Reminders.TimeTextLaws}
    (Unmarshal : string → Reminders.scheduleReminderPayload + gerror) (MangleKey : string → string)
    kind actor partition id payload b m t (w : @world R Reminders.reminderQueue) :
  let key := bindingKey kind actor partition id in
  let load := @loadBinding R _ _ _ (reminder_bindings Unmarshal) MangleKey kind actor partition id in
  connected → Reminders.parse Unmarshal actor id key payload = inl (b, m) →
  rview (w_redis w) !! MangleKey key = Some (VHash m) → w_pair w = Reminders.empty_queue →
  0 ≤ Reminders.r_Period b < 2 ^ 63 → Reminders.MarshalText (Reminders.r_TargetTime b) = inl t →
  ∃ w', load w = (Ok tt, w') ∧ Reminders.wf (w_pair w') ∧ Reminders.find actor id (w_pair w') = [b] ∧
    rview (w_redis w') = rview (w_redis w) ∧ load w' = (Ok tt, w').
Proof.
  intros key load Hc Ep Hr Hw Hper Ht.
  destruct (reminder_parse_matches Unmarshal actor id key payload b m Ep) as (Ha & Hi & Hk & ->).
  assert (hash_at (rview (w_redis w)) (MangleKey key) = Some (Reminders.persistReminder b)) as Hh
    by (unfold hash_at; by rewrite Hr).
  destruct (HGetAll_spec MangleKey key _ (w_redis w) Hc Hh) as (r' & Eg & V).
  assert (Reminders.load actor id key (Reminders.persistReminder b) = inl b) as El
    by (rewrite <-Hk; by eapply Reminders.persist_load).
  destruct (Reminders.add_spec b Reminders.empty_queue Reminders.wf_empty) as (q & Ea & Hwf & P).
  assert (Reminders.find actor id q = [b]) as Hf.
  { pose proof (Reminders.live_perm _ _ P) as L. rewrite Reminders.live_cons in L. simpl in L.
    apply Permutation_singleton_r. rewrite Reminders.find_live, L.
    assert (Reminders.named actor id b = true) as Hn.
    { unfold Reminders.named. rewrite bool_decide_eq_true_2 by done. by rewrite Hi, String.eqb_refl, orb_true_r. }
    rewrite filter_cons. by rewrite decide_True. }
  exists (mkWorld q r'). unfold load, loadBinding, bind, on_pair, on_redis, find_m. simpl.
  rewrite Hw. simpl. fold key. rewrite Eg.
  rewrite decide_False.
  2:{ intros Hs%map_size_empty_inv. unfold Reminders.persistReminder in Hs.
      repeat case_match; by apply insert_non_empty in Hs. }
  rewrite El. with_strategy opaque [Reminders.add] simpl. unfold bind at 1. rewrite Ea. simpl. rewrite Hf. by split_and!.
Qed.

Module Witness.
#[local] Existing Instance MiniRedis.
#[local] Existing Instance MiniRedis_laws.
#[local] Existing Instance Reminders.Witness.decimal_text.
#[local] Existing Instance Reminders.Witness.decimal_text_laws.
#[local] Existing Instance canonical_iter.

Definition acct : Actor := mkActor "Account" "1".

(** Two request bodies: a periodic reminder and a one-shot one. *)
Definition Unmarshal0 (s : string) : Reminders.scheduleReminderPayload + gerror :=
  if String.eqb s "periodic" then inl (Reminders.mkPayload "tick" 10 "5" None)
  else if String.eqb s "once" then inl (Reminders.mkPayload "tick" 20 "" None)
  else inr (EMsg "invalid character").

#[local] Existing Instance reminder_bindings.
#[local] Instance bindings0 : Bindings Reminders.reminderQueue Reminders.Reminder := reminder_bindings Unmarshal0.
#[local] Instance laws0 : BindingsLaws Reminders.reminderQueue Reminders.Reminder := reminder_bindings_laws Unmarshal0.

Definition id_mangle (k : string) : string := k.
Definition id_unmangle (k : string) : res string := Ok k.

Definition put (payload : string) :
    M (@world (gmap string rvalue) Reminders.reminderQueue) (Z * option gerror) :=
  putBinding (H1 := bindings0) id_mangle id_unmangle "reminders" acct "r" payload.

Definition w0 : @world (gmap string rvalue) Reminders.reminderQueue := mkWorld Reminders.empty_queue ∅.

Lemma key_roundtrip_witness :
  keyBinding (bindingKey "reminders" acct (Itoa 7) "r") = Ok ("reminders", acct, 7, "r").
Proof. apply (key_roundtrip "reminders" acct 7 "r"); [repeat constructor|done]. Defined.

Definition key0 : string := bindingKey "reminders" acct (Itoa 0) "r".

Definition w1 : @world (gmap string rvalue) Reminders.reminderQueue := (put "periodic" w0).2.

Lemma putBinding_witness :
  ∃ key success w' result,
    chosen id_mangle "reminders" acct "r" (w_redis w0) key success ∧
    put "periodic" w0 = (Ok result, w') ∧
    match parse acct "r" key "periodic" with
    | inr err => result = (StatusBadRequest, Some err) ∧ w_pair w' = w_pair w0 ∧ rview (w_redis w') = rview (w_redis w0)
    | inl (b, m) =>
        wf (w_pair w') ∧
        (∀ a i, find a i (w_pair w') ≡ₚ
           (if result.2 then [] else if matches a i b then [b] else []) ++
           filter (λ b', matches acct "r" b' = false) (find a i (w_pair w0))) ∧
        match result.2 with
        | Some _ => rview (w_redis w') = rview (w_redis w0)
        | None => result.1 = success ∧ (m ≠ ∅ →
            ∃ old, hash_at (rview (w_redis w0)) (id_mangle key) = Some old ∧
              rview (w_redis w') = <[id_mangle key := VHash (m ∪ old)]> (rview (w_redis w0)))
        end
    end.
Proof.
  apply (putBinding_replaces id_mangle id_unmangle "reminders" acct "r" "periodic" w0).
  - by intros r.
  - exact Reminders.wf_empty.
  - intros m [v Hv] _. change ((∅ : gmap string rvalue) !! m = Some v) in Hv. by rewrite lookup_empty in Hv.
  - vm_compute. reflexivity.
Defined.

Definition rem0 : Reminders.Reminder := Reminders.mkReminder acct "r" key0 "tick" 10 5 "".

Lemma w1_wf : Reminders.wf (w_pair w1).
Proof.
  assert (w_pair w1 = (Reminders.add rem0 Reminders.empty_queue).2) as -> by (vm_compute; reflexivity).
  by destruct (Reminders.add_spec rem0 _ Reminders.wf_empty) as (q & -> & Hwf & _).
Qed.

Lemma deleteBindings_witness :
  ∃ w', deleteBindings id_mangle acct "r" w1 = (Ok (Z.of_nat (length (find acct "r" (w_pair w1)))), w') ∧
    wf (w_pair w') ∧ find acct "r" (w_pair w') = [] ∧
    (∀ a i, find a i (w_pair w') ≡ₚ filter (λ b, matches acct "r" b = false) (find a i (w_pair w1))) ∧
    (∀ key, rview (w_redis w') !! key =
       if bool_decide (key ∈ (λ b, id_mangle (k b)) <$> find acct "r" (w_pair w1)) then None
       else rview (w_redis w1) !! key).
Proof. apply (deleteBindings_removes id_mangle acct "r" w1); [by intros r|exact w1_wf]. Defined.

Definition w_restarted : @world (gmap string rvalue) Reminders.reminderQueue :=
  mkWorld Reminders.empty_queue (w_redis w1).

Lemma restart_witness :
  ∃ w', loadBinding (H1 := bindings0) id_mangle "reminders" acct (Itoa 0) "r" w_restarted = (Ok tt, w') ∧
    Reminders.wf (w_pair w') ∧ Reminders.find acct "r" (w_pair w') = [rem0] ∧
    rview (w_redis w') = rview (w_redis w_restarted) ∧
    loadBinding (H1 := bindings0) id_mangle "reminders" acct (Itoa 0) "r" w' = (Ok tt, w').
Proof.
  apply (reminder_survives_restart Unmarshal0 id_mangle "reminders" acct (Itoa 0) "r" "periodic" rem0
    (Reminders.persistReminder rem0) (FormatInt 10) w_restarted);
    [by intros r|vm_compute; reflexivity..|done|vm_compute; reflexivity].
Defined.

(** *** Replacing a periodic reminder by a one-shot one

    In memory the reminder is one-shot afterwards; in Redis the fields of the old
    one that the new one does not have remain, so that after a restart it is
    periodic again. *)
Definition w2 : @world (gmap string rvalue) Reminders.reminderQueue := (put "once" w1).2.

Definition w2_reloaded : @world (gmap string rvalue) Reminders.reminderQueue :=
  (loadBinding (H1 := bindings0) id_mangle "reminders" acct (Itoa 0) "r"
     (mkWorld Reminders.empty_queue (w_redis w2))).2.

Example replaced_reminder_turns_periodic :
  Reminders.r_Period <$> Reminders.find acct "r" (w_pair w2) = [0] ∧
  Reminders.r_Period <$> Reminders.find acct "r" (w_pair w2_reloaded) = [5].
Proof. vm_compute. done. Qed.

End Witness.

End Bindings.
