(* ===== verification/ActorState.v ===== *)
(** * ActorState: the state of actors, one Redis hash per actor

    Models src/core/internal/runtime/routes-state.go.  An entry [key] of an
    actor's state is the field [key__] of the hash, an entry [key/subkey] of a
    sub-map the field [key_subkey].  The handlers are functions from the
    parameters and the body of a request to the answer and the new state of
    Redis; the specification is a map from entries to values. *)

From S2P Require Import Prelude GoLib Json Store.
Open Scope string_scope.
Open Scope Z_scope.
Open Scope go_scope.

Module ActorState.
Import Store.

(* ---------------------------------------------------------------------- *)
(** ** Keys *)

Definition stateKey (t id : string) : string := "main" ++ sep ++ "state" ++ sep ++ t ++ sep ++ id.

Definition flatEntryKey (key : string) : string := key ++ sep ++ sep.
Definition nestedEntryKey (key subkey : string) : string := key ++ sep ++ subkey.
Definition nestedEntryKeyPrefix (key : string) : string := key ++ sep.

(** The parameters of the route; a part that is not in the path is empty. *)
Record Params : Type := mkParams {
  p_type : string;
  p_id : string;
  p_key : string;
  p_subkey : string;
}.

Definition mangledEntryKey (ps : Params) : string :=
  if negb (String.eqb (p_subkey ps) "") then nestedEntryKey (p_key ps) (p_subkey ps)
  else flatEntryKey (p_key ps).

(** actors.go: the body of a multi-element update. *)
Record stateUpdateOp : Type := mkUpdate {
  Updates : gmap string any;
  SubmapUpdates : gmap string (gmap string any);
  Removals : list string;
  SubmapRemovals : gmap string (list string);
}.

(** actors.go: the operation on a sub-map. *)
Record submapOp : Type := mkSubmapOp { Op : string }.

Section handlers.
Context {R : Type} `{Redis R} `{Json} `{MapIter}.
Context (MangleKey : string → string).
(** The text of an error and of a value in [fmt.Sprintf], and the decoding and
    encoding of the bodies that are structures. *)
Context (Error : gerror → string) (Sprint : any → string).
Context (UnmarshalMapOp : string → option submapOp).
Context (UnmarshalUpdateOp : string → option stateUpdateOp).
Context (MarshalUpdateOp : Z → Z → res string).

Definition key_of (ps : Params) : string := stateKey (p_type ps) (p_id ps).

(** A call whose error the handler turns into an answer. *)
Definition answering {A} (m : M R A) (fail : gerror → httpResponse) (k : A → M R httpResponse)
    : M R httpResponse :=
  let* x := attempt m in
  match x with inl a => k a | inr e => ret (fail e) end.

Definition routeImplContainsKey (ps : Params) : M R httpResponse :=
  answering (HExists MangleKey (key_of ps) (mangledEntryKey ps))
    (λ err, http_Error ("HExists failed: " ++ Error err) 500)
    (λ reply, ret (if reply =? 0 then http_Error "key not present" 404 else http_status 200)).

Definition location (ps : Params) : string :=
  "/kar/v1/actor/" ++ p_type ps ++ "/" ++ p_id ps ++ "/state/" ++ p_key ps ++
  (if negb (String.eqb (p_subkey ps) "") then "/" ++ p_subkey ps else "").

Definition routeImplSet (ps : Params) (value : string) : M R httpResponse :=
  answering (HSet MangleKey (key_of ps) (mangledEntryKey ps) value)
    (λ err, http_Error ("HSET failed: " ++ Error err) 500)
    (λ reply, ret (if reply =? 1 then mkHttp 201 [("Location", location ps)] "" else http_status 204)).

(** [nilOnAbsent] is the value of the form parameter. *)
Definition routeImplGet (ps : Params) (nilOnAbsent : string) : M R httpResponse :=
  answering (HGet MangleKey (key_of ps) (mangledEntryKey ps))
    (λ err, if decide (err = EErrNil) then
              (if String.eqb nilOnAbsent "true" then http_text "" else http_Error "Not Found" 404)
            else http_Error ("HGET failed: " ++ Error err) 500)
    (λ reply, ret (http_json reply)).

Definition routeImplDel (ps : Params) : M R httpResponse :=
  answering (HDel MangleKey (key_of ps) (mangledEntryKey ps))
    (λ err, http_Error ("HDEL failed: " ++ Error err) 500)
    (λ reply, ret (http_text (Itoa reply))).

Definition routeImplDelAll (ps : Params) : M R httpResponse :=
  answering (Del MangleKey (key_of ps))
    (λ err, if decide (err = EErrNil) then http_Error "Not Found" 404
            else http_Error ("DEL failed: " ++ Error err) 500)
    (λ reply, ret (http_text (Itoa reply))).

(* ---------------------------------------------------------------------- *)
(** ** Sub-maps *)

(** The body of the loop over one reply of HSCAN: a callback on each key and
    value, stopping at its first error; a key without a value is out of range. *)
Fixpoint scan_page {A} (op : string → string → A → res A) (result : list string) (acc : A) : res A :=
  match result with
  | [] => Ok acc
  | [_] => Panic "index out of range"
  | k :: v :: rest =>
      match op k v acc with
      | Ok acc' => scan_page op rest acc'
      | failure => failure
      end
  end.

Fixpoint scan_loop {A} (fuel : nat) (stateKey subkeyPrefix : string)
    (op : string → string → A → res A) (cursor : Z) (acc : A) : M R A :=
  match fuel with
  | O => of_res OutOfFuel
  | S fuel' =>
      let* '(newCursor, result) := HScan MangleKey stateKey cursor subkeyPrefix in
      let* acc' := of_res (scan_page op result acc) in
      if newCursor =? 0 then ret acc' else scan_loop fuel' stateKey subkeyPrefix op newCursor acc'
  end.

Definition subMapScan {A} (fuel : nat) (stateKey mapName : string)
    (op : string → string → A → res A) (acc : A) : M R A :=
  scan_loop fuel stateKey (nestedEntryKeyPrefix mapName ++ "*") op 0 acc.

Definition op_clear (key value : string) (mapKeys : list string) : res (list string) :=
  Ok (mapKeys ++ [key])%list.

Definition op_get (subkeyPrefix key value : string) (m : gmap string any) : res (gmap string any) :=
  if String.eqb value "" then Ok m
  else match Unmarshal value with
       | Some userValue => Ok (<[TrimPrefix key subkeyPrefix := userValue]> m)
       | None => Err (EMsg ("Failed to deserialize submap value: " ++ value))
       end.

Definition op_keys (subkeyPrefix key value : string) (userKeys : list string) : res (list string) :=
  Ok (userKeys ++ [TrimPrefix key subkeyPrefix])%list.

Definition op_size (key value : string) (size : Z) : res Z := Ok (size + 1).

(** The end of the handler: the response as JSON. *)
Definition send_json (fail : gerror → httpResponse) (buf : res string) : M R httpResponse :=
  answering (of_res buf) fail (λ text, ret (http_json text)).

Definition marshal_response : any → M R httpResponse := λ response,
  send_json (λ err, http_Error ("mapOps: error marshalling response " ++ Error err) 500) (Marshal response).

Definition scan_failed (op : string) (err : gerror) : httpResponse :=
  http_Error ("submapOps:" ++ op ++ ": subMapScan failed: " ++ Error err) 500.

Definition routeImplSubmapOps (fuel : nat) (ps : Params) (request : string) : M R httpResponse :=
  match UnmarshalMapOp request with
  | None => ret (http_Error "Request body was not a MapOp" 400)
  | Some op =>
      let stateKey := key_of ps in
      let mapName := p_key ps in
      let subkeyPrefix := nestedEntryKeyPrefix mapName in
      if String.eqb (Op op) "clear" then
        answering (subMapScan fuel stateKey mapName op_clear []) (scan_failed "clear") (λ mapKeys,
          answering (HDelMultiple MangleKey stateKey mapKeys)
            (λ err, http_Error ("submapOps: HDEL failed  " ++ Error err) 500)
            (λ numCleared, marshal_response (AInt numCleared)))
      else if String.eqb (Op op) "get" then
        answering (subMapScan fuel stateKey mapName (op_get subkeyPrefix) ∅) (scan_failed "get")
          (λ m, marshal_response (AMap m))
      else if String.eqb (Op op) "keys" then
        answering (subMapScan fuel stateKey mapName (op_keys subkeyPrefix) []) (scan_failed "keys")
          (λ userKeys, marshal_response (AStrings userKeys))
      else if String.eqb (Op op) "size" then
        answering (subMapScan fuel stateKey mapName op_size 0) (scan_failed "size")
          (λ size, marshal_response (AInt size))
      else ret (http_Error ("Unsupported map operation " ++ Op op) 400)
  end.

(* ---------------------------------------------------------------------- *)
(** ** The whole state *)

(** The body of the loop of [actorGetAllState] on one field; [json.Unmarshal]
    leaves [nil] on malformed text. *)
Definition add_field (kv : string * string) (m : gmap string any) : res (gmap string any) :=
  let v := default ANil (Unmarshal kv.2) in
  match Split2 Separator kv.1 with
  | key :: subkey :: _ =>
      if String.eqb subkey sep then Ok (<[key := v]> m)
      else
        let m1 := if is_nil (index_any m key) then <[key := AMap ∅]> m else m in
        match as_map (index_any m1 key) with
        | Ok sub => Ok (<[key := AMap (<[subkey := v]> sub)]> m1)
        | Err e => Err e
        | Panic s => Panic s
        | OutOfFuel => OutOfFuel
        end
  | _ => Panic "index out of range"
  end.

Fixpoint add_fields (l : list (string * string)) (m : gmap string any) : res (gmap string any) :=
  match l with
  | [] => Ok m
  | kv :: l' =>
      match add_field kv m with
      | Ok m' => add_fields l' m'
      | failure => failure
      end
  end.

Definition actorGetAllState (actorType actorID : string) : M R (gmap string any) :=
  let* reply := HGetAll MangleKey (stateKey actorType actorID) in
  of_res (add_fields (map_iter 20 reply) ∅).

(** The error of [json.Marshal] is dropped. *)
Definition routeImplGetAll (ps : Params) : M R httpResponse :=
  answering (actorGetAllState (p_type ps) (p_id ps))
    (λ err, http_Error ("actorGetAllState failed: " ++ Error err) 500)
    (λ state, match Marshal (AMap state) with
              | Ok b => ret (http_json b)
              | Err _ => ret (http_json "")
              | Panic s => of_res (Panic s)
              | OutOfFuel => of_res OutOfFuel
              end).

(* ---------------------------------------------------------------------- *)
(** ** Updates *)

Definition toClear (op : stateUpdateOp) : list string :=
  app (flatEntryKey <$> Removals op)
  (map_iter 21 (SubmapRemovals op) ≫= λ mr, nestedEntryKey mr.1 <$> mr.2).

(** Marshal the values [l] under the fields [field]; the first error aborts with
    the text of the answer. *)
Fixpoint marshal_updates (malformed : string → any → gerror → string) (field : string → string)
    (l : list (string * any)) (acc : gmap string string) : res (gmap string string + string) :=
  match l with
  | [] => Ok (inl acc)
  | (k, v) :: l' =>
      match Marshal v with
      | Ok s => marshal_updates malformed field l' (<[field k := s]> acc)
      | Err err => Ok (inr (malformed k v err))
      | Panic s => Panic s
      | OutOfFuel => OutOfFuel
      end
  end.

Definition malformed_flat (stateKey k : string) (v : any) (err : gerror) : string :=
  "StateUpdate: malformed update " ++ stateKey ++ "[" ++ k ++ "] = " ++ Sprint v ++
  ". Error was " ++ Error err.

Definition malformed_nested (stateKey mapName k : string) (v : any) (err : gerror) : string :=
  "StateUpdate: malformed update " ++ stateKey ++ "[" ++ mapName ++ "][" ++ k ++ "] = " ++ Sprint v ++
  ". Error was " ++ Error err.

Fixpoint marshal_submaps (stateKey : string) (l : list (string * gmap string any))
    (acc : gmap string string) : res (gmap string string + string) :=
  match l with
  | [] => Ok (inl acc)
  | (mapName, updates) :: l' =>
      match marshal_updates (malformed_nested stateKey mapName) (nestedEntryKey mapName)
              (map_iter 24 updates) acc with
      | Ok (inl acc') => marshal_submaps stateKey l' acc'
      | failure => failure
      end
  end.

Definition toUpdate (stateKey : string) (op : stateUpdateOp) : res (gmap string string + string) :=
  match marshal_updates (malformed_flat stateKey) flatEntryKey (map_iter 22 (Updates op)) ∅ with
  | Ok (inl acc) => marshal_submaps stateKey (map_iter 23 (SubmapUpdates op)) acc
  | failure => failure
  end.

Definition routeImplStateUpdate (ps : Params) (request : string) : M R httpResponse :=
  match UnmarshalUpdateOp request with
  | None => ret (http_Error "Request body was not a StateUpdateOp" 400)
  | Some op =>
      let stateKey := key_of ps in
      let removals := toClear op in
      let* updates := of_res (toUpdate stateKey op) in
      match updates with
      | inr text => ret (http_Error text 400)
      | inl updates =>
          answering (if decide (removals = []) then ret 0 else HDelMultiple MangleKey stateKey removals)
            (λ err, http_Error ("StateUpate: HDEL failed  " ++ Error err) 500)
            (λ numCleared,
              answering (if decide (updates = ∅) then ret 0 else HSetMultiple MangleKey stateKey updates)
                (λ err, http_Error ("StateUpate: HSET failed  " ++ Error err) 500)
                (λ numAdded,
                  send_json (λ err, http_Error ("StateUpdate: error marshalling response " ++ Error err) 500)
                    (MarshalUpdateOp numCleared numAdded)))
      end
  end.

End handlers.

(* ---------------------------------------------------------------------- *)
(** ** Specification: a map from entries to values *)

(** An entry of the state: a key, or a key and a subkey. *)
Abbreviation entry := (string * option string)%type (only parsing).
Abbreviation state := (gmap entry string) (only parsing).

Definition field_of (x : entry) : string :=
  match x.2 with None => flatEntryKey x.1 | Some subkey => nestedEntryKey x.1 subkey end.

(** Entries whose field can be told apart: no separator in the key, and a
    subkey that is not the separator. *)
Definition entry_ok (x : entry) : Prop := has_char Separator x.1 = false ∧ x.2 ≠ Some sep.

Definition entry_of (ps : Params) : entry :=
  (p_key ps, if negb (String.eqb (p_subkey ps) "") then Some (p_subkey ps) else None).

(** The hash [h] stores the state [a]. *)
Definition encodes (h : gmap string string) (a : state) : Prop :=
  (∀ x, is_Some (a !! x) → entry_ok x) ∧
  ∀ f s, h !! f = Some s ↔ ∃ x, a !! x = Some s ∧ field_of x = f.

(** The entry that a field is read as by [actorGetAllState]. *)
Definition entry_of_field (f : string) : entry :=
  match Split2 Separator f with
  | key :: subkey :: _ => (key, if String.eqb subkey sep then None else Some subkey)
  | _ => (f, None)
  end.

Definition subkeys (a : state) (k : string) : gset string :=
  list_to_set (omap (λ x : entry, if decide (x.1 = k) then x.2 else None) (elements (dom a))).

Definition drop_submap (a : state) (k : string) : state :=
  filter (λ xs, ¬ (xs.1.1 = k ∧ is_Some xs.1.2)) a.

(** The object that the whole state is reported as. *)
Definition reported (dec : string → any) (a : state) (m : gmap string any) : Prop :=
  ∀ k, match a !! (k, None) with
       | Some s => m !! k = Some (dec s)
       | None =>
           ((∀ sk, a !! (k, Some sk) = None) ∧ m !! k = None) ∨
           ∃ sub, sub ≠ ∅ ∧ m !! k = Some (AMap sub) ∧ ∀ sk, sub !! sk = dec <$> a !! (k, Some sk)
       end.

(** No key is used both for a value and for a sub-map. *)
Definition unmixed (a : state) : Prop :=
  ∀ k sk, is_Some (a !! (k, None)) → a !! (k, Some sk) = None.

(* ---------------------------------------------------------------------- *)
(** ** Fields *)

#[local] Arguments String.append : simpl nomatch.

Lemma Split2_field x : entry_ok x →
  Split2 Separator (field_of x) = [x.1; default sep x.2].
Proof.
  destruct x as [k [sk|]]; intros [Hk _]; simpl in *; unfold field_of, nestedEntryKey, flatEntryKey, sep; simpl;
    by rewrite Split2_app.
Qed.

Lemma entry_of_field_of x : entry_ok x → entry_of_field (field_of x) = x.
Proof.
  intros Hx. unfold entry_of_field. rewrite Split2_field by done.
  destruct x as [k [sk|]], Hx as [Hk Hs]; simpl in *; [|done].
  destruct (String.eqb_spec sk sep) as [->|]; [by destruct Hs|done].
Qed.

Lemma field_of_inj x y : entry_ok x → entry_ok y → field_of x = field_of y → x = y.
Proof.
  intros Hx Hy E. rewrite <-(entry_of_field_of x), <-(entry_of_field_of y) by done. by rewrite E.
Qed.

Lemma HasPrefix_app_sep p k s :
  has_char Separator p = false → has_char Separator k = false →
  HasPrefix (k ++ String Separator s) (p ++ sep) = bool_decide (k = p).
Proof.
  unfold sep. revert k. induction p as [|c p IH]; intros [|c' k] Hp Hk; simpl in *.
  - by destruct s.
  - apply orb_false_iff in Hk as [Hc%bool_decide_eq_false _].
    rewrite (bool_decide_eq_false_2 (Separator = c')) by done. done.
  - apply orb_false_iff in Hp as [Hc%bool_decide_eq_false _].
    rewrite (bool_decide_eq_false_2 (c = Separator)) by done. done.
  - apply orb_false_iff in Hp as [_ Hp]. apply orb_false_iff in Hk as [_ Hk].
    rewrite IH by done. destruct (decide (c = c')) as [->|Hne].
    + rewrite (bool_decide_eq_true_2 (c' = c')) by done. simpl. apply bool_decide_ext. split; congruence.
    + rewrite (bool_decide_eq_false_2 (c = c')) by done. simpl.
      symmetry. apply bool_decide_eq_false. congruence.
Qed.

Lemma HasPrefix_field x p : entry_ok x → has_char Separator p = false →
  HasPrefix (field_of x) (nestedEntryKeyPrefix p) = bool_decide (x.1 = p).
Proof.
  intros [Hk _] Hp. destruct x as [k [sk|]]; unfold field_of, nestedEntryKey, flatEntryKey; simpl in *;
    by apply HasPrefix_app_sep.
Qed.

Lemma drop_prefix_app p s : drop_prefix p (p ++ s) = s.
Proof. induction p as [|c p IH]; [by destruct s|done]. Qed.

Lemma HasPrefix_app p s : HasPrefix (p ++ s) p = true.
Proof. induction p as [|c p IH]; [by destruct s|]. simpl. by rewrite bool_decide_eq_true_2. Qed.

Lemma TrimPrefix_field k sk : TrimPrefix (nestedEntryKey k sk) (nestedEntryKeyPrefix k) = sk.
Proof.
  unfold TrimPrefix, nestedEntryKey, nestedEntryKeyPrefix. rewrite <-append_assoc.
  by rewrite HasPrefix_app, drop_prefix_app.
Qed.

(* ---------------------------------------------------------------------- *)
(** ** Encoding of states *)

Lemma encodes_lookup h a x : encodes h a → entry_ok x → h !! field_of x = a !! x.
Proof.
  intros [Hok He] Hx. apply option_eq. intros s. rewrite He. split.
  - intros (y & Hy & E). apply field_of_inj in E as ->; [done|by apply Hok|done].
  - eauto.
Qed.

Lemma encodes_empty : encodes ∅ ∅.
Proof.
  split; [intros x [s Hs]; by rewrite lookup_empty in Hs|].
  intros f s. rewrite lookup_empty. split; [done|]. intros (x & Hx & _). by rewrite lookup_empty in Hx.
Qed.

Lemma encodes_insert h a x s : encodes h a → entry_ok x → encodes (<[field_of x := s]> h) (<[x := s]> a).
Proof.
  intros [Hok He] Hx. split.
  - intros y [t Hy]. apply lookup_insert_Some in Hy as [[<- _]|[_ Hy]]; [done|]. by apply Hok.
  - intros f t. rewrite lookup_insert_Some, He. split.
    + intros [[<- <-]|[Hne (y & Hy & E)]].
      * exists x. by rewrite lookup_insert_eq.
      * exists y. rewrite lookup_insert_ne by congruence. done.
    + intros (y & Hy & <-). apply lookup_insert_Some in Hy as [[<- <-]|[Hne Hy]]; [by left|].
      right. split; [|eauto]. intros E. apply field_of_inj in E; [done..|]. by apply Hok.
Qed.

Lemma encodes_delete h a x : encodes h a → entry_ok x → encodes (delete (field_of x) h) (delete x a).
Proof.
  intros [Hok He] Hx. split.
  - intros y [t [_ Hy]%lookup_delete_Some]. by apply Hok.
  - intros f t. rewrite lookup_delete_Some, He. split.
    + intros [Hne (y & Hy & E)]. exists y. rewrite lookup_delete_ne by congruence. done.
    + intros (y & [Hne Hy]%lookup_delete_Some & <-). split; [|eauto].
      intros E. apply field_of_inj in E; [done..|]. by apply Hok.
Qed.

Lemma encodes_delete_all h a xs : encodes h a → Forall entry_ok xs →
  encodes (delete_all (field_of <$> xs) h) (foldr delete a xs).
Proof.
  intros He. induction 1 as [|x xs Hx _ IH]; [done|]. simpl. by apply encodes_delete.
Qed.

Lemma encodes_dom h a : encodes h a → dom h = set_map field_of (dom a).
Proof.
  intros [Hok He]. apply set_eq. intros f. rewrite elem_of_dom, elem_of_map. split.
  - intros [s Hs]. apply He in Hs as (x & Hx & <-). exists x. split; [done|]. by eapply elem_of_dom_2.
  - intros (x & -> & [s Hs]%elem_of_dom). exists s. apply He. eauto.
Qed.

Lemma encodes_count h a xs : encodes h a → Forall entry_ok xs →
  count_bound h (field_of <$> xs) = Z.of_nat (size (dom a ∩ list_to_set xs)).
Proof.
  intros He Hxs. rewrite Forall_forall in Hxs. unfold count_bound. f_equal.
  rewrite (encodes_dom _ _ He). destruct He as [Hok _].
  assert (∀ x, x ∈ dom a → entry_ok x) as Hok' by (intros x Hx; by apply Hok, elem_of_dom).
  rewrite <-(size_image field_of).
  - f_equal. apply set_eq. intros f. rewrite elem_of_intersection, !elem_of_map.
    rewrite elem_of_list_to_set, list_elem_of_fmap. split.
    + intros [(x & -> & Hx) (y & E & Hy)]. exists x. split; [done|].
      apply field_of_inj in E; [|auto..]. set_solver.
    + set_solver.
  - intros x y Hx Hy. apply field_of_inj; apply Hok'; set_solver.
Qed.

(* ---------------------------------------------------------------------- *)
(** ** What an iteration over a sub-map replies *)

Section submaps.
Context `{Json}.

(** The pairs an iteration over the sub-map [k] is about. *)
Definition submap_pairs (k : string) (a : state) (l : list (string * string)) : Prop :=
  ∀ f s, (f, s) ∈ l ↔ ∃ sk, a !! (k, Some sk) = Some s ∧ f = nestedEntryKey k sk.

Lemma elem_of_subkeys a k sk : sk ∈ subkeys a k ↔ is_Some (a !! (k, Some sk)).
Proof.
  unfold subkeys. rewrite elem_of_list_to_set, list_elem_of_omap. split.
  - intros ([k' o] & Hx%elem_of_elements%elem_of_dom & E). simpl in *. case_decide; simplify_eq. done.
  - intros Hx. exists (k, Some sk). rewrite elem_of_elements, elem_of_dom. simpl.
    by rewrite decide_True.
Qed.

Lemma submap_pair_eq k a l kv : submap_pairs k a l → kv ∈ l →
  ∃ sk s, kv = (nestedEntryKey k sk, s) ∧ a !! (k, Some sk) = Some s.
Proof. intros Hl Hin. destruct kv as [f s]. apply Hl in Hin as (sk & Hx & ->). eauto. Qed.

Lemma submap_pairs_keys k a l sk : submap_pairs k a l →
  sk ∈ (λ kv : string * string, TrimPrefix kv.1 (nestedEntryKeyPrefix k)) <$> l ↔ sk ∈ subkeys a k.
Proof.
  intros Hl. rewrite list_elem_of_fmap, elem_of_subkeys. split.
  - intros (kv & -> & Hin). destruct (submap_pair_eq _ _ _ _ Hl Hin) as (sk' & s & -> & Hx).
    simpl. rewrite TrimPrefix_field. by eexists.
  - intros [s Hx]. exists (nestedEntryKey k sk, s). simpl. rewrite TrimPrefix_field.
    split; [done|]. apply Hl. eauto.
Qed.

(** The entries whose fields an iteration replies. *)
Definition pair_entries (k : string) (l : list (string * string)) : list entry :=
  (λ kv, (k, Some (TrimPrefix kv.1 (nestedEntryKeyPrefix k)))) <$> l.

Lemma pair_entries_fields k a l : submap_pairs k a l → l.*1 = field_of <$> pair_entries k l.
Proof.
  intros Hl. unfold pair_entries. rewrite <-list_fmap_compose. apply list_fmap_ext.
  intros i kv Hi%list_elem_of_lookup_2. destruct (submap_pair_eq _ _ _ _ Hl Hi) as (sk & s & -> & _).
  simpl. by rewrite TrimPrefix_field.
Qed.

Lemma elem_of_pair_entries k a l x : submap_pairs k a l →
  x ∈ pair_entries k l ↔ is_Some (a !! x) ∧ x.1 = k ∧ is_Some x.2.
Proof.
  intros Hl. unfold pair_entries. rewrite list_elem_of_fmap. split.
  - intros (kv & -> & Hin). destruct (submap_pair_eq _ _ _ _ Hl Hin) as (sk & s & -> & Hx).
    simpl. rewrite TrimPrefix_field, Hx. eauto.
  - destruct x as [k' [sk|]]; simpl; [|by intros (_ & _ & [? ?])]. intros ([s Hx] & -> & _).
    exists (nestedEntryKey k sk, s). simpl. rewrite TrimPrefix_field. split; [done|]. apply Hl. eauto.
Qed.

Lemma foldr_delete_lookup (a : state) xs x :
  foldr delete a xs !! x = if decide (x ∈ xs) then None else a !! x.
Proof.
  induction xs as [|y xs IH].
  - case_decide; [set_solver|done].
  - change (foldr delete a (y :: xs)) with (delete y (foldr delete a xs)).
    destruct (decide (y = x)) as [->|Hne].
    + rewrite lookup_delete_eq. clear IH. case_decide; set_solver.
    + rewrite lookup_delete_ne, IH by done.
      clear IH. repeat case_decide; set_solver.
Qed.

Lemma pair_entries_drop k a l : submap_pairs k a l → foldr delete a (pair_entries k l) = drop_submap a k.
Proof.
  intros Hl. apply map_eq. intros x. rewrite foldr_delete_lookup. unfold drop_submap.
  destruct (a !! x) as [s|] eqn:Hx.
  - case_decide as Hin.
    + symmetry. apply map_lookup_filter_None. right. intros s' _ Hn. apply Hn.
      eapply elem_of_pair_entries in Hin; [|done]. tauto.
    + symmetry. apply map_lookup_filter_Some. split; [done|]. intros Hn. apply Hin.
      eapply elem_of_pair_entries; [done|]. simpl in Hn. by rewrite Hx.
  - transitivity (None : option string); [by case_decide|]. symmetry.
    apply map_lookup_filter_None. by left.
Qed.

Lemma pair_entries_size k a l : submap_pairs k a l →
  size (dom a ∩ list_to_set (pair_entries k l)) = size (subkeys a k).
Proof.
  intros Hl.
  assert (dom a ∩ list_to_set (pair_entries k l) =
          set_map (λ sk, (k, Some sk) : entry) (subkeys a k)) as ->.
  { apply set_eq. intros x. rewrite elem_of_intersection, elem_of_list_to_set, elem_of_map, elem_of_dom.
    rewrite (elem_of_pair_entries k a l x Hl). split.
    - intros [Hx (_ & Hk & [sk Hs])]. exists sk. destruct x as [k' o]; simpl in *; subst.
      split; [done|]. by apply elem_of_subkeys.
    - intros (sk & -> & Hx%elem_of_subkeys). simpl. eauto. }
  apply size_image. intros x y _ _ E. by simplify_eq.
Qed.

(** The value of [get] at a subkey: empty texts are left out. *)
Definition submap_value (a : state) (k sk : string) : option any :=
  match a !! (k, Some sk) with
  | Some s => if String.eqb s "" then None else Unmarshal s
  | None => None
  end.

Definition get_step (k : string) (m : gmap string any) (kv : string * string) : gmap string any :=
  if String.eqb kv.2 "" then m
  else <[TrimPrefix kv.1 (nestedEntryKeyPrefix k) := default ANil (Unmarshal kv.2)]> m.

Lemma fold_get_spec k a l :
  submap_pairs k a l → Forall (λ kv, kv.2 = "" ∨ is_Some (Unmarshal kv.2)) l →
  ∀ sk, foldl (get_step k) ∅ l !! sk = submap_value a k sk.
Proof.
  intros Hl Hv sk.
  pose proof (λ kv, submap_pair_eq k a l kv Hl) as Hin.
  apply option_eq. intros v. split.
  - assert (∀ l' acc, l' ⊆ l → (∀ v, acc !! sk = Some v → submap_value a k sk = Some v) →
      foldl (get_step k) acc l' !! sk = Some v → submap_value a k sk = Some v) as Hgen.
    { induction l' as [|kv l' IH]; intros acc Hs Hacc; simpl; [by apply Hacc|].
      apply IH; [set_solver|]. intros u. unfold get_step. destruct (String.eqb_spec kv.2 ""); [by apply Hacc|].
      destruct (Hin kv ltac:(set_solver)) as (sk' & s & -> & Hx). simpl in *.
      rewrite TrimPrefix_field, lookup_insert_Some. intros [[-> <-]|[_ Hu]]; [|by apply Hacc].
      unfold submap_value. rewrite Hx. destruct (String.eqb_spec s ""); [done|].
      rewrite Forall_forall in Hv. destruct (Hv (nestedEntryKey k sk, s) ltac:(set_solver)) as [|[u Hu]]; [done|].
      simpl in Hu. by rewrite Hu. }
    apply Hgen; [done|]. intros u. by rewrite lookup_empty.
  - unfold submap_value. destruct (a !! (k, Some sk)) as [s|] eqn:Hx; [|done].
    destruct (String.eqb_spec s "") as [|Hne]; [done|]. intros Hu.
    assert (∀ l' acc, l' ⊆ l → ((nestedEntryKey k sk, s) ∈ l' ∨ acc !! sk = Some v) →
      foldl (get_step k) acc l' !! sk = Some v) as Hgen.
    { induction l' as [|kv l' IH]; intros acc Hs Hor; simpl; [set_solver|].
      apply IH; [set_solver|]. destruct (Hin kv ltac:(set_solver)) as (sk' & s' & -> & Hx').
      unfold get_step. simpl. rewrite TrimPrefix_field. destruct (decide (sk' = sk)) as [->|Hsk].
      - right. rewrite Hx in Hx'. simplify_eq. destruct (String.eqb_spec s' ""); [done|].
        by rewrite lookup_insert_eq, Hu.
      - destruct Hor as [Hor|Hor].
        + left. apply elem_of_cons in Hor as [E|]; [|done]. exfalso. apply Hsk.
          injection E as E _. rewrite <-(TrimPrefix_field k sk'), <-(TrimPrefix_field k sk). by f_equal.
        + right. case_match; [done|]. by rewrite lookup_insert_ne. }
    apply Hgen; [done|]. left. apply Hl. eauto.
Qed.

(** The subkeys that an iteration over the sub-map [k] replies, in its order. *)
Definition replied (k : string) (l : list (string * string)) : list string :=
  (λ kv, TrimPrefix kv.1 (nestedEntryKeyPrefix k)) <$> l.

(** Without repetitions of pairs there are none of subkeys. *)
Lemma replied_NoDup k a l : submap_pairs k a l → NoDup l → NoDup (replied k l).
Proof.
  intros Hl Hn. apply NoDup_fmap_2_strong; [|done]. intros x y Hx Hy.
  destruct (submap_pair_eq _ _ _ _ Hl Hx) as (sk & s & -> & Es).
  destruct (submap_pair_eq _ _ _ _ Hl Hy) as (tk & t & -> & Et).
  simpl. rewrite !TrimPrefix_field. intros ->. congruence.
Qed.

Lemma replied_exact k a l : submap_pairs k a l → NoDup l →
  NoDup (replied k l) ∧ length (replied k l) = size (subkeys a k).
Proof.
  intros Hl Hn. pose proof (replied_NoDup _ _ _ Hl Hn) as Hr. split; [done|].
  rewrite <-(size_list_to_set (C := gset string)) by done. f_equal. apply set_eq. intros sk.
  rewrite elem_of_list_to_set. by apply submap_pairs_keys.
Qed.

End submaps.

(* ---------------------------------------------------------------------- *)
(** ** Assembling the whole state *)

Section whole.
Context `{Json}.

Definition decoded (s : string) : any := default ANil (Unmarshal s).

Lemma reported_add a m x s :
  reported decoded a m → entry_ok x → a !! x = None → unmixed (<[x := s]> a) →
  ∃ m', add_field (field_of x, s) m = Ok m' ∧ reported decoded (<[x := s]> a) m'.
Proof.
  intros Hr Hx Hn Hu. unfold add_field. simpl. rewrite Split2_field by done. fold (decoded s).
  destruct x as [k [sk|]]; simpl.
  - destruct (String.eqb_spec sk sep) as [->|_]; [by destruct Hx|].
    assert (a !! (k, None) = None) as Hf.
    { destruct (a !! (k, None)) as [t|] eqn:E; [|done]. exfalso.
      assert (<[(k, Some sk):=s]> a !! (k, Some sk) = None) as E'.
      { apply Hu. rewrite lookup_insert_ne by done. by rewrite E. }
      by rewrite lookup_insert_eq in E'. }
    assert (∃ sub, m !! k = (if decide (sub = ∅) then None else Some (AMap sub)) ∧
              ∀ sk, sub !! sk = decoded <$> a !! (k, Some sk)) as (sub & Hm & Hsub).
    { specialize (Hr k). rewrite Hf in Hr. destruct Hr as [[Hr Hm]|(sub & Hne & Hm & Hsub)].
      - exists ∅. rewrite decide_True by done. split; [done|]. intros t. by rewrite Hr.
      - exists sub. by rewrite decide_False by done. }
    exists (<[k := AMap (<[sk := decoded s]> sub)]> m). split.
    + unfold index_any. rewrite Hm. case_decide as Es; simpl.
      * subst sub. rewrite lookup_insert_eq. simpl. by rewrite insert_insert_eq.
      * by rewrite Hm.
    + intros k'. destruct (decide (k' = k)) as [->|Hk].
      * rewrite (lookup_insert_ne _ (k, Some sk) (k, None)), Hf by done. right.
        exists (<[sk := decoded s]> sub). rewrite lookup_insert_eq. split_and!; [apply insert_non_empty|done|].
        intros sk'. destruct (decide (sk' = sk)) as [->|Hs]; [by rewrite !lookup_insert_eq|].
        rewrite !lookup_insert_ne by congruence. apply Hsub.
      * specialize (Hr k'). rewrite (lookup_insert_ne _ (k, Some sk) (k', None)) by congruence.
        rewrite lookup_insert_ne by done. destruct (a !! (k', None)); [done|].
        destruct Hr as [[Hr Hm']|(sub' & Hne & Hm' & Hsub')].
        -- left. split; [|done]. intros sk'. rewrite lookup_insert_ne by congruence. apply Hr.
        -- right. exists sub'. split_and!; [done..|]. intros sk'. rewrite lookup_insert_ne by congruence. apply Hsub'.
  - exists (<[k := decoded s]> m). split; [done|]. intros k'. destruct (decide (k' = k)) as [->|Hk].
    + by rewrite !lookup_insert_eq.
    + specialize (Hr k'). rewrite (lookup_insert_ne _ (k, None) (k', None)) by congruence.
      rewrite lookup_insert_ne by done. destruct (a !! (k', None)); [done|].
      destruct Hr as [[Hr Hm']|(sub' & Hne & Hm' & Hsub')].
      * left. split; [|done]. intros sk'. by rewrite lookup_insert_ne.
      * right. exists sub'. split_and!; [done..|]. intros sk'. by rewrite lookup_insert_ne.
Qed.

Lemma unmixed_mono a a' : a' ⊆ a → unmixed a → unmixed a'.
Proof.
  intros Hs Hu k sk [s Hx]. eapply lookup_weaken_None; [|done]. apply Hu.
  exists s. by eapply lookup_weaken.
Qed.

Lemma reported_add_all xs a a0 m :
  reported decoded a0 m → NoDup xs.*1 →
  (∀ x s, (x, s) ∈ xs → a0 !! x = None ∧ a !! x = Some s ∧ entry_ok x) →
  a0 ⊆ a → unmixed a →
  ∃ m', add_fields ((λ xs, (field_of xs.1, xs.2)) <$> xs) m = Ok m' ∧
        reported decoded (list_to_map xs ∪ a0) m'.
Proof.
  revert a0 m. induction xs as [|[x s] xs IH]; intros a0 m Hr Hnd Hxs Hsub Hu; simpl.
  - exists m. by rewrite (left_id_L ∅ (∪)).
  - apply NoDup_cons in Hnd as [Hni Hnd].
    destruct (Hxs x s ltac:(set_solver)) as (Hx0 & Hx & Hok).
    assert (<[x := s]> a0 ⊆ a) as Hsub1 by by apply insert_subseteq_l.
    destruct (reported_add a0 m x s Hr Hok Hx0) as (m1 & E & Hr1); [by eapply unmixed_mono|].
    rewrite E. destruct (IH _ _ Hr1 Hnd) as (m' & E' & Hr'); [|done..|].
    + intros y t Hy. destruct (Hxs y t ltac:(set_solver)) as (Hy0 & Hy' & Hyok).
      rewrite lookup_insert_ne; [done|]. intros ->. apply Hni. apply list_elem_of_fmap. by exists (y, t).
    + exists m'. split; [done|]. rewrite <-insert_union_l.
      by rewrite <-insert_union_r in Hr' by (by apply not_elem_of_list_to_map_1).
Qed.

(** In whatever order the fields of the hash come, the same object results. *)
Lemma add_fields_encoded h a l :
  encodes h a → unmixed a → l ≡ₚ map_to_list h →
  ∃ m, add_fields l ∅ = Ok m ∧ reported decoded a m.
Proof.
  intros [Hok He] Hu Hl.
  set (xs := (λ fs : string * string, (entry_of_field fs.1, fs.2)) <$> l).
  assert (∀ f s, (f, s) ∈ l → ∃ x, a !! x = Some s ∧ field_of x = f ∧ entry_of_field f = x) as Hin.
  { intros f s. rewrite Hl, elem_of_map_to_list, He. intros (x & Hx & <-).
    exists x. split_and!; [done..|]. apply entry_of_field_of. by apply Hok. }
  assert (l = (λ xs : entry * string, (field_of xs.1, xs.2)) <$> xs) as El.
  { unfold xs. rewrite <-list_fmap_compose. rewrite <-(list_fmap_id l) at 1. apply list_fmap_ext.
    intros i [f s] Hi%list_elem_of_lookup_2. destruct (Hin _ _ Hi) as (x & _ & Ex & E). simpl.
    by rewrite E, Ex. }
  assert (NoDup xs.*1) as Hnd.
  { assert (NoDup l.*1) as Hndl by (rewrite Hl; apply NoDup_fst_map_to_list).
    rewrite El, <-list_fmap_compose in Hndl.
    apply (NoDup_fmap_1 field_of). by rewrite <-list_fmap_compose. }
  assert (∀ x s, (x, s) ∈ xs → a !! x = Some s ∧ entry_ok x) as Hxs.
  { intros x s. unfold xs. rewrite list_elem_of_fmap. intros ([f t] & E & Hi).
    destruct (Hin _ _ Hi) as (y & Hy & _ & Ey). simpl in E. simplify_eq. split; [done|]. by apply Hok. }
  destruct (reported_add_all xs a ∅ ∅) as (m & E & Hr); [|done| |apply map_empty_subseteq|done|].
  - intros k. rewrite lookup_empty. left. split; [|done]. intros. by rewrite lookup_empty.
  - intros x s Hx. rewrite lookup_empty. split; [done|]. by apply Hxs.
  - exists m. rewrite El, E. split; [done|].
    assert (list_to_map xs ∪ ∅ = a) as <-; [|done]. rewrite (right_id_L ∅ (∪)).
    apply map_eq. intros x. apply option_eq. intros s. rewrite <-elem_of_list_to_map by done. split.
    + intros Hx. by apply Hxs.
    + intros Hx. apply list_elem_of_fmap. exists (field_of x, s). simpl.
      rewrite entry_of_field_of by (apply Hok; by eexists). split; [done|].
      rewrite Hl. apply elem_of_map_to_list, He. eauto.
Qed.

End whole.

(* ---------------------------------------------------------------------- *)
(** ** Updates of several entries *)

Lemma encodes_union u b h a : encodes u b → encodes h a → encodes (u ∪ h) (b ∪ a).
Proof.
  intros Hu Hh. split.
  - intros x [s [Hx|[_ Hx]]%lookup_union_Some_raw]; [apply Hu|apply Hh]; by eexists.
  - intros f s. split.
    + intros [Hf|[Hn Hf]]%lookup_union_Some_raw.
      * apply Hu in Hf as (x & Hx & <-). exists x. split; [|done]. by apply lookup_union_Some_l.
      * apply Hh in Hf as (x & Hx & <-). exists x. split; [|done].
        rewrite lookup_union_r; [done|]. destruct (b !! x) as [t|] eqn:Hb; [|done].
        assert (u !! field_of x = Some t) as Hb' by (apply Hu; eauto). congruence.
    + intros (x & [Hx|[Hn Hx]]%lookup_union_Some_raw & <-).
      * apply lookup_union_Some_l. apply Hu. eauto.
      * rewrite lookup_union_r; [apply Hh; eauto|].
        rewrite (encodes_lookup _ _ _ Hu); [done|]. apply Hh. by eexists.
Qed.

Section updates.
Context `{Json} `{MapIter}.

Definition removal_entries (op : stateUpdateOp) : list entry :=
  app ((λ k, (k, None)) <$> Removals op)
      (map_iter 21 (SubmapRemovals op) ≫= λ mr, (λ sk, (mr.1, Some sk)) <$> mr.2).

Definition update_entries (op : stateUpdateOp) : list (entry * any) :=
  app ((λ kv, ((kv.1, None), kv.2)) <$> map_iter 22 (Updates op))
      (map_iter 23 (SubmapUpdates op) ≫= λ mu, (λ kv, ((mu.1, Some kv.1), kv.2)) <$> map_iter 24 mu.2).

Definition encoded (v : any) : string := match Marshal v with Ok s => s | _ => "" end.

(** The state that an update writes, and what it leaves of the state [a]. *)
Definition updated (op : stateUpdateOp) : state :=
  list_to_map ((λ xv, (xv.1, encoded xv.2)) <$> update_entries op).

Definition removed (op : stateUpdateOp) (a : state) : state := foldr delete a (removal_entries op).

Lemma toClear_fields op : toClear op = field_of <$> removal_entries op.
Proof.
  unfold toClear, removal_entries. rewrite fmap_app. f_equal; [by rewrite <-list_fmap_compose|].
  induction (map_iter 21 (SubmapRemovals op)) as [|mr l IH]; [done|].
  rewrite !bind_cons, fmap_app, IH. f_equal. by rewrite <-list_fmap_compose.
Qed.

Lemma map_iter_elem {A} site (m : gmap string A) k v : (k, v) ∈ map_iter site m ↔ m !! k = Some v.
Proof. by rewrite map_iter_perm, elem_of_map_to_list. Qed.

Lemma elem_of_update_entries op x v :
  (x, v) ∈ update_entries op ↔
  match x.2 with
  | None => Updates op !! x.1 = Some v
  | Some sk => ∃ m, SubmapUpdates op !! x.1 = Some m ∧ m !! sk = Some v
  end.
Proof.
  unfold update_entries. rewrite elem_of_app, list_elem_of_fmap, list_elem_of_bind.
  destruct x as [k [sk|]]; simpl; split.
  - intros [([k' v'] & E & _)|([k' m] & Hin & Hm%map_iter_elem)]; [done|].
    apply list_elem_of_fmap in Hin as ([sk' v'] & E & Hv%map_iter_elem). simpl in *. simplify_eq. eauto.
  - intros (m & Hm & Hv). right. exists (k, m). rewrite map_iter_elem. split; [|done].
    apply list_elem_of_fmap. exists (sk, v). by rewrite map_iter_elem.
  - intros [([k' v'] & E & Hv%map_iter_elem)|([k' m] & Hin & _)]; [by simplify_eq|].
    by apply list_elem_of_fmap in Hin as ([sk' v'] & E & _).
  - intros Hv. left. exists (k, v). by rewrite map_iter_elem.
Qed.

Lemma NoDup_map_iter_fst {A} site (m : gmap string A) : NoDup (map_iter site m).*1.
Proof. rewrite map_iter_perm. apply NoDup_fst_map_to_list. Qed.

Lemma NoDup_update_entries op : NoDup (update_entries op).*1.
Proof.
  unfold update_entries. rewrite fmap_app. apply NoDup_app. split_and!.
  - rewrite <-list_fmap_compose.
    rewrite (list_fmap_ext _ ((λ k : string, (k, None : option string)) ∘ fst)) by done.
    rewrite list_fmap_compose. apply NoDup_fmap_2; [intros ???; by simplify_eq|apply NoDup_map_iter_fst].
  - intros x Hx Hx'. apply list_elem_of_fmap in Hx as ([y v] & -> & Hy).
    apply list_elem_of_fmap in Hy as ([k u] & E & _). simpl in *. simplify_eq.
    apply list_elem_of_fmap in Hx' as ([z w] & Ez & Hz). apply list_elem_of_bind in Hz as ([k' m] & Hin & _).
    apply list_elem_of_fmap in Hin as (? & ? & _). simpl in *. by simplify_eq.
  - pose proof (NoDup_map_iter_fst 23 (SubmapUpdates op)) as Hnd.
    induction (map_iter 23 (SubmapUpdates op)) as [|[k m] l IH]; [constructor|].
    apply NoDup_cons in Hnd as [Hni Hnd]. rewrite bind_cons, fmap_app. apply NoDup_app. split_and!.
    + rewrite <-list_fmap_compose.
      rewrite (list_fmap_ext _ ((λ sk : string, (k, Some sk)) ∘ fst)) by done.
      rewrite list_fmap_compose. apply NoDup_fmap_2; [intros ???; by simplify_eq|apply NoDup_map_iter_fst].
    + intros x Hx Hx'. apply list_elem_of_fmap in Hx as ([y v] & -> & Hy).
      apply list_elem_of_fmap in Hy as ([sk u] & E & _). simpl in *. simplify_eq.
      apply list_elem_of_fmap in Hx' as ([z w] & Ez & Hz).
      apply list_elem_of_bind in Hz as ([k' m'] & Hin & Hl).
      apply list_elem_of_fmap in Hin as (? & ? & _). simpl in *. simplify_eq.
      apply Hni. apply list_elem_of_fmap. eexists (_, _). eauto.
    + by apply IH.
Qed.

(** The written state is the one the request names, whatever the order of the
    iterations. *)
Lemma updated_lookup op k o :
  updated op !! (k, o) =
    encoded <$> match o with
                | None => Updates op !! k
                | Some sk => SubmapUpdates op !! k ≫= λ m, m !! sk
                end.
Proof.
  apply option_eq. intros s. unfold updated. rewrite <-elem_of_list_to_map.
  - rewrite list_elem_of_fmap, fmap_Some. split.
    + intros ([x v] & E & Hv%elem_of_update_entries). simpl in *. simplify_eq. exists v. split; [|done].
      destruct o; [|done]. by apply bind_Some.
    + intros (v & Hv & ->). exists ((k, o), v). split; [done|]. apply elem_of_update_entries. simpl.
      destruct o; [|done]. by apply bind_Some in Hv.
  - rewrite <-list_fmap_compose. apply NoDup_update_entries.
Qed.

Lemma marshal_updates_ok malformed field l acc :
  Forall (λ kv, ∃ s, Marshal kv.2 = Ok s) l →
  marshal_updates malformed field l acc =
    Ok (inl (foldl (λ m kv, <[kv.1 := kv.2]> m) acc ((λ kv, (field kv.1, encoded kv.2)) <$> l))).
Proof.
  intros Hl. revert acc. induction Hl as [|[k v] l [s Hs] Hl IH]; intros acc; [done|].
  simpl in *. rewrite Hs. rewrite IH. unfold encoded at 2. by rewrite Hs.
Qed.

Lemma marshal_submaps_ok Error Sprint key l acc :
  Forall (λ mu, map_Forall (λ _ v, ∃ s, Marshal v = Ok s) mu.2) l →
  marshal_submaps Error Sprint key l acc =
    Ok (inl (foldl (λ m kv, <[kv.1 := kv.2]> m) acc
      ((λ xv : entry * any, (field_of xv.1, encoded xv.2)) <$>
       (l ≫= λ mu, (λ kv, ((mu.1, Some kv.1), kv.2)) <$> map_iter 24 mu.2)))).
Proof.
  intros Hl. revert acc. induction Hl as [|[k m] l Hm Hl IH]; intros acc; [done|].
  cbn [marshal_submaps]. rewrite marshal_updates_ok.
  - rewrite IH, bind_cons, fmap_app, foldl_app. by rewrite <-list_fmap_compose.
  - apply Forall_forall. intros [sk v] Hv%map_iter_elem. by eapply Hm.
Qed.

(** Every value of the request can be marshalled. *)
Definition marshals (op : stateUpdateOp) : Prop :=
  map_Forall (λ _ v, ∃ s, Marshal v = Ok s) (Updates op) ∧
  map_Forall (λ _ m, map_Forall (λ _ v, ∃ s, Marshal v = Ok s) m) (SubmapUpdates op).

(** The entries of the request have fields that can be told apart. *)
Definition update_ok (op : stateUpdateOp) : Prop :=
  Forall entry_ok (removal_entries op) ∧ Forall entry_ok (update_entries op).*1.

Definition update_pairs (op : stateUpdateOp) : list (string * string) :=
  (λ xv, (field_of xv.1, encoded xv.2)) <$> update_entries op.

Lemma toUpdate_ok Error Sprint key op :
  marshals op → toUpdate Error Sprint key op = Ok (inl (fill (update_pairs op))).
Proof.
  intros [H1 H2]. unfold toUpdate. rewrite marshal_updates_ok.
  - rewrite marshal_submaps_ok.
    + unfold fill, update_pairs, update_entries. rewrite fmap_app, foldl_app. by rewrite <-list_fmap_compose.
    + apply Forall_forall. intros [k m] Hm%map_iter_elem. by eapply H2.
  - apply Forall_forall. intros [k v] Hv%map_iter_elem. by eapply H1.
Qed.

Lemma encodes_updated op : update_ok op → encodes (fill (update_pairs op)) (updated op).
Proof.
  intros [_ Hok]. rewrite Forall_forall in Hok.
  assert (NoDup (update_pairs op).*1) as Hnd.
  { unfold update_pairs. rewrite <-list_fmap_compose.
    rewrite (list_fmap_ext _ (field_of ∘ fst)) by done. rewrite list_fmap_compose.
    apply NoDup_fmap_2_strong; [|apply NoDup_update_entries].
    intros x y Hx Hy. apply field_of_inj; by apply Hok. }
  assert (∀ x s, updated op !! x = Some s ↔ ∃ v, s = encoded v ∧ (x, v) ∈ update_entries op) as Hup.
  { intros x s. unfold updated. rewrite <-elem_of_list_to_map.
    - rewrite list_elem_of_fmap. split; [intros ([y v] & E & Hv); simplify_eq/=; eauto|].
      intros (v & -> & Hv). by exists (x, v).
    - rewrite <-list_fmap_compose. apply NoDup_update_entries. }
  split.
  - intros x [s (v & -> & Hv)%Hup]. apply Hok, list_elem_of_fmap. by exists (x, v).
  - intros f s. rewrite fill_lookup_nodup by done. unfold update_pairs. rewrite list_elem_of_fmap. split.
    + intros ([x v] & E & Hv). simplify_eq/=. exists x. split; [|done]. apply Hup. eauto.
    + intros (x & (v & -> & Hv)%Hup & <-). by exists (x, v).
Qed.

End updates.

(* ---------------------------------------------------------------------- *)
(** ** The handlers on encoded states *)

Section laws.
Context {R : Type} `{RedisLaws R} `{!ScanLaws R} `{Json} `{MapIter}.
Context (MangleKey : string → string).
Context (Error : gerror → string).
Context (UnmarshalMapOp : string → option submapOp).

(** The state of the actor of [ps] in Redis is [a]. *)
Definition actor_state (ps : Params) (r : R) (a : state) : Prop :=
  ∃ h, hash_at (rview r) (MangleKey (key_of ps)) = Some h ∧ encodes h a.

(** Nothing but the state of the actor of [ps] differs. *)
Definition others_kept (ps : Params) (r r' : R) : Prop :=
  ∀ k, k ≠ MangleKey (key_of ps) → rview r' !! k = rview r !! k.

Lemma mangledEntryKey_field ps : mangledEntryKey ps = field_of (entry_of ps).
Proof. unfold mangledEntryKey, entry_of, field_of. simpl. by destruct (negb _). Qed.

Lemma actor_state_put ps r r' h' a' :
  rview r' = <[MangleKey (key_of ps) := VHash h']> (rview r) → encodes h' a' →
  actor_state ps r' a' ∧ others_kept ps r r'.
Proof.
  intros V He. split.
  - exists h'. unfold hash_at. by rewrite V, lookup_insert_eq.
  - intros k Hk. rewrite V. by apply lookup_insert_ne.
Qed.

Lemma actor_state_put_hash ps r r' h' a' :
  rview r' = put_hash (rview r) (MangleKey (key_of ps)) h' → encodes h' a' →
  actor_state ps r' a' ∧ others_kept ps r r'.
Proof.
  unfold put_hash. case_decide as Eh; [|apply actor_state_put]. intros V He. split.
  - exists ∅. unfold hash_at. rewrite V, lookup_delete_eq. by subst h'.
  - intros k Hk. rewrite V. by apply lookup_delete_ne.
Qed.

Lemma actor_state_same ps r r' a : rview r' = rview r → actor_state ps r a → actor_state ps r' a.
Proof. intros V (h & Hh & He). exists h. by rewrite V. Qed.

(** Answers of the handlers of one entry, whose value was [cur]. *)
Definition contains_answer (cur : option string) : httpResponse :=
  match cur with Some _ => http_status 200 | None => http_Error "key not present" 404 end.

Definition set_answer (ps : Params) (cur : option string) : httpResponse :=
  match cur with
  | Some _ => http_status 204
  | None => mkHttp 201 [("Location", location ps)] ""
  end.

Definition get_answer (nilOnAbsent : string) (cur : option string) : httpResponse :=
  match cur with
  | Some s => http_json s
  | None => if String.eqb nilOnAbsent "true" then http_text "" else http_Error "Not Found" 404
  end.

Definition del_answer (cur : option string) : httpResponse :=
  http_text (match cur with Some _ => "1" | None => "0" end).

Lemma answering_ok {A} (m : M R A) fail k r a r' :
  m r = (Ok a, r') → answering m fail k r = k a r'.
Proof. intros E. unfold answering, bind, attempt. by rewrite E. Qed.

Lemma answering_err {A} (m : M R A) fail k r e r' :
  m r = (Err e, r') → answering m fail k r = (Ok (fail e), r').
Proof. intros E. unfold answering, bind, attempt. by rewrite E. Qed.

Lemma ContainsKey_spec ps a r :
  connected → actor_state ps r a → entry_ok (entry_of ps) →
  ∃ r', routeImplContainsKey MangleKey Error ps r = (Ok (contains_answer (a !! entry_of ps)), r') ∧
        rview r' = rview r.
Proof using R H H0.
  intros Hc (h & Hh & He) Hx.
  destruct (HExists_spec MangleKey (key_of ps) (mangledEntryKey ps) h r Hc Hh) as (r' & E & V).
  exists r'. split; [|done]. unfold routeImplContainsKey. erewrite answering_ok by exact E.
  rewrite mangledEntryKey_field, (encodes_lookup _ _ _ He) by done. by destruct (a !! entry_of ps).
Qed.

Lemma Set_entry_spec ps a value r :
  connected → actor_state ps r a → entry_ok (entry_of ps) →
  ∃ r', routeImplSet MangleKey Error ps value r = (Ok (set_answer ps (a !! entry_of ps)), r') ∧
        actor_state ps r' (<[entry_of ps := value]> a) ∧ others_kept ps r r'.
Proof using R H H0.
  intros Hc (h & Hh & He) Hx.
  destruct (HSet_spec MangleKey (key_of ps) (mangledEntryKey ps) value h r Hc Hh) as (r' & E & V).
  exists r'. split.
  - unfold routeImplSet. erewrite answering_ok by exact E.
    rewrite mangledEntryKey_field, (encodes_lookup _ _ _ He) by done. by destruct (a !! entry_of ps).
  - eapply actor_state_put; [exact V|]. rewrite mangledEntryKey_field. by apply encodes_insert.
Qed.

Lemma Get_entry_spec ps a noa r :
  connected → actor_state ps r a → entry_ok (entry_of ps) →
  ∃ r', routeImplGet MangleKey Error ps noa r = (Ok (get_answer noa (a !! entry_of ps)), r') ∧
        rview r' = rview r.
Proof using R H H0.
  intros Hc (h & Hh & He) Hx.
  destruct (HGet_spec MangleKey (key_of ps) (mangledEntryKey ps) h r Hc Hh) as (r' & E & V).
  exists r'. split; [|done]. unfold routeImplGet, get_answer.
  rewrite mangledEntryKey_field in E |- *. rewrite (encodes_lookup _ _ _ He) in E by done.
  destruct (a !! entry_of ps); [by erewrite answering_ok by exact E|].
  erewrite answering_err by exact E. done.
Qed.

Lemma Del_entry_spec ps a r :
  connected → actor_state ps r a → entry_ok (entry_of ps) →
  ∃ r', routeImplDel MangleKey Error ps r = (Ok (del_answer (a !! entry_of ps)), r') ∧
        actor_state ps r' (delete (entry_of ps) a) ∧ others_kept ps r r'.
Proof using R H H0.
  intros Hc (h & Hh & He) Hx.
  destruct (HDel_spec MangleKey (key_of ps) (mangledEntryKey ps) h r Hc Hh) as (r' & E & V).
  exists r'. split.
  - unfold routeImplDel. erewrite answering_ok by exact E.
    rewrite mangledEntryKey_field, (encodes_lookup _ _ _ He) by done. by destruct (a !! entry_of ps).
  - eapply actor_state_put_hash; [exact V|]. rewrite mangledEntryKey_field. by apply encodes_delete.
Qed.

(* ---------------------------------------------------------------------- *)
(** ** Iterating over a sub-map *)

Lemma scan_page_app {A} (op : string → string → A → res A) p l acc :
  scan_page op (flat_strings (p ++ l)) acc =
    match scan_page op (flat_strings p) acc with
    | Ok acc' => scan_page op (flat_strings l) acc'
    | failure => failure
    end.
Proof.
  revert acc. induction p as [|[k v] p IH]; intros acc; [done|]. simpl.
  destruct (op k v acc); [apply IH|done..].
Qed.

(** The loop folds the callback over the pairs of the iteration; as many turns
    as HSCAN needs calls are enough. *)
Lemma scan_loop_run {A} (op : string → string → A → res A) key pat n c r l r' acc acc' fuel :
  connected → pat ≠ "" → scan_run (MangleKey key) pat n c r l r' →
  scan_page op (flat_strings l) acc = Ok acc' → (n ≤ fuel)%nat →
  scan_loop MangleKey fuel key pat op c acc r = (Ok acc', r').
Proof using R H H0.
  intros Hc Hp Hr. revert acc fuel. induction Hr as [c r p r' E|n c r c' p r1 l r' E Hb Hr IH];
    intros acc fuel Hs Hf; (destruct fuel as [|fuel]; [lia|]); cbn [scan_loop]; unfold bind.
  - rewrite (HScan_page MangleKey key pat c 0 _ r r' Hc Hp ltac:(lia) E). unfold of_res. by rewrite Hs.
  - rewrite (HScan_page MangleKey key pat c c' _ r r1 Hc Hp ltac:(lia) E). unfold of_res.
    rewrite scan_page_app in Hs. destruct (scan_page op (flat_strings p) acc) as [acc1| | |]; [|done..].
    destruct (Z.eqb_spec c' 0); [lia|]. apply IH; [done|lia].
Qed.

Lemma append_neq p c s : p ++ String c s ≠ "".
Proof. by destruct p. Qed.

Lemma subMapScan_spec ps k a r :
  connected → actor_state ps r a → has_char Separator k = false → glob_plain k = true →
  a !! (k, None) = None →
  ∃ n l r', scan_run (MangleKey (key_of ps)) (nestedEntryKeyPrefix k ++ "*") n 0 r l r' ∧
    rview r' = rview r ∧ submap_pairs k a l ∧
    ∀ A (op : string → string → A → res A) acc acc' fuel, (n ≤ fuel)%nat →
      scan_page op (flat_strings l) acc = Ok acc' →
      subMapScan MangleKey fuel (key_of ps) k op acc r = (Ok acc', r').
Proof using R H H0 ScanLaws0.
  intros Hc (h & Hh & He) Hk Hg Hn.
  destruct (hscan_total _ (nestedEntryKeyPrefix k ++ "*") r h Hh) as (n & l & r' & Hr & V & Hl).
  exists n, l, r'. split_and!; [done|done| |].
  - assert (glob_plain (nestedEntryKeyPrefix k) = true) as Hgp.
    { clear -Hg. unfold nestedEntryKeyPrefix, sep. induction k as [|c k IH]; [done|].
      simpl in *. apply andb_prop in Hg as [-> Hg]. by apply IH. }
    intros f s. rewrite Hl, rglob_prefix by done. destruct He as [Hok He]. rewrite He. split.
    + intros [([k' [sk|]] & Hx & <-) Hf]; rewrite HasPrefix_field in Hf by (by eauto);
        apply bool_decide_eq_true in Hf; simpl in Hf; subst k'; [by eauto|congruence].
    + intros (sk & Hx & ->). split; [by eauto|].
      change (nestedEntryKey k sk) with (field_of (k, Some sk)).
      rewrite HasPrefix_field by eauto. by apply bool_decide_eq_true_2.
  - intros A op acc acc' fuel Hf Hs. unfold subMapScan. eapply scan_loop_run; [done| |exact Hr|done|done].
    apply append_neq.
Qed.

Lemma scan_op_clear l acc : scan_page op_clear (flat_strings l) acc = Ok (app acc l.*1).
Proof.
  revert acc. induction l as [|[k v] l IH]; intros acc; simpl; [by rewrite app_nil_r|].
  rewrite IH. by rewrite <-(assoc_L app).
Qed.

Lemma scan_op_keys k l acc :
  scan_page (op_keys k) (flat_strings l) acc = Ok (app acc ((λ kv, TrimPrefix kv.1 k) <$> l)).
Proof.
  revert acc. induction l as [|[f v] l IH]; intros acc; simpl; [by rewrite app_nil_r|].
  rewrite IH. by rewrite <-(assoc_L app).
Qed.

Lemma scan_op_size l acc : scan_page op_size (flat_strings l) acc = Ok (acc + Z.of_nat (length l)).
Proof.
  revert acc. induction l as [|[f v] l IH]; intros acc; simpl; [f_equal; lia|].
  rewrite IH. f_equal. lia.
Qed.

Lemma scan_op_get k l acc :
  Forall (λ kv, kv.2 = "" ∨ is_Some (Unmarshal kv.2)) l →
  scan_page (op_get (nestedEntryKeyPrefix k)) (flat_strings l) acc = Ok (foldl (get_step k) acc l).
Proof.
  intros Hl. revert acc. induction Hl as [|[f v] l Hv Hl IH]; intros acc; [done|]. simpl in *.
  unfold op_get at 1, get_step at 2. simpl. destruct (String.eqb_spec v ""); [apply IH|].
  destruct Hv as [|[u Hu]]; [done|]. rewrite Hu. apply IH.
Qed.

Lemma SubmapOps_clear fuel ps request r keys r1 :
  UnmarshalMapOp request = Some (mkSubmapOp "clear") →
  subMapScan MangleKey fuel (key_of ps) (p_key ps) op_clear [] r = (Ok keys, r1) →
  routeImplSubmapOps MangleKey Error UnmarshalMapOp fuel ps request r =
    answering (HDelMultiple MangleKey (key_of ps) keys)
      (λ err, http_Error ("submapOps: HDEL failed  " ++ Error err) 500)
      (λ numCleared, marshal_response Error (AInt numCleared)) r1.
Proof using. intros E Es. unfold routeImplSubmapOps. rewrite E. simpl. by erewrite answering_ok. Qed.

(** What the operations do on a sub-map: [op] asked of the state [a], of which an
    iteration replies the subkeys [l], gives the outcome [v] and the state [a'].
    Clearing the empty sub-map asks Redis to delete no field, which panics. *)
Inductive submap_op (k : string) (a : state) (l : list string) : string → res any → state → Prop :=
| sub_clear : subkeys a k ≠ ∅ →
    submap_op k a l "clear" (Ok (AInt (Z.of_nat (size (subkeys a k))))) (drop_submap a k)
| sub_clear_empty why : subkeys a k = ∅ → submap_op k a l "clear" (Panic why) a
| sub_get m : (∀ sk, m !! sk = submap_value a k sk) → submap_op k a l "get" (Ok (AMap m)) a
| sub_keys : submap_op k a l "keys" (Ok (AStrings l)) a
| sub_size : submap_op k a l "size" (Ok (AInt (Z.of_nat (length l)))) a.

Lemma submap_clear_inv k a l v a' : submap_op k a l "clear" v a' →
  (subkeys a k ≠ ∅ ∧ v = Ok (AInt (Z.of_nat (size (subkeys a k)))) ∧ a' = drop_submap a k) ∨
  (subkeys a k = ∅ ∧ (∃ why, v = Panic why) ∧ a' = a).
Proof using. inversion 1; subst; eauto. Qed.

(** The response for an outcome. *)
Definition submap_answer (v : res any) : M R httpResponse :=
  bind (of_res v) (marshal_response Error).

(** Stored values are JSON texts, or empty. *)
Definition stored_json (a : state) : Prop :=
  ∀ x s, a !! x = Some s → s = "" ∨ is_Some (Unmarshal s).

Definition runs_op (ps : Params) (request : string) (n : nat) (r : R) (v : res any) (r' : R) : Prop :=
  ∀ fuel, (n ≤ fuel)%nat →
    routeImplSubmapOps MangleKey Error UnmarshalMapOp fuel ps request r = submap_answer v r'.

(** An iteration of [n] calls that replied the pairs [l] of the sub-map, whatever
    callback folds over them. *)
Definition scans (ps : Params) (n : nat) (l : list (string * string)) (r r1 : R) : Prop :=
  ∀ A (op : string → string → A → res A) acc acc' fuel, (n ≤ fuel)%nat →
    scan_page op (flat_strings l) acc = Ok acc' →
    subMapScan MangleKey fuel (key_of ps) (p_key ps) op acc r = (Ok acc', r1).

Lemma submap_clear_run ps a request n l r r1 :
  connected → actor_state ps r1 a → submap_pairs (p_key ps) a l → scans ps n l r r1 →
  UnmarshalMapOp request = Some (mkSubmapOp "clear") →
  ∃ v a' r', runs_op ps request n r v r' ∧
    submap_op (p_key ps) a (replied (p_key ps) l) "clear" v a' ∧ actor_state ps r' a' ∧ others_kept ps r1 r'.
Proof using R H H0 ScanLaws0.
  intros Hc Ha Hl Hscan Hop. pose proof Ha as (h & Hh & He).
  destruct (decide (subkeys a (p_key ps) = ∅)) as [Hs|Hs].
  - assert (l = []) as ->.
    { destruct l as [|kv l]; [done|]. exfalso.
      assert (TrimPrefix kv.1 (nestedEntryKeyPrefix (p_key ps)) ∈ subkeys a (p_key ps)) as Hin.
      { apply (submap_pairs_keys _ _ _ _ Hl). simpl. set_solver. }
      rewrite Hs in Hin. set_solver. }
    destruct (HDelMultiple_nil MangleKey (key_of ps) r1 Hc) as (r2 & msg & Ed & V2).
    exists (Panic msg), a, r2. split_and!; [|by apply sub_clear_empty|by eapply actor_state_same|by intros k' _; rewrite V2].
    intros fuel Hf. erewrite SubmapOps_clear; [|done|apply Hscan; [done|apply scan_op_clear]].
    unfold answering, bind, attempt. simpl. by rewrite Ed.
  - assert (Forall entry_ok (pair_entries (p_key ps) l)) as Hes.
    { apply Forall_forall. intros x (Hx & _ & _)%(elem_of_pair_entries _ a _ _ Hl). by apply He. }
    assert (l.*1 ≠ []) as Hne.
    { intros El. apply Hs. apply fmap_nil_inv in El. subst l. apply set_eq. intros sk.
      rewrite <-(submap_pairs_keys _ _ _ sk Hl). set_solver. }
    destruct (HDelMultiple_spec MangleKey (key_of ps) l.*1 h r1 Hc Hne Hh) as (r2 & Ed & V2).
    rewrite (pair_entries_fields _ _ _ Hl) in Ed, V2.
    rewrite (encodes_count _ _ _ He Hes), (pair_entries_size _ _ _ Hl) in Ed.
    destruct (actor_state_put_hash ps r1 r2 _ _ V2 (encodes_delete_all _ _ _ He Hes)) as [Ha2 Ho2].
    rewrite (pair_entries_drop _ _ _ Hl) in Ha2.
    eexists _, _, r2. split_and!; [|by apply sub_clear|done|done].
    intros fuel Hf. erewrite SubmapOps_clear; [|done|apply Hscan; [done|apply scan_op_clear]].
    simpl. rewrite (pair_entries_fields _ _ _ Hl). by erewrite answering_ok by exact Ed.
Qed.

Lemma submap_read_run ps a op request n l r r1 :
  stored_json a → submap_pairs (p_key ps) a l → scans ps n l r r1 →
  UnmarshalMapOp request = Some (mkSubmapOp op) → op ∈ ["get"; "keys"; "size"] →
  ∃ v, runs_op ps request n r v r1 ∧ submap_op (p_key ps) a (replied (p_key ps) l) op v a.
Proof using R H H0 ScanLaws0.
  intros Hj Hl Hscan Hop Hin.
  assert (Forall (λ kv, kv.2 = "" ∨ is_Some (Unmarshal kv.2)) l) as Hu.
  { apply Forall_forall. intros kv Hkv. destruct (submap_pair_eq _ _ _ _ Hl Hkv) as (sk & s & -> & Hx).
    by eapply Hj. }
  repeat (apply elem_of_cons in Hin as [->|Hin]); [..|by apply elem_of_nil in Hin].
  - exists (Ok (AMap (foldl (get_step (p_key ps)) ∅ l))). split; [|constructor; by apply fold_get_spec].
    intros fuel Hf. unfold routeImplSubmapOps. rewrite Hop. simpl.
    erewrite answering_ok; [done|]. apply Hscan; [done|]. by apply scan_op_get.
  - exists (Ok (AStrings (replied (p_key ps) l))). split; [|constructor].
    intros fuel Hf. unfold routeImplSubmapOps. rewrite Hop. simpl.
    erewrite answering_ok; [done|]. apply Hscan; [done|]. apply scan_op_keys.
  - exists (Ok (AInt (Z.of_nat (length (replied (p_key ps) l))))). split; [|constructor].
    intros fuel Hf. unfold routeImplSubmapOps. rewrite Hop. simpl.
    erewrite answering_ok; [done|]. apply Hscan; [done|]. rewrite scan_op_size.
    unfold replied. by rewrite length_fmap.
Qed.

(** C14: an operation on a sub-map does what the specification says of the entries
    of that sub-map, for any way in which Redis pages the iteration ([n] calls that
    reply the pairs [l]): get answers the object of its values, keys the subkeys
    and size their number, which are each subkey once when the iteration repeats no
    pair, and otherwise a subkey as often as Redis replied it; clear answers the number
    of subkeys and removes them and nothing else, but panics when there are none.
    As many turns of the loop as the iteration has calls are enough. *)
Theorem submap_refinement ps a op request r :
  connected → actor_state ps r a → stored_json a →
  has_char Separator (p_key ps) = false → glob_plain (p_key ps) = true → a !! (p_key ps, None) = None →
  UnmarshalMapOp request = Some (mkSubmapOp op) → op ∈ ["clear"; "get"; "keys"; "size"] →
  ∃ n l r1 v a' r',
    scan_run (MangleKey (key_of ps)) (nestedEntryKeyPrefix (p_key ps) ++ "*") n 0 r l r1 ∧
    (∀ sk, sk ∈ replied (p_key ps) l ↔ sk ∈ subkeys a (p_key ps)) ∧
    (NoDup l → NoDup (replied (p_key ps) l) ∧
               length (replied (p_key ps) l) = size (subkeys a (p_key ps))) ∧
    (∀ fuel, (n ≤ fuel)%nat →
      routeImplSubmapOps MangleKey Error UnmarshalMapOp fuel ps request r = submap_answer v r') ∧
    submap_op (p_key ps) a (replied (p_key ps) l) op v a' ∧ actor_state ps r' a' ∧ others_kept ps r r'.
Proof using R H H0 ScanLaws0.
  intros Hc Ha Hj Hk Hg Hn Hop Hin.
  destruct (subMapScan_spec ps (p_key ps) a r Hc Ha Hk Hg Hn) as (n & l & r1 & Hr & V & Hl & Hscan).
  pose proof (actor_state_same ps r r1 a V Ha) as Ha1.
  assert (others_kept ps r r1) as Ho1 by (intros k' _; by rewrite V).
  assert (∃ v a' r', runs_op ps request n r v r' ∧ submap_op (p_key ps) a (replied (p_key ps) l) op v a' ∧
                     actor_state ps r' a' ∧ others_kept ps r1 r') as (v & a' & r' & Hv & Hs & Ha' & Ho).
  { apply elem_of_cons in Hin as [->|Hin]; [by eapply submap_clear_run|].
    destruct (submap_read_run ps a op request n l r r1) as (v & Hv & Hs); [done..|].
    exists v, a, r1. by split_and!. }
  exists n, l, r1, v, a', r'. split_and!; [done|..].
  - intros sk. by apply submap_pairs_keys.
  - intros Hnd. by eapply replied_exact.
  - exact Hv.
  - done.
  - done.
  - intros k' Hk'. rewrite Ho by done. by apply Ho1.
Qed.

(** The report of a whole state has the value of every key and the object of
    every sub-map, in whatever order Go ranges over the hash. *)
Theorem state_report ps a r :
  connected → actor_state ps r a → unmixed a →
  ∃ m r', actorGetAllState MangleKey (p_type ps) (p_id ps) r = (Ok m, r') ∧
    rview r' = rview r ∧ reported decoded a m.
Proof.
  intros Hc (h & Hh & He) Hu.
  destruct (HGetAll_spec MangleKey (key_of ps) h r Hc Hh) as (r' & E & V).
  destruct (add_fields_encoded h a (map_iter 20 h) He Hu (map_iter_perm _ _ _)) as (m & Em & Hr).
  exists m, r'. split; [|done]. unfold actorGetAllState, bind. unfold key_of in E. rewrite E.
  unfold of_res. by rewrite Em.
Qed.

End laws.

(* ---------------------------------------------------------------------- *)
(** ** Properties *)

Section properties.
Context {R : Type} `{RedisLaws R} `{!ScanLaws R} `{Json} `{MapIter}.
Context (MangleKey : string → string).
Context (Error : gerror → string) (Sprint : any → string).
Context (UnmarshalUpdateOp : string → option stateUpdateOp).
Context (MarshalUpdateOp : Z → Z → res string).

(** C12: reading, writing, deleting and testing an entry act on the map of entries,
    with the status of the answer telling the cases apart, and touch nothing
    else in Redis. *)
Theorem entry_refinement ps a value noa r :
  connected → actor_state MangleKey ps r a → entry_ok (entry_of ps) →
  (∃ r', routeImplContainsKey MangleKey Error ps r = (Ok (contains_answer (a !! entry_of ps)), r') ∧
         rview r' = rview r) ∧
  (∃ r', routeImplGet MangleKey Error ps noa r = (Ok (get_answer noa (a !! entry_of ps)), r') ∧
         rview r' = rview r) ∧
  (∃ r', routeImplSet MangleKey Error ps value r = (Ok (set_answer ps (a !! entry_of ps)), r') ∧
         actor_state MangleKey ps r' (<[entry_of ps := value]> a) ∧ others_kept MangleKey ps r r') ∧
  (∃ r', routeImplDel MangleKey Error ps r = (Ok (del_answer (a !! entry_of ps)), r') ∧
         actor_state MangleKey ps r' (delete (entry_of ps) a) ∧ others_kept MangleKey ps r r').
Proof.
  intros Hc Ha Hx. split_and!.
  - by apply ContainsKey_spec.
  - by apply Get_entry_spec.
  - by apply Set_entry_spec.
  - by apply Del_entry_spec.
Qed.

Lemma fill_update_empty op : fill (update_pairs op) = ∅ ↔ updated op = ∅.
Proof.
  unfold update_pairs, updated. rewrite fill_reverse.
  destruct (update_entries op) as [|[x v] l]; [done|]. split; intros E; exfalso.
  - rewrite fmap_cons, reverse_cons, list_to_map_app in E.
    apply (f_equal (.!! field_of x)) in E. rewrite lookup_empty, lookup_union_None in E.
    destruct E as [_ E]. simpl in E. by rewrite lookup_insert_eq in E.
  - simpl in E. by apply insert_non_empty in E.
Qed.

Lemma update_size h a op : update_ok op → encodes h a →
  Z.of_nat (size (dom (fill (update_pairs op)) ∖ dom h)) =
  Z.of_nat (size (dom (updated op) ∖ dom a)).
Proof.
  intros Hok He. f_equal. pose proof (encodes_updated op Hok) as Hu.
  rewrite (encodes_dom _ _ Hu), (encodes_dom _ _ He).
  assert (∀ x, x ∈ dom (updated op) ∪ dom a → entry_ok x) as Hx.
  { intros x [Hx|Hx]%elem_of_union; apply elem_of_dom in Hx; [by apply Hu|by apply He]. }
  rewrite <-(size_image field_of (dom (updated op) ∖ dom a)).
  - f_equal. apply set_eq. intros f. rewrite elem_of_difference, !elem_of_map. split.
    + intros [(x & -> & Hx1) Hx2]. exists x. split; [done|]. apply elem_of_difference.
      split; [done|]. intros Hxa. apply Hx2. eauto.
    + intros (x & -> & [Hx1 Hx2]%elem_of_difference). split; [eauto|].
      intros (y & E & Hy). apply Hx2. apply field_of_inj in E as ->; [done|apply Hx; set_solver..].
  - intros x y Hx1 Hy1. apply field_of_inj; apply Hx; set_solver.
Qed.

(** C37: an update deletes the entries it names and then writes the others, in
    one hash, and reports how many existed and how many are new. *)
Theorem state_update ps a op request r :
  connected → actor_state MangleKey ps r a →
  UnmarshalUpdateOp request = Some op → marshals op → update_ok op →
  ∃ r', routeImplStateUpdate MangleKey Error Sprint UnmarshalUpdateOp MarshalUpdateOp ps request r =
          send_json (λ err, http_Error ("StateUpdate: error marshalling response " ++ Error err) 500)
            (MarshalUpdateOp (Z.of_nat (size (dom a ∩ list_to_set (removal_entries op))))
                             (Z.of_nat (size (dom (updated op) ∖ dom (removed op a))))) r' ∧
        actor_state MangleKey ps r' (updated op ∪ removed op a) ∧ others_kept MangleKey ps r r'.
Proof.
  intros Hc Ha Eop Hm Hok.
  assert (∃ r1, (if decide (toClear op = []) then ret 0 else HDelMultiple MangleKey (key_of ps) (toClear op)) r =
                  (Ok (Z.of_nat (size (dom a ∩ list_to_set (removal_entries op)))), r1) ∧
                actor_state MangleKey ps r1 (removed op a) ∧ others_kept MangleKey ps r r1)
    as (r1 & E1 & Ha1 & Ho1).
  { rewrite toClear_fields. case_decide as Ec.
    - apply fmap_nil_inv in Ec. unfold removed. rewrite Ec. exists r. split_and!; [|done|by intros ? _].
      unfold ret. do 3 f_equal. simpl. by rewrite (right_absorb_L ∅ (∩)).
    - destruct Ha as (h & Hh & He). destruct Hok as [Hr _].
      destruct (HDelMultiple_spec MangleKey (key_of ps) _ h r Hc Ec Hh) as (r1 & Ed & V).
      exists r1. rewrite (encodes_count _ _ _ He Hr) in Ed. split; [done|].
      eapply actor_state_put_hash; [exact V|]. by apply encodes_delete_all. }
  assert (∃ r2, (if decide (fill (update_pairs op) = ∅) then ret 0
                 else HSetMultiple MangleKey (key_of ps) (fill (update_pairs op))) r1 =
                  (Ok (Z.of_nat (size (dom (updated op) ∖ dom (removed op a)))), r2) ∧
                actor_state MangleKey ps r2 (updated op ∪ removed op a) ∧ others_kept MangleKey ps r1 r2)
    as (r2 & E2 & Ha2 & Ho2).
  { clear E1. case_decide as Eu.
    - apply fill_update_empty in Eu. exists r1. rewrite Eu. split_and!; [|by rewrite (left_id_L ∅ (∪))|by intros ? _].
      unfold ret. do 3 f_equal. rewrite dom_empty_L. apply (f_equal Z.of_nat (x := 0%nat)). symmetry. apply size_empty_iff. set_solver.
    - destruct Ha1 as (h & Hh & He).
      destruct (HSetMultiple_spec MangleKey (key_of ps) _ h r1 Hc Eu Hh) as (r2 & Es & V).
      exists r2. rewrite (update_size _ _ _ Hok He) in Es. split; [done|].
      eapply actor_state_put; [exact V|]. apply encodes_union; [by apply encodes_updated|done]. }
  exists r2. split_and!; [|done|intros k Hk; rewrite Ho2 by done; by apply Ho1].
  unfold routeImplStateUpdate. rewrite Eop. unfold bind at 1, of_res. rewrite toUpdate_ok by done.
  erewrite answering_ok by exact E1. by erewrite answering_ok by exact E2.
Qed.

End properties.

(* ---------------------------------------------------------------------- *)
(** ** Concrete runs *)

Module Witness.
#[local] Existing Instance MiniRedis.
#[local] Existing Instance MiniRedis_laws.
#[local] Existing Instance MiniRedis_scan.
#[local] Existing Instance MiniJson.MiniJson.
#[local] Existing Instance canonical_iter.

Definition mangle (k : string) : string := KarMangleKey "app" k.
Definition error_text (e : gerror) : string := match e with EMsg s => s | _ => "error" end.
Definition any_text (v : any) : string := match v with AString s => s | _ => "value" end.
Definition map_op (s : string) : option submapOp := if String.eqb s "" then None else Some (mkSubmapOp s).
Definition update0 : stateUpdateOp :=
  mkUpdate {["name" := AString "n2"]} {["tags" := {["d" := AString "4"]}]} ["age"] {["tags" := ["a"; "z"]]}.
Definition update_op (s : string) : option stateUpdateOp :=
  if String.eqb s "update" then Some update0 else None.
Definition update_text (removed added : Z) : res string := Ok (Itoa removed ++ "," ++ Itoa added).

Definition at_key (key subkey : string) : Params := mkParams "Account" "1" key subkey.

(** A state with two values and a sub-map of three entries. *)
Definition a0 : state :=
  <[("name", None) := MiniJson.quote "n"]> (<[("age", None) := "7"]>
  (<[("tags", Some "a") := "1"]> (<[("tags", Some "b") := "2"]> (<[("tags", Some "c_x") := "3"]> ∅)))).

Definition h0 : gmap string string :=
  <["name__" := MiniJson.quote "n"]> (<["age__" := "7"]>
  (<["tags_a" := "1"]> (<["tags_b" := "2"]> (<["tags_c_x" := "3"]> ∅)))).

Definition r0 : gmap string rvalue := {[mangle "main_state_Account_1" := VHash h0]}.

Lemma a0_state ps : p_type ps = "Account" → p_id ps = "1" → actor_state mangle ps r0 a0.
Proof.
  intros Et Ei. exists h0. split.
  - unfold key_of. rewrite Et, Ei. vm_compute. reflexivity.
  - unfold h0, a0.
    apply (encodes_insert _ _ ("name", None)); [|done].
    apply (encodes_insert _ _ ("age", None)); [|done].
    apply (encodes_insert _ _ ("tags", Some "a")); [|done].
    apply (encodes_insert _ _ ("tags", Some "b")); [|done].
    apply (encodes_insert _ _ ("tags", Some "c_x")); [|done]. apply encodes_empty.
Qed.

Lemma always_connected : @connected _ MiniRedis.
Proof. done. Qed.

Lemma entry_refinement_witness :
  (routeImplContainsKey mangle error_text (at_key "tags" "d") r0).1 = Ok (http_Error "key not present" 404) ∧
  ∃ r', routeImplSet mangle error_text (at_key "tags" "d") "4" r0 =
          (Ok (mkHttp 201 [("Location", "/kar/v1/actor/Account/1/state/tags/d")] ""), r') ∧
        actor_state mangle (at_key "tags" "d") r' (<[("tags", Some "d") := "4"]> a0).
Proof.
  destruct (entry_refinement mangle error_text (at_key "tags" "d") a0 "4" "" r0)
    as ((r1 & E1 & _) & _ & (r2 & E2 & S2 & _) & _).
  - exact always_connected.
  - by apply a0_state.
  - done.
  - split; [rewrite E1; reflexivity|]. exists r2. split; [rewrite E2; reflexivity|exact S2].
Defined.

Lemma a0_json : stored_json a0.
Proof.
  assert (map_Forall (λ _ s, s = "" ∨ is_Some (Unmarshal s)) a0) as Hm; [|intros x s; apply Hm].
  unfold a0. repeat (apply map_Forall_insert_2; [right; vm_compute; eauto|]). apply map_Forall_empty.
Qed.

(** Clearing the sub-map of three entries; the sub-map without entries panics. *)
Lemma submap_refinement_witness :
  (∃ n r', (∀ fuel, (n ≤ fuel)%nat →
    routeImplSubmapOps mangle error_text map_op fuel (at_key "tags" "") "clear" r0 =
      marshal_response error_text (AInt 3) r') ∧
    actor_state mangle (at_key "tags" "") r' (drop_submap a0 "tags")) ∧
  (∃ n why r', ∀ fuel, (n ≤ fuel)%nat →
    routeImplSubmapOps mangle error_text map_op fuel (at_key "none" "") "clear" r0 = (Panic why, r')).
Proof.
  split.
  - destruct (submap_refinement mangle error_text map_op (at_key "tags" "") a0 "clear" "clear" r0)
      as (n & l & r1 & v & a' & r' & _ & _ & _ & Hv & Hs & Ha & _);
      [exact always_connected|by apply a0_state|exact a0_json|done|done|done|done|set_solver|].
    exists n, r'. apply submap_clear_inv in Hs as [(_ & -> & ->)|(He & _)].
    + split; [exact Hv|exact Ha].
    + exfalso. apply (f_equal size) in He. vm_compute in He. discriminate He.
  - destruct (submap_refinement mangle error_text map_op (at_key "none" "") a0 "clear" "clear" r0)
      as (n & l & r1 & v & a' & r' & _ & _ & _ & Hv & Hs & _);
      [exact always_connected|by apply a0_state|exact a0_json|done|done|done|done|set_solver|].
    exists n. apply submap_clear_inv in Hs as [(Hne & _)|(_ & (why & ->) & _)].
    + exfalso. apply Hne. vm_compute. reflexivity.
    + exists why, r'. exact Hv.
Defined.

Example submap_size :
  (routeImplSubmapOps mangle error_text map_op 5 (at_key "tags" "") "size" r0).1 = Ok (http_json "3").
Proof. vm_compute. reflexivity. Qed.

Lemma state_report_witness :
  ∃ m r', actorGetAllState mangle "Account" "1" r0 = (Ok m, r') ∧ rview r' = rview r0 ∧
    reported decoded a0 m.
Proof.
  apply (state_report mangle (at_key "" "") a0 r0).
  - exact always_connected.
  - by apply a0_state.
  - intros k sk [s Hs]. unfold a0 in *.
    repeat (apply lookup_insert_Some in Hs as [[Hs _]|[_ Hs]];
      [first [discriminate Hs | injection Hs as <-; rewrite !lookup_insert_ne by done; apply lookup_empty]|]).
    by rewrite lookup_empty in Hs.
Defined.

(** An update that removes an entry, one of a sub-map and an absent one, and
    writes an old and a new entry. *)
Lemma state_update_witness :
  ∃ r', routeImplStateUpdate mangle error_text any_text update_op update_text (at_key "" "") "update" r0 =
          (Ok (http_json "2,1"), r') ∧
        actor_state mangle (at_key "" "") r' (updated update0 ∪ removed update0 a0).
Proof.
  destruct (state_update mangle error_text any_text update_op update_text (at_key "" "") a0 update0 "update" r0)
    as (r' & E & S' & _).
  - exact always_connected.
  - by apply a0_state.
  - done.
  - split; [apply map_Forall_singleton; by eexists|].
    apply map_Forall_singleton, map_Forall_singleton. by eexists.
  - split; vm_compute; repeat constructor; discriminate.
  - exists r'. split; [rewrite E; vm_compute; reflexivity|exact S'].
Defined.

(** A subkey that is the separator is read as a value of the key itself; a key
    with the separator is reported under its first part, and mixed uses of a key
    panic or lose an entry depending on the order of the iteration. *)
Example separator_subkey : nestedEntryKey "tags" sep = flatEntryKey "tags".
Proof. reflexivity. Qed.

Example separator_key :
  (add_fields [(flatEntryKey "first_name", MiniJson.quote "n")] ∅) = Ok {["first" := AMap {["name__" := AString "n"]}]}.
Proof. vm_compute. reflexivity. Qed.

Example mixed_key_panics :
  add_fields [(flatEntryKey "k", "1"); (nestedEntryKey "k" "s", "2")] ∅ = Panic "interface conversion".
Proof. vm_compute. reflexivity. Qed.

Example mixed_key_loses :
  add_fields [(nestedEntryKey "k" "s", "2"); (flatEntryKey "k", "true")] ∅ = Ok {["k" := ABool true]}.
Proof. vm_compute. reflexivity. Qed.

End Witness.

End ActorState.
