(* ===== verification/DebugParser.v ===== *)
(** * DebugParser: breakpoint conditions and edits on decoded values

    Models src/core/internal/runtime/debug-parser.go (of which
    src/core/cmd/kar-debugger/parser.go is a copy without edits): paths into
    values of type interface{}, the replacement of the value at a path, the
    conditions of breakpoints and the edits of responses.  The grammar is the
    parser library's; what it produces, [CondList_p] and [EditList_p], is given. *)

From S2P Require Import Prelude GoLib Json.
Open Scope string_scope.
Open Scope Z_scope.

Module DebugParser.

(* ---------------------------------------------------------------------- *)
(** ** What the grammar produces *)

Record Accessor_p : Type := mkAccessor { List_ : list string }.

(** Each alternative of an expression is a pointer, nil when it is not the one
    that was parsed. *)
Record Expr_p : Type := mkExpr {
  Int_ : option Z;
  Float_ : option float64;
  String_ : option string;
  Accessor : option Accessor_p;
}.

Record Cond_p : Type := mkCond { LHS : Expr_p; Op : string; RHS : Expr_p }.

Record CondList_p : Type := mkCondList { cl_Head : option (list Cond_p); cl_Tail : Cond_p }.

Record Edit_p : Type := mkEdit { e_Accessor : Accessor_p; Value : Expr_p }.

Record EditList_p : Type := mkEditList { el_Head : option (list Edit_p); el_Tail : Edit_p }.

Section parser.
(** The text of a value in [fmt.Errorf], [regexp.Match] (false on a bad
    pattern) and the two parsers. *)
Context (Sprint : any → string).
Context (regexp_Match : string → string → bool).
Context (ParseConds : string → option CondList_p).
Context (ParseEdits : string → EditList_p + gerror).

Definition err_literal : gerror := EMsg "Array accessor must be an int literal".

Definition err_bounds (idx : Z) (t : list any) : gerror :=
  EMsg ("Array accessor " ++ Itoa idx ++ " out of bounds for array of length " ++
        Itoa (Z.of_nat (length t))).

Definition err_key (curQuery : string) : gerror := EMsg ("Key " ++ curQuery ++ " not found in map").

Definition err_access (curQuery : string) (obj : any) : gerror :=
  EMsg ("Attempted to access property " ++ curQuery ++ " of a non-map/non-array " ++ Sprint obj).

(** One element of a path, on the object reached so far. *)
Definition access_step (obj : any) (curQuery : string) : res any :=
  match obj with
  | ASlice t =>
      match Atoi curQuery with
      | (_, Some _) => Err err_literal
      | (idx, None) =>
          if Z.of_nat (length t) <=? idx then Err (err_bounds idx t)
          else if idx <? 0 then Panic "index out of range"
          else match t !! Z.to_nat idx with Some v => Ok v | None => Panic "index out of range" end
      end
  | AMap t =>
      match t !! curQuery with
      | Some newObj => Ok newObj
      | None => Err (err_key curQuery)
      end
  | _ => Err (err_access curQuery obj)
  end.

Fixpoint access (obj : any) (query : list string) : res any :=
  match query with
  | [] => Ok obj
  | curQuery :: query' =>
      match access_step obj curQuery with
      | Ok obj' => access obj' query'
      | failure => failure
      end
  end.

(** The first loop of [replace]: the objects along the path. *)
Fixpoint path_objects (obj : any) (query : list string) (objList : list any) : res (list any) :=
  match query with
  | [] => Ok objList
  | curQuery :: query' =>
      match access_step obj curQuery with
      | Ok obj' => path_objects obj' query' (objList ++ [obj'])%list
      | Err e => Err e
      | Panic s => Panic s
      | OutOfFuel => OutOfFuel
      end
  end.

(** One turn of the second loop: [t[curQuery] = child] in the object [obj]. *)
Definition put_child (obj : any) (curQuery : string) (child : any) : res any :=
  match access_step obj curQuery with
  | Ok _ =>
      match obj with
      | ASlice t => Ok (ASlice (<[Z.to_nat (Atoi curQuery).1 := child]> t))
      | AMap t => Ok (AMap (<[curQuery := child]> t))
      | _ => Ok obj
      end
  | failure => failure
  end.

(** The second loop, from the last element of the path ([query] and [objList]
    are reversed) to the root. *)
Fixpoint rebuild (rev_query : list string) (rev_objList : list any) (child : any) : res any :=
  match rev_query, rev_objList with
  | curQuery :: query', obj :: objList' =>
      match put_child obj curQuery child with
      | Ok obj' => rebuild query' objList' obj'
      | failure => failure
      end
  | _, _ => Ok child
  end.

(** [objList[len-1] = newVal], then the second loop over the objects above. *)
Definition replace (obj : any) (query : list string) (newVal : any) : res any :=
  match path_objects obj query [obj] with
  | Ok objList => rebuild (reverse query) (tail (reverse objList)) newVal
  | failure =>
      match failure with Err e => Err e | Panic s => Panic s | _ => OutOfFuel end
  end.

(** The value of an expression: a later alternative overwrites an earlier one;
    [None] when the accessor fails. *)
Definition literal (e : Expr_p) : any :=
  match Float_ e with
  | Some f => AFloat f
  | None =>
      match String_ e with
      | Some s => AString s
      | None => match Int_ e with Some z => AInt z | None => ANil end
      end
  end.

(** The same in [doEdits], which looks at the string last and has no accessor. *)
Definition edit_literal (e : Expr_p) : any :=
  match String_ e with
  | Some s => AString s
  | None =>
      match Float_ e with
      | Some f => AFloat f
      | None => match Int_ e with Some z => AInt z | None => ANil end
      end
  end.

Definition operand (obj : any) (e : Expr_p) : res (option any) :=
  match Accessor e with
  | Some a =>
      match access obj (List_ a) with
      | Ok v => Ok (Some v)
      | Err _ => Ok None
      | Panic s => Panic s
      | OutOfFuel => OutOfFuel
      end
  | None => Ok (Some (literal e))
  end.

Definition compare {A} (le lt : A → A → bool) (op : string) (x y : A) : bool :=
  if String.eqb op "<=" then le x y
  else if String.eqb op ">=" then le y x
  else if String.eqb op "<" then lt x y
  else if String.eqb op ">" then lt y x
  else false.

(** The conversions of an int to a float64 when the other side is one. *)
Definition promote (x y : any) : any :=
  match x, y with AInt z, AFloat _ => AFloat (float_of_int z) | _, _ => x end.

(** The [switch] on the type of the left side, after the conversions.  [IN] on a
    number looks in a nil slice: [rhs] never is an [[]int] or an [[]float64]. *)
Definition compare_any (op : string) (lhs rhs : any) : bool :=
  match lhs with
  | AInt l =>
      if String.eqb op "IN" then false
      else match rhs with AInt r => compare Z.leb Z.ltb op l r | _ => false end
  | AFloat l =>
      if String.eqb op "IN" then false
      else match rhs with AFloat r => compare float_leb float_ltb op l r | _ => false end
  | AString l =>
      if String.eqb op "LIKE" then match rhs with AString r => regexp_Match r l | _ => false end
      else if String.eqb op "IN" then
        match rhs with
        | AString r => Contains r l
        | AMap m => bool_decide (is_Some (m !! l))
        | AStrings items => existsb (λ item, String.eqb item l) items
        | _ => false
        end
      else false
  | _ => false
  end.

Definition cond (obj : any) (condStruct : Cond_p) : res bool :=
  match operand obj (LHS condStruct) with
  | Ok (Some lhs) =>
      match operand obj (RHS condStruct) with
      | Ok (Some rhs) =>
          if is_nil lhs || is_nil rhs then Ok false
          else if String.eqb (Op condStruct) "==" then go_eq lhs rhs
          else if String.eqb (Op condStruct) "!=" then
            match go_eq lhs rhs with Ok b => Ok (negb b) | failure => failure end
          else Ok (compare_any (Op condStruct) (promote lhs rhs) (promote rhs lhs))
      | Ok None => Ok false
      | Err e => Err e
      | Panic s => Panic s
      | OutOfFuel => OutOfFuel
      end
  | Ok None => Ok false
  | Err e => Err e
  | Panic s => Panic s
  | OutOfFuel => OutOfFuel
  end.

Fixpoint all_conds (obj : any) (condList : list Cond_p) : res bool :=
  match condList with
  | [] => Ok true
  | c :: condList' =>
      match cond obj c with
      | Ok true => all_conds obj condList'
      | failure => failure
      end
  end.

Definition runConds (obj : any) (conds : string) : res bool :=
  match ParseConds conds with
  | None => Ok false
  | Some l => all_conds obj (default [] (cl_Head l) ++ [cl_Tail l])%list
  end.

(** The loop over the edits.  Objects are edited in place, so as long as every
    path had an element [originalObj] is the same object as [obj]. *)
Fixpoint run_edits (aliased : bool) (originalObj obj : any) (editList : list Edit_p)
    : res (any * option gerror) :=
  match editList with
  | [] => Ok (obj, None)
  | e :: editList' =>
      let val := edit_literal (Value e) in
      let original := if aliased then obj else originalObj in
      if is_nil val then Ok (original, None)
      else
        let query := List_ (e_Accessor e) in
        match replace obj query val with
        | Ok obj' =>
            run_edits (aliased && negb (bool_decide (query = []))) original obj' editList'
        | Err err => Ok (original, Some err)
        | Panic s => Panic s
        | OutOfFuel => OutOfFuel
        end
  end.

Definition doEdits (obj : any) (edit : string) : res (any * option gerror) :=
  match ParseEdits edit with
  | inr err => Ok (obj, Some err)
  | inl l => run_edits true obj obj (default [] (el_Head l) ++ [el_Tail l])%list
  end.

(* ---------------------------------------------------------------------- *)
(** ** Replacement as a recursive function, and its laws *)

(** The recursive definition that the two loops of [replace] implement. *)
Fixpoint replace_ref (obj : any) (query : list string) (newVal : any) : res any :=
  match query with
  | [] => Ok newVal
  | curQuery :: query' =>
      match access_step obj curQuery with
      | Ok child =>
          match replace_ref child query' newVal with
          | Ok child' => put_child obj curQuery child'
          | failure => failure
          end
      | failure => failure
      end
  end.

(** The objects below the root along a path. *)
Fixpoint chain (obj : any) (query : list string) : res (list any) :=
  match query with
  | [] => Ok []
  | curQuery :: query' =>
      match access_step obj curQuery with
      | Ok obj' =>
          match chain obj' query' with
          | Ok l => Ok (obj' :: l)
          | failure => failure
          end
      | Err e => Err e
      | Panic s => Panic s
      | OutOfFuel => OutOfFuel
      end
  end.

(** Two path elements that name the same child of an object. *)
Definition same_child (obj : any) (k k' : string) : Prop :=
  match obj with ASlice _ => (Atoi k).1 = (Atoi k').1 | _ => k = k' end.

Lemma path_objects_chain obj query acc :
  path_objects obj query acc =
    match chain obj query with Ok l => Ok (acc ++ l)%list | Err e => Err e | Panic s => Panic s | OutOfFuel => OutOfFuel end.
Proof.
  revert obj acc. induction query as [|k query IH]; intros obj acc; simpl; [by rewrite app_nil_r|].
  destruct (access_step obj k) as [obj'| | |]; try done. rewrite IH.
  destruct (chain obj' query); try done. by rewrite <-(assoc_L app).
Qed.

Lemma chain_length obj query l : chain obj query = Ok l → length l = length query.
Proof.
  revert obj l. induction query as [|k query IH]; intros obj l E; simpl in E; [by simplify_eq|].
  destruct (access_step obj k) as [obj'| | |]; try done.
  destruct (chain obj' query) as [l'| | |] eqn:E'; try done. simplify_eq. simpl. f_equal. by eapply IH.
Qed.

Lemma rebuild_snoc rq ro k obj v :
  length rq = length ro →
  rebuild (rq ++ [k]) (ro ++ [obj])%list v =
    match rebuild rq ro v with Ok child => put_child obj k child | failure => failure end.
Proof.
  revert ro v. induction rq as [|k' rq IH]; intros [|o ro] v Hl; try done; simpl.
  - by destruct (put_child obj k v).
  - destruct (put_child o k' v); try done. apply IH. by injection Hl.
Qed.

(** The objects above the replaced one, from the bottom. *)
Lemma tail_reverse_cons {A} (x : A) l : l ≠ [] → tail (reverse (x :: l)) = (tail (reverse l) ++ [x])%list.
Proof.
  intros Hl. rewrite reverse_cons. destruct (reverse l) as [|y l'] eqn:E; [|done].
  exfalso. apply Hl. apply (f_equal reverse) in E. by rewrite reverse_involutive in E.
Qed.

Lemma rebuild_chain obj query l v :
  chain obj query = Ok l →
  rebuild (reverse query) (tail (reverse (obj :: l))) v = replace_ref obj query v.
Proof.
  revert obj l. induction query as [|k query IH]; intros obj l E; [done|]. simpl in E.
  destruct (access_step obj k) as [obj'| | |] eqn:Ea; try done.
  destruct (chain obj' query) as [l'| | |] eqn:Ec; try done. simplify_eq.
  rewrite tail_reverse_cons by done. rewrite reverse_cons. rewrite rebuild_snoc.
  - rewrite (IH _ _ Ec). simpl. rewrite Ea. by destruct (replace_ref obj' query v).
  - apply chain_length in Ec. assert (∀ l : list any, length (tail l) = pred (length l)) as Ht by by intros [].
    rewrite Ht, !length_reverse. simpl. lia.
Qed.

Lemma chain_failure obj query v :
  match chain obj query with
  | Ok _ => True
  | Err e => replace_ref obj query v = Err e
  | Panic s => replace_ref obj query v = Panic s
  | OutOfFuel => replace_ref obj query v = OutOfFuel
  end.
Proof.
  revert obj. induction query as [|k query IH]; intros obj; simpl; [done|].
  destruct (access_step obj k) as [obj'| | |]; try done. specialize (IH obj').
  destruct (chain obj' query); try done; by rewrite IH.
Qed.

Lemma replace_is_ref obj query v : replace obj query v = replace_ref obj query v.
Proof.
  unfold replace. rewrite path_objects_chain. pose proof (chain_failure obj query v) as Hf.
  destruct (chain obj query) as [l| | |] eqn:E; [|done..]. by apply rebuild_chain.
Qed.

(** Children of containers. *)
Lemma put_child_ok obj k c v : access_step obj k = Ok c → ∃ obj', put_child obj k v = Ok obj'.
Proof.
  intros E. unfold put_child. rewrite E. destruct obj; try done; eauto.
Qed.

Lemma access_step_slice t k c :
  access_step (ASlice t) k = Ok c → ∃ idx, Atoi k = (idx, None) ∧ 0 ≤ idx ∧ t !! Z.to_nat idx = Some c.
Proof.
  simpl. destruct (Atoi k) as [idx [e|]]; [done|].
  destruct (Z.leb_spec (Z.of_nat (length t)) idx); [done|].
  destruct (Z.ltb_spec idx 0); [done|]. destruct (t !! Z.to_nat idx) eqn:E; [|done].
  intros [= <-]. eauto.
Qed.

Lemma put_access_eq obj k v obj' : put_child obj k v = Ok obj' → access_step obj' k = Ok v.
Proof.
  unfold put_child. destruct (access_step obj k) as [c| | |] eqn:E; try done.
  destruct obj as [| | | | |t|m| |]; try done; intros [= <-].
  - apply access_step_slice in E as (idx & Ei & Hp & Hl). simpl. rewrite Ei. simpl.
    apply lookup_lt_Some in Hl. rewrite length_insert.
    destruct (Z.leb_spec (Z.of_nat (length t)) idx); [lia|].
    destruct (Z.ltb_spec idx 0); [lia|]. by rewrite list_lookup_insert_eq.
  - simpl. by rewrite lookup_insert_eq.
Qed.

Lemma put_access_ne obj k v obj' k' :
  put_child obj k v = Ok obj' → ¬ same_child obj k k' → access_step obj' k' = access_step obj k'.
Proof.
  unfold put_child. destruct (access_step obj k) as [c| | |] eqn:E; try done.
  destruct obj as [| | | | |t|m| |]; try done; intros [= <-] Hne.
  - apply access_step_slice in E as (idx & Ei & Hp & Hl). simpl in *. rewrite Ei in Hne |- *.
    destruct (Atoi k') as [idx' [e|]]; [done|]. simpl in *. rewrite length_insert.
    unfold err_bounds. rewrite length_insert.
    destruct (Z.of_nat (length t) <=? idx'); [done|]. destruct (Z.ltb_spec idx' 0); [done|].
    rewrite list_lookup_insert_ne; [done|]. intros Heq. apply Hne. lia.
  - simpl in *. by rewrite lookup_insert_ne.
Qed.

Lemma put_get_id obj k c : access_step obj k = Ok c → put_child obj k c = Ok obj.
Proof.
  intros E. unfold put_child. rewrite E. destruct obj as [| | | | |t|m| |]; try done.
  - apply access_step_slice in E as (idx & Ei & Hp & Hl). rewrite Ei. simpl.
    by rewrite list_insert_id.
  - simpl in E. destruct (m !! k) as [u|] eqn:Em; [|done]. simplify_eq. by rewrite insert_id.
Qed.

Lemma replace_total obj query v :
  match access obj query with
  | Ok _ => ∃ obj', replace_ref obj query v = Ok obj'
  | failure => replace_ref obj query v = failure
  end.
Proof.
  revert obj. induction query as [|k query IH]; intros obj; simpl; [eauto|].
  destruct (access_step obj k) as [c| | |] eqn:E; try done. specialize (IH c).
  destruct (access c query); try (by rewrite IH). destruct IH as [c' ->]. by eapply put_child_ok.
Qed.

Lemma access_replaced obj query v obj' : replace_ref obj query v = Ok obj' → access obj' query = Ok v.
Proof.
  revert obj obj'. induction query as [|k query IH]; intros obj obj' E; simpl in *; [by simplify_eq|].
  destruct (access_step obj k) as [c| | |]; try done.
  destruct (replace_ref c query v) as [c'| | |] eqn:Er; try done.
  rewrite (put_access_eq _ _ _ _ E). by eapply IH.
Qed.

Lemma replace_same obj query v : access obj query = Ok v → replace_ref obj query v = Ok obj.
Proof.
  revert obj. induction query as [|k query IH]; intros obj E; simpl in *; [by simplify_eq|].
  destruct (access_step obj k) as [c| | |] eqn:Es; try done. rewrite (IH _ E). by apply put_get_id.
Qed.

Lemma access_app obj p q :
  access obj (p ++ q)%list = match access obj p with Ok o => access o q | failure => failure end.
Proof.
  revert obj. induction p as [|k p IH]; intros obj; simpl; [done|].
  destruct (access_step obj k); [apply IH|done..].
Qed.

Lemma replace_ref_other obj p o k q v obj' k' q' :
  access obj p = Ok o → ¬ same_child o k k' →
  replace_ref obj (p ++ k :: q)%list v = Ok obj' →
  access obj' (p ++ k' :: q')%list = access obj (p ++ k' :: q')%list.
Proof.
  revert obj obj'. induction p as [|j p IH]; intros obj obj' Ha Hne E; simpl in *.
  - simplify_eq. destruct (access_step o k) as [c| | |]; try done.
    destruct (replace_ref c q v) as [c'| | |]; try done. by rewrite (put_access_ne _ _ _ _ _ E Hne).
  - destruct (access_step obj j) as [c| | |] eqn:Es; try done.
    destruct (replace_ref c (p ++ k :: q)%list v) as [c'| | |] eqn:Er; try done.
    rewrite (put_access_eq _ _ _ _ E). by apply (IH c).
Qed.

(* ---------------------------------------------------------------------- *)
(** ** Properties *)

(** The two loops of [replace] compute the recursive replacement, and fail
    exactly where reading the path fails, with the same error or panic. *)
Theorem replace_equivalence obj query v :
  replace obj query v = replace_ref obj query v ∧
  match access obj query with
  | Ok _ => ∃ obj', replace obj query v = Ok obj'
  | failure => replace obj query v = failure
  end.
Proof. rewrite replace_is_ref. split; [done|]. apply replace_total. Qed.

(** Replacing is a lens: the new value is read back, writing what was there
    changes nothing, and paths that leave the edited one read as before. *)
Theorem edit_lens obj p k q v obj' o k' q' :
  replace obj (p ++ k :: q)%list v = Ok obj' → access obj p = Ok o → ¬ same_child o k k' →
  access obj' (p ++ k :: q)%list = Ok v ∧
  access obj' (p ++ k' :: q')%list = access obj (p ++ k' :: q')%list ∧
  ∀ query u, access obj query = Ok u → replace obj query u = Ok obj.
Proof.
  rewrite replace_is_ref. intros E Ha Hne. split_and!.
  - by eapply access_replaced.
  - by eapply replace_ref_other.
  - intros query u Hu. rewrite replace_is_ref. by apply replace_same.
Qed.

(** A number of decoded JSON never equals an integer literal, though it can be
    compared with one: the condition [==] does not convert. *)
Lemma int_literal_never_equal obj a f z :
  access obj (List_ a) = Ok (AFloat f) →
  cond obj (mkCond (mkExpr None None None (Some a)) "==" (mkExpr (Some z) None None None)) = Ok false.
Proof. intros E. unfold cond, operand. simpl. by rewrite E. Qed.

(** [IN] is false on every list of decoded JSON. *)
Lemma in_list_never obj a b v l :
  access obj (List_ a) = Ok v → access obj (List_ b) = Ok (ASlice l) →
  cond obj (mkCond (mkExpr None None None (Some a)) "IN" (mkExpr None None None (Some b))) = Ok false.
Proof.
  intros Ea Eb. unfold cond, operand. simpl. rewrite Ea, Eb.
  destruct v; try done; simpl; by rewrite ?orb_false_r.
Qed.

End parser.

(* ---------------------------------------------------------------------- *)
(** ** Concrete runs *)

Module Witness.

Definition text (v : any) : string := match v with AString s => s | _ => "value" end.

(** [{"payload": {"value": [1, "two"], "id": "x"}}]. *)
Definition doc : any :=
  AMap {["payload" := AMap (<["value" := ASlice [AFloat (float_of_int 1); AString "two"]]>
                            {["id" := AString "x"]})]}.

Definition doc' : any :=
  match replace text doc ["payload"; "value"; "1"] (AInt 2) with Ok v => v | _ => ANil end.

Lemma edit_lens_witness :
  access text doc' ["payload"; "value"; "1"] = Ok (AInt 2) ∧
  access text doc' ["payload"; "value"; "0"] = access text doc ["payload"; "value"; "0"] ∧
  ∀ query u, access text doc query = Ok u → replace text doc query u = Ok doc.
Proof.
  apply (edit_lens text doc ["payload"; "value"] "1" [] (AInt 2) doc'
           (ASlice [AFloat (float_of_int 1); AString "two"]) "0" []).
  - vm_compute. reflexivity.
  - vm_compute. reflexivity.
  - vm_compute. discriminate.
Defined.

(** A negative index is within the bounds that are tested, and panics. *)
Example negative_index_panics :
  access text (ASlice [ANil]) ["-1"] = Panic "index out of range".
Proof. reflexivity. Qed.

(** Comparing two objects with [==] panics. *)
Example comparing_objects_panics :
  let path := mkExpr None None None (Some (mkAccessor ["payload"])) in
  cond text (λ _ _, false) doc (mkCond path "==" path) = Panic "comparing uncomparable type map[string]interface {}".
Proof. reflexivity. Qed.

(** When a later edit fails, the earlier ones have already changed the object
    that is returned. *)
Example failed_edit_keeps_earlier :
  let edit path z := mkEdit (mkAccessor path) (mkExpr (Some z) None None None) in
  let r := run_edits text true doc doc [edit ["payload"; "id"] 5; edit ["none"] 6] in
  match r with Ok (v, Some _) => access text v ["payload"; "id"] = Ok (AInt 5) | _ => False end.
Proof. reflexivity. Qed.

End Witness.

End DebugParser.
