(* ===== verification/Commands.v ===== *)
(** * Commands: the requests that sidecars exchange

    Models src/core/internal/runtime/commands.go, the sending and the receiving
    side, but for the breakpoints.  A request carries a JSON object with a
    command; [handlerActor], [handlerService], [handlerBinding] and
    [handlerSidecar] are the functions registered with the rpc package, which
    the component [Sessions] runs.  The rpc package, the application's process
    and the debugger are interfaces: [Rpc], [App] and [Hooks]. *)

From S2P Require Import Prelude GoLib Json Messages Store Sessions Reminders ActorState.
Open Scope string_scope.
Open Scope Z_scope.
Open Scope go_scope.

Module Commands.
Import Rpc.
Import Reminders(Actor, mkActor, a_Type, a_ID).
Import Sessions(SessionInstance, ActiveFlow, Activated, set_activated).

(* ---------------------------------------------------------------------- *)
(** ** Data *)

(** The subset of an http.Response that the runtime passes on. *)
Record Reply : Type := mkReply {
  StatusCode : Z;
  ContentType : string;
  Payload : string;
}.

#[export] Instance Reply_eq_dec : EqDecision Reply.
Proof. solve_decision. Defined.

(** actors.go: the result of invoking an actor method. *)
Record actorCallResult : Type := mkCallResult {
  cr_Value : any;
  cr_TailCall : bool;
  cr_Error : bool;
  cr_Message : string;
  cr_Stack : string;
}.

Definition actorRuntimeRoutePrefix : string := "/kar/impl/v1/actor/".

Definition actorEndpoint : string := "handlerActor".
Definition bindingEndpoint : string := "handlerBinding".
Definition serviceEndpoint : string := "handlerService".
Definition sidecarEndpoint : string := "handlerSidecar".
Definition debuggerEndpoint : string := "handlerDebugger".

(** What a debugger sees of a request in progress. *)
Record actorSentInfo_t : Type := mkSent {
  si_Actor : Actor;
  si_ParentId : string;
  si_FlowId : string;
  si_RequestValue : string;
}.

(* ---------------------------------------------------------------------- *)
(** ** Interfaces *)

(** What the callers use of the rpc package and of the clock.  A request id
    stands for the channel of its response. *)
Class RpcOps (W : Type) : Type := {
  now : M W Z;
  uuid : M W string;
  rpc_Call : Destination → Z → string → string → M W string;
  rpc_Tell : Destination → Z → string → string → M W unit;
  rpc_Async : Destination → Z → string → M W string;
  rpc_AsyncParent : Destination → Z → string → string → M W string;
  (** [<-ch] or [<-ctx.Done()], whichever comes first *)
  rpc_receive : string → M W string;
  rpc_Reclaim : string → M W unit;
  rpc_DelSession : Session → M W unit;
}.

(** The application's process (http_client.go) and the actor's state in Redis. *)
Class AppOps (W : Type) : Type := {
  invoke : string → gmap string string → M W Reply;
  state_Del : string → M W Z;
}.

(** What the handlers tell the debugger: the requests in progress, the entry of
    a request, which may pause it, and its end, which may replace the reply. *)
Class Hooks (W : Type) : Type := {
  debugging : M W bool;
  dbg_sent : string → actorSentInfo_t → M W unit;
  dbg_received : string → M W unit;
  dbg_handling : string → actorSentInfo_t → M W unit;
  dbg_handled : string → M W unit;
  dbg_request : Session → string → string → string → M W unit;
  (** the second argument is the actor and the path that breakpoints look at *)
  dbg_response : Session → (string * string * string) → string → string →
    option string → option string → M W (option string);
}.

(** The hooks of a sidecar that no debugger is attached to. *)
Definition no_hooks {W} : Hooks W := {|
  debugging := ret false;
  dbg_sent := λ _ _, ret tt;
  dbg_received := λ _, ret tt;
  dbg_handling := λ _ _, ret tt;
  dbg_handled := λ _, ret tt;
  dbg_request := λ _ _ _ _, ret tt;
  dbg_response := λ _ _ _ _ _ _, ret None;
|}.

(** JSON of the structures that are exchanged. *)
Class CommandJson : Type := {
  MarshalReply : Reply → res string;
  UnmarshalReply : string → Reply + gerror;
  UnmarshalResult : string → actorCallResult + gerror;
  json_error : string → gerror;
}.

(** [json.Marshal] of a [map[string]string]. *)
Definition MarshalMsg `{Json} (m : gmap string string) : res string := Marshal (any_of_msg m).

Definition when {W} (m : M W bool) (k : M W unit) : M W unit :=
  let* b := m in if b : bool then k else ret tt.

(* ---------------------------------------------------------------------- *)
(** ** The sending side *)

Section sending.
Context {W : Type} `{RpcOps W} `{Hooks W} `{Json} `{CommandJson}.
(** [config.MissingComponentTimeout]. *)
Context (MissingComponentTimeout : Z).

(** The world of the rpc package and the map [requests] of the promises that
    were not awaited yet; the request id stands for the channel. *)
Record world : Type := mkWorld { w_rpc : W; w_requests : gmap string string }.

Definition on_rpc {A} (m : M W A) : M world A := λ w,
  let '(a, s) := m (w_rpc w) in (a, mkWorld s (w_requests w)).

Definition set_requests (f : gmap string string → gmap string string) : M world unit := λ w,
  (Ok tt, mkWorld (w_rpc w) (f (w_requests w))).

Definition defaultTimeout : M world Z :=
  if 0 <? MissingComponentTimeout then
    let* t := on_rpc now in ret (t + MissingComponentTimeout)
  else ret zeroTime.

Definition newFlowId : M world string := let* u := on_rpc uuid in ret ("flow-" ++ u).

Definition service_msg (command path payload hd method : string) : gmap string string :=
  <["command" := command]> (<["path" := path]> (<["header" := hd]>
  (<["method" := method]> (<["payload" := payload]> ∅)))).

Definition actor_msg (command path payload : string) : gmap string string :=
  <["command" := command]> (<["path" := path]> (<["payload" := payload]> ∅)).

Definition decode_reply (bytes : string) : M world Reply :=
  match UnmarshalReply bytes with inl reply => ret reply | inr err => throw err end.

Definition CallService (service path payload hd method : string) : M world Reply :=
  let* bytes := of_res (MarshalMsg (service_msg "call" path payload hd method)) in
  let* deadline := defaultTimeout in
  let* bytes := on_rpc (rpc_Call (mkDestination (Service service) serviceEndpoint) deadline "" bytes) in
  decode_reply bytes.

Definition CallPromiseService (service path payload hd method : string) : M world string :=
  let* bytes := of_res (MarshalMsg (service_msg "call" path payload hd method)) in
  let* deadline := defaultTimeout in
  let* requestID := on_rpc (rpc_Async (mkDestination (Service service) serviceEndpoint) deadline bytes) in
  set_requests (<[requestID := requestID]>) ;;*
  ret requestID.

Definition actor_session (actor : Actor) (flow : string) : Target :=
  SessionTarget (mkSession (a_Type actor) (a_ID actor) flow "").

Definition CallActor (actor : Actor) (path payload flow parentID : string) : M world Reply :=
  let* flow := (if String.eqb flow "" then newFlowId else ret flow) in
  let* bytes := of_res (MarshalMsg (actor_msg "call" path payload)) in
  let* deadline := defaultTimeout in
  let* requestID := on_rpc (rpc_AsyncParent (mkDestination (actor_session actor flow) actorEndpoint)
                              deadline parentID bytes) in
  finally
    (let* tracked := on_rpc debugging in
     let info := mkSent actor parentID flow bytes in
     (if tracked : bool then on_rpc (dbg_sent requestID info) else ret tt) ;;*
     finally
       (let* bytes := on_rpc (rpc_receive requestID) in decode_reply bytes)
       (if tracked then on_rpc (dbg_received requestID) else ret tt))
    (set_requests (delete requestID)).

Definition CallPromiseActor (actor : Actor) (path payload : string) : M world string :=
  let* bytes := of_res (MarshalMsg (actor_msg "call" path payload)) in
  let* flow := newFlowId in
  let* deadline := defaultTimeout in
  let* requestID := on_rpc (rpc_Async (mkDestination (actor_session actor flow) actorEndpoint)
                              deadline bytes) in
  set_requests (<[requestID := requestID]>) ;;*
  ret requestID.

(** Deferred calls run in reverse order: [rpc.Reclaim], then the deletion. *)
Definition AwaitPromise (requestID : string) : M world string := λ w,
  match w_requests w !! requestID with
  | Some ch =>
      finally (finally (on_rpc (rpc_receive ch)) (on_rpc (rpc_Reclaim requestID)))
        (set_requests (delete requestID)) w
  | None => (Err (EMsg ("unexpected request " ++ requestID)), w)
  end.

Definition binding_msg (kind bindingID nilOnAbsent action payload contentType accept : string)
    : gmap string string :=
  <["bindingId" := bindingID]> (<["kind" := kind]> (<["command" := action]>
  (<["nilOnAbsent" := nilOnAbsent]> (<["content-type" := contentType]>
  (<["accept" := accept]> (<["payload" := payload]> ∅)))))).

Definition load_msg (kind : string) (partition : Z) (bindingID : string) : gmap string string :=
  <["command" := "load"]> (<["kind" := kind]> (<["partition" := Itoa partition]>
  (<["bindingId" := bindingID]> ∅))).

(** The function [Bindings] of commands.go. *)
Definition BindingsCommand (kind : string) (actor : Actor)
    (bindingID nilOnAbsent action payload contentType accept : string) : M world Reply :=
  let* bytes := of_res (MarshalMsg (binding_msg kind bindingID nilOnAbsent action payload contentType accept)) in
  let* deadline := defaultTimeout in
  let* bytes := on_rpc (rpc_Call (mkDestination (actor_session actor "nonexclusive") bindingEndpoint)
                          deadline "" bytes) in
  decode_reply bytes.

Definition TellService (service path payload hd method : string) : M world unit :=
  let* bytes := of_res (MarshalMsg (service_msg "tell" path payload hd method)) in
  let* deadline := defaultTimeout in
  on_rpc (rpc_Tell (mkDestination (Service service) serviceEndpoint) deadline "" bytes).

Definition TellActor (actor : Actor) (path payload parentID : string) : M world unit :=
  let* bytes := of_res (MarshalMsg (actor_msg "tell" path payload)) in
  let* flow := newFlowId in
  let* deadline := defaultTimeout in
  on_rpc (rpc_Tell (mkDestination (actor_session actor flow) actorEndpoint) deadline parentID bytes).

Definition DeleteActor (actor : Actor) : M world unit :=
  let* bytes := of_res (MarshalMsg {["command" := "delete"]}) in
  let* deadline := defaultTimeout in
  on_rpc (rpc_Tell (mkDestination (actor_session actor "deactivate") actorEndpoint) deadline "" bytes).

Definition LoadBinding (kind : string) (actor : Actor) (partition : Z) (bindingID : string)
    : M world unit :=
  let* bytes := of_res (MarshalMsg (load_msg kind partition bindingID)) in
  on_rpc (rpc_Tell (mkDestination (actor_session actor "nonexclusive") bindingEndpoint) zeroTime "" bytes).

End sending.
(* ---------------------------------------------------------------------- *)
(** ** The receiving side: actors *)

Section receiving.
Context {W : Type} `{RpcOps W} `{AppOps W} `{Hooks W} `{Json} `{CommandJson}.

(** The world of the handler of a session: its instance, and the rest. *)
Record hworld : Type := mkHworld { h_inst : SessionInstance; h_env : W }.

Definition on_env {A} (m : M W A) : M hworld A := λ w,
  let '(a, s) := m (h_env w) in (a, mkHworld (h_inst w) s).

Definition set_instance (f : SessionInstance → SessionInstance) : M hworld unit := λ w,
  (Ok tt, mkHworld (f (h_inst w)) (h_env w)).

Definition newLockId : M hworld string := let* u := on_env uuid in ret ("dl-" ++ u).

(** rpc.go: [SessionInstance.String]. *)
Definition instance_String (a : SessionInstance) : string :=
  "{Name: " ++ Sessions.Name a ++ ", ID: " ++ Sessions.ID a ++ ", ActiveFlow: " ++ ActiveFlow a ++
  ", Activated: " ++ (if Activated a then "true" else "false") ++ "}".

(** What a handler of a session returns: the destination of a tail call, the
    value (nil or bytes) and the error. *)
Abbreviation hresult := (option Destination * option string * option gerror)%type (only parsing).

(** [json.Marshal] as the pair of the bytes, nil on an error, and the error. *)
Definition marshalled {X} (r : res string) : M X (option string * option gerror) :=
  let* x := attempt (of_res r) in
  ret (match x with inl bytes => (Some bytes, None) | inr err => (None, Some err) end).

Definition actor_path (ty id : string) : string := actorRuntimeRoutePrefix ++ ty ++ "/" ++ id.

(** activate an actor: the reply of the application when it is an error. *)
Definition activate (actor : Actor) (session : string) : M hworld (option string * option gerror) :=
  let activatePath := actor_path (a_Type actor) (a_ID actor) ++ "?session=" ++ session in
  let* x := attempt (on_env (invoke "GET" {["path" := activatePath]})) in
  match x with
  | inr err => ret (None, Some err)
  | inl reply =>
      if 400 <=? StatusCode reply then marshalled (MarshalReply reply)
      else ret (None, None)
  end.

(** invoke the deactivate method of an actor *)
Definition deactivate : M hworld unit :=
  let* w := get in
  let* x := attempt (on_env (invoke "DELETE"
              {["path" := actor_path (Sessions.Name (h_inst w)) (Sessions.ID (h_inst w))]})) in
  match x with
  | inr _ => ret tt
  | inl _ => set_instance (set_activated false)
  end.

(** The deletion of an actor: its instance in the application, its state and
    its placement. *)
Definition handle_delete (actor : Actor) : M hworld hresult :=
  let* w := get in
  (if Activated (h_inst w) then deactivate else ret tt) ;;*
  attempt (on_env (state_Del (ActorState.stateKey (a_Type actor) (a_ID actor)))) ;;*
  let* x := attempt (on_env (rpc_DelSession (mkSession (a_Type actor) (a_ID actor) "" ""))) in
  ret (None, None, match x with inl _ => None | inr err => Some err end).

(** The destination of a tail call, from the value of the result; [None] when it
    is not supported. *)
Definition tail_destination (target : Session) (cr : gmap string any) : M hworld (option Destination) :=
  match cr !! "serviceName" with
  | Some name =>
      let* name := of_res (as_string name) in
      ret (Some (mkDestination (Service name) serviceEndpoint))
  | None =>
      match cr !! "actorType" with
      | Some ty =>
          let* ty := of_res (as_string ty) in
          let* id := of_res (as_string (index_any cr "actorId")) in
          let* same := of_res (go_eq (index_any cr "releaseLock") (AString "true")) in
          let* lock := (if String.eqb ty (s_Name target) && String.eqb id (s_ID target) && negb same
                        then newLockId else ret "") in
          ret (Some (mkDestination (SessionTarget (mkSession ty id (s_Flow target) lock)) actorEndpoint))
      | None => ret None
      end
  end.

(** The header that is sent to a service: [{"Content-Type": ["application/json"]}]. *)
Definition json_header : string :=
  "{" ++ MiniJson.quote "Content-Type" ++ ": [" ++ MiniJson.quote "application/json" ++ "]}".

(** The message of a tail call. *)
Definition tail_message (command : string) (cr : gmap string any) : M hworld (gmap string string) :=
  let* path := of_res (as_string (index_any cr "path")) in
  let* payload := of_res (as_string (index_any cr "payload")) in
  let msg := actor_msg command path payload in
  if is_nil (index_any cr "method") then ret msg
  else
    let* method := of_res (as_string (index_any cr "method")) in
    ret (<["actorTailCall" := "true"]> (<["header" := json_header]> (<["method" := method]> msg))).

(** A tail call: the destination, and the message as JSON, nil when it cannot
    be marshalled; nothing when the tail call is not supported. *)
Definition tail_call (command : string) (target : Session) (value : any)
    : M hworld (option Destination * option string) :=
  let* cr := of_res (as_map value) in
  let* dest := tail_destination target cr in
  match dest with
  | None => ret (None, None)
  | Some dest =>
      let* msg := tail_message command cr in
      let* bytes := marshalled (MarshalMsg msg) in
      ret (Some dest, bytes.1)
  end.

(** The reply of the method of a tell: only a tail call matters. *)
Definition tell_result (target : Session) (reply : Reply) : M hworld (option Destination * option string) :=
  if StatusCode reply =? 204 then ret (None, None)
  else if StatusCode reply =? 200 then
    match UnmarshalResult (Payload reply) with
    | inr _ => ret (None, None)
    | inl result =>
        if cr_Error result then ret (None, None)
        else if cr_TailCall result then tail_call "tell" target (cr_Value result)
        else ret (None, None)
    end
  else ret (None, None).

(** The reply of the method of a call, which goes to the caller unless it is a
    tail call; the error is that of marshalling it. *)
Definition call_result (target : Session) (reply : Reply)
    : M hworld (option Destination * option string) :=
  let* dv := (if StatusCode reply =? 200 then
                match UnmarshalResult (Payload reply) with
                | inl result =>
                    if cr_TailCall result then tail_call "call" target (cr_Value result)
                    else ret (None, None)
                | inr _ => ret (None, None)
                end
              else ret (None, None)) in
  match dv with
  | (dest, Some bytes) => ret (dest, Some bytes)
  | (dest, None) =>
      let* b := marshalled (MarshalReply reply) in
      ret (dest, b.1)
  end.

(** The invocation of the method of an activated actor.  The error of [invoke] is
    assigned to a variable of an inner block, as are those of the results: none
    of them leaves the function. *)
Definition invoke_method (actor : Actor) (target : Session) (session : string)
    (msg : gmap string string) : M hworld (option Destination * option string * option string) :=
  let command := index_str msg "command" in
  if String.eqb command "call" || String.eqb command "tell" then
    let path := actor_path (a_Type actor) (a_ID actor) ++ index_str msg "path" ++ "?session=" ++ session in
    let msg' := <["method" := "POST"]> (<["content-type" := "application/kar+json"]> (<["path" := path]> msg)) in
    let* x := attempt (on_env (invoke "POST" msg')) in
    match x with
    | inr _ => ret (None, None, None)
    | inl reply =>
        let* debugReply := marshalled (MarshalReply reply) in
        let* dv := (if String.eqb command "tell" then tell_result target reply else call_result target reply) in
        ret (dv.1, dv.2, debugReply.1)
    end
  else ret (None, None, None).

Definition flow_violation (target : Session) (instance : SessionInstance) : gerror :=
  EMsg ("Flow violation: mismatch between target " ++ Sessions.fmt_session target ++
        " and instance " ++ instance_String instance ++ " at entry").

(** Activation of the actor when it is needed: the reply and the error that the
    handler returns if the actor is not activated. *)
Definition ensure_activated (actor : Actor) (session : string)
    : M hworld (option string * option gerror) :=
  let* w := get in
  if Activated (h_inst w) then ret (None, None)
  else
    let* x := activate actor session in
    match x with
    | (Some reply, _) => ret (Some reply, None)
    | (None, Some err) => ret (None, Some err)
    | (None, None) => set_instance (set_activated true) ;;* ret (None, None)
    end.

(** The end of the handler: a response breakpoint may replace the reply. *)
Definition leave (target : Session) (bk : string * string * string) (requestID value : string)
    (dest : option Destination) (reply : option string) (err : option gerror)
    (debugReply : option string) : M hworld hresult :=
  let* debug := on_env debugging in
  if debug : bool then
    let* newReply := on_env (dbg_response target bk requestID value debugReply reply) in
    ret (dest, match newReply with Some r => Some r | None => reply end, err)
  else ret (dest, reply, err).

(** The handler after the decoding and the request breakpoints. *)
Definition run_actor (target : Session) (bk : string * string * string) (requestID value : string) (msg : gmap string string)
    : M hworld hresult :=
  let actor := mkActor (s_Name target) (s_ID target) in
  let session := s_Flow target ++ ":" ++ requestID in
  let* w := get in
  if negb (String.eqb (s_Flow target) (ActiveFlow (h_inst w))) then
    ret (None, None, Some (flow_violation target (h_inst w)))
  else if String.eqb (index_str msg "command") "delete" then handle_delete actor
  else
    let* '(reply, err) := ensure_activated actor session in
    let* w := get in
    if Activated (h_inst w) then
      let* x := invoke_method actor target session msg in
      match x with
      | (dest, reply, debugReply) => leave target bk requestID value dest reply None debugReply
      end
    else leave target bk requestID value None reply err None.

Definition handlerActor (target : Session) (requestID value : string) : M hworld hresult :=
  match UnmarshalMsg value with
  | None => ret (None, None, Some (json_error value))
  | Some msg =>
      let* debug := on_env debugging in
      if debug : bool then
        let info := mkSent (mkActor (s_Name target) (s_ID target)) "" (s_Flow target) value in
        on_env (dbg_handling requestID info) ;;*
        finally
          (on_env (dbg_request target requestID (index_str msg "path") value) ;;*
           run_actor target (s_ID target, s_Name target, index_str msg "path") requestID value msg)
          (on_env (dbg_handled requestID))
      else run_actor target ("", "", "") requestID value msg
  end.

End receiving.
(* ---------------------------------------------------------------------- *)
(** ** The receiving side: services *)

Section services.
Context {W : Type} `{AppOps W} `{Json} `{CommandJson}.

(** The result of a service as a result of an actor, for the caller of the actor
    that made the tail call; the error of [json.Marshal] is dropped. *)
Definition wrap_reply (reply : Reply) : res Reply :=
  if StatusCode reply =? 200 then
    let rawVal := match Unmarshal (Payload reply) with Some v => v | None => AString (Payload reply) end in
    match Marshal (AMap {["value" := rawVal]}) with
    | Ok tmp => Ok (mkReply 200 "application/kar+json" tmp)
    | Err _ => Ok (mkReply 200 "application/kar+json" "")
    | Panic s => Panic s
    | OutOfFuel => OutOfFuel
    end
  else Ok reply.

Definition handlerService (value : string) : M W (option string * option gerror) :=
  match UnmarshalMsg value with
  | None => ret (None, Some (json_error value))
  | Some msg =>
      let command := index_str msg "command" in
      if negb (String.eqb command "call" || String.eqb command "tell") then ret (None, None)
      else
        let* x := attempt (invoke (index_str msg "method") msg) in
        match x with
        | inr err => ret (None, Some err)
        | inl reply =>
            if String.eqb command "tell" then ret (None, None)
            else
              let* reply := of_res (if String.eqb (index_str msg "actorTailCall") "true"
                                    then wrap_reply reply else Ok reply) in
              marshalled (MarshalReply reply)
        end
  end.

End services.

(* ---------------------------------------------------------------------- *)
(** ** The receiving side: bindings *)

(** bindings.go, for all the kinds of bindings, and the JSON of bindings. *)
Class BindingOps (W B : Type) : Type := {
  deleteBindings : string → Actor → string → M W Z;
  getBindings : string → Actor → string → M W (list B);
  putBinding : string → Actor → string → string → M W (Z * option gerror);
  loadBinding : string → Actor → string → string → M W unit;
  MarshalBinding : B → res string;
  MarshalBindings : list B → res string;
}.

Section bindings.
Context {W B : Type} `{BindingOps W B} `{Json} `{CommandJson}.
Context (Error : gerror → string).

Definition bindingDel (actor : Actor) (msg : gmap string string) : M W (option string * option gerror) :=
  let* found := deleteBindings (index_str msg "kind") actor (index_str msg "bindingId") in
  marshalled (MarshalReply
    (if (found =? 0) && negb (String.eqb (index_str msg "bindingId") "") &&
        negb (String.eqb (index_str msg "nilOnAbsent") "true")
     then mkReply 404 "" ""
     else mkReply 200 "text/plain" (Itoa found))).

(** The body of the answer of [bindingGet]; [None] is the answer 404. *)
Definition binding_body (msg : gmap string string) (found : list B) : option (res string) :=
  if negb (String.eqb (index_str msg "bindingId") "") then
    match found with
    | [] => if negb (String.eqb (index_str msg "nilOnAbsent") "true") then None else Some (Marshal ANil)
    | b :: _ => Some (MarshalBinding b)
    end
  else Some (MarshalBindings found).

Definition bindingGet (actor : Actor) (msg : gmap string string) : M W (option string * option gerror) :=
  let* found := getBindings (index_str msg "kind") actor (index_str msg "bindingId") in
  match binding_body msg found with
  | None => marshalled (MarshalReply (mkReply 404 "" ""))
  | Some body =>
      let* blob := attempt (of_res body) in
      marshalled (MarshalReply
        match blob with
        | inr err => mkReply 500 "text/plain" (Error err)
        | inl blob => mkReply 200 "application/json" blob
        end)
  end.

Definition bindingSet (actor : Actor) (msg : gmap string string) : M W (option string * option gerror) :=
  let* '(code, err) := putBinding (index_str msg "kind") actor (index_str msg "bindingId")
                         (index_str msg "payload") in
  marshalled (MarshalReply
    match err with
    | Some err => mkReply code "text/plain" (Error err)
    | None => mkReply code "text/plain" "OK"
    end).

(** The error of [loadBinding] is logged only. *)
Definition bindingLoad (actor : Actor) (msg : gmap string string) : M W (option gerror) :=
  attempt (loadBinding (index_str msg "kind") actor (index_str msg "partition") (index_str msg "bindingId")) ;;*
  ret None.

Definition handlerBinding (target : Session) (value : string) : M W (option string * option gerror) :=
  let actor := mkActor (s_Name target) (s_ID target) in
  match UnmarshalMsg value with
  | None => ret (None, Some (json_error value))
  | Some msg =>
      let command := index_str msg "command" in
      if String.eqb command "del" then bindingDel actor msg
      else if String.eqb command "get" then bindingGet actor msg
      else if String.eqb command "set" then bindingSet actor msg
      else if String.eqb command "load" then let* err := bindingLoad actor msg in ret (None, err)
      else ret (None, None)
  end.

End bindings.

(* ---------------------------------------------------------------------- *)
(** ** The receiving side: sidecars *)

(** What a sidecar is asked about itself, and the other sidecars. *)
Class SidecarOps (W : Type) : Type := {
  GetLocalActivatedSessions : string → M W (gmap string (list string));
  GetNodeIDs : M W (list string);
  GetNodeID : string;
  call_node : Destination → Z → string → M W string;
  Hostname : string + gerror;
  MarshalSessions : gmap string (list string) → res string;
  UnmarshalSessions : string → gmap string (list string) + gerror;
}.

Section sidecars.
Context {W : Type} `{SidecarOps W} `{Json} `{CommandJson} `{MapIter}.
Context (runtimePortInt : Z).

Definition getActorInformation (msg : gmap string string) : M W (option string * option gerror) :=
  let* actorInfo := GetLocalActivatedSessions (index_str msg "actorType") in
  let* m := attempt (of_res (MarshalSessions actorInfo)) in
  marshalled (MarshalReply
    match m with
    | inr _ => mkReply 500 "" ""
    | inl m => mkReply 200 "application/json" m
    end).

Definition getRuntimeAddr : M W (option string * option gerror) :=
  let port : gmap string any := {["port" := AInt runtimePortInt]} in
  let replyMap := match Hostname with inl host => <["host" := AString host]> port | inr _ => port end in
  let* m := attempt (of_res (Marshal (AMap replyMap))) in
  marshalled (MarshalReply
    match m with
    | inr _ => mkReply 500 "" ""
    | inl m => mkReply 200 "application/json" m
    end).

Definition handlerSidecar (value : string) : M W (option string * option gerror) :=
  match UnmarshalMsg value with
  | None => ret (None, Some (json_error value))
  | Some msg =>
      if String.eqb (index_str msg "command") "getActiveActors" then getActorInformation msg
      else if String.eqb (index_str msg "command") "getRuntimeAddr" then getRuntimeAddr
      else ret (None, None)
  end.

(** actors.go: what one sidecar answers.  [None] ends the caller with the nil
    map and no error: the status is tested after the error was found nil. *)
Definition sidecar_actors (targetedActorType sidecar : string) : M W (option (gmap string (list string))) :=
  if String.eqb sidecar GetNodeID then
    let* info := GetLocalActivatedSessions targetedActorType in ret (Some info)
  else
    let* x := attempt (of_res (MarshalMsg
                (<["command" := "getActiveActors"]> {["actorType" := targetedActorType]}))) in
    let bytes := match x with inl bytes => bytes | inr _ => "" end in
    let* bytes := call_node (mkDestination (Node sidecar) sidecarEndpoint) zeroTime bytes in
    match UnmarshalReply bytes with
    | inr err => throw err
    | inl reply =>
        if negb (StatusCode reply =? 200) then ret None
        else match UnmarshalSessions (Payload reply) with
             | inr err => throw err
             | inl info => ret (Some info)
             end
    end.

Definition append_actors (information : gmap string (list string)) (kv : string * list string)
    : gmap string (list string) :=
  <[kv.1 := app (default [] (information !! kv.1)) kv.2]> information.

Fixpoint gather_actors (targetedActorType : string) (sidecars : list string)
    (information : gmap string (list string)) : M W (gmap string (list string)) :=
  match sidecars with
  | [] => ret information
  | sidecar :: sidecars' =>
      let* info := sidecar_actors targetedActorType sidecar in
      match info with
      | None => ret ∅
      | Some info =>
          gather_actors targetedActorType sidecars' (foldl append_actors information (map_iter 30 info))
      end
  end.

Definition getAllActiveActors (targetedActorType : string) : M W (gmap string (list string)) :=
  let* sidecars := GetNodeIDs in
  gather_actors targetedActorType sidecars ∅.

End sidecars.

(** The actor types of [config.ActorTypes] that the application does not answer
    for, in order: what [ValidateActorConfig] logs as errors. *)
Fixpoint ValidateActorConfig {W} `{AppOps W} (actorTypes : list string) : M W (list string) :=
  match actorTypes with
  | [] => ret []
  | ty :: actorTypes' =>
      let* x := attempt (invoke "HEAD" {["path" := actorRuntimeRoutePrefix ++ ty]}) in
      let* rest := ValidateActorConfig actorTypes' in
      ret match x with
          | inl reply => if StatusCode reply =? 200 then rest else ty :: rest
          | inr _ => rest
          end
  end.

End Commands.
