(* ===== verification/CommandProps.v ===== *)
(** * CommandProps: properties of the commands

    The requests built by the callers are what the handlers run: the message of
    an actor, its activation, its tail calls and its reply; the promises of the
    callers; the bindings; the actors of all sidecars. *)

From S2P Require Import Prelude GoLib Json Messages Store Sessions Reminders ActorState Commands.
Open Scope string_scope.
Open Scope Z_scope.
Open Scope go_scope.

Module CommandProps.
Import Rpc Commands.
Import Reminders(Actor, mkActor, a_Type, a_ID).
Import Sessions(SessionInstance, ActiveFlow, Activated, set_activated).

(** The structures that are exchanged survive their JSON. *)
Class CommandJsonLaws `{CommandJson} : Prop := {
  unmarshal_reply : ∀ r s, MarshalReply r = Ok s → UnmarshalReply s = inl r;
}.

(* ---------------------------------------------------------------------- *)
(** ** Actors *)

Section actors.
Context {W : Type} `{RpcOps W} `{AppOps W} `{JsonLaws} `{CommandJsonLaws}.
#[local] Existing Instance no_hooks.

Implicit Types (target : Session) (w : @hworld W).

Lemma on_env_ok {A} (m : M W A) w a e : m (h_env w) = (Ok a, e) → on_env m w = (Ok a, mkHworld (h_inst w) e).
Proof. intros E. unfold on_env. by rewrite E. Qed.

Lemma on_env_err {A} (m : M W A) w x e : m (h_env w) = (Err x, e) → on_env m w = (Err x, mkHworld (h_inst w) e).
Proof. intros E. unfold on_env. by rewrite E. Qed.

(** The message that the application receives for a method of an actor. *)
Definition method_msg target (requestID command path payload : string) : gmap string string :=
  <["method" := "POST"]> (<["content-type" := "application/kar+json"]>
  (<["path" := actor_path (s_Name target) (s_ID target) ++ path ++ "?session=" ++ s_Flow target ++ ":" ++ requestID]>
  (actor_msg command path payload))).

(** The request is for the flow that owns the instance. *)
Definition owned target w : Prop := s_Flow target = ActiveFlow (h_inst w).

Lemma leave_no_hooks target bk requestID value dest reply err debugReply w :
  leave target bk requestID value dest reply err debugReply w = (Ok (dest, reply, err), w).
Proof. by destruct w. Qed.

Lemma handlerActor_owned target requestID command path payload bytes w :
  MarshalMsg (actor_msg command path payload) = Ok bytes → owned target w → command ≠ "delete" →
  handlerActor target requestID bytes w =
    bind (ensure_activated (mkActor (s_Name target) (s_ID target)) (s_Flow target ++ ":" ++ requestID))
      (λ p, match p with (reply, err) =>
         bind get (λ w', if Activated (h_inst w') then
           bind (invoke_method (mkActor (s_Name target) (s_ID target)) target
                   (s_Flow target ++ ":" ++ requestID) (actor_msg command path payload))
             (λ x, match x with (dest, reply', _) => ret (dest, reply', None) end)
         else ret (None, reply, err)) end) w.
Proof.
  intros Eb Ho Hd. unfold handlerActor. rewrite (UnmarshalMsg_Marshal _ _ Eb).
  unfold bind at 1, on_env at 1. cbn [debugging no_hooks ret h_env]. unfold run_actor.
  unfold bind at 1, get at 1. unfold owned in Ho. destruct w as [inst e]. simpl in Ho. simpl h_inst.
  rewrite Ho, String.eqb_refl. cbn [negb].
  change (index_str (actor_msg command path payload) "command") with command.
  destruct (String.eqb_spec command "delete"); [done|].
  unfold bind. destruct (ensure_activated _ _ _) as [[[reply err]| | |] w1]; try done.
  unfold get. destruct (Activated (h_inst w1)) eqn:Ea; [|by rewrite leave_no_hooks].
  destruct (invoke_method _ _ _ _ w1) as [[[[dest r] d]| | |] w2]; try done. by rewrite leave_no_hooks.
Qed.

Lemma ensure_activated_already actor session w :
  Activated (h_inst w) = true → ensure_activated actor session w = (Ok (None, None), w).
Proof. intros Ha. unfold ensure_activated, bind, get. by rewrite Ha. Qed.

(** The first request of an instance asks the application to activate it. *)
Lemma ensure_activated_first actor session w :
  Activated (h_inst w) = false →
  let call := invoke "GET" {["path" := actor_path (a_Type actor) (a_ID actor) ++ "?session=" ++ session]} (h_env w) in
  match call with
  | (Ok reply, e) =>
      if 400 <=? StatusCode reply then
        ∀ s, MarshalReply reply = Ok s →
        ensure_activated actor session w = (Ok (Some s, None), mkHworld (h_inst w) e)
      else ensure_activated actor session w = (Ok (None, None), mkHworld (set_activated true (h_inst w)) e)
  | (Err err, e) => ensure_activated actor session w = (Ok (None, Some err), mkHworld (h_inst w) e)
  | _ => True
  end.
Proof.
  intros Ha. simpl. unfold ensure_activated, activate.
  destruct (invoke _ _ (h_env w)) as [[reply|err| |] e] eqn:E; try done.
  - destruct (Z.leb_spec 400 (StatusCode reply)) as [Hs|Hs].
    + intros s Es. unfold bind at 1, get at 1. rewrite Ha. unfold bind at 1. unfold bind at 1.
      erewrite attempt_inl by (apply on_env_ok; exact E).
      destruct (Z.leb_spec 400 (StatusCode reply)); [|lia].
      unfold marshalled, bind, attempt, of_res. by rewrite Es.
    + unfold bind at 1, get at 1. rewrite Ha. unfold bind at 1. unfold bind at 1.
      erewrite attempt_inl by (apply on_env_ok; exact E).
      destruct (Z.leb_spec 400 (StatusCode reply)); [lia|]. done.
  - unfold bind at 1, get at 1. rewrite Ha. unfold bind at 1. unfold bind at 1.
    by erewrite attempt_inr by (apply on_env_err; exact E).
Qed.

Lemma call_msg_eqb command : command = "call" ∨ command = "tell" →
  String.eqb command "call" || String.eqb command "tell" = true ∧ command ≠ "delete".
Proof. by intros [-> | ->]. Qed.

(** The handling of the reply of a method. *)
Definition method_result (command : string) target (reply : Reply) :
    M (@hworld W) (option Destination * option string) :=
  if String.eqb command "tell" then tell_result target reply else call_result target reply.

Lemma invoke_method_reply target requestID command path payload w reply e debugReply :
  command = "call" ∨ command = "tell" →
  invoke "POST" (method_msg target requestID command path payload) (h_env w) = (Ok reply, e) →
  MarshalReply reply = Ok debugReply →
  invoke_method (mkActor (s_Name target) (s_ID target)) target (s_Flow target ++ ":" ++ requestID)
      (actor_msg command path payload) w =
    bind (method_result command target reply) (λ dv, ret (dv.1, dv.2, Some debugReply))
      (mkHworld (h_inst w) e).
Proof.
  intros [Hc _]%call_msg_eqb E Em. unfold invoke_method.
  change (index_str (actor_msg command path payload) "command") with command.
  change (index_str (actor_msg command path payload) "path") with path.
  change (mkActor (s_Name target) (s_ID target)) with (mkActor (s_Name target) (s_ID target)).
  cbn [a_Type a_ID]. rewrite Hc. fold (method_msg target requestID command path payload).
  erewrite bind_ret by (apply attempt_inl, on_env_ok; exact E). cbv beta iota.
  unfold marshalled at 1. unfold bind at 1. unfold bind at 1, attempt at 1, of_res at 1. rewrite Em.
  done.
Qed.

Lemma invoke_method_failure target requestID command path payload w err e :
  command = "call" ∨ command = "tell" →
  invoke "POST" (method_msg target requestID command path payload) (h_env w) = (Err err, e) →
  invoke_method (mkActor (s_Name target) (s_ID target)) target (s_Flow target ++ ":" ++ requestID)
      (actor_msg command path payload) w = (Ok (None, None, None), mkHworld (h_inst w) e).
Proof.
  intros [Hc _]%call_msg_eqb E. unfold invoke_method.
  change (index_str (actor_msg command path payload) "command") with command.
  change (index_str (actor_msg command path payload) "path") with path.
  cbn [a_Type a_ID]. rewrite Hc. fold (method_msg target requestID command path payload).
  by erewrite bind_ret by (apply attempt_inr, on_env_err; exact E).
Qed.

(** The instance can run the method of a request: it was activated before, or
    the application activates it now. *)
Inductive ready target (requestID : string) w : hworld → Prop :=
| ready_activated : Activated (h_inst w) = true → ready target requestID w w
| ready_activates reply e :
    Activated (h_inst w) = false → StatusCode reply < 400 →
    invoke "GET" {["path" := actor_path (s_Name target) (s_ID target) ++
                             "?session=" ++ s_Flow target ++ ":" ++ requestID]} (h_env w) = (Ok reply, e) →
    ready target requestID w (mkHworld (set_activated true (h_inst w)) e).

Lemma ready_ensure target requestID w w' :
  ready target requestID w w' →
  ensure_activated (mkActor (s_Name target) (s_ID target)) (s_Flow target ++ ":" ++ requestID) w =
    (Ok (None, None), w') ∧ Activated (h_inst w') = true.
Proof.
  intros [Ha|reply e Ha Hs E].
  - split; [by apply ensure_activated_already|done].
  - split; [|done].
    pose proof (ensure_activated_first (mkActor (s_Name target) (s_ID target))
                  (s_Flow target ++ ":" ++ requestID) w Ha) as Hf.
    cbn [a_Type a_ID] in Hf. rewrite E in Hf. destruct (Z.leb_spec 400 (StatusCode reply)); [lia|done].
Qed.

Lemma handlerActor_ready target requestID command path payload bytes w w' :
  MarshalMsg (actor_msg command path payload) = Ok bytes → owned target w → command ≠ "delete" →
  ready target requestID w w' →
  handlerActor target requestID bytes w =
    bind (invoke_method (mkActor (s_Name target) (s_ID target)) target
            (s_Flow target ++ ":" ++ requestID) (actor_msg command path payload))
      (λ x, match x with (dest, reply', _) => ret (dest, reply', None) end) w'.
Proof.
  intros Eb Ho Hd [Ee Ha]%ready_ensure. erewrite handlerActor_owned by done.
  rewrite (bind_ret _ _ _ _ _ Ee). unfold bind at 1, get. by rewrite Ha.
Qed.

Lemma method_runs target requestID command path payload bytes w w' reply e debugReply :
  MarshalMsg (actor_msg command path payload) = Ok bytes → owned target w →
  command = "call" ∨ command = "tell" → ready target requestID w w' →
  invoke "POST" (method_msg target requestID command path payload) (h_env w') = (Ok reply, e) →
  MarshalReply reply = Ok debugReply →
  handlerActor target requestID bytes w =
    bind (method_result command target reply) (λ dv, ret (dv.1, dv.2, None)) (mkHworld (h_inst w') e).
Proof.
  intros Eb Ho Hc Hr Ei Em. erewrite handlerActor_ready; [|done|done|by apply call_msg_eqb|done].
  unfold bind at 1. erewrite invoke_method_reply by done. unfold bind.
  by destruct (method_result command target reply _) as [[[dest r]| | |] w2].
Qed.

(** The reply carries no tail call. *)
Definition plain_reply (reply : Reply) : Prop :=
  StatusCode reply = 200 →
  match UnmarshalResult (Payload reply) with inl result => cr_TailCall result = false | inr _ => True end.

Lemma call_result_plain target reply text w :
  plain_reply reply → MarshalReply reply = Ok text →
  call_result target reply w = (Ok (None, Some text), w).
Proof.
  intros Hp Em. unfold call_result.
  assert ((if StatusCode reply =? 200 then
             match UnmarshalResult (Payload reply) with
             | inl result => if cr_TailCall result then tail_call "call" target (cr_Value result) else ret (None, None)
             | inr _ => ret (None, None)
             end
           else ret (None, None)) w = (Ok (None, None), w)) as E.
  { destruct (Z.eqb_spec (StatusCode reply) 200) as [Hs|]; [|done]. specialize (Hp Hs).
    destruct (UnmarshalResult (Payload reply)); [by rewrite Hp|done]. }
  rewrite (bind_ret _ _ _ _ _ E). unfold marshalled, bind, attempt, of_res. by rewrite Em.
Qed.

(** The value of a tail call to a method of an actor. *)
Definition tail_to (cr : gmap string any) (ty id path payload : string) : Prop :=
  cr !! "serviceName" = None ∧ cr !! "actorType" = Some (AString ty) ∧
  cr !! "actorId" = Some (AString id) ∧ cr !! "path" = Some (AString path) ∧
  cr !! "payload" = Some (AString payload) ∧ is_nil (index_any cr "method") = true.

(** The lock that the next request of the chain is given: one when it is for the
    same instance, unless the caller releases it. *)
Definition keeps_lock target (cr : gmap string any) (ty id : string) : bool :=
  String.eqb ty (s_Name target) && String.eqb id (s_ID target) &&
  match index_any cr "releaseLock" with AString s => negb (String.eqb s "true") | _ => true end.

Lemma go_eq_string v s :
  go_eq v (AString s) = Ok (match v with AString t => String.eqb t s | _ => false end).
Proof. by destruct v. Qed.

Lemma tail_call_spec command target cr ty id path payload bytes w u e :
  tail_to cr ty id path payload → MarshalMsg (actor_msg command path payload) = Ok bytes →
  uuid (h_env w) = (Ok u, e) →
  tail_call command target (AMap cr) w =
    (Ok (Some (mkDestination
                 (SessionTarget (mkSession ty id (s_Flow target)
                    (if keeps_lock target cr ty id then "dl-" ++ u else ""))) actorEndpoint), Some bytes),
     if keeps_lock target cr ty id then mkHworld (h_inst w) e else w).
Proof.
  intros (Hs & Ht & Hi & Hp & Hl & Hm) Eb Eu. unfold tail_call, tail_destination.
  assert (∀ w', tail_message command cr w' = (Ok (actor_msg command path payload), w')) as Hmsg.
  { intros w'. unfold tail_message. unfold index_any at 1 2. rewrite Hp, Hl. run_step. run_step. by rewrite Hm. }
  run_step. rewrite Hs, Ht.
  assert (∀ lock w1, (if String.eqb ty (s_Name target) && String.eqb id (s_ID target) &&
             negb (match index_any cr "releaseLock" with AString t => String.eqb t "true" | _ => false end)
           then newLockId else ret "") w = (Ok lock, w1) →
    bind (bind (of_res (as_string (AString ty))) (λ ty,
      bind (of_res (as_string (index_any cr "actorId"))) (λ id,
      bind (of_res (go_eq (index_any cr "releaseLock") (AString "true"))) (λ same,
      bind (if String.eqb ty (s_Name target) && String.eqb id (s_ID target) && negb same then newLockId else ret "")
        (λ lock, ret (Some (mkDestination (SessionTarget (mkSession ty id (s_Flow target) lock)) actorEndpoint)))))))
      (λ dest, match dest with
       | Some dest => bind (tail_message command cr) (λ msg, bind (marshalled (MarshalMsg msg)) (λ bytes, ret (Some dest, bytes.1)))
       | None => ret (None, None)
       end) w =
    (Ok (Some (mkDestination (SessionTarget (mkSession ty id (s_Flow target) lock)) actorEndpoint), Some bytes), w1))
    as Hgo.
  { intros lock w1 El. erewrite bind_ret.
    2: { run_step. unfold index_any at 1. rewrite Hi. run_step. rewrite go_eq_string. run_step.
         erewrite bind_ret by exact El. reflexivity. }
    cbv beta iota. erewrite bind_ret by apply Hmsg. unfold marshalled, bind, attempt, of_res. by rewrite Eb. }
  unfold keeps_lock.
  replace (match index_any cr "releaseLock" with AString t => negb (String.eqb t "true") | _ => true end)
    with (negb (match index_any cr "releaseLock" with AString t => String.eqb t "true" | _ => false end))
    by by destruct (index_any cr "releaseLock").
  destruct (_ && _ && _) eqn:Ek; apply Hgo; [|done].
  unfold newLockId. by erewrite bind_ret by (apply on_env_ok; exact Eu).
Qed.

(** C18: a call runs the method of the actor once the instance is activated, and
    the reply of the application is the value of the response, unless the
    method continues with a tail call. *)
Theorem actor_call_replies target requestID path payload bytes w w' reply e text :
  MarshalMsg (actor_msg "call" path payload) = Ok bytes → owned target w → ready target requestID w w' →
  invoke "POST" (method_msg target requestID "call" path payload) (h_env w') = (Ok reply, e) →
  MarshalReply reply = Ok text → plain_reply reply →
  handlerActor target requestID bytes w = (Ok (None, Some text, None), mkHworld (h_inst w') e) ∧
  UnmarshalReply text = inl reply.
Proof.
  intros Eb Ho Hr Ei Em Hp. split; [|by apply unmarshal_reply].
  rewrite (method_runs target requestID "call" path payload bytes w w' reply e text) by auto.
  by erewrite bind_ret by by apply call_result_plain.
Qed.

(** C19: a method that returns a tail call to an actor makes the handler return the
    next request of the chain: its destination is in the same flow, with a
    deferred lock exactly when it is for the same instance and the lock is not
    released, and its message is the method and the arguments of the tail call. *)
Theorem tail_call_continues target requestID command path payload bytes w w' reply e debugReply
    result cr ty id path' payload' bytes' u e' :
  command = "call" ∨ (command = "tell" ∧ cr_Error result = false) →
  MarshalMsg (actor_msg command path payload) = Ok bytes → owned target w → ready target requestID w w' →
  invoke "POST" (method_msg target requestID command path payload) (h_env w') = (Ok reply, e) →
  MarshalReply reply = Ok debugReply → StatusCode reply = 200 →
  UnmarshalResult (Payload reply) = inl result → cr_TailCall result = true → cr_Value result = AMap cr →
  tail_to cr ty id path' payload' → MarshalMsg (actor_msg command path' payload') = Ok bytes' →
  uuid e = (Ok u, e') →
  let next := mkSession ty id (s_Flow target) (if keeps_lock target cr ty id then "dl-" ++ u else "") in
  (handlerActor target requestID bytes w).1 =
    Ok (Some (mkDestination (SessionTarget next) actorEndpoint), Some bytes', None) ∧
  UnmarshalMsg bytes' = Some (actor_msg command path' payload').
Proof.
  intros Hc Eb Ho Hr Ei Em Hs Eu Ht Hv Htail Eb' Eid next.
  split; [|by apply UnmarshalMsg_Marshal].
  rewrite (method_runs target requestID command path payload bytes w w' reply e debugReply) by naive_solver.
  pose proof (tail_call_spec command target cr ty id path' payload' bytes' (mkHworld (h_inst w') e) u e'
                Htail Eb' Eid) as Et.
  assert (method_result command target reply (mkHworld (h_inst w') e) =
            (Ok (Some (mkDestination (SessionTarget next) actorEndpoint), Some bytes'),
             if keeps_lock target cr ty id then mkHworld (h_inst w') e' else mkHworld (h_inst w') e)) as E.
  { destruct Hc as [-> |[-> He]]; unfold method_result; simpl.
    - unfold call_result. rewrite Hs. simpl. rewrite Eu, Ht, Hv. by erewrite bind_ret by exact Et.
    - unfold tell_result. rewrite Hs. simpl. by rewrite Eu, He, Ht, Hv. }
  by erewrite bind_ret by exact E.
Qed.

(** When the invocation of the method fails, the handler returns neither a
    value nor an error: the failure is lost, also that of a request that was
    interrupted by the end of the sidecar. *)
Theorem invoke_failure_lost target requestID command path payload bytes w w' err e :
  command = "call" ∨ command = "tell" →
  MarshalMsg (actor_msg command path payload) = Ok bytes → owned target w → ready target requestID w w' →
  invoke "POST" (method_msg target requestID command path payload) (h_env w') = (Err err, e) →
  handlerActor target requestID bytes w = (Ok (None, None, None), mkHworld (h_inst w') e).
Proof.
  intros Hc Eb Ho Hr Ei. erewrite handlerActor_ready; [|done|done|by apply call_msg_eqb|done].
  by rewrite (bind_ret _ _ _ _ _ (invoke_method_failure _ _ _ _ _ _ err e Hc Ei)).
Qed.

(** An actor whose activation fails does not run the method: the error of
    the application is returned to the caller, and a failed invocation is an
    error of the handler. *)
Theorem activation_failure target requestID command path payload bytes w :
  command = "call" ∨ command = "tell" →
  MarshalMsg (actor_msg command path payload) = Ok bytes → owned target w →
  Activated (h_inst w) = false →
  match invoke "GET" {["path" := actor_path (s_Name target) (s_ID target) ++
                                 "?session=" ++ s_Flow target ++ ":" ++ requestID]} (h_env w) with
  | (Ok reply, e) =>
      400 ≤ StatusCode reply → ∀ text, MarshalReply reply = Ok text →
      handlerActor target requestID bytes w = (Ok (None, Some text, None), mkHworld (h_inst w) e)
  | (Err err, e) =>
      handlerActor target requestID bytes w = (Ok (None, None, Some err), mkHworld (h_inst w) e)
  | _ => True
  end.
Proof.
  intros Hc Eb Ho Ha.
  pose proof (ensure_activated_first (mkActor (s_Name target) (s_ID target))
                (s_Flow target ++ ":" ++ requestID) w Ha) as Hf.
  cbn [a_Type a_ID] in Hf.
  destruct (invoke _ _ (h_env w)) as [[reply|err| |] e]; try done.
  - intros Hs text Et. destruct (Z.leb_spec 400 (StatusCode reply)); [|lia].
    erewrite handlerActor_owned; [|done|done|by apply call_msg_eqb].
    rewrite (bind_ret _ _ _ _ _ (Hf text Et)). unfold bind at 1, get. simpl. by rewrite Ha.
  - erewrite handlerActor_owned; [|done|done|by apply call_msg_eqb].
    rewrite (bind_ret _ _ _ _ _ Hf). unfold bind at 1, get. simpl. by rewrite Ha.
Qed.

End actors.

(* ---------------------------------------------------------------------- *)
(** ** Callers *)

Section callers.
Context {W : Type} `{RpcOps W} `{Json} `{CommandJson}.
Context (MissingComponentTimeout : Z).

(** A promise is awaited once: the first call of AwaitPromise receives the
    response of the request and forgets it, in this map and in the rpc
    package; awaiting it again is an error. *)
Theorem promise_awaited_once (actor : Actor) path payload (w w1 : @world W) id r s s' :
  CallPromiseActor MissingComponentTimeout actor path payload w = (Ok id, w1) →
  rpc_receive id (w_rpc w1) = (r, s) → rpc_Reclaim id s = (Ok tt, s') →
  AwaitPromise id w1 = (r, mkWorld s' (delete id (w_requests w1))) ∧
  AwaitPromise id (mkWorld s' (delete id (w_requests w1))) =
    (Err (EMsg ("unexpected request " ++ id)), mkWorld s' (delete id (w_requests w1))) ∧
  w_requests w1 = <[id := id]> (w_requests w).
Proof.
  intros Ec Er Es.
  assert (w_requests w1 = <[id := id]> (w_requests w)) as Ew.
  { assert (∀ A (m : M W A) w a w', on_rpc m w = (Ok a, w') → w_requests w' = w_requests w) as Hrpc.
    { intros A m w0 a w2 E. unfold on_rpc in E. destruct (m (w_rpc w0)). by simplify_eq. }
    unfold CallPromiseActor, newFlowId, defaultTimeout in Ec. inv_ok.
    unfold set_requests, of_res in *. simplify_eq. simpl.
    repeat match goal with
    | E : on_rpc _ _ = (Ok _, _) |- _ => apply Hrpc in E
    | E : (if _ then _ else _) _ = (Ok _, _) |- _ => destruct (0 <? _) in E; inv_ok
    end; congruence. }
  split_and!; [|unfold AwaitPromise; simpl; by rewrite lookup_delete_eq|done].
  unfold AwaitPromise. rewrite Ew at 1. rewrite lookup_insert_eq.
  unfold finally, on_rpc, set_requests. rewrite Er. simpl. by rewrite Es.
Qed.

End callers.

(* ---------------------------------------------------------------------- *)
(** ** Bindings *)

Section bindings.
Context {W B : Type} `{BindingOps W B} `{JsonLaws} `{CommandJson}.
Context (Error : gerror → string).

Lemma marshalled_ok {X} t (w : X) : marshalled (Ok t) w = (Ok (Some t, None), w).
Proof. done. Qed.

(** The answer to a request that sets a binding. *)
Definition set_reply (code : Z) (err : option gerror) : Reply :=
  match err with
  | Some err => mkReply code "text/plain" (Error err)
  | None => mkReply code "text/plain" "OK"
  end.

Definition del_reply (found : Z) (bindingID nilOnAbsent : string) : Reply :=
  if (found =? 0) && negb (String.eqb bindingID "") && negb (String.eqb nilOnAbsent "true")
  then mkReply 404 "" "" else mkReply 200 "text/plain" (Itoa found).

Lemma handlerBinding_set (target : Session) kind id noa payload ct acc bytes (w : W) code err w' text :
  MarshalMsg (binding_msg kind id noa "set" payload ct acc) = Ok bytes →
  putBinding kind (mkActor (s_Name target) (s_ID target)) id payload w = (Ok (code, err), w') →
  MarshalReply (set_reply code err) = Ok text →
  handlerBinding (B := B) Error target bytes w = (Ok (Some text, None), w').
Proof.
  intros Eb E Em. unfold handlerBinding. rewrite (UnmarshalMsg_Marshal _ _ Eb).
  change (bindingSet Error (mkActor (s_Name target) (s_ID target))
            (binding_msg kind id noa "set" payload ct acc) w = (Ok (Some text, None), w')).
  unfold bindingSet. erewrite bind_ret by exact E.
  change (marshalled (MarshalReply (set_reply code err)) w' = (Ok (Some text, None), w')). by rewrite Em.
Qed.

Lemma handlerBinding_del (target : Session) kind id noa payload ct acc bytes (w : W) found w' text :
  MarshalMsg (binding_msg kind id noa "del" payload ct acc) = Ok bytes →
  deleteBindings kind (mkActor (s_Name target) (s_ID target)) id w = (Ok found, w') →
  MarshalReply (del_reply found id noa) = Ok text →
  handlerBinding (B := B) Error target bytes w = (Ok (Some text, None), w').
Proof.
  intros Eb E Em. unfold handlerBinding. rewrite (UnmarshalMsg_Marshal _ _ Eb).
  change (bindingDel (mkActor (s_Name target) (s_ID target))
            (binding_msg kind id noa "del" payload ct acc) w = (Ok (Some text, None), w')).
  unfold bindingDel. erewrite bind_ret by exact E.
  change (marshalled (MarshalReply (del_reply found id noa)) w' = (Ok (Some text, None), w')). by rewrite Em.
Qed.

(** The requests that Bindings and LoadBinding build make the sidecar of the
    actor run the operation they are for, with their arguments, and answer with
    its outcome. *)
Theorem binding_commands_run (target : Session) kind id noa action payload ct acc bytes (w : W) :
  MarshalMsg (binding_msg kind id noa action payload ct acc) = Ok bytes →
  let actor := mkActor (s_Name target) (s_ID target) in
  (action = "set" → ∀ code err w' text,
     putBinding kind actor id payload w = (Ok (code, err), w') → MarshalReply (set_reply code err) = Ok text →
     handlerBinding (B := B) Error target bytes w = (Ok (Some text, None), w')) ∧
  (action = "del" → ∀ found w' text,
     deleteBindings kind actor id w = (Ok found, w') → MarshalReply (del_reply found id noa) = Ok text →
     handlerBinding (B := B) Error target bytes w = (Ok (Some text, None), w')) ∧
  (action = "get" → id ≠ "" → ∀ found w' text,
     getBindings kind actor id w = (Ok found, w') →
     match found with
     | [] => noa ≠ "true" → MarshalReply (mkReply 404 "" "") = Ok text →
             handlerBinding (B := B) Error target bytes w = (Ok (Some text, None), w')
     | b :: _ => ∀ blob, MarshalBinding b = Ok blob → MarshalReply (mkReply 200 "application/json" blob) = Ok text →
             handlerBinding (B := B) Error target bytes w = (Ok (Some text, None), w')
     end).
Proof.
  intros Eb actor. split_and!; intros ->.
  - intros code err w' text. by eapply handlerBinding_set.
  - intros found w' text. by eapply handlerBinding_del.
  - intros Hid found w' text E. unfold handlerBinding. rewrite (UnmarshalMsg_Marshal _ _ Eb).
    assert (∀ body, binding_body (binding_msg kind id noa "get" payload ct acc) found = body →
      bindingGet Error actor (binding_msg kind id noa "get" payload ct acc) w =
      match body with
      | None => marshalled (MarshalReply (mkReply 404 "" "")) w'
      | Some body => bind (attempt (of_res body)) (λ blob, marshalled (MarshalReply
          match blob with
          | inr err => mkReply 500 "text/plain" (Error err)
          | inl blob => mkReply 200 "application/json" blob
          end)) w'
      end) as Hget.
    { intros body <-. unfold bindingGet. erewrite bind_ret by exact E. by destruct (binding_body _ found). }
    unfold binding_body in Hget.
    change (index_str (binding_msg kind id noa "get" payload ct acc) "bindingId") with id in Hget.
    change (index_str (binding_msg kind id noa "get" payload ct acc) "nilOnAbsent") with noa in Hget.
    destruct (String.eqb_spec id ""); [done|]. simpl in Hget.
    destruct found as [|b found].
    + intros Hn Em. destruct (String.eqb_spec noa "true"); [done|]. specialize (Hget _ eq_refl).
      rewrite Em in Hget. exact Hget.
    + intros blob Ebl Em. specialize (Hget _ eq_refl). rewrite Ebl in Hget.
      unfold bind, attempt, of_res in Hget. rewrite Em in Hget. exact Hget.
Qed.

End bindings.

(* ---------------------------------------------------------------------- *)
(** ** The actors of all sidecars *)

Section gathering.
Context {W : Type} `{SidecarOps W} `{Json} `{CommandJson} `{MapIter}.

(** The sidecars answer in turn, the n-th with the n-th map. *)
Inductive answers (ty : string) : list string → list (gmap string (list string)) → W → W → Prop :=
| answers_nil w : answers ty [] [] w w
| answers_cons sidecar sidecars info infos w w1 w2 :
    sidecar_actors ty sidecar w = (Ok (Some info), w1) →
    answers ty sidecars infos w1 w2 →
    answers ty (sidecar :: sidecars) (info :: infos) w w2.

Lemma append_all l (acc : gmap string (list string)) t :
  NoDup l.*1 →
  foldl append_actors acc l !! t =
    match list_to_map (M := gmap string (list string)) l !! t with
    | Some ids => Some (app (default [] (acc !! t)) ids)
    | None => acc !! t
    end.
Proof.
  revert acc. induction l as [|[k ids] l IH]; intros acc Hnd; simpl; [by rewrite lookup_empty|].
  apply NoDup_cons in Hnd as [Hni Hnd]. rewrite IH by done. unfold append_actors. simpl.
  destruct (decide (k = t)) as [->|Hne].
  - assert (list_to_map (M := gmap string (list string)) l !! t = None) as ->
      by by apply not_elem_of_list_to_map_1.
    by rewrite !lookup_insert_eq.
  - by rewrite !lookup_insert_ne by done.
Qed.

Lemma gather_actors_spec ty sidecars infos w w' acc :
  answers ty sidecars infos w w' →
  ∃ m, gather_actors ty sidecars acc w = (Ok m, w') ∧
    ∀ t, default [] (m !! t) = app (default [] (acc !! t)) (concat ((λ info, default [] (info !! t)) <$> infos)).
Proof.
  intros Ha. revert acc. induction Ha as [w|sidecar sidecars info infos w w1 w2 E Ha IH]; intros acc.
  - exists acc. split; [done|]. intros t. by rewrite app_nil_r.
  - destruct (IH (foldl append_actors acc (map_iter 30 info))) as (m & Em & Hm).
    exists m. split; [simpl; by erewrite bind_ret by exact E|].
    intros t. rewrite Hm. rewrite append_all by (rewrite map_iter_perm; apply NoDup_fst_map_to_list).
    assert (list_to_map (M := gmap string (list string)) (map_iter 30 info) = info) as ->.
    { rewrite <-(list_to_map_to_list info) at 2. apply list_to_map_proper; [|apply map_iter_perm].
      rewrite map_iter_perm. apply NoDup_fst_map_to_list. }
    simpl. destruct (info !! t) as [ids|]; simpl; by rewrite ?(assoc_L app).
Qed.

(** The active actors of a type are those that the sidecars answer, in the
    order of the sidecars. *)
Theorem active_actors_gathered ty sidecars infos w w1 w' :
  GetNodeIDs w = (Ok sidecars, w1) → answers ty sidecars infos w1 w' →
  ∃ m, getAllActiveActors ty w = (Ok m, w') ∧
    ∀ t, default [] (m !! t) = concat ((λ info, default [] (info !! t)) <$> infos).
Proof.
  intros E Ha. destruct (gather_actors_spec ty sidecars infos w1 w' ∅ Ha) as (m & Em & Hm).
  exists m. split; [unfold getAllActiveActors; by erewrite bind_ret by exact E|].
  intros t. rewrite Hm. by rewrite lookup_empty.
Qed.

(** One sidecar that answers with another status makes the result empty, and not
    an error. *)
Lemma active_actors_lost ty sidecar sidecars bytes reply w w1 w' text :
  sidecar ≠ GetNodeID →
  MarshalMsg (<["command" := "getActiveActors"]> {["actorType" := ty]}) = Ok text →
  call_node (mkDestination (Node sidecar) sidecarEndpoint) zeroTime text w1 = (Ok bytes, w') →
  UnmarshalReply bytes = inl reply → StatusCode reply ≠ 200 →
  GetNodeIDs w = (Ok (sidecar :: sidecars), w1) →
  getAllActiveActors ty w = (Ok ∅, w').
Proof.
  intros Hne Em Ec Eu Hs E.
  assert (sidecar_actors ty sidecar w1 = (Ok None, w')) as Es.
  { unfold sidecar_actors. destruct (String.eqb_spec sidecar GetNodeID); [done|].
    erewrite bind_ret by (apply attempt_inl; unfold of_res; by rewrite Em). cbv beta iota.
    erewrite bind_ret by exact Ec. rewrite Eu. by destruct (Z.eqb_spec (StatusCode reply) 200). }
  unfold getAllActiveActors. erewrite bind_ret by exact E. cbn [gather_actors].
  by erewrite bind_ret by exact Es.
Qed.

End gathering.

(* ---------------------------------------------------------------------- *)
(** ** Concrete runs *)

Module Witness.
#[local] Existing Instance MiniJson.MiniJson.
#[local] Existing Instance MiniJson.MiniJson_laws.
#[local] Existing Instance no_hooks.
#[local] Existing Instance canonical_iter.

(** The paths that the application was asked for, last first. *)
Definition app : Type := list string.

Definition asked (msg : gmap string string) (s : app) : app := index_str msg "path" :: s.

#[local] Instance ops : RpcOps app := {|
  now := ret 1000;
  uuid := λ s, (Ok (Itoa (Z.of_nat (length s))), s);
  rpc_Call := λ _ _ _ bytes, ret bytes;
  rpc_Tell := λ _ _ _ _, ret tt;
  rpc_Async := λ _ _ _, ret "req-1";
  rpc_AsyncParent := λ _ _ _ _, ret "req-2";
  rpc_receive := λ id, ret ("response to " ++ id);
  rpc_Reclaim := λ _, ret tt;
  rpc_DelSession := λ _, ret tt;
|}.

(** An application that activates its actors, but for the type Broken, does not
    answer for paths that start with /none, and makes the method /chain
    continue with the method /next of the same actor. *)
#[local] Instance application : AppOps app := {|
  invoke method msg := λ s,
    let s' := asked msg s in
    if String.eqb method "GET" then
      (Ok (if Contains (index_str msg "path") "/Broken/" then mkReply 404 "text/plain" "no such actor"
           else mkReply 201 "" ""), s')
    else if Contains (index_str msg "path") "/none" then (Err (EMsg "connection refused"), s')
    else if Contains (index_str msg "path") "/chain" then (Ok (mkReply 200 "application/kar+json" "tail"), s')
    else (Ok (mkReply 200 "application/kar+json" "plain"), s');
  state_Del := λ _, ret 1;
|}.

Definition tail_value : gmap string any :=
  <["actorType" := AString "Account"]> (<["actorId" := AString "1"]>
  (<["path" := AString "/next"]> (<["payload" := AString "[]"]> ∅))).

Definition parse_reply (s : string) : Reply + gerror :=
  match Split2 ";" s with
  | [c; rest] =>
      match Split2 ";" rest with
      | [ct; payload] => inl (mkReply (Atoi c).1 ct payload)
      | _ => inr (EMsg "malformed")
      end
  | _ => inr (EMsg "malformed")
  end.

Definition print_reply (r : Reply) : string :=
  Itoa (StatusCode r) ++ ";" ++ ContentType r ++ ";" ++ Payload r.

#[local] Instance replies : CommandJson := {|
  MarshalReply r :=
    if decide (parse_reply (print_reply r) = inl r) then Ok (print_reply r) else Err (EMsg "unsupported reply");
  UnmarshalReply := parse_reply;
  UnmarshalResult s :=
    if String.eqb s "tail" then inl (mkCallResult (AMap tail_value) true false "" "") else inr (EMsg "no result");
  json_error s := EMsg "invalid json";
|}.

#[local] Instance replies_laws : CommandJsonLaws.
Proof.
  split. intros r s. cbn [MarshalReply UnmarshalReply replies]. case_decide as E; [|done].
  intros [= <-]. exact E.
Qed.

Definition account : Session := mkSession "Account" "1" "flow-1" "".
Definition instance0 : SessionInstance :=
  Sessions.mkInstance "Account" "1" "flow-1" false 0 0 true.
Definition w0 : @hworld app := mkHworld instance0 [].

Definition request (command path : string) : string :=
  match MarshalMsg (actor_msg command path "[]") with Ok s => s | _ => "" end.

Lemma w0_ready :
  ready account "req-9" w0
    (mkHworld (set_activated true instance0) ["/kar/impl/v1/actor/Account/1?session=flow-1:req-9"]).
Proof. apply (ready_activates account "req-9" w0 (mkReply 201 "" "")); [done|simpl; lia|vm_compute; reflexivity]. Qed.

Lemma actor_call_replies_witness :
  handlerActor account "req-9" (request "call" "/deposit") w0 =
    (Ok (None, Some "200;application/kar+json;plain", None),
     mkHworld (set_activated true instance0)
       ["/kar/impl/v1/actor/Account/1/deposit?session=flow-1:req-9";
        "/kar/impl/v1/actor/Account/1?session=flow-1:req-9"]) ∧
  UnmarshalReply "200;application/kar+json;plain" = inl (mkReply 200 "application/kar+json" "plain").
Proof.
  refine (actor_call_replies account "req-9" "/deposit" "[]" (request "call" "/deposit") w0 _
            (mkReply 200 "application/kar+json" "plain") _ "200;application/kar+json;plain" _ _
            w0_ready _ _ _).
  - vm_compute. reflexivity.
  - reflexivity.
  - vm_compute. reflexivity.
  - vm_compute. reflexivity.
  - intros _. vm_compute. exact I.
Defined.

Lemma tail_call_witness :
  (handlerActor account "req-9" (request "tell" "/chain") w0).1 =
    Ok (Some (mkDestination (SessionTarget (mkSession "Account" "1" "flow-1" "dl-2")) "handlerActor"),
        Some (request "tell" "/next"), None) ∧
  UnmarshalMsg (request "tell" "/next") = Some (actor_msg "tell" "/next" "[]").
Proof.
  refine (tail_call_continues account "req-9" "tell" "/chain" "[]" (request "tell" "/chain") w0 _
            (mkReply 200 "application/kar+json" "tail") _ "200;application/kar+json;tail"
            (mkCallResult (AMap tail_value) true false "" "") tail_value "Account" "1" "/next" "[]"
            (request "tell" "/next") "2" _ _ _ _ w0_ready _ _ _ _ _ _ _ _ _).
  - by right.
  - vm_compute. reflexivity.
  - reflexivity.
  - vm_compute. reflexivity.
  - vm_compute. reflexivity.
  - reflexivity.
  - reflexivity.
  - reflexivity.
  - reflexivity.
  - repeat split.
  - vm_compute. reflexivity.
  - vm_compute. reflexivity.
Defined.

Lemma invoke_failure_witness :
  (handlerActor account "req-9" (request "call" "/none") w0).1 = Ok (None, None, None).
Proof.
  refine (f_equal fst (invoke_failure_lost account "req-9" "call" "/none" "[]" (request "call" "/none") w0 _
            (EMsg "connection refused") ["/kar/impl/v1/actor/Account/1/none?session=flow-1:req-9";
             "/kar/impl/v1/actor/Account/1?session=flow-1:req-9"] _ _ _ w0_ready _)).
  - by left.
  - vm_compute. reflexivity.
  - reflexivity.
  - vm_compute. reflexivity.
Defined.

Definition broken : Session := mkSession "Broken" "1" "flow-1" "".

Lemma activation_failure_witness :
  handlerActor broken "req-9" (request "tell" "/deposit") w0 =
    (Ok (None, Some "404;text/plain;no such actor", None),
     mkHworld instance0 ["/kar/impl/v1/actor/Broken/1?session=flow-1:req-9"]).
Proof.
  refine (activation_failure broken "req-9" "tell" "/deposit" "[]" (request "tell" "/deposit") w0
            _ _ _ _ _ "404;text/plain;no such actor" _).
  - by right.
  - vm_compute. reflexivity.
  - reflexivity.
  - reflexivity.
  - vm_compute. discriminate.
  - vm_compute. reflexivity.
Defined.

Definition caller0 : @world app := mkWorld [] ∅.
Definition caller1 : @world app := mkWorld [] {["req-1" := "req-1"]}.

Lemma promise_witness :
  AwaitPromise "req-1" caller1 = (Ok "response to req-1", mkWorld [] ∅) ∧
  (AwaitPromise "req-1" (mkWorld ([] : app) ∅)).1 = Err (EMsg "unexpected request req-1").
Proof.
  destruct (promise_awaited_once 0 (mkActor "Account" "1") "/deposit" "[]" caller0 caller1 "req-1"
              (Ok "response to req-1") [] []) as (E1 & E2 & _).
  - vm_compute. reflexivity.
  - reflexivity.
  - reflexivity.
  - split; [rewrite E1; reflexivity|].
    change (mkWorld ([] : app) ∅) with (mkWorld ([] : app) (delete "req-1" (w_requests caller1))).
    rewrite E2. reflexivity.
Defined.

(** Bindings whose operations answer and record their kind and identifier. *)
#[local] Instance binding_ops : BindingOps app string := {|
  deleteBindings kind actor id := λ s, (Ok 0, (kind ++ "-del-" ++ id) :: s);
  getBindings kind actor id := λ s, (Ok [id], (kind ++ "-get-" ++ id) :: s);
  putBinding kind actor id payload := λ s, (Ok (204, None), (kind ++ "-set-" ++ id ++ "-" ++ payload) :: s);
  loadBinding kind actor p id := λ s, (Ok tt, s);
  MarshalBinding b := Ok b;
  MarshalBindings l := Ok "";
|}.

Definition binding_request (action : string) : string :=
  match MarshalMsg (binding_msg "reminders" "r1" "" action "every day" "" "") with Ok s => s | _ => "" end.

Lemma binding_commands_witness :
  handlerBinding (B := string) (λ _, "") account (binding_request "set") ([] : app) =
    (Ok (Some "204;text/plain;OK", None), ["reminders-set-r1-every day"]).
Proof.
  destruct (binding_commands_run (B := string) (λ _, "") account "reminders" "r1" "" "set" "every day" "" ""
              (binding_request "set") ([] : app)) as (Hset & _ & _); [vm_compute; reflexivity|].
  exact (Hset eq_refl 204 None _ "204;text/plain;OK" eq_refl eq_refl).
Defined.

(** Three sidecars, of which the second is this one. *)
#[local] Instance sidecars3 : SidecarOps app := {|
  GetLocalActivatedSessions ty := ret {[ty := ["b"]]};
  GetNodeIDs := ret ["n1"; "n2"; "n3"];
  GetNodeID := "n2";
  call_node d _ _ := ret (if bool_decide (d_Target d = Node "n1") then "200;application/json;a" else "200;application/json;c");
  Hostname := inl "localhost";
  MarshalSessions _ := Ok "";
  UnmarshalSessions s := inl {["Account" := [s]]};
|}.

Lemma active_actors_witness :
  ∃ m, getAllActiveActors "Account" ([] : app) = (Ok m, []) ∧
    ∀ t, default [] (m !! t) =
      concat ((λ info : gmap string (list string), default [] (info !! t)) <$>
        [{["Account" := ["a"]]}; {["Account" := ["b"]]}; {["Account" := ["c"]]}]).
Proof.
  apply (active_actors_gathered "Account" ["n1"; "n2"; "n3"] _ ([] : app) ([] : app) ([] : app)); [reflexivity|].
  eapply answers_cons; [vm_compute; reflexivity|].
  eapply answers_cons; [vm_compute; reflexivity|].
  eapply answers_cons; [vm_compute; reflexivity|]. apply answers_nil.
Defined.

End Witness.

End CommandProps.
