(* ===== verification/Routes.v ===== *)
(** * Routes: the KAR REST API of invocations, bindings, events and the system

    Models src/core/internal/runtime/routes-invoke.go, routes-reminders.go,
    routes-events.go and routes-system.go: how a request of HTTP becomes a
    command and its outcome an answer.  The state of actors is in
    [ActorState]. *)

From S2P Require Import Prelude GoLib Json Messages Reminders Commands CommandProps.
Open Scope string_scope.
Open Scope Z_scope.
Open Scope go_scope.

Module Routes.
Import Rpc Commands.
Import Reminders(Actor, mkActor, a_Type, a_ID).

(** The parts of an [http.Request] and of the parameters of its route that the
    handlers read; a parameter that the route does not have is empty. *)
Record httpRequest : Type := mkRequest {
  rq_Method : string;
  rq_Pragma : list string;
  rq_ContentType : string;
  rq_Accept : string;
  rq_session : string;
  rq_nilOnAbsent : string;
  rq_body : string;
  rq_header : string + gerror;   (** [json.Marshal(r.Header)] *)
}.

Record Params : Type := mkParams {
  ps_service : string;
  ps_path : string;
  ps_type : string;
  ps_id : string;
  ps_binding : string;
  ps_topic : string;
  ps_component : string;
}.

Section invoke.
Context {W : Type} `{RpcOps W} `{Hooks W} `{Json} `{CommandJson}.
Context (MissingComponentTimeout : Z) (Error : gerror → string).
(** [context.DeadlineExceeded]. *)
Context (DeadlineExceeded : gerror).

Abbreviation handler := (M (@world W) httpResponse) (only parsing).

(** A command whose error becomes an answer. *)
Definition answering {A} (m : M (@world W) A) (fail : gerror → httpResponse) (k : A → httpResponse) : handler :=
  let* x := attempt m in
  ret (match x with inl a => k a | inr err => fail err end).

Definition unavailable : httpResponse := http_Error "Service Unavailable" 503.

Definition send_failed (err : gerror) : httpResponse :=
  if decide (err = ECtx) then unavailable
  else http_Error ("failed to send message: " ++ Error err) 500.

Definition accepted (text : string) : httpResponse := mkHttp 202 [] text.

(** The error of marshalling the header is logged; the text is then empty. *)
Definition header_text (r : httpRequest) : string :=
  match rq_header r with inl m => m | inr _ => "" end.

(** The parameter [session] is the flow and the request of the caller. *)
Definition session_parent (r : httpRequest) : string :=
  match Split ":" (rq_session r) with _ :: parent :: _ => parent | _ => "" end.

Definition session_flow (r : httpRequest) : string :=
  match Split ":" (rq_session r) with flow :: _ => flow | [] => "" end.

Definition target_actor (ps : Params) : Actor := mkActor (ps_type ps) (ps_id ps).

Definition tellHelper (r : httpRequest) (ps : Params) : handler :=
  answering
    (if negb (String.eqb (ps_service ps) "") then
       TellService MissingComponentTimeout (ps_service ps) (ps_path ps) (rq_body r) (header_text r) (rq_Method r)
     else TellActor MissingComponentTimeout (target_actor ps) (ps_path ps) (rq_body r) (session_parent r))
    send_failed (λ _, accepted "OK").

(** The header is added after the status was written, so it is not sent. *)
Definition callPromise (r : httpRequest) (ps : Params) : handler :=
  answering
    (if negb (String.eqb (ps_service ps) "") then
       CallPromiseService MissingComponentTimeout (ps_service ps) (ps_path ps) (rq_body r) (header_text r)
         (rq_Method r)
     else CallPromiseActor MissingComponentTimeout (target_actor ps) (ps_path ps) (rq_body r))
    send_failed accepted.

Definition reply_answer (reply : Reply) : httpResponse :=
  mkHttp (StatusCode reply) [("Content-Type", ContentType reply)] (Payload reply).

Definition routeImplAwaitPromise (r : httpRequest) : handler :=
  answering (AwaitPromise (rq_body r))
    (λ err, if decide (err = ECtx) then unavailable
            else http_Error ("failed to await promise: " ++ Error err) 500)
    (λ bytes, match UnmarshalReply bytes with
              | inr err => http_Error ("failed to unmarsall reply for promise: " ++ Error err) 500
              | inl reply => reply_answer reply
              end).

(** The first pragma that is known decides. *)
Fixpoint pragma_of (pragmas : list string) : option string :=
  match pragmas with
  | [] => None
  | p :: pragmas' =>
      if String.eqb (ToLower p) "async" then Some "async"
      else if String.eqb (ToLower p) "promise" then Some "promise"
      else pragma_of pragmas'
  end.

Definition call_failed (ps : Params) (err : gerror) : httpResponse :=
  if decide (err = DeadlineExceeded) then
    http_Error ("timeout waiting for " ++ ps_type ps ++ " to be defined") 408
  else send_failed err.

Definition routeImplCall (r : httpRequest) (ps : Params) : handler :=
  match pragma_of (rq_Pragma r) with
  | Some p => if String.eqb p "async" then tellHelper r ps else callPromise r ps
  | None =>
      answering
        (if negb (String.eqb (ps_service ps) "") then
           CallService MissingComponentTimeout (ps_service ps) (ps_path ps) (rq_body r) (header_text r)
             (rq_Method r)
         else CallActor MissingComponentTimeout (target_actor ps) (ps_path ps) (rq_body r)
                (session_flow r) (session_parent r))
        (call_failed ps)
        (λ reply, if StatusCode reply =? 204 then http_status 204 else reply_answer reply)
  end.

Definition routeImplDelActor (ps : Params) : handler :=
  answering (DeleteActor MissingComponentTimeout (target_actor ps)) send_failed (λ _, accepted "OK").

(* ---------------------------------------------------------------------- *)
(** ** Reminders and subscriptions *)

(** The action of a method of HTTP on bindings, with the body and the parameter
    that go with it. *)
Definition binding_action (r : httpRequest) : option (string * string * string) :=
  if String.eqb (rq_Method r) "GET" then Some ("get", "", rq_nilOnAbsent r)
  else if String.eqb (rq_Method r) "PUT" then Some ("set", rq_body r, "false")
  else if String.eqb (rq_Method r) "DELETE" then Some ("del", "", rq_nilOnAbsent r)
  else None.

Definition route_binding (kind : string) (r : httpRequest) (ps : Params) : handler :=
  match binding_action r with
  | None => ret (http_Error ("Unsupported method " ++ rq_Method r) 405)
  | Some (action, body, noa) =>
      answering (BindingsCommand MissingComponentTimeout kind (target_actor ps) (ps_binding ps) noa action body
                   (rq_ContentType r) (rq_Accept r))
        send_failed reply_answer
  end.

Definition routeImplReminder : httpRequest → Params → handler := route_binding "reminders".
Definition routeImplSubscription : httpRequest → Params → handler := route_binding "subscriptions".

End invoke.

(* ---------------------------------------------------------------------- *)
(** ** Events *)

(** The publisher of the sidecar and the administration of topics, which are
    those of Kafka; [inr true] is the error that the topic exists. *)
Class TopicOps (W : Type) : Type := {
  Publish : string → string → M W unit;
  CreateTopic : string → string → M W (unit + gerror * bool);
  DeleteTopic : string → M W unit;
}.

Section events.
Context {W : Type} `{TopicOps W} (Error : gerror → string).

Definition routeImplPublish (r : httpRequest) (ps : Params) : M W httpResponse :=
  let* x := attempt (Publish (ps_topic ps) (rq_body r)) in
  ret (match x with
       | inr err => http_Error ("publish error: " ++ Error err) 400
       | inl _ => http_text "OK"
       end).

Definition routeImplCreateTopic (r : httpRequest) (ps : Params) : M W httpResponse :=
  let* x := CreateTopic (ps_topic ps) (rq_body r) in
  ret (match x with
       | inl _ => mkHttp 201 [("Location", "/kar/v1/event/" ++ ps_topic ps)] ""
       | inr (_, true) => http_text "Already existed"
       | inr (err, false) =>
           http_Error ("Failed to create topic " ++ ps_topic ps ++ ": " ++ Error err) 500
       end).

Definition routeImplDeleteTopic (ps : Params) : M W httpResponse :=
  let* x := attempt (DeleteTopic (ps_topic ps)) in
  ret (match x with
       | inr err => http_Error ("Failed to delete topic " ++ ps_topic ps ++ ": " ++ Error err) 500
       | inl _ => http_text "OK"
       end).

End events.

(* ---------------------------------------------------------------------- *)
(** ** The system *)

Record sidecarData : Type := mkSidecarData { sd_Port : Z; sd_Actors : list string; sd_Services : list string }.

(** The tables of the rpc package, and the texts of the answers. *)
Class SystemOps (W : Type) : Type := {
  GetTopology : M W (gmap string (list string));
  GetPorts : M W (gmap string Z);
  cancel_process : M W unit;
  MarshalTopology : gmap string sidecarData → res string;
  MarshalIndent : gmap string (list string) → res string;
  show_strings : list string → string;
  sort_strings : list string → list string;
}.

Definition newline : string := String "010"%char EmptyString.

Section system.
Context {W : Type} `{SidecarOps W} `{SystemOps W} `{Json} `{CommandJson} `{MapIter}.
Context (Error : gerror → string).

Definition routeImplShutdown : M W httpResponse :=
  cancel_process ;;* ret (http_text "OK").

Definition routeImplHealth : M W httpResponse := ret (http_text "OK").

(** actors.go: the text of a map of actors. *)
Definition actor_block (kv : string * list string) : string :=
  kv.1 ++ ": [" ++ newline ++
  String.concat "" ((λ id, "    " ++ id ++ newline) <$> sort_strings kv.2) ++
  "]" ++ newline.

Definition formatActorInstanceMap (actorInfo : gmap string (list string)) (format : string) : res string :=
  if String.eqb format "json" || String.eqb format "application/json" then MarshalIndent actorInfo
  else Ok (String.concat "" (actor_block <$> map_iter 40 actorInfo)).

(** A node without services makes [services[0]] panic. *)
Definition sidecar_data (ports : gmap string Z) (kv : string * list string) : res (string * sidecarData) :=
  match kv.2 with
  | service :: actors => Ok (kv.1, mkSidecarData (default 0 (ports !! kv.1)) actors [service])
  | [] => Panic "index out of range"
  end.

Definition topology_text (karTopology : gmap string sidecarData) : string :=
  newline ++ "Sidecar" ++ newline ++ " : Actors" ++ newline ++ " : Services" ++
  String.concat "" ((λ kv, newline ++ kv.1 ++ ":" ++ Itoa (sd_Port kv.2) ++ newline ++ " : " ++
                           show_strings (sd_Actors kv.2) ++ newline ++ " : " ++ show_strings (sd_Services kv.2))
                    <$> map_iter 42 karTopology).

(** The data of an answer, its error and whether the answer starts with the
    error of an invalid query, after which the function goes on.  The errors of
    marshalling the topology and of the actors of all sidecars are assigned to
    variables of inner blocks. *)
Definition information (format component : string) : M W (string * option gerror * bool) :=
  let json := String.eqb format "json" || String.eqb format "application/json" in
  if String.eqb component "id" then
    ret (if json then "{" ++ MiniJson.quote "id" ++ ":" ++ MiniJson.quote GetNodeID ++ "}"
         else GetNodeID ++ newline, None, false)
  else if String.eqb component "sidecars" || String.eqb component "Sidecars" then
    let* topology := GetTopology in
    let* ports := GetPorts in
    let* entries := of_res (map_res (sidecar_data ports) (map_iter 41 topology)) in
    let karTopology := fill entries in
    if json then
      let* x := attempt (of_res (MarshalTopology karTopology)) in
      ret (match x with inl m => m | inr _ => "" end, None, false)
    else ret (topology_text karTopology, None, false)
  else if String.eqb component "actors" || String.eqb component "Actors" then
    let* x := attempt (getAllActiveActors "") in
    match x with
    | inl actorMap =>
        let* d := attempt (of_res (formatActorInstanceMap actorMap format)) in
        ret (match d with inl data => data | inr _ => "" end, None, false)
    | inr _ => ret ("", None, false)
    end
  else if String.eqb component "sidecar_actors" then
    let* info := GetLocalActivatedSessions "" in
    let* d := attempt (of_res (formatActorInstanceMap info format)) in
    ret (match d with inl data => (data, None, false) | inr err => ("", Some err, false) end)
  else ret ("", None, true).

(** What is written after a first [http.Error]: its status stays, the bodies are
    concatenated. *)
Definition after_invalid (component : string) (invalid : bool) (answer : httpResponse) : httpResponse :=
  if invalid then
    let first := http_Error ("Invalid information query: " ++ component) 400 in
    mkHttp (code first) (header first) (body first ++ body answer)
  else answer.

Definition routeImplGetInformation (r : httpRequest) (ps : Params) : M W httpResponse :=
  let format := if String.eqb (rq_Accept r) "application/json" then "application/json" else "text/plain" in
  let component := ps_component ps in
  let* '(data, err, invalid) := information format component in
  ret (after_invalid component invalid
    match err with
    | Some err => http_Error ("Failed to acquire " ++ component ++ " information: " ++ Error err) 500
    | None => mkHttp 200 [("Content-Type", format)] data
    end).

End system.

(* ---------------------------------------------------------------------- *)
(** ** Properties *)

Section properties.
Context {W B : Type} `{RpcOps W} `{Hooks W} `{BindingOps W B} `{JsonLaws} `{CommandJson}.
Context `{!CommandProps.CommandJsonLaws}.
Context (MissingComponentTimeout : Z) (Error : gerror → string).

(** What a call of the rpc package returns when the handler of the actor's
    sidecar runs on the same world. *)
Definition served (t : Session) (bytes : string) : M W string := λ w,
  match handlerBinding (B := B) Error t bytes w with
  | (Ok (Some text, None), w') => (Ok text, w')
  | (Ok (None, None), w') => (Ok "", w')
  | (Ok (_, Some err), w') => (Err err, w')
  | (Err e, w') => (Err e, w')
  | (Panic s, w') => (Panic s, w')
  | (OutOfFuel, w') => (OutOfFuel, w')
  end.

Definition serving : Prop := ∀ t d bytes w,
  rpc_Call (mkDestination (SessionTarget t) bindingEndpoint) d "" bytes w = served t bytes w.

(** The deadline is read from the clock and changes nothing. *)
Definition clock_only : Prop := ∀ w : W, ∃ t, now w = (Ok t, w).

Lemma defaultTimeout_ok (w : @world W) : clock_only → ∃ d, defaultTimeout MissingComponentTimeout w = (Ok d, w).
Proof.
  intros Hc. unfold defaultTimeout. destruct (0 <? MissingComponentTimeout); [|by eexists].
  destruct (Hc (w_rpc w)) as [t Et]. exists (t + MissingComponentTimeout).
  unfold bind, on_rpc. rewrite Et. by destruct w.
Qed.

Lemma BindingsCommand_served kind actor id noa action payload ct acc bytes text reply w s' :
  clock_only → serving →
  MarshalMsg (binding_msg kind id noa action payload ct acc) = Ok bytes →
  handlerBinding (B := B) Error (mkSession (a_Type actor) (a_ID actor) "nonexclusive" "") bytes (w_rpc w) =
    (Ok (Some text, None), s') →
  MarshalReply reply = Ok text →
  BindingsCommand MissingComponentTimeout kind actor id noa action payload ct acc w =
    (Ok reply, mkWorld s' (w_requests w)).
Proof.
  intros Hc Hs Eb Eh Em. unfold BindingsCommand.
  erewrite bind_ret by (unfold of_res; by rewrite Eb).
  destruct (defaultTimeout_ok w Hc) as [d Ed]. erewrite bind_ret by exact Ed.
  erewrite bind_ret.
  2: { unfold on_rpc, actor_session. rewrite Hs. unfold served. rewrite Eh. reflexivity. }
  unfold decode_reply. by rewrite (CommandProps.unmarshal_reply _ _ Em).
Qed.

(** A PUT of a reminder or of a subscription runs putBinding on the sidecar
    of the actor, with the identifier of the route and the body of the request,
    and is answered with its status and outcome. *)
Theorem binding_put_end_to_end kind r ps (w : @world W) code err s' text :
  clock_only → serving → rq_Method r = "PUT" →
  is_Ok (MarshalMsg (binding_msg kind (ps_binding ps) "false" "set" (rq_body r) (rq_ContentType r) (rq_Accept r))) →
  putBinding kind (target_actor ps) (ps_binding ps) (rq_body r) (w_rpc w) = (Ok (code, err), s') →
  MarshalReply (CommandProps.set_reply Error code err) = Ok text →
  route_binding MissingComponentTimeout Error kind r ps w =
    (Ok (mkHttp code [("Content-Type", "text/plain")] (match err with Some e => Error e | None => "OK" end)),
     mkWorld s' (w_requests w)).
Proof.
  intros Hc Hs Hm [bytes Eb] Ep Em. unfold route_binding, binding_action. rewrite Hm. simpl.
  pose proof (CommandProps.handlerBinding_set (B := B) Error
    (mkSession (ps_type ps) (ps_id ps) "nonexclusive" "") kind (ps_binding ps) "false" (rq_body r)
    (rq_ContentType r) (rq_Accept r) bytes (w_rpc w) code err s' text Eb Ep Em) as Eh.
  pose proof (BindingsCommand_served kind (target_actor ps) (ps_binding ps) "false" "set" (rq_body r)
    (rq_ContentType r) (rq_Accept r) bytes text (CommandProps.set_reply Error code err) w s' Hc Hs Eb Eh Em) as Eb2.
  unfold answering. erewrite bind_ret by (apply attempt_inl; exact Eb2).
  unfold ret, reply_answer. by destruct err.
Qed.

End properties.

(* ---------------------------------------------------------------------- *)
(** ** Concrete runs *)

Module Witness.
#[local] Existing Instance MiniJson.MiniJson.
#[local] Existing Instance MiniJson.MiniJson_laws.
#[local] Existing Instance no_hooks.
#[local] Existing Instance canonical_iter.
#[local] Existing Instance CommandProps.Witness.replies.
#[local] Existing Instance CommandProps.Witness.replies_laws.
#[local] Existing Instance CommandProps.Witness.binding_ops.

Definition error_text (e : gerror) : string := "error".

(** The rpc package delivers a call to the handler at once. *)
#[local] Instance local_rpc : RpcOps CommandProps.Witness.app := {|
  now := ret 1000;
  uuid := ret "u";
  rpc_Call d _ _ bytes :=
    match d_Target d with
    | SessionTarget t => served (B := string) error_text t bytes
    | _ => ret ""
    end;
  rpc_Tell := λ _ _ _ _, ret tt;
  rpc_Async := λ _ _ _, ret "";
  rpc_AsyncParent := λ _ _ _ _, ret "";
  rpc_receive := λ _, ret "";
  rpc_Reclaim := λ _, ret tt;
  rpc_DelSession := λ _, ret tt;
|}.

Definition put_request : httpRequest := mkRequest "PUT" [] "application/json" "" "" "" "every day" (inl "{}").
Definition put_params : Params := mkParams "" "" "Account" "1" "r1" "" "".

Lemma binding_put_witness :
  routeImplReminder 0 error_text put_request put_params (mkWorld [] ∅) =
    (Ok (mkHttp 204 [("Content-Type", "text/plain")] "OK"), mkWorld ["reminders-set-r1-every day"] ∅).
Proof.
  refine (binding_put_end_to_end (B := string) 0 error_text "reminders" put_request put_params (mkWorld [] ∅)
            204 None _ "204;text/plain;OK" _ _ _ _ _ _).
  - intros w. by exists 1000.
  - intros t d bytes w. reflexivity.
  - reflexivity.
  - eexists. vm_compute. reflexivity.
  - reflexivity.
  - vm_compute. reflexivity.
Defined.

(** Asking for the promise of a call answers with the request id and no content
    type. *)
Example promise_answer :
  (callPromise 0 error_text (mkRequest "POST" ["promise"] "" "" "" "" "[]" (inl "{}")) put_params
     (mkWorld ([] : CommandProps.Witness.app) ∅)).1 = Ok (mkHttp 202 [] "").
Proof. vm_compute. reflexivity. Qed.

End Witness.

End Routes.
