(* ===== verification/Debugger.v ===== *)
(** * Debugger: breakpoints and pauses of a sidecar

    Models the debugger's part of src/core/internal/runtime/commands.go: the
    tables of breakpoints and the test of a request against them; pausing actors
    and the whole node on channels, with the goroutines that wait on them; the
    commands of [handlerDebugger]; what [handlerActor] does on entry and on exit
    when a debugger is attached.  Each function that takes a lock is one step;
    the goroutines of [waitOnPause] are an interleaving step system. *)

From S2P Require Import Prelude GoLib Json Messages Reminders DebugParser Commands CommandProps.
Open Scope string_scope.
Open Scope Z_scope.
Open Scope go_scope.

Module Debugger.
Import Rpc Commands DebugParser.

(* ---------------------------------------------------------------------- *)
(** ** Data *)

Record actorTuple_t : Type := mkTuple { actorId : string; actorType : string }.

#[export] Instance actorTuple_eq_dec : EqDecision actorTuple_t.
Proof. solve_decision. Defined.
#[export] Instance actorTuple_countable : Countable actorTuple_t.
Proof.
  refine (inj_countable' (λ a, (actorId a, actorType a)) (λ p, mkTuple p.1 p.2) _). by intros [].
Defined.

Record breakpointAttrs_t : Type := mkAttrs {
  at_actorId : string;
  at_actorType : string;
  at_path : string;
  at_isRequest : string;   (** "request" or "response" *)
  at_flowId : string;
}.

#[export] Instance attrs_eq_dec : EqDecision breakpointAttrs_t.
Proof. solve_decision. Defined.
#[export] Instance attrs_countable : Countable breakpointAttrs_t.
Proof.
  refine (inj_countable' (λ a, (at_actorId a, at_actorType a, at_path a, at_isRequest a, at_flowId a))
            (λ '(i, t, p, r, f), mkAttrs i t p r f) _). by intros [].
Defined.

Record breakpoint_t : Type := mkBreakpoint {
  id : string;
  breakpointType : string;   (** "actor", "node", "global" or "suicide" *)
  conds : string;
  respConds : string;
  deleteOnHit : bool;
  attrs : breakpointAttrs_t;
}.

#[export] Instance breakpoint_eq_dec : EqDecision breakpoint_t.
Proof. solve_decision. Defined.

(** The zero values. *)
Definition no_attrs : breakpointAttrs_t := mkAttrs "" "" "" "" "".
Definition no_breakpoint : breakpoint_t := mkBreakpoint "" "" "" "" false no_attrs.

Record waitInfo_t : Type := mkWaitInfo {
  w_ActorId : string;
  w_ActorType : string;
  w_BreakpointId : string;
  w_RequestId : string;
  w_FlowId : string;
  w_RequestValue : string;
  w_ResponseValue : string;
  w_IsResponse : string;
}.

(** The two tables of breakpoints. *)
Record Breakpoints : Type := mkBreakpoints {
  breakpoints : gmap string breakpoint_t;
  breakpointsByAttrs : gmap breakpointAttrs_t breakpoint_t;
}.

(** The pauses.  Channels are numbered in the order of their creation; those that
    are closed are the state of Go's own channels. *)
Record Pauses : Type := mkPauses {
  isActorPaused : gmap actorTuple_t nat;
  pausedBreaks : gmap actorTuple_t breakpoint_t;
  isNodePaused : bool;
  nodePausedBk : breakpoint_t;
  immuneFromNodePaused : gset actorTuple_t;
  isChannelOpen : gmap nat bool;
  closed : gset nat;
  made : nat;
}.

Definition no_pauses : Pauses := mkPauses ∅ ∅ false no_breakpoint ∅ ∅ ∅ 0.

(* ---------------------------------------------------------------------- *)
(** ** Breakpoints *)

Definition flow_attrs (flowId : string) : breakpointAttrs_t := mkAttrs "" "" "" "" flowId.

(** The attributes of a message; [attrs_key] is the key they are stored under. *)
Definition full_attrs (msg : gmap string string) : breakpointAttrs_t :=
  mkAttrs (index_str msg "actorId") (index_str msg "actorType") (index_str msg "path")
    (index_str msg "isRequest") (index_str msg "flowId").

Definition attrs_key (msg : gmap string string) : breakpointAttrs_t :=
  if negb (String.eqb (index_str msg "flowId") "") then flow_attrs (index_str msg "flowId") else full_attrs msg.

Definition breakpoint_of (msg : gmap string string) : breakpoint_t :=
  mkBreakpoint (index_str msg "breakpointId") (index_str msg "breakpointType") (index_str msg "conds")
    (index_str msg "respConds") (String.eqb (index_str msg "deleteOnHit") "true") (full_attrs msg).

(** sets a breakpoint *)
Definition setBreakpoint (msg : gmap string string) : M Breakpoints unit := λ b,
  match breakpointsByAttrs b !! attrs_key msg with
  | Some _ => (Ok tt, b)
  | None =>
      (Ok tt, mkBreakpoints (<[index_str msg "breakpointId" := breakpoint_of msg]> (breakpoints b))
                (<[attrs_key msg := breakpoint_of msg]> (breakpointsByAttrs b)))
  end.

Definition unsetBreakpoint (msg : gmap string string) : M Breakpoints unit := λ b,
  let breakpoint := default no_breakpoint (breakpoints b !! index_str msg "breakpointId") in
  (Ok tt, mkBreakpoints (delete (index_str msg "breakpointId") (breakpoints b))
            (delete (flow_attrs (at_flowId (attrs breakpoint)))
               (delete (attrs breakpoint) (breakpointsByAttrs b)))).

Section conditions.
Context `{Json}.
Context (Sprint : any → string) (regexp_Match : string → string → bool).
Context (ParseConds : string → option CondList_p).

(** The values of a request and of a response, with their JSON payloads decoded;
    the flag tells that there was no error. *)
Definition UnmarshalSlice (s : string) : option (list any) :=
  match Unmarshal s with Some ANil => Some [] | Some (ASlice l) => Some l | _ => None end.

Definition unpackRequestValue (s : string) : gmap string any * bool :=
  let '(retval, ok) := match UnmarshalMap s with Some m => (m, true) | None => (∅, false) end in
  match retval !! "payload" with
  | Some (AString payloadStr) =>
      match UnmarshalSlice payloadStr with
      | Some l => (<["payload" := ASlice l]> retval, true)
      | None => (<["payload" := ASlice []]> retval, false)
      end
  | _ => (retval, ok)
  end.

Definition unpackResponseValue (s : string) : gmap string any * bool :=
  let '(retval, ok) := match UnmarshalMap s with Some m => (m, true) | None => (∅, false) end in
  match retval !! "Payload" with
  | Some (AString payloadStr) =>
      match Unmarshal payloadStr with
      | Some v => (<["payload" := v]> retval, true)
      | None => (<["payload" := ANil]> retval, false)
      end
  | _ => (retval, ok)
  end.

(** The conditions of a breakpoint; [None] when a value that is needed cannot be
    decoded, which ends the whole test.  The result for the response replaces the
    one for the request. *)
Definition test_conds (cs : string) (value : gmap string any * bool) (hit : bool) : res (option bool) :=
  if negb (String.eqb cs "") then
    if value.2 then
      match runConds Sprint regexp_Match ParseConds (AMap value.1) cs with
      | Ok b => Ok (Some b)
      | Err e => Err e | Panic s => Panic s | OutOfFuel => OutOfFuel
      end
    else Ok None
  else Ok (Some hit).

Definition holds (bk : breakpoint_t) (reqVal respVal : gmap string any * bool) : res (option bool) :=
  match test_conds (conds bk) reqVal true with
  | Ok (Some hit) => test_conds (respConds bk) respVal hit
  | result => result
  end.

(** The keys that are looked at, in order. *)
Definition lookup_keys (a : breakpointAttrs_t) : list breakpointAttrs_t :=
  [flow_attrs (at_flowId a);
   mkAttrs (at_actorId a) (at_actorType a) (at_path a) (at_isRequest a) "";
   mkAttrs "" (at_actorType a) (at_path a) (at_isRequest a) ""].

Fixpoint check_keys (b : Breakpoints) (keys : list breakpointAttrs_t)
    (reqVal respVal : gmap string any * bool) : res (option breakpoint_t) :=
  match keys with
  | [] => Ok None
  | key :: keys' =>
      match breakpointsByAttrs b !! key with
      | None => check_keys b keys' reqVal respVal
      | Some bk =>
          match holds bk reqVal respVal with
          | Ok (Some true) => Ok (Some bk)
          | Ok (Some false) => check_keys b keys' reqVal respVal
          | Ok None => Ok None
          | Err e => Err e | Panic s => Panic s | OutOfFuel => OutOfFuel
          end
      end
  end.

(** The breakpoint that is hit, if any. *)
Definition checkBreakpoint (a : breakpointAttrs_t) (reqStr respStr : string) (b : Breakpoints)
    : res (option breakpoint_t) :=
  check_keys b (lookup_keys a) (unpackRequestValue reqStr) (unpackResponseValue respStr).

End conditions.

(* ---------------------------------------------------------------------- *)
(** ** Pauses *)

(** [close(ch)]. *)
Definition close (ch : nat) : M Pauses unit := λ p,
  if decide (ch ∈ closed p) then (Panic "close of closed channel", p)
  else (Ok tt, mkPauses (isActorPaused p) (pausedBreaks p) (isNodePaused p) (nodePausedBk p)
                 (immuneFromNodePaused p) (isChannelOpen p) ({[ch]} ∪ closed p) (made p)).

Definition forget_channel (ch : nat) : M Pauses unit :=
  modify (λ p, mkPauses (isActorPaused p) (pausedBreaks p) (isNodePaused p) (nodePausedBk p)
                 (immuneFromNodePaused p) (delete ch (isChannelOpen p)) (closed p) (made p)).

(** A channel is closed when it is recorded as open, and then forgotten. *)
Definition close_open (ch : nat) : M Pauses unit :=
  let* p := get in
  match isChannelOpen p !! ch with
  | Some true => close ch ;;* forget_channel ch
  | _ => ret tt
  end.

Definition pause (info : actorTuple_t) (bk : breakpoint_t) : M Pauses unit := λ p,
  match isActorPaused p !! info with
  | Some _ => (Ok tt, p)
  | None =>
      (Ok tt, mkPauses (<[info := made p]> (isActorPaused p)) (<[info := bk]> (pausedBreaks p))
                (isNodePaused p) (nodePausedBk p) (immuneFromNodePaused p)
                (<[made p := true]> (isChannelOpen p)) (closed p) (S (made p)))
  end.

Definition pauseNode (bk : breakpoint_t) : M Pauses unit :=
  modify (λ p, mkPauses (isActorPaused p) (pausedBreaks p) true bk ∅ (isChannelOpen p) (closed p) (made p)).

Definition unpause (info : actorTuple_t) : M Pauses unit :=
  let* p := get in
  match isActorPaused p !! info with
  | None => ret tt
  | Some cvar => close_open cvar
  end.

Definition immune (actor : actorTuple_t) : M Pauses unit :=
  modify (λ p, mkPauses (isActorPaused p) (pausedBreaks p) (isNodePaused p) (nodePausedBk p)
                 ({[actor]} ∪ immuneFromNodePaused p) (isChannelOpen p) (closed p) (made p)).

Fixpoint unpause_all (l : list (actorTuple_t * nat)) : M Pauses unit :=
  match l with
  | [] => ret tt
  | (actor, cvar) :: l' => immune actor ;;* close_open cvar ;;* unpause_all l'
  end.

(** The node pauses no new actor, and those that were paused are immune no more. *)
Definition end_node_pause : M Pauses unit :=
  modify (λ p, mkPauses (isActorPaused p) (pausedBreaks p) false (nodePausedBk p) ∅
                 (isChannelOpen p) (closed p) (made p)).

(** Go's order of iteration over the maps of actors. *)
Class ActorIter : Type := {
  actor_iter : ∀ {A : Type}, gmap actorTuple_t A → list (actorTuple_t * A);
  actor_iter_perm : ∀ (A : Type) (m : gmap actorTuple_t A), actor_iter m ≡ₚ map_to_list m;
}.

Definition unpauseNode `{ActorIter} (onlyUnpauseCurrent : bool) : M Pauses unit :=
  (if onlyUnpauseCurrent then ret tt else end_node_pause) ;;*
  let* p := get in
  unpause_all (actor_iter (isActorPaused p)).

(** handlerActor, between the locks of [isNodePaused]. *)
Definition pause_in_node (myActor : actorTuple_t) : M Pauses unit :=
  let* p := get in
  if isNodePaused p && negb (bool_decide (myActor ∈ immuneFromNodePaused p))
  then pause myActor (nodePausedBk p) else ret tt.

(** waitOnPause, after the wait. *)
Definition forget_pause (key : actorTuple_t) : M Pauses unit :=
  modify (λ p, mkPauses (delete key (isActorPaused p)) (delete key (pausedBreaks p)) (isNodePaused p)
                 (nodePausedBk p) (immuneFromNodePaused p) (isChannelOpen p) (closed p) (made p)).

(** The pseudo actor that stands for the node. *)
Definition nodeActor : actorTuple_t := mkTuple "" "".

(* ---------------------------------------------------------------------- *)
(** ** The debugger's state and its sidecar *)

(** The tables of commands.go for the debugger; [spawned] are the breakpoints that
    goroutines are about to unset, [debugConns] the websockets of routes-debug.go. *)
Record dbg : Type := mkDbg {
  d_bks : Breakpoints;
  d_pauses : Pauses;
  isDebuggerPresent : bool;
  debuggersMap : gmap string bool;
  waitingActors : gmap actorTuple_t waitInfo_t;
  editResponsesMap : gmap string string;
  ActorHandling : gmap string actorSentInfo_t;
  ActorSent : gmap string actorSentInfo_t;
  spawned : list string;
  debugConns : gmap string nat;
}.

Definition dbg0 : dbg :=
  mkDbg (mkBreakpoints ∅ ∅) no_pauses false ∅ ∅ ∅ ∅ ∅ [] ∅.

(** What the sidecar provides: the JSON of the lists, the websockets, and ending
    its own process. *)
Class DebugOps (W : Type) : Type := {
  MarshalWaitInfos : list waitInfo_t → res string;
  MarshalBusy : gmap string actorSentInfo_t → gmap string actorSentInfo_t → res string;
  WriteMessage : nat → string → M W unit;
  CloseConn : nat → M W unit;
  cancel9 : M W unit;
}.

Section commands.
Context {W : Type} `{RpcOps W} `{SidecarOps W} `{DebugOps W} `{Json} `{CommandJson} `{MapIter} `{ActorIter}.
Context (Sprint : any → string) (regexp_Match : string → string → bool).
Context (ParseConds : string → option CondList_p) (ParseEdits : string → EditList_p + gerror).
Context (IsDebugMode : bool).

Record world : Type := mkWorld { g_dbg : dbg; g_env : W }.

Definition on_env {A} (m : M W A) : M world A := λ w,
  let '(a, e) := m (g_env w) in (a, mkWorld (g_dbg w) e).

Definition on_dbg (f : dbg → dbg) : M world unit := modify (λ w, mkWorld (f (g_dbg w)) (g_env w)).

Definition on_bks {A} (m : M Breakpoints A) : M world A := λ w,
  let d := g_dbg w in
  let '(a, b) := m (d_bks d) in
  (a, mkWorld (mkDbg b (d_pauses d) (isDebuggerPresent d) (debuggersMap d) (waitingActors d)
                 (editResponsesMap d) (ActorHandling d) (ActorSent d) (spawned d) (debugConns d)) (g_env w)).

Definition on_pauses {A} (m : M Pauses A) : M world A := λ w,
  let d := g_dbg w in
  let '(a, p) := m (d_pauses d) in
  (a, mkWorld (mkDbg (d_bks d) p (isDebuggerPresent d) (debuggersMap d) (waitingActors d)
                 (editResponsesMap d) (ActorHandling d) (ActorSent d) (spawned d) (debugConns d)) (g_env w)).

Definition set_debuggers (present : bool) (debuggers : gmap string bool) (d : dbg) : dbg :=
  mkDbg (d_bks d) (d_pauses d) present debuggers (waitingActors d)
    (editResponsesMap d) (ActorHandling d) (ActorSent d) (spawned d) (debugConns d).

Definition set_waiting (f : gmap actorTuple_t waitInfo_t → gmap actorTuple_t waitInfo_t) (d : dbg) : dbg :=
  mkDbg (d_bks d) (d_pauses d) (isDebuggerPresent d) (debuggersMap d) (f (waitingActors d))
    (editResponsesMap d) (ActorHandling d) (ActorSent d) (spawned d) (debugConns d).

Definition set_edits (f : gmap string string → gmap string string) (d : dbg) : dbg :=
  mkDbg (d_bks d) (d_pauses d) (isDebuggerPresent d) (debuggersMap d) (waitingActors d)
    (f (editResponsesMap d)) (ActorHandling d) (ActorSent d) (spawned d) (debugConns d).

Definition set_handling (f : gmap string actorSentInfo_t → gmap string actorSentInfo_t) (d : dbg) : dbg :=
  mkDbg (d_bks d) (d_pauses d) (isDebuggerPresent d) (debuggersMap d) (waitingActors d)
    (editResponsesMap d) (f (ActorHandling d)) (ActorSent d) (spawned d) (debugConns d).

Definition set_sent (f : gmap string actorSentInfo_t → gmap string actorSentInfo_t) (d : dbg) : dbg :=
  mkDbg (d_bks d) (d_pauses d) (isDebuggerPresent d) (debuggersMap d) (waitingActors d)
    (editResponsesMap d) (ActorHandling d) (f (ActorSent d)) (spawned d) (debugConns d).

Definition set_conns (f : gmap string nat → gmap string nat) (d : dbg) : dbg :=
  mkDbg (d_bks d) (d_pauses d) (isDebuggerPresent d) (debuggersMap d) (waitingActors d)
    (editResponsesMap d) (ActorHandling d) (ActorSent d) (spawned d) (f (debugConns d)).

Definition spawn (bk : string) (d : dbg) : dbg :=
  mkDbg (d_bks d) (d_pauses d) (isDebuggerPresent d) (debuggersMap d) (waitingActors d)
    (editResponsesMap d) (ActorHandling d) (ActorSent d) (spawned d ++ [bk])%list (debugConns d).

Definition set_spawned (l : list string) (d : dbg) : dbg :=
  mkDbg (d_bks d) (d_pauses d) (isDebuggerPresent d) (debuggersMap d) (waitingActors d)
    (editResponsesMap d) (ActorHandling d) (ActorSent d) l (debugConns d).

Definition the_dbg : M world dbg := let* w := get in ret (g_dbg w).

(** The answer of most commands. *)
Definition reply_ok {X} : M X (option string * option gerror) :=
  marshalled (MarshalReply (mkReply 200 "application/json" "")).

Definition reply_json {X} (text : string) : M X (option string * option gerror) :=
  marshalled (MarshalReply (mkReply 200 "application/json" text)).

(** [rpc.Tell] of a message to nodes; errors are ignored, and so are those of
    [json.Marshal], whose bytes are then nil. *)
Fixpoint tell_nodes (nodes : list string) (bytes : string) : M world unit :=
  match nodes with
  | [] => ret tt
  | node :: nodes' =>
      attempt (on_env (rpc_Tell (mkDestination (Node node) debuggerEndpoint) zeroTime "" bytes)) ;;*
      tell_nodes nodes' bytes
  end.

Definition tell_all (nodes : list string) (msg : gmap string string) : M world unit :=
  let* x := attempt (of_res (MarshalMsg msg)) in
  tell_nodes nodes (match x with inl bytes => bytes | inr _ => "" end).

Definition pause_msg (command : string) (info : actorTuple_t) (bk : breakpoint_t)
    (reqId reqVal respVal isResponse : string) : gmap string string :=
  <["command" := command]> (<["actorId" := actorId info]> (<["actorType" := actorType info]>
  (<["nodeId" := GetNodeID]> (<["breakpointId" := id bk]> (<["requestId" := reqId]>
  (<["requestValue" := reqVal]> (<["responseValue" := respVal]> (<["isResponse" := isResponse]> ∅)))))))).

(** inform all debuggers that we are paused *)
Definition informPause (info : actorTuple_t) (bk : breakpoint_t) (reqId flowId reqVal respVal : string)
    (isResponse : bool) : M world unit :=
  let* d := the_dbg in
  tell_all (map_iter 60 (debuggersMap d)).*1
    (<["flowId" := flowId]>
       (pause_msg "notifyPause" info bk reqId reqVal respVal (if isResponse then "response" else "request"))).

(** inform all debuggers that we hit a breakpoint *)
Definition informBreakpoint (info : actorTuple_t) (reqId : string) (bk : breakpoint_t)
    (reqVal respVal isResponse : string) : M world unit :=
  let* d := the_dbg in
  tell_all (map_iter 61 (debuggersMap d)).*1 (pause_msg "notifyBreakpoint" info bk reqId reqVal respVal isResponse).

(** pause all sidecars *)
Definition pauseAllSidecars (bk : breakpoint_t) : M world unit :=
  let* x := attempt (of_res (MarshalMsg
              (<["command" := "pause"]> (<["actorType" := ""]> (<["actorId" := ""]> {["breakpointId" := id bk]}))))) in
  match x with
  | inr _ => ret tt
  | inl bytes =>
      let* sidecars := on_env GetNodeIDs in
      tell_nodes (filter (λ sidecar, sidecar ≠ GetNodeID) sidecars) bytes
  end.

(* ---------------------------------------------------------------------- *)
(** ** Waiting *)

(** The request or the response that waits, with its values. *)
Record wait_args : Type := mkWait {
  wa_info : actorTuple_t;
  wa_reqId : string;
  wa_flowId : string;
  wa_reqVal : string;
  wa_respVal : string;
  wa_isResponse : bool;
}.

Definition wait_info (a : wait_args) (bk : breakpoint_t) : waitInfo_t :=
  mkWaitInfo (actorId (wa_info a)) (actorType (wa_info a)) (id bk) (wa_reqId a) (wa_flowId a)
    (wa_reqVal a) (wa_respVal a) (if wa_isResponse a then "response" else "request").

(** Before the wait: the channel of the pause under [key], if there is one. *)
Definition wait_enter (key : actorTuple_t) (a : wait_args) : M world (option nat) :=
  let* d := the_dbg in
  match isActorPaused (d_pauses d) !! key with
  | None => ret None
  | Some condvar =>
      let bk := default no_breakpoint (pausedBreaks (d_pauses d) !! key) in
      informPause (wa_info a) bk (wa_reqId a) (wa_flowId a) (wa_reqVal a) (wa_respVal a) (wa_isResponse a) ;;*
      on_dbg (set_waiting (<[wa_info a := wait_info a bk]>)) ;;*
      ret (Some condvar)
  end.

(** An edit of a response: the new reply. *)
Definition edit_reply (respVal edit : string) : res string :=
  let '(respInterface, ok) := unpackResponseValue respVal in
  if negb ok then Err (json_error respVal)
  else
    match respInterface !! "payload" with
    | None => Err (EMsg "payload not found")
    | Some payload =>
        match doEdits Sprint ParseEdits payload edit with
        | Ok (_, Some err) => Err err
        | Ok (newPayload, None) =>
            match Marshal newPayload with
            | Ok payloadString =>
                Marshal (AMap (delete "payload" (<["Payload" := AString payloadString]> respInterface)))
            | failure => failure
            end
        | Err e => Err e | Panic s => Panic s | OutOfFuel => OutOfFuel
        end
    end.

(** The edited response and the error of editing, of which at most one is set. *)
Abbreviation edited := (option string * option gerror)%type (only parsing).

(** After the wait: a response that was not edited before may be edited. *)
Definition wait_wake (a : wait_args) (before : edited) : M world edited :=
  let* d := the_dbg in
  let* after :=
    (match editResponsesMap d !! wa_reqId a, wa_isResponse a, before with
     | Some edit, true, (None, None) =>
         let* x := attempt (of_res (edit_reply (wa_respVal a) edit)) in
         ret (match x with inl r => (Some r, None) | inr err => (None, Some err) end)
     | _, _, _ => ret before
     end) in
  on_dbg (set_edits (delete (wa_reqId a))) ;;*
  on_dbg (set_waiting (delete (wa_info a))) ;;*
  ret after.

(** One wait; [receive] is [<-condvar], during which the rest of the sidecar runs. *)
Definition wait_on (receive : nat → M world unit) (key : actorTuple_t) (a : wait_args)
    (before : edited) : M world edited :=
  let* condvar := wait_enter key a in
  match condvar with
  | None => ret before
  | Some ch =>
      receive ch ;;*
      let* after := wait_wake a before in
      on_pauses (forget_pause key) ;;*
      ret after
  end.

(** wait on a paused actor, then on a paused node *)
Definition waitOnPause (receive : nat → M world unit) (a : wait_args) : M world edited :=
  let* r := wait_on receive (wa_info a) a (None, None) in
  wait_on receive nodeActor a r.

(* ---------------------------------------------------------------------- *)
(** ** What handlerActor does for a debugger *)

Definition test_breakpoint (a : breakpointAttrs_t) (reqStr respStr : string) : M world (option breakpoint_t) :=
  let* d := the_dbg in
  let* hit := of_res (checkBreakpoint Sprint regexp_Match ParseConds a reqStr respStr (d_bks d)) in
  match hit with
  | Some bk => (if deleteOnHit bk then on_dbg (spawn (id bk)) else ret tt) ;;* ret (Some bk)
  | None => ret None
  end.

(** A goroutine that never returns. *)
Definition spin {A} : M world A := λ w, (OutOfFuel, w).

(** The breakpoints of a request, and the pause of the node. *)
Definition request_break (target : Session) (requestID path value : string) : M world unit :=
  let myActor := mkTuple (s_ID target) (s_Name target) in
  let* hit := test_breakpoint (mkAttrs (s_ID target) (s_Name target) path "request" (s_Flow target)) value "" in
  (match hit with
   | None => ret tt
   | Some bk =>
       informBreakpoint myActor requestID bk value "" "request" ;;*
       if String.eqb (breakpointType bk) "actor" then on_pauses (pause myActor bk)
       else if String.eqb (breakpointType bk) "node" then on_pauses (pauseNode bk)
       else if String.eqb (breakpointType bk) "global" then on_pauses (pauseNode bk) ;;* pauseAllSidecars bk
       else if String.eqb (breakpointType bk) "suicide" then on_env cancel9 ;;* spin
       else ret tt
   end) ;;*
  on_pauses (pause_in_node myActor).

(** The breakpoints of a response, [bk] being the actor and the path of the
    request when it came in; a response pauses the pseudo actor of the node. *)
Definition response_break (target : Session) (bk : string * string * string)
    (requestID value debugReply shown : string) : M world unit :=
  let myActor := mkTuple (s_ID target) (s_Name target) in
  let '(bkActorId, bkActorType, bkPath) := bk in
  let* hit := test_breakpoint (mkAttrs bkActorId bkActorType bkPath "response" (s_Flow target)) value debugReply in
  match hit with
  | None => ret tt
  | Some bk =>
      informBreakpoint myActor requestID bk value shown "response" ;;*
      if String.eqb (breakpointType bk) "actor" then on_pauses (pause myActor bk)
      else if String.eqb (breakpointType bk) "node" then on_pauses (pause nodeActor bk)
      else if String.eqb (breakpointType bk) "global" then
        on_pauses (pause nodeActor bk) ;;* pauseAllSidecars bk
      else if String.eqb (breakpointType bk) "suicide" then on_env cancel9 ;;* spin
      else ret tt
  end.

Definition wait_request (target : Session) (requestID value : string) : wait_args :=
  mkWait (mkTuple (s_ID target) (s_Name target)) requestID (s_Flow target) value "" false.

Definition wait_response (target : Session) (requestID value shown : string) : wait_args :=
  mkWait (mkTuple (s_ID target) (s_Name target)) requestID (s_Flow target) value shown true.

(** The hooks of [handlerActor] and of [CallActor]. *)
Definition debug_hooks (receive : nat → M world unit) : Hooks world := {|
  debugging := let* d := the_dbg in ret (IsDebugMode || isDebuggerPresent d);
  dbg_sent requestID info := on_dbg (set_sent (<[requestID := info]>));
  dbg_received requestID := on_dbg (set_sent (delete requestID));
  dbg_handling requestID info := on_dbg (set_handling (<[requestID := info]>));
  dbg_handled requestID := on_dbg (set_handling (delete requestID));
  dbg_request target requestID path value :=
    request_break target requestID path value ;;*
    waitOnPause receive (wait_request target requestID value) ;;*
    ret tt;
  dbg_response target bk requestID value debugReply reply :=
    let shown := match reply with Some r => r | None => default "" debugReply end in
    response_break target bk requestID value (default "" debugReply) shown ;;*
    let* '(newReply, editErr) := waitOnPause receive (wait_response target requestID value shown) in
    ret (match editErr with None => newReply | Some _ => None end);
|}.

(* ---------------------------------------------------------------------- *)
(** ** The commands of a debugger *)

Definition registerDebugger (node : string) : M world unit :=
  let* d := the_dbg in
  on_dbg (set_debuggers true (<[node := true]> (debuggersMap d))).

Definition unregisterDebugger (node : string) : M world unit :=
  let* d := the_dbg in
  let left := delete node (debuggersMap d) in
  if decide (size left = 0%nat) then
    on_dbg (set_debuggers false left) ;;*
    if IsDebugMode then ret tt
    else on_pauses (unpauseNode false) ;;* on_bks (λ _, (Ok tt, mkBreakpoints ∅ ∅))
  else on_dbg (set_debuggers (isDebuggerPresent d) left).

Definition editResponse (msg : gmap string string) : M world unit :=
  on_dbg (set_edits (<[index_str msg "requestId" := index_str msg "edit"]>)).

Definition breakpoint_info (bk : breakpoint_t) : gmap string string :=
  <["breakpointType" := breakpointType bk]> (<["actorId" := at_actorId (attrs bk)]>
  (<["actorType" := at_actorType (attrs bk)]> (<["path" := at_path (attrs bk)]>
  (<["isRequest" := at_isRequest (attrs bk)]> ∅)))).

(** The bytes of a reply with JSON in it, or the error of marshalling that JSON. *)
Definition json_reply (r : res string) : M world (option string * option gerror) :=
  let* x := attempt (of_res r) in
  match x with inl text => reply_json text | inr err => ret (None, Some err) end.

Definition listBreakpoints : M world (option string * option gerror) :=
  let* d := the_dbg in
  json_reply (Marshal (AMap ((λ bk, any_of_msg (breakpoint_info bk)) <$> breakpoints (d_bks d)))).

Definition listPausedActors : M world (option string * option gerror) :=
  let* d := the_dbg in
  json_reply (MarshalWaitInfos (actor_iter (waitingActors d)).*2).

Definition listBusyActors : M world (option string * option gerror) :=
  let* d := the_dbg in
  json_reply (MarshalBusy (ActorHandling d) (ActorSent d)).

(** routes-debug.go: this node stops being a debugger for the other sidecars. *)
Definition unregisterDebuggerSidecar : M world unit :=
  let* x := attempt (of_res (MarshalMsg
              (<["command" := "unregisterDebugger"]> {["nodeId" := GetNodeID]}))) in
  match x with
  | inr _ => ret tt
  | inl bytes => let* sidecars := on_env GetNodeIDs in tell_nodes sidecars bytes
  end.

Definition closeConn (conn : nat) (key : string) : M world unit :=
  attempt (on_env (CloseConn conn)) ;;*
  on_dbg (set_conns (delete key)) ;;*
  let* d := the_dbg in
  if decide (size (debugConns d) = 0%nat) then unregisterDebuggerSidecar else ret tt.

Fixpoint send_conns (l : list (string * nat)) (bytes curConnId : string) : M world (option gerror) :=
  match l with
  | [] => ret None
  | (key, conn) :: l' =>
      let* x := attempt (on_env (WriteMessage conn bytes)) in
      match x with
      | inl _ => send_conns l' bytes curConnId
      | inr err =>
          closeConn conn key ;;*
          if String.eqb curConnId key then ret (Some err) else send_conns l' bytes curConnId
      end
  end.

(** A message to every debugger connected to this sidecar. *)
Definition sendAll (bytes curConnId : string) : M world (option gerror) :=
  let* d := the_dbg in
  send_conns (map_iter 62 (debugConns d)) bytes curConnId.

Definition notify (msg : gmap string string) : M world unit :=
  let* x := attempt (of_res (MarshalMsg msg)) in
  sendAll (match x with inl bytes => bytes | inr _ => "" end) "" ;;*
  ret tt.

(** The actor that a pause or an end of a pause is for; [None] is the node. *)
Definition pause_target (msg : gmap string string) : option actorTuple_t :=
  if String.eqb (index_str msg "actorType") "" || String.eqb (index_str msg "actorId") "" then None
  else Some (mkTuple (index_str msg "actorId") (index_str msg "actorType")).

Definition pause_bk (msg : gmap string string) : breakpoint_t :=
  mkBreakpoint (index_str msg "breakpointId") "" "" "" false no_attrs.

Definition handlerDebugger (value : string) : M world (option string * option gerror) :=
  match UnmarshalMsg value with
  | None => ret (None, Some (json_error value))
  | Some msg =>
      let command := index_str msg "command" in
      if String.eqb command "setBreakpoint" then
        registerDebugger (index_str msg "srcNodeId") ;;* on_bks (setBreakpoint msg) ;;* reply_ok
      else if String.eqb command "unsetBreakpoint" then
        registerDebugger (index_str msg "srcNodeId") ;;* on_bks (unsetBreakpoint msg) ;;* reply_ok
      else if String.eqb command "pause" then
        registerDebugger (index_str msg "srcNodeId") ;;*
        on_pauses (match pause_target msg with
                   | None => pauseNode (pause_bk msg)
                   | Some info => pause info (pause_bk msg)
                   end) ;;*
        reply_ok
      else if String.eqb command "unpause" then
        registerDebugger (index_str msg "srcNodeId") ;;*
        on_pauses (match pause_target msg with
                   | None => unpauseNode (bool_decide (is_Some (msg !! "onlyUnpauseCurrent")))
                   | Some info => unpause info
                   end) ;;*
        reply_ok
      else if String.eqb command "registerDebugger" then
        registerDebugger (index_str msg "nodeId") ;;* reply_ok
      else if String.eqb command "unregisterDebugger" then
        unregisterDebugger (index_str msg "nodeId") ;;* reply_ok
      else if String.eqb command "notifyPause" || String.eqb command "notifyBreakpoint" then
        notify msg ;;* reply_ok
      else if String.eqb command "listBreakpoints" then listBreakpoints
      else if String.eqb command "listPausedActors" then listPausedActors
      else if String.eqb command "listBusyActors" then listBusyActors
      else if String.eqb command "editResponse" then editResponse msg ;;* reply_ok
      else ret (None, None)
  end.

End commands.

(* ---------------------------------------------------------------------- *)
(** ** Pauses under interleaving *)

(** The critical sections of the other goroutines on the pauses. *)
Inductive pause_op : Type :=
| PPause (info : actorTuple_t) (bk : breakpoint_t)
| PPauseNode (bk : breakpoint_t)
| PPauseInNode (info : actorTuple_t)
| PUnpause (info : actorTuple_t)
| PUnpauseNode (onlyUnpauseCurrent : bool).

(** Where a goroutine in [waitOnPause] is: it looks for a pause of its actor
    ([false]) and then of the node ([true]). *)
Inductive waiter : Type :=
| WLooks (node : bool)
| WBlocked (node : bool) (ch : nat)
| WWoken (node : bool)
| WDone.

Record psystem : Type := mkSystem {
  ps_pauses : Pauses;
  ps_waiters : gmap nat (actorTuple_t * waiter);
}.

Definition wait_key (info : actorTuple_t) (node : bool) : actorTuple_t := if node then nodeActor else info.

Definition after_wait (node : bool) : waiter := if node then WDone else WLooks true.

Section interleaving.
Context `{ActorIter}.

Definition perform (op : pause_op) : M Pauses unit :=
  match op with
  | PPause info bk => pause info bk
  | PPauseNode bk => pauseNode bk
  | PPauseInNode info => pause_in_node info
  | PUnpause info => unpause info
  | PUnpauseNode cur => unpauseNode cur
  end.

Inductive pstep : psystem → psystem → Prop :=
| step_op op p p' ws : perform op p = (Ok tt, p') → pstep (mkSystem p ws) (mkSystem p' ws)
| step_new t info p ws :
    ws !! t = None → pstep (mkSystem p ws) (mkSystem p (<[t := (info, WLooks false)]> ws))
| step_enter t info node ch p ws :
    ws !! t = Some (info, WLooks node) → isActorPaused p !! wait_key info node = Some ch →
    pstep (mkSystem p ws) (mkSystem p (<[t := (info, WBlocked node ch)]> ws))
| step_skip t info node p ws :
    ws !! t = Some (info, WLooks node) → isActorPaused p !! wait_key info node = None →
    pstep (mkSystem p ws) (mkSystem p (<[t := (info, after_wait node)]> ws))
| step_wake t info node ch p ws :
    ws !! t = Some (info, WBlocked node ch) → ch ∈ closed p →
    pstep (mkSystem p ws) (mkSystem p (<[t := (info, WWoken node)]> ws))
| step_leave t info node p p' ws :
    ws !! t = Some (info, WWoken node) → forget_pause (wait_key info node) p = (Ok tt, p') →
    pstep (mkSystem p ws) (mkSystem p' (<[t := (info, after_wait node)]> ws)).

Definition initial : psystem := mkSystem no_pauses ∅.

(** Every channel of the tables was made; an open one is not closed, and the one
    of a pause is recorded as open or is closed; a pause has its breakpoint. *)
Record wfp (p : Pauses) : Prop := {
  wfp_open : ∀ ch b, isChannelOpen p !! ch = Some b → b = true ∧ ch ∉ closed p ∧ (ch < made p)%nat;
  wfp_paused : ∀ k ch, isActorPaused p !! k = Some ch →
    (ch < made p)%nat ∧ (isChannelOpen p !! ch = Some true ∨ ch ∈ closed p);
  wfp_closed : ∀ ch, ch ∈ closed p → (ch < made p)%nat;
  wfp_breaks : ∀ k, is_Some (isActorPaused p !! k) ↔ is_Some (pausedBreaks p !! k);
}.

Lemma wfp_no_pauses : wfp no_pauses.
Proof. split; simpl; [by intros ? ? [=]|by intros ? ? [=]|set_solver|]. intros k. by rewrite !lookup_empty. Qed.

(** What a critical section can do: pauses stay, new ones have new channels, and
    only channels of pauses are closed. *)
Record evolves (p p' : Pauses) : Prop := {
  ev_made : (made p ≤ made p')%nat;
  ev_closed : closed p ⊆ closed p';
  ev_stay : ∀ k ch, isActorPaused p !! k = Some ch → isActorPaused p' !! k = Some ch;
  ev_new : ∀ k ch, isActorPaused p' !! k = Some ch → isActorPaused p !! k = Some ch ∨ (made p ≤ ch)%nat;
  ev_closes : ∀ ch, ch ∈ closed p' → ch ∈ closed p ∨ ∃ k, isActorPaused p !! k = Some ch;
}.

(** The sections that make no pause: the tables of pauses stay. *)
Definition keeps (p p' : Pauses) : Prop :=
  isActorPaused p' = isActorPaused p ∧ pausedBreaks p' = pausedBreaks p ∧ made p' = made p ∧
  closed p ⊆ closed p'.

#[local] Instance keeps_refl : Reflexive keeps.
Proof. by intros p. Qed.

#[local] Instance keeps_trans : Transitive keeps.
Proof. intros p q r (P1 & B1 & M1 & C1) (P2 & B2 & M2 & C2). split_and!; [congruence..|set_solver]. Qed.

Lemma keeps_evolves p p' :
  keeps p p' → (∀ ch, ch ∈ closed p' → ch ∈ closed p ∨ ∃ k, isActorPaused p !! k = Some ch) → evolves p p'.
Proof. intros (P1 & B1 & M1 & C1) Hc. split; [lia|done|congruence|rewrite P1; auto|done]. Qed.

Lemma evolves_refl p : evolves p p.
Proof. split; auto. Qed.

(** Closing the channel of a pause: it is closed exactly when it was open. *)
Lemma close_open_spec ch p : wfp p → (∃ k, isActorPaused p !! k = Some ch) →
  ∃ p', close_open ch p = (Ok tt, p') ∧ wfp p' ∧ keeps p p' ∧ closed p' = {[ch]} ∪ closed p.
Proof.
  intros [Ho Hp Hc Hb] [k Hk]. destruct (Hp k ch Hk) as [Hm Hoc]. unfold close_open, bind, get.
  destruct (isChannelOpen p !! ch) as [b|] eqn:E.
  - destruct (Ho ch b E) as (-> & Hn & _). unfold close. rewrite decide_False by done.
    unfold forget_channel, modify. eexists. split; [done|]. simpl. split_and!; [|by split_and!; [..|set_solver]|done].
    split; simpl.
    + intros ch' b [Hne E']%lookup_delete_Some. destruct (Ho ch' b E') as (-> & ? & ?). set_solver.
    + intros k' ch' Hk'. destruct (Hp k' ch' Hk') as [? [Ho'|?]]; split; [done| |done|set_solver].
      destruct (decide (ch' = ch)) as [->|?]; [set_solver|]. left. by rewrite lookup_delete_ne.
    + intros ch' [->%elem_of_singleton|?]%elem_of_union; auto.
    + done.
  - destruct Hoc as [?|Hcl]; [congruence|]. exists p. split_and!; [done|by split|done|set_solver].
Qed.

Lemma immune_spec actor p : wfp p →
  ∃ p', immune actor p = (Ok tt, p') ∧ wfp p' ∧ keeps p p' ∧ closed p' = closed p.
Proof. intros [Ho Hp Hc Hb]. eexists. split; [done|]. by split_and!. Qed.

(** Ending the pauses of a list of actors closes their channels, and no others. *)
Lemma unpause_all_spec l p : wfp p → Forall (λ kv, isActorPaused p !! kv.1 = Some kv.2) l →
  ∃ p', unpause_all l p = (Ok tt, p') ∧ wfp p' ∧ keeps p p' ∧ closed p' = list_to_set (l.*2) ∪ closed p.
Proof.
  revert p. induction l as [|[k ch] l IH]; intros p Hwf Hl; simpl.
  - exists p. split_and!; [done|done|done|set_solver].
  - apply Forall_cons in Hl as [Hk Hl]. simpl in Hk.
    destruct (immune_spec k p Hwf) as (p1 & E1 & W1 & K1 & C1).
    destruct K1 as (P1 & K1).
    destruct (close_open_spec ch p1 W1) as (p2 & E2 & W2 & K2 & C2); [exists k; by rewrite P1|].
    destruct (IH p2 W2) as (p3 & E3 & W3 & K3 & C3).
    { destruct K2 as (P2 & _). by rewrite P2, P1. }
    exists p3. rewrite (bind_ret _ _ _ _ _ E1), (bind_ret _ _ _ _ _ E2), E3.
    split_and!; [done|done|by etrans; [split; [exact P1|exact K1]|etrans; eassumption]|].
    rewrite C3, C2, C1. set_solver.
Qed.

(** After the pause of the node is ended, the channel of every pause is closed. *)
Lemma unpauseNode_spec cur p : wfp p →
  ∃ p', unpauseNode cur p = (Ok tt, p') ∧ wfp p' ∧ keeps p p' ∧
    (∀ ch, ch ∈ closed p' ↔ ch ∈ closed p ∨ ∃ k, isActorPaused p !! k = Some ch).
Proof.
  intros Hwf. unfold unpauseNode.
  assert (∃ p1, (if cur then ret tt else end_node_pause) p = (Ok tt, p1) ∧ wfp p1 ∧ keeps p p1 ∧ closed p1 = closed p)
    as (p1 & E1 & W1 & K1 & C1).
  { destruct cur; [by exists p|]. eexists. split; [done|]. destruct Hwf. by split_and!. }
  rewrite (bind_ret _ _ _ _ _ E1). unfold bind, get. destruct K1 as (P1 & K1).
  destruct (unpause_all_spec (actor_iter (isActorPaused p1)) p1 W1) as (p2 & E2 & W2 & K2 & C2).
  { apply Forall_forall. intros [k ch]. rewrite actor_iter_perm. apply elem_of_map_to_list. }
  exists p2. split_and!; [done|done|by etrans; [split; [exact P1|exact K1]|]|].
  intros ch. rewrite C2, C1, elem_of_union, elem_of_list_to_set, list_elem_of_fmap. split.
  - intros [([k ch'] & -> & Hin)|?]; [right|by left]. exists k. simpl.
    rewrite actor_iter_perm, elem_of_map_to_list in Hin. by rewrite <-P1.
  - intros [?|[k Hk]]; [by right|left]. exists (k, ch). split; [done|].
    rewrite actor_iter_perm, elem_of_map_to_list. by rewrite P1.
Qed.

Lemma pause_spec info bk p : wfp p →
  ∃ p', pause info bk p = (Ok tt, p') ∧ wfp p' ∧ evolves p p' ∧ closed p' = closed p ∧
    is_Some (isActorPaused p' !! info).
Proof.
  intros Hwf. unfold pause. destruct (isActorPaused p !! info) as [ch|] eqn:E.
  - exists p. split_and!; [done|done|apply evolves_refl|done|by rewrite E].
  - destruct Hwf as [Ho Hp Hc Hb]. eexists. split; [done|].
    assert (isChannelOpen p !! made p = None) as Hfresh.
    { destruct (isChannelOpen p !! made p) eqn:Ef; [|done]. destruct (Ho _ _ Ef) as (_ & _ & ?). lia. }
    split_and!; [| |done|simpl; by rewrite lookup_insert_eq].
    + split; simpl.
      * intros ch b [[<- <-]|[Hne Hch]]%lookup_insert_Some.
        -- split_and!; [done| |lia]. intros Hin. specialize (Hc _ Hin). lia.
        -- destruct (Ho ch b Hch) as (? & ? & ?). split_and!; [done|done|lia].
      * intros k ch [[<- <-]|[Hne Hk]]%lookup_insert_Some; [split; [lia|left; by rewrite lookup_insert_eq]|].
        destruct (Hp k ch Hk) as [? [Hop|?]]; (split; [lia|]); [left|by right].
        rewrite lookup_insert_ne; [done|lia].
      * intros ch Hin. specialize (Hc ch Hin). lia.
      * intros k. rewrite !lookup_insert_is_Some'. rewrite Hb. done.
    + split; simpl; [lia|done| | |auto].
      * intros k ch Hk. rewrite lookup_insert_ne; [done|congruence].
      * intros k ch [[<- <-]|[Hne Hk]]%lookup_insert_Some; [right; lia|by left].
Qed.

(** No critical section panics, and the tables stay consistent. *)
Lemma perform_spec op p : wfp p → ∃ p', perform op p = (Ok tt, p') ∧ wfp p' ∧ evolves p p'.
Proof.
  intros Hwf. destruct op as [info bk|bk|info|info|cur]; simpl.
  - destruct (pause_spec info bk p Hwf) as (p' & E & W & V & _). eauto.
  - eexists. split; [done|]. destruct Hwf. split; [by split|]. apply keeps_evolves; [by split_and!|auto].
  - unfold pause_in_node, bind, get. destruct (isNodePaused p && _).
    + destruct (pause_spec info (nodePausedBk p) p Hwf) as (p' & E & W & V & _). eauto.
    + exists p. split_and!; [done|done|apply evolves_refl].
  - unfold unpause, bind, get. destruct (isActorPaused p !! info) as [ch|] eqn:E.
    + destruct (close_open_spec ch p Hwf) as (p' & Ec & W & K & C); [eauto|]. exists p'. split_and!; [done|done|].
      apply keeps_evolves; [done|]. intros ch'. rewrite C. intros [->%elem_of_singleton|?]%elem_of_union; eauto.
    + exists p. split_and!; [done|done|apply evolves_refl].
  - destruct (unpauseNode_spec cur p Hwf) as (p' & E & W & K & C). exists p'. split_and!; [done|done|].
    apply keeps_evolves; [done|]. intros ch. by rewrite C.
Qed.

Lemma forget_pause_wfp key p p' : wfp p → forget_pause key p = (Ok tt, p') →
  wfp p' ∧ closed p' = closed p ∧ made p' = made p ∧
  ∀ k, isActorPaused p' !! k = if decide (k = key) then None else isActorPaused p !! k.
Proof.
  intros [Ho Hp Hc Hb] [= <-].
  assert (∀ k, delete key (isActorPaused p) !! k = if decide (k = key) then None else isActorPaused p !! k) as Hd.
  { intros k. case_decide as E; [subst k; by rewrite lookup_delete_eq|by rewrite lookup_delete_ne]. }
  split_and!; [|done|done|done]. split; simpl; [done| |done|].
  - intros k ch. rewrite Hd. case_decide; [done|]. apply Hp.
  - intros k. rewrite !lookup_delete_is_Some. by rewrite Hb.
Qed.

(** Rule induction: the tables are consistent in every reachable state. *)
Lemma reachable_wfp s : rtc pstep initial s → wfp (ps_pauses s).
Proof.
  apply (rtc_ind_r (λ s, wfp (ps_pauses s))); [apply wfp_no_pauses|].
  intros s1 s2 _ Hstep Hwf. destruct Hstep; simpl in *; try done.
  - match goal with E : perform _ _ = _ |- _ => destruct (perform_spec op p Hwf) as (q & E' & W & _); congruence end.
  - by eapply forget_pause_wfp.
Qed.

(** C24: however pauses, ends of pauses and waits interleave, no channel is closed
    twice, so no command of a debugger panics; and a pause has a breakpoint
    exactly when its channel is recorded, which [waitOnPause] assumes. *)
Theorem pausing_safe s op : rtc pstep initial s →
  is_Ok (perform op (ps_pauses s)).1 ∧
  ∀ k, is_Some (isActorPaused (ps_pauses s) !! k) ↔ is_Some (pausedBreaks (ps_pauses s) !! k).
Proof.
  intros Hwf%reachable_wfp. destruct (perform_spec op _ Hwf) as (p' & -> & _ & _).
  split; [by exists tt|]. apply (wfp_breaks _ Hwf).
Qed.

(** The goroutine [t] waits, or has just woken up, for the pause under [k]. *)
Definition engaged (s : psystem) (t : nat) (k : actorTuple_t) : Prop :=
  ∃ info node, k = wait_key info node ∧
    ((∃ ch, ps_waiters s !! t = Some (info, WBlocked node ch)) ∨ ps_waiters s !! t = Some (info, WWoken node)).

(** At most one goroutine at a time waits for each pause. *)
Definition exclusive (s : psystem) : Prop :=
  ∀ t t' k, engaged s t k → engaged s t' k → t = t'.

Definition exclusive_step (s s' : psystem) : Prop := pstep s s' ∧ exclusive s'.

Definition blocked_on_pause (s : psystem) : Prop :=
  ∀ t info node ch, ps_waiters s !! t = Some (info, WBlocked node ch) →
    isActorPaused (ps_pauses s) !! wait_key info node = Some ch.

Lemma lookup_other {A} (t t' : nat) (x y : A) (ws : gmap nat A) (P : A → Prop) :
  P x → ¬ P y → <[t := y]> ws !! t' = Some x → ws !! t' = Some x.
Proof. intros Hx Hy [[<- ->]|[_ ?]]%lookup_insert_Some; [done|done]. Qed.

Lemma after_wait_not_blocked node node' ch : after_wait node ≠ WBlocked node' ch.
Proof. by destruct node. Qed.

(** A waiter whose pause nobody else waits for keeps its entry. *)
Lemma exclusive_blocked s : rtc exclusive_step initial s → blocked_on_pause s ∧ rtc pstep initial s.
Proof.
  intros Hrun. assert (exclusive s ∧ blocked_on_pause s ∧ rtc pstep initial s) as (_ & ? & ?); [|done].
  revert s Hrun. apply (rtc_ind_r (λ s, exclusive s ∧ blocked_on_pause s ∧ rtc pstep initial s)).
  - split; [|split; [|done]].
    + intros t t' k (info & node & _ & [[ch E]|E]) _; simpl in E; by rewrite lookup_empty in E.
    + intros t info node ch E. simpl in E. by rewrite lookup_empty in E.
  - intros s1 s2 _ [Hstep Hex] (Hex1 & IH & Hrun). split; [done|].
    assert (rtc pstep initial s2) as Hrun2 by (eapply rtc_r; eassumption). split; [|done].
    pose proof (reachable_wfp _ Hrun) as Hwf. unfold blocked_on_pause in *.
    destruct Hstep as [op p p' ws Ep|t info p ws Hn|t info node ch p ws Ht Hp|t info node p ws Ht Hp
      |t info node ch p ws Ht Hc|t info node p p' ws Ht Ef]; simpl in *; intros t1 info1 node1 ch1 E1.
    + destruct (perform_spec op p Hwf) as (q & E & _ & V). rewrite Ep in E. simplify_eq. eapply ev_stay; eauto.
    + apply lookup_insert_Some in E1 as [[_ ?]|[_ E1]]; [done|eauto].
    + apply lookup_insert_Some in E1 as [[_ ?]|[_ E1]]; [by simplify_eq|eauto].
    + apply lookup_insert_Some in E1 as [[_ [= -> Ha]]|[_ E1]]; [by apply after_wait_not_blocked in Ha|eauto].
    + apply lookup_insert_Some in E1 as [[_ ?]|[_ E1]]; [done|eauto].
    + apply lookup_insert_Some in E1 as [[_ [= -> Ha]]|[Hne E1]]; [by apply after_wait_not_blocked in Ha|].
      destruct (forget_pause_wfp _ _ _ Hwf Ef) as (_ & _ & _ & ->). rewrite decide_False; [eauto|].
      intros Hk. apply Hne. apply (Hex1 t t1 (wait_key info node)); [exists info, node; eauto|].
      exists info1, node1. eauto.
Qed.

(** C25: as long as no two goroutines wait for the same pause, ending the pause that
    a goroutine waits for, or the pause of the node, lets it go on. *)
Theorem exclusive_waiters_wake s t info node ch op :
  rtc exclusive_step initial s → ps_waiters s !! t = Some (info, WBlocked node ch) →
  op = PUnpause (wait_key info node) ∨ (∃ cur, op = PUnpauseNode cur) →
  ∃ p', perform op (ps_pauses s) = (Ok tt, p') ∧
    pstep (mkSystem p' (ps_waiters s)) (mkSystem p' (<[t := (info, WWoken node)]> (ps_waiters s))).
Proof.
  intros [Hb Hrun]%exclusive_blocked Ht Hop. pose proof (reachable_wfp _ Hrun) as Hwf.
  specialize (Hb t info node ch Ht).
  assert (∃ p', perform op (ps_pauses s) = (Ok tt, p') ∧ ch ∈ closed p') as (p' & E & Hc).
  { destruct Hop as [->|[cur ->]]; simpl.
    - unfold unpause, bind, get. rewrite Hb.
      destruct (close_open_spec ch _ Hwf) as (p' & E & _ & _ & C); [eauto|]. exists p'. split; [done|]. set_solver.
    - destruct (unpauseNode_spec cur _ Hwf) as (p' & E & _ & _ & C). exists p'. split; [done|]. apply C. eauto. }
  exists p'. split; [done|]. by apply (step_wake t info node ch).
Qed.

(** A channel that no pause records and that is open. *)
Definition orphaned (ch : nat) (p : Pauses) : Prop :=
  (ch < made p)%nat ∧ ch ∉ closed p ∧ ∀ k, isActorPaused p !! k ≠ Some ch.

Lemma orphaned_step ch s s' : wfp (ps_pauses s) → pstep s s' →
  orphaned ch (ps_pauses s) → orphaned ch (ps_pauses s').
Proof.
  intros Hwf Hstep (Hm & Hc & Hk). destruct Hstep as [op p p' ws Ep| | | | |t info node p p' ws Ht Ef]; try done; simpl in *.
  - destruct (perform_spec op p Hwf) as (q & E & _ & [M C S N X]). rewrite Ep in E. simplify_eq.
    split_and!; [lia| |].
    + intros [?|[k ?]]%X; [done|by eapply Hk].
    + intros k [?|?]%N; [by eapply Hk|lia].
  - destruct (forget_pause_wfp _ _ _ Hwf Ef) as (_ & C & M & K). split_and!; [lia|by rewrite C|].
    intros k. rewrite K. case_decide; [done|apply Hk].
Qed.

(** A goroutine whose channel was overwritten waits for ever: when two
    goroutines wait for the same pause, the second one to leave forgets the pause
    that was made after the first one left, and whoever waits for that one is
    not woken by any command. *)
Theorem orphan_waits_forever s s' t info node ch :
  rtc pstep initial s → ps_waiters s !! t = Some (info, WBlocked node ch) → orphaned ch (ps_pauses s) →
  rtc pstep s s' → ps_waiters s' !! t = Some (info, WBlocked node ch) ∧ orphaned ch (ps_pauses s').
Proof.
  intros Hrun Ht Ho Hruns. apply reachable_wfp in Hrun.
  assert (wfp (ps_pauses s') ∧ ps_waiters s' !! t = Some (info, WBlocked node ch) ∧ orphaned ch (ps_pauses s'))
    as (_ & ? & ?); [|done].
  revert s' Hruns. apply (rtc_ind_r (λ s', wfp (ps_pauses s') ∧ _)); [done|].
  intros s1 s2 _ Hstep (Hwf & Ht1 & Ho1). pose proof (orphaned_step ch s1 s2 Hwf Hstep Ho1) as Ho2.
  split_and!; [|destruct Hstep|done].
  - destruct Hstep as [op p p' ws Ep| | | | |t' info' node' p p' ws Ht' Ef]; simpl in *; try done.
    + destruct (perform_spec op p Hwf) as (q & E & W & _). congruence.
    + by eapply forget_pause_wfp.
  - done.
  - simpl in *. rewrite lookup_insert_ne; [done|congruence].
  - simpl in *. rewrite lookup_insert_ne; [done|congruence].
  - simpl in *. rewrite lookup_insert_ne; [done|congruence].
  - simpl in *. rewrite lookup_insert_ne; [done|]. intros ->. simplify_eq. destruct Ho1 as (_ & Hn & _). done.
  - simpl in *. rewrite lookup_insert_ne; [done|congruence].
Qed.

End interleaving.

(* ---------------------------------------------------------------------- *)
(** ** What commands and breakpoints do to the pauses *)

Section effects.
Context `{ActorIter}.

(** A goroutine that waits for the pause of [k] blocks. *)
Definition held (p : Pauses) (k : actorTuple_t) : Prop :=
  ∃ ch, isActorPaused p !! k = Some ch ∧ ch ∉ closed p.

Definition same_node (p p' : Pauses) : Prop :=
  isNodePaused p' = isNodePaused p ∧ nodePausedBk p' = nodePausedBk p ∧
  immuneFromNodePaused p' = immuneFromNodePaused p.

(** The pause of an actor, or of the node, by a breakpoint: an actor that has a pause
    keeps it, and no other actor is concerned. *)
Definition pauses (target : option actorTuple_t) (bk : breakpoint_t) (p p' : Pauses) : Prop :=
  match target with
  | Some info =>
      same_node p p' ∧ (∀ k, k ≠ info → (held p' k ↔ held p k)) ∧
      match isActorPaused p !! info with
      | Some _ => p' = p
      | None => held p' info ∧ pausedBreaks p' !! info = Some bk
      end
  | None =>
      isNodePaused p' = true ∧ nodePausedBk p' = bk ∧ immuneFromNodePaused p' = ∅ ∧
      (∀ k, held p' k ↔ held p k)
  end.

(** The end of a pause: that of an actor concerns no other one; that of the node wakes
    every actor, and makes those with a pause immune from the pause of the node, which
    ends, unless the command is only for the current pauses. *)
Definition unpauses (target : option actorTuple_t) (onlyCurrent : bool) (p p' : Pauses) : Prop :=
  match target with
  | Some info => same_node p p' ∧ ¬ held p' info ∧ (∀ k, k ≠ info → (held p' k ↔ held p k))
  | None =>
      isNodePaused p' = onlyCurrent && isNodePaused p ∧ (∀ k, ¬ held p' k) ∧
      immuneFromNodePaused p' =
        dom (isActorPaused p) ∪ (if onlyCurrent then immuneFromNodePaused p else ∅)
  end.

(** Different pauses have different channels. *)
Definition distinct (p : Pauses) : Prop :=
  ∀ k1 k2 ch, isActorPaused p !! k1 = Some ch → isActorPaused p !! k2 = Some ch → k1 = k2.

Lemma distinct_pause info bk p p' : wfp p → distinct p → pause info bk p = (Ok tt, p') → distinct p'.
Proof.
  intros Hw Hd. unfold pause. destruct (isActorPaused p !! info) eqn:E; intros [= <-]; [done|].
  intros k1 k2 ch. simpl. rewrite !lookup_insert_Some.
  intros [[<- <-]|[N1 H1]] [[<- ?]|[N2 H2]]; [done| | |by eapply Hd].
  - apply Hw in H2 as [? _]. lia.
  - subst. apply Hw in H1 as [? _]. lia.
Qed.

Lemma perform_distinct op p p' : wfp p → distinct p → perform op p = (Ok tt, p') → distinct p'.
Proof.
  intros Hw Hd E. destruct op as [info bk|bk|info|info|cur]; simpl in E.
  - by eapply distinct_pause.
  - by injection E as <-.
  - unfold pause_in_node, bind, get in E. destruct (_ && _); [by eapply distinct_pause|by injection E as <-].
  - unfold unpause, bind, get in E. destruct (isActorPaused p !! info) as [ch|] eqn:Ei; [|by injection E as <-].
    destruct (close_open_spec ch p Hw) as (q & E' & _ & (P & _) & _); [by eexists|].
    rewrite E in E'. injection E' as ->. intros k1 k2 c. rewrite P. apply Hd.
  - destruct (unpauseNode_spec cur p Hw) as (q & E' & _ & (P & _) & _).
    rewrite E in E'. injection E' as ->. intros k1 k2 c. rewrite P. apply Hd.
Qed.

Lemma reachable_distinct s : rtc pstep initial s → distinct (ps_pauses s).
Proof.
  intros Hr. enough (wfp (ps_pauses s) ∧ distinct (ps_pauses s)) by tauto. revert s Hr.
  apply (rtc_ind_r (λ s, wfp (ps_pauses s) ∧ distinct (ps_pauses s))); [split; [apply wfp_no_pauses|by intros ???]|].
  intros s1 s2 Hr Hs [Hw Hd]. split; [apply reachable_wfp; by eapply rtc_r|]. destruct Hs; simpl in *; try done.
  - by eapply perform_distinct.
  - destruct (forget_pause_wfp _ _ _ Hw ltac:(eassumption)) as (_ & _ & _ & P).
    intros k1 k2 ch. rewrite !P. repeat case_decide; [done..|apply Hd].
Qed.

Lemma held_keeps p p' k : isActorPaused p' = isActorPaused p → closed p' = closed p → held p' k ↔ held p k.
Proof. intros P C. unfold held. by rewrite P, C. Qed.

Lemma pause_pauses info bk p : wfp p → pauses (Some info) bk p (pause info bk p).2.
Proof.
  intros Hw. unfold pause. destruct (isActorPaused p !! info) as [ch|] eqn:E; simpl; rewrite E; [done|].
  split; [done|]. split; [|split; [|by rewrite lookup_insert_eq]].
  - intros k Hk. unfold held. simpl. by rewrite lookup_insert_ne.
  - exists (made p). simpl. rewrite lookup_insert_eq. split; [done|]. intros Hc%(wfp_closed _ Hw). lia.
Qed.

Lemma close_open_node ch p p' r : close_open ch p = (r, p') → same_node p p'.
Proof.
  unfold close_open, bind, get. destruct (isChannelOpen p !! ch) as [[]|]; [|by intros [= <- <-]..].
  unfold close. case_decide; by intros [= <- <-].
Qed.

Lemma unpause_unpauses info cur p : wfp p → distinct p → unpauses (Some info) cur p (unpause info p).2.
Proof.
  intros Hw Hd. unfold unpause, bind, get. destruct (isActorPaused p !! info) as [ch|] eqn:E.
  - destruct (close_open_spec ch p Hw) as (q & Eq & _ & (P & _) & C); [by eexists|].
    rewrite Eq. simpl. split; [by eapply close_open_node|split].
    + intros (c & Hc & Hn). rewrite P, E in Hc. injection Hc as <-. rewrite C in Hn. set_solver.
    + intros k Hk. unfold held. rewrite P, C. split; intros (c & Hc & Hn); exists c; (split; [done|]); [set_solver|].
      intros [->%elem_of_singleton|?]%elem_of_union; [|done]. by destruct (Hk (Hd _ _ _ Hc E)).
  - simpl. split; [done|]. split; [|done]. intros (c & Hc & _). by rewrite E in Hc.
Qed.

Lemma unpause_all_node l p p' : unpause_all l p = (Ok tt, p') →
  isNodePaused p' = isNodePaused p ∧ immuneFromNodePaused p' = list_to_set l.*1 ∪ immuneFromNodePaused p.
Proof.
  revert p. induction l as [|[k ch] l IH]; intros p E; cbn [unpause_all] in E.
  - injection E as <-. split; [done|set_solver].
  - apply bind_Ok in E as ([] & p1 & [= <-] & E). apply bind_Ok in E as ([] & p2 & E2 & E).
    apply close_open_node in E2 as (N & _ & I). destruct (IH _ E) as [N' I']. rewrite N', N, I', I.
    split; [done|]. simpl. set_solver.
Qed.

Lemma unpauseNode_unpauses cur p : wfp p → unpauses None cur p (unpauseNode cur p).2.
Proof.
  intros Hw. destruct (unpauseNode_spec cur p Hw) as (q & E & _ & (P & _) & C). rewrite E. simpl.
  unfold unpauseNode in E. apply bind_Ok in E as ([] & p1 & E1 & E). unfold bind, get in E.
  apply unpause_all_node in E as [N I].
  assert (isNodePaused p1 = cur && isNodePaused p ∧ isActorPaused p1 = isActorPaused p ∧
          immuneFromNodePaused p1 = (if cur then immuneFromNodePaused p else ∅)) as (N1 & P1 & I1)
    by (destruct cur; injection E1 as <-; done).
  split_and!; [by rewrite N| |].
  - intros k (ch & Hk & Hn). apply Hn, C. right. exists k. by rewrite <-P.
  - rewrite I, I1, P1. f_equal. apply set_eq. intros k. rewrite elem_of_list_to_set, list_elem_of_fmap, elem_of_dom.
    split.
    + intros ([k' c] & -> & Hin). rewrite actor_iter_perm, elem_of_map_to_list in Hin. by eexists.
    + intros [c Hc]. exists (k, c). split; [done|]. by rewrite actor_iter_perm, elem_of_map_to_list.
Qed.
End effects.

Section commands_effects.
Context {W : Type} `{RpcOps W} `{SidecarOps W} `{DebugOps W} `{Json} `{CommandJson} `{MapIter} `{ActorIter}.
Context (Sprint : any → string) (regexp_Match : string → string → bool).
Context (ParseConds : string → option CondList_p).
Context (IsDebugMode : bool).

(** The parts of the handlers that leave the pauses as they are. *)
Definition calm (w w' : @world W) : Prop := d_pauses (g_dbg w') = d_pauses (g_dbg w).

#[local] Instance calm_pre : PreOrder calm.
Proof. split; [done|]. intros w1 w2 w3 E1 E2. unfold calm in *. congruence. Qed.

Lemma calm_env {A} (m : M W A) : preserves calm (on_env m).
Proof. intros w. unfold on_env. by destruct (m (g_env w)). Qed.

Lemma calm_bks {A} (m : M Breakpoints A) : preserves calm (on_bks m).
Proof. intros w. unfold on_bks. by destruct (m _). Qed.

Lemma calm_the_dbg : preserves calm the_dbg.
Proof. by intros w. Qed.

Lemma calm_spin {A} : preserves calm (@spin W A).
Proof. by intros w. Qed.

Lemma calm_on_dbg f : (∀ d, d_pauses (f d) = d_pauses d) → preserves calm (on_dbg f).
Proof. intros Hf w. unfold on_dbg, modify, calm. simpl. apply Hf. Qed.

#[local] Hint Extern 1 (PreOrder _) => apply _ : frame.
#[local] Hint Resolve calm_env calm_bks calm_the_dbg calm_spin : frame.
#[local] Hint Extern 1 (preserves calm (on_dbg _)) => apply calm_on_dbg; reflexivity : frame.
#[local] Hint Extern 2 (preserves _ (match ?x with _ => _ end)) => destruct x : frame.

Lemma calm_tell_nodes nodes bytes : preserves calm (tell_nodes nodes bytes).
Proof. induction nodes; simpl; auto with frame. Qed.
#[local] Hint Resolve calm_tell_nodes : frame.

Lemma calm_tell_all nodes msg : preserves calm (tell_all nodes msg).
Proof. unfold tell_all. auto with frame. Qed.
#[local] Hint Resolve calm_tell_all : frame.

Lemma calm_pauseAllSidecars bk : preserves calm (pauseAllSidecars bk).
Proof. unfold pauseAllSidecars. auto 8 with frame. Qed.
#[local] Hint Resolve calm_pauseAllSidecars : frame.

Lemma calm_inform info req bk v r k : preserves calm (informBreakpoint info req bk v r k).
Proof. unfold informBreakpoint. auto with frame. Qed.
#[local] Hint Resolve calm_inform : frame.

Lemma calm_closeConn conn key : preserves calm (closeConn conn key).
Proof. unfold closeConn, unregisterDebuggerSidecar. auto 12 with frame. Qed.
#[local] Hint Resolve calm_closeConn : frame.

Lemma calm_send_conns l bytes cur : preserves calm (send_conns l bytes cur).
Proof. induction l as [|[key conn] l IH]; simpl; auto 10 with frame. Qed.
#[local] Hint Resolve calm_send_conns : frame.

Lemma calm_json_reply r : preserves calm (json_reply r).
Proof. unfold json_reply, reply_json, marshalled. auto 10 with frame. Qed.
#[local] Hint Resolve calm_json_reply : frame.

Lemma calm_reply_ok : preserves calm reply_ok.
Proof. unfold reply_ok, marshalled. auto with frame. Qed.
#[local] Hint Resolve calm_reply_ok : frame.

Lemma calm_registerDebugger node : preserves calm (registerDebugger node).
Proof. unfold registerDebugger. auto with frame. Qed.
#[local] Hint Resolve calm_registerDebugger : frame.

(** A command or a breakpoint that performs [op] on the pauses, and nothing else. *)
Definition does (op : pause_op) (w w' : @world W) : Prop :=
  d_pauses (g_dbg w') = (perform op (d_pauses (g_dbg w))).2.

Lemma does_between {A B} (m : M world A) (op : pause_op) (k : unit → M world B) w r w' :
  wfp (d_pauses (g_dbg w)) → preserves calm m → (∀ x, is_Ok (m x).1) → (∀ u, preserves calm (k u)) →
  bind m (λ _, bind (on_pauses (perform op)) k) w = (r, w') → does op w w'.
Proof.
  intros Hw Hm Hok Hk. unfold bind at 1. specialize (Hm w). specialize (Hok w).
  destruct (m w) as [rm w1]. simpl in Hm, Hok. destruct Hok as [a ->].
  unfold bind, on_pauses. rewrite Hm.
  destruct (perform_spec op _ Hw) as (p & E & _). unfold does. rewrite E.
  match goal with |- k tt ?x = _ → _ => intros Ek; pose proof (Hk tt x) as Q end. rewrite Ek in Q. exact Q.
Qed.

Lemma registerDebugger_ok node (w : @world W) : is_Ok (registerDebugger node w).1.
Proof. by eexists. Qed.

(** What a command of a debugger does to the pauses. *)
Definition command_effect (msg : gmap string string) (d : dbg) (p p' : Pauses) : Prop :=
  let command := index_str msg "command" in
  if String.eqb command "pause" then pauses (pause_target msg) (pause_bk msg) p p'
  else if String.eqb command "unpause" then
    unpauses (pause_target msg) (bool_decide (is_Some (msg !! "onlyUnpauseCurrent"))) p p'
  else if String.eqb command "unregisterDebugger" && negb IsDebugMode &&
          bool_decide (delete (index_str msg "nodeId") (debuggersMap d) = ∅)
  then unpauses None false p p'
  else p' = p.

(** The critical section of a command, if it has one. *)
Definition command_op (msg : gmap string string) (d : dbg) : option pause_op :=
  let command := index_str msg "command" in
  if String.eqb command "pause" then
    Some (match pause_target msg with None => PPauseNode (pause_bk msg) | Some info => PPause info (pause_bk msg) end)
  else if String.eqb command "unpause" then
    Some (match pause_target msg with
          | None => PUnpauseNode (bool_decide (is_Some (msg !! "onlyUnpauseCurrent")))
          | Some info => PUnpause info
          end)
  else if String.eqb command "unregisterDebugger" && negb IsDebugMode &&
          bool_decide (delete (index_str msg "nodeId") (debuggersMap d) = ∅)
  then Some (PUnpauseNode false) else None.

Lemma perform_effect op p : wfp p → distinct p →
  match op with
  | PPause info bk => pauses (Some info) bk p (perform op p).2
  | PPauseNode bk => pauses None bk p (perform op p).2
  | PPauseInNode info => True
  | PUnpause info => unpauses (Some info) false p (perform op p).2
  | PUnpauseNode cur => unpauses None cur p (perform op p).2
  end.
Proof.
  intros Hw Hd. destruct op as [info bk|bk|info|info|cur]; [|by split_and!|done|..]; simpl.
  - by apply pause_pauses.
  - by apply unpause_unpauses.
  - by apply unpauseNode_unpauses.
Qed.

Lemma unregister_does node (w w' : @world W) r : wfp (d_pauses (g_dbg w)) →
  (unregisterDebugger IsDebugMode node ;;* reply_ok) w = (r, w') →
  match negb IsDebugMode && bool_decide (delete node (debuggersMap (g_dbg w)) = ∅) with
  | true => does (PUnpauseNode false) w w'
  | false => calm w w'
  end.
Proof.
  intros Hw. unfold unregisterDebugger, bind at 1. unfold bind at 1, the_dbg, bind at 1, get at 1, ret at 1.
  destruct (perform_spec (PUnpauseNode false) _ Hw) as (p & E & _). simpl in E.
  destruct (decide (size _ = 0%nat)) as [Hs|Hs].
  - rewrite bool_decide_true by by apply map_size_empty_inv. rewrite andb_true_r.
    unfold bind at 1, on_dbg, modify. destruct IsDebugMode; simpl.
    + intros Er. pose proof (calm_reply_ok {| g_dbg := set_debuggers false (delete node (debuggersMap (g_dbg w))) (g_dbg w);
        g_env := g_env w |}) as Q. unfold ret in Er. rewrite Er in Q. exact Q.
    + unfold bind, on_pauses. simpl. unfold does. simpl. rewrite E. unfold on_bks. simpl. intros Er.
      match type of Er with reply_ok ?x = _ => pose proof (calm_reply_ok x) as Q end. rewrite Er in Q. exact Q.
  - rewrite bool_decide_false by (intros Hz; by rewrite Hz in Hs). rewrite andb_false_r.
    unfold on_dbg, modify. intros Er.
    match type of Er with reply_ok ?x = _ => pose proof (calm_reply_ok x) as Q end. rewrite Er in Q. exact Q.
Qed.

(** The pauses after a command. *)
Lemma handlerDebugger_does value msg (w w' : @world W) r : wfp (d_pauses (g_dbg w)) →
  UnmarshalMsg value = Some msg → handlerDebugger IsDebugMode value w = (r, w') →
  match command_op msg (g_dbg w) with Some op => does op w w' | None => calm w w' end.
Proof.
  intros Hw Em. unfold handlerDebugger, command_op. rewrite Em.
  assert (∀ (m : @world W → _), preserves calm m → m w = (r, w') → calm w w') as Hq
    by (intros m Hm E; specialize (Hm w); by rewrite E in Hm).
  destruct (String.eqb_spec (index_str msg "command") "setBreakpoint") as [Ec|_].
  { rewrite Ec. apply Hq. auto 10 with frame. }
  destruct (String.eqb_spec (index_str msg "command") "unsetBreakpoint") as [Ec|_].
  { rewrite Ec. apply Hq. auto 10 with frame. }
  destruct (String.eqb (index_str msg "command") "pause").
  { intros E. destruct (pause_target msg) as [info|];
      (eapply (does_between (registerDebugger _)); [done|apply calm_registerDebugger|apply registerDebugger_ok| |exact E]);
      intros; apply calm_reply_ok. }
  destruct (String.eqb (index_str msg "command") "unpause").
  { intros E. destruct (pause_target msg) as [info|];
      (eapply (does_between (registerDebugger _)); [done|apply calm_registerDebugger|apply registerDebugger_ok| |exact E]);
      intros; apply calm_reply_ok. }
  destruct (String.eqb_spec (index_str msg "command") "registerDebugger") as [Ec|_].
  { rewrite Ec. apply Hq. auto 10 with frame. }
  destruct (String.eqb (index_str msg "command") "unregisterDebugger"); simpl.
  { intros E%unregister_does; [|done]. by destruct (_ && _). }
  apply Hq. unfold notify, sendAll, listBreakpoints, listPausedActors, listBusyActors, editResponse.
  repeat (match goal with |- preserves _ (if ?b then _ else _) => destruct b end); auto 12 with frame.
Qed.

(* ---------------------------------------------------------------------- *)
(** *** Breakpoints *)

(** What a breakpoint that is hit does, [node] being what it pauses for the node. *)
Definition break_effect (me : actorTuple_t) (node : option actorTuple_t) (hit : option breakpoint_t)
    (p q : Pauses) : Prop :=
  match hit with
  | Some bk =>
      if String.eqb (breakpointType bk) "actor" then pauses (Some me) bk p q
      else if String.eqb (breakpointType bk) "node" || String.eqb (breakpointType bk) "global"
      then pauses node bk p q else q = p
  | None => q = p
  end.

(** A request of an actor that is not immune is held by the pause of the node. *)
Definition node_effect (me : actorTuple_t) (p q : Pauses) : Prop :=
  if isNodePaused p && negb (bool_decide (me ∈ immuneFromNodePaused p))
  then pauses (Some me) (nodePausedBk p) p q else q = p.

Definition pause_op_of (target : option actorTuple_t) (bk : breakpoint_t) : pause_op :=
  match target with None => PPauseNode bk | Some info => PPause info bk end.

Definition break_op (me : actorTuple_t) (node : option actorTuple_t) (hit : option breakpoint_t) : option pause_op :=
  match hit with
  | Some bk =>
      if String.eqb (breakpointType bk) "actor" then Some (PPause me bk)
      else if String.eqb (breakpointType bk) "node" || String.eqb (breakpointType bk) "global"
      then Some (pause_op_of node bk) else None
  | None => None
  end.

Definition performs (op : option pause_op) (p : Pauses) : Pauses :=
  match op with Some op => (perform op p).2 | None => p end.

Lemma performs_ok op p : wfp p → distinct p → wfp (performs op p) ∧ distinct (performs op p).
Proof.
  intros Hw Hd. destruct op as [op|]; [|done]. simpl.
  destruct (perform_spec op p Hw) as (q & E & Wq & _). rewrite E. split; [done|]. exact (perform_distinct op p q Hw Hd E).
Qed.

Lemma reach_performs op p ws :
  rtc pstep initial (mkSystem p ws) → rtc pstep initial (mkSystem (performs op p) ws).
Proof.
  intros Hr. destruct op as [op|]; [|done]. simpl. eapply rtc_r; [exact Hr|].
  destruct (perform_spec op p (reachable_wfp _ Hr)) as (q & E & _). rewrite E. by apply (step_op op).
Qed.

Lemma break_op_effect me node hit p : wfp p → distinct p →
  break_effect me node hit p (performs (break_op me node hit) p).
Proof.
  intros Hw Hd. unfold break_effect, break_op. destruct hit as [bk|]; [|done].
  destruct (String.eqb _ "actor"); [by apply pause_pauses|]. destruct (_ || _); [|done].
  destruct node as [info|]; [by apply pause_pauses|]. exact (perform_effect (PPauseNode bk) p Hw Hd).
Qed.

Lemma node_op_effect me p : wfp p → node_effect me p (perform (PPauseInNode me) p).2.
Proof.
  intros Hw. unfold node_effect. simpl. unfold pause_in_node, bind, get.
  destruct (_ && _); [by apply pause_pauses|done].
Qed.

Lemma test_breakpoint_hit a req resp w hit w' :
  test_breakpoint Sprint regexp_Match ParseConds a req resp w = (Ok hit, w') →
  checkBreakpoint Sprint regexp_Match ParseConds a req resp (d_bks (g_dbg w)) = Ok hit ∧ calm w w'.
Proof.
  unfold test_breakpoint. intros E. apply bind_Ok in E as (d & w1 & [= <- <-] & E).
  apply bind_Ok in E as (hit' & w2 & E2 & E). unfold of_res in E2. injection E2 as E2 <-. rewrite E2.
  destruct hit' as [bk|]; [|by injection E as <- <-].
  apply bind_Ok in E as (u & w3 & E3 & E). injection E as <- <-. split; [done|].
  destruct (deleteOnHit bk); by injection E3 as <- <-.
Qed.

(** The part of a breakpoint after it was hit. *)
Lemma break_does {B} me node hit bk (inform : M (@world W) B) (m : M Pauses unit) w w' :
  wfp (d_pauses (g_dbg w)) → hit = Some bk → preserves calm inform → m = perform (pause_op_of node bk) →
  (inform ;;*
   if String.eqb (breakpointType bk) "actor" then on_pauses (pause me bk)
   else if String.eqb (breakpointType bk) "node" then on_pauses m
   else if String.eqb (breakpointType bk) "global" then on_pauses m ;;* pauseAllSidecars bk
   else if String.eqb (breakpointType bk) "suicide" then on_env cancel9 ;;* spin
   else ret tt) w = (Ok tt, w') →
  d_pauses (g_dbg w') = performs (break_op me node hit) (d_pauses (g_dbg w)).
Proof.
  intros Hw -> Hi -> E. apply bind_Ok in E as (u & w1 & E1 & E). specialize (Hi w). rewrite E1 in Hi. simpl in Hi.
  rewrite <-Hi. rewrite <-Hi in Hw. clear E1 Hi w. unfold break_op.
  destruct (String.eqb _ "actor").
  { unfold on_pauses in E. simpl. by destruct (pause _ _ _); injection E as _ <-. }
  destruct (String.eqb _ "node"); simpl.
  { unfold on_pauses in E. by destruct (perform _ _); injection E as _ <-. }
  destruct (String.eqb _ "global"); simpl.
  { apply bind_Ok in E as (u' & w2 & E2 & E). pose proof (calm_pauseAllSidecars bk w2) as Q.
    rewrite E in Q. unfold calm in Q. simpl in Q. rewrite Q. unfold on_pauses in E2. by destruct (perform _ _); injection E2 as _ <-. }
  destruct (String.eqb _ "suicide"); [|by injection E as <-].
  apply bind_Ok in E as (u' & w2 & _ & E). discriminate E.
Qed.

Lemma request_break_does target req path value (w w' : @world W) :
  wfp (d_pauses (g_dbg w)) → request_break Sprint regexp_Match ParseConds target req path value w = (Ok tt, w') →
  let me := mkTuple (s_ID target) (s_Name target) in
  ∃ hit, checkBreakpoint Sprint regexp_Match ParseConds
           (mkAttrs (s_ID target) (s_Name target) path "request" (s_Flow target)) value "" (d_bks (g_dbg w)) = Ok hit ∧
    d_pauses (g_dbg w') = (perform (PPauseInNode me) (performs (break_op me None hit) (d_pauses (g_dbg w)))).2.
Proof.
  intros Hw E. cbv zeta. unfold request_break in E. apply bind_Ok in E as (hit & w1 & E1 & E).
  apply test_breakpoint_hit in E1 as [Eh Q1]. apply bind_Ok in E as ([] & w2 & E2 & E).
  exists hit. split; [done|]. unfold calm in Q1. rewrite <-Q1 in Hw |- *. clear Eh Q1 w.
  assert (d_pauses (g_dbg w2) = performs (break_op (mkTuple (s_ID target) (s_Name target)) None hit) (d_pauses (g_dbg w1))) as <-.
  { destruct hit as [bk|]; [|by injection E2 as <-].
    eapply (break_does _ None (Some bk) bk); [done|done|apply calm_inform| |exact E2]. done. }
  unfold on_pauses in E. simpl in *. by destruct (pause_in_node _ _); injection E as _ <-.
Qed.

Lemma response_break_does target bk req value reply shown (w w' : @world W) :
  wfp (d_pauses (g_dbg w)) →
  response_break Sprint regexp_Match ParseConds target bk req value reply shown w = (Ok tt, w') →
  let me := mkTuple (s_ID target) (s_Name target) in
  ∃ hit, checkBreakpoint Sprint regexp_Match ParseConds
           (mkAttrs bk.1.1 bk.1.2 bk.2 "response" (s_Flow target)) value reply (d_bks (g_dbg w)) = Ok hit ∧
    d_pauses (g_dbg w') = performs (break_op me (Some nodeActor) hit) (d_pauses (g_dbg w)).
Proof.
  intros Hw E. cbv zeta. unfold response_break in E. destruct bk as [[bi bt] bp].
  apply bind_Ok in E as (hit & w1 & E1 & E).
  apply test_breakpoint_hit in E1 as [Eh Q1]. exists hit. split; [done|].
  unfold calm in Q1. rewrite <-Q1 in Hw |- *. clear Eh Q1 w.
  destruct hit as [bk|]; [|by injection E as <-].
  eapply (break_does _ (Some nodeActor) (Some bk) bk); [done|done|apply calm_inform| |exact E]. done.
Qed.

Lemma command_op_effect msg d p : wfp p → distinct p →
  command_effect msg d p (performs (command_op msg d) p).
Proof.
  intros Hw Hd. unfold command_effect, command_op. destruct (String.eqb _ "pause").
  { destruct (pause_target msg) as [info|]; [by apply pause_pauses|].
    exact (perform_effect (PPauseNode (pause_bk msg)) p Hw Hd). }
  destruct (String.eqb _ "unpause").
  { destruct (pause_target msg) as [info|]; [by apply unpause_unpauses|by apply unpauseNode_unpauses]. }
  destruct (_ && _); [by apply unpauseNode_unpauses|done].
Qed.


End commands_effects.

(* ---------------------------------------------------------------------- *)
(** ** The tables of breakpoints *)

(** Every breakpoint is stored under the key of its own attributes, and none under
    the key without attributes. *)
Definition key_of (a : breakpointAttrs_t) : breakpointAttrs_t :=
  if negb (String.eqb (at_flowId a) "") then flow_attrs (at_flowId a) else a.

Definition keyed (b : Breakpoints) : Prop :=
  ∀ k bk, breakpointsByAttrs b !! k = Some bk → k = key_of (attrs bk) ∧ k ≠ no_attrs.

Lemma attrs_key_of msg : attrs_key msg = key_of (full_attrs msg).
Proof. done. Qed.

(** A breakpoint with a new identifier and new attributes is found under its
    key, and unsetting it by its identifier gives the tables as they were. *)
Theorem breakpoint_roundtrip msg unset_msg b :
  keyed b → breakpoints b !! index_str msg "breakpointId" = None →
  breakpointsByAttrs b !! attrs_key msg = None → attrs_key msg ≠ no_attrs →
  index_str unset_msg "breakpointId" = index_str msg "breakpointId" →
  ∃ b', setBreakpoint msg b = (Ok tt, b') ∧ keyed b' ∧
    breakpointsByAttrs b' !! attrs_key msg = Some (breakpoint_of msg) ∧
    unsetBreakpoint unset_msg b' = (Ok tt, b).
Proof.
  intros Hk Hid Hattrs Hne Hu. unfold setBreakpoint. rewrite Hattrs. eexists. split; [done|]. split_and!.
  - intros k bk E. simpl in E. apply lookup_insert_Some in E as [[<- <-]|[_ E]]; [done|by apply Hk].
  - simpl. apply lookup_insert_eq.
  - unfold unsetBreakpoint. simpl. rewrite Hu, lookup_insert_eq. simpl. f_equal.
    assert (breakpointsByAttrs b !! full_attrs msg = None) as Hfull.
    { destruct (breakpointsByAttrs b !! full_attrs msg) as [bk|] eqn:E; [|done].
      exfalso. unfold attrs_key in Hattrs. destruct (String.eqb_spec (index_str msg "flowId") "") as [Hf|Hf];
        simpl in Hattrs; [congruence|].
      destruct (Hk _ _ E) as [Eb _]. unfold key_of in Eb.
      destruct (String.eqb_spec (at_flowId (attrs bk)) "") as [Hb|Hb]; simpl in Eb.
      - apply Hf. rewrite <-Eb in Hb. exact Hb.
      - rewrite Eb in E. assert (at_flowId (attrs bk) = index_str msg "flowId") as Hff.
        { pose proof (f_equal at_flowId Eb) as Ef. simpl in Ef. done. }
        rewrite Hff in E. congruence. }
    assert (breakpointsByAttrs b !! flow_attrs (at_flowId (full_attrs msg)) = None) as Hflow.
    { unfold attrs_key in Hattrs. simpl. destruct (String.eqb_spec (index_str msg "flowId") "") as [->|Hf];
        simpl in Hattrs; [|done].
      destruct (breakpointsByAttrs b !! flow_attrs "") eqn:E; [|done]. by destruct (Hk _ _ E) as [_ ?]. }
    destruct b as [bs ba]. simpl in *. f_equal; [by apply delete_insert_id|].
    rewrite attrs_key_of. unfold key_of. simpl.
    destruct (String.eqb_spec (index_str msg "flowId") "") as [Hf|Hf]; simpl.
    + rewrite (delete_insert_id ba) by done. by apply delete_id.
    + rewrite delete_delete, delete_insert_id; [by apply delete_id|done].
Qed.

Section checking.
Context `{Json}.
Context (Sprint : any → string) (regexp_Match : string → string → bool).
Context (ParseConds : string → option CondList_p).

Definition cond_true (value : gmap string any) (cs : string) : bool :=
  match runConds Sprint regexp_Match ParseConds (AMap value) cs with Ok b => b | _ => false end.

(** The conditions on the response decide when there are any, otherwise those on
    the request do. *)
Definition satisfied (req resp : gmap string any) (bk : breakpoint_t) : bool :=
  if negb (String.eqb (respConds bk) "") then cond_true resp (respConds bk)
  else if negb (String.eqb (conds bk) "") then cond_true req (conds bk) else true.

(** The breakpoints that are looked at. *)
Definition candidates (b : Breakpoints) (a : breakpointAttrs_t) : list breakpoint_t :=
  omap (λ key, breakpointsByAttrs b !! key) (lookup_keys a).

Lemma test_conds_spec cs value hit :
  is_Ok (runConds Sprint regexp_Match ParseConds (AMap value) cs) →
  test_conds Sprint regexp_Match ParseConds cs (value, true) hit =
    Ok (Some (if negb (String.eqb cs "") then cond_true value cs else hit)).
Proof. intros [b E]. unfold test_conds, cond_true. simpl. rewrite E. by destruct (negb _). Qed.

Lemma holds_spec bk req resp :
  (∀ cs, is_Ok (runConds Sprint regexp_Match ParseConds (AMap req) cs)) →
  (∀ cs, is_Ok (runConds Sprint regexp_Match ParseConds (AMap resp) cs)) →
  holds Sprint regexp_Match ParseConds bk (req, true) (resp, true) = Ok (Some (satisfied req resp bk)).
Proof.
  intros Hreq Hresp. unfold holds, satisfied. rewrite test_conds_spec by done. by rewrite test_conds_spec.
Qed.

(** For values that can be decoded, the breakpoint that is hit is the first one
    whose conditions hold among the one of the flow, the one of the actor and the
    one of all actors of the type; there is none when no condition holds. *)
Theorem check_first_match a reqStr respStr req resp b :
  unpackRequestValue reqStr = (req, true) → unpackResponseValue respStr = (resp, true) →
  (∀ cs, is_Ok (runConds Sprint regexp_Match ParseConds (AMap req) cs)) →
  (∀ cs, is_Ok (runConds Sprint regexp_Match ParseConds (AMap resp) cs)) →
  checkBreakpoint Sprint regexp_Match ParseConds a reqStr respStr b =
    Ok (head (filter (λ bk, satisfied req resp bk = true) (candidates b a))).
Proof.
  intros Ereq Eresp Hreq Hresp. unfold checkBreakpoint, candidates. rewrite Ereq, Eresp.
  induction (lookup_keys a) as [|key keys IH]; [done|]. cbn [check_keys omap list_omap].
  destruct (breakpointsByAttrs b !! key) as [bk|]; [|done].
  rewrite holds_spec by done. rewrite filter_cons. destruct (satisfied req resp bk).
  - by rewrite decide_True.
  - by rewrite decide_False.
Qed.

(** A request cannot be tested against a breakpoint with conditions on the
    response, since the response is empty: the test ends without a hit. *)
Lemma response_conds_block_request a reqStr b bk :
  Unmarshal "" = None →
  breakpointsByAttrs b !! flow_attrs (at_flowId a) = Some bk → conds bk = "" → respConds bk ≠ "" →
  checkBreakpoint Sprint regexp_Match ParseConds a reqStr "" b = Ok None.
Proof.
  intros Eu Eb Ec Er. unfold checkBreakpoint, lookup_keys. cbn [check_keys]. rewrite Eb.
  unfold holds, test_conds. rewrite Ec. simpl. destruct (String.eqb_spec (respConds bk) ""); [done|].
  unfold unpackResponseValue, UnmarshalMap. rewrite Eu. simpl. by rewrite lookup_empty.
Qed.

End checking.

(* ---------------------------------------------------------------------- *)
(** ** Debuggers that come and go *)

Section debuggers.
Context {W : Type} `{RpcOps W} `{SidecarOps W} `{DebugOps W} `{JsonLaws} `{CommandJson} `{MapIter} `{ActorIter}.

Definition same_node_pause (p p' : Pauses) : Prop := isNodePaused p' = isNodePaused p.

#[local] Instance same_node_pause_pre : PreOrder same_node_pause.
Proof. split; [done|]. intros p1 p2 p3 E1 E2. unfold same_node_pause in *. congruence. Qed.

Lemma same_node_pause_unpause_all l : preserves same_node_pause (unpause_all l).
Proof.
  induction l as [|[k ch] l IH]; [done|]. apply preserves_bind; [apply _|done|intros _].
  apply preserves_bind; [apply _| |done]. intros p. unfold close_open, bind, get.
  destruct (isChannelOpen p !! ch) as [[|]|]; [|done|done]. unfold close. by case_decide.
Qed.

(** When the last debugger leaves a sidecar that was not started in debug mode,
    no breakpoint is left, neither is the pause of the node, and the channel of
    every pause is closed. *)
Theorem last_debugger_leaves node (w : @world W) :
  delete node (debuggersMap (g_dbg w)) = ∅ → wfp (d_pauses (g_dbg w)) →
  ∃ w', unregisterDebugger false node w = (Ok tt, w') ∧
    isDebuggerPresent (g_dbg w') = false ∧ d_bks (g_dbg w') = mkBreakpoints ∅ ∅ ∧
    isNodePaused (d_pauses (g_dbg w')) = false ∧
    ∀ k ch, isActorPaused (d_pauses (g_dbg w')) !! k = Some ch → ch ∈ closed (d_pauses (g_dbg w')).
Proof.
  intros Hd Hwf. unfold unregisterDebugger, bind at 1, the_dbg, bind at 1, get at 1, ret at 1.
  rewrite Hd, decide_True by done. unfold bind at 1, on_dbg, modify. unfold bind at 1, on_pauses. cbn [g_dbg set_debuggers d_pauses].
  destruct (unpauseNode_spec false _ Hwf) as (p' & E & _ & (P & _) & C). rewrite E.
  eexists. split; [done|]. simpl. split_and!; [done|done| |].
  - unfold unpauseNode in E. simpl in E. unfold bind at 1, end_node_pause, modify, bind, get in E.
    pose proof (same_node_pause_unpause_all
                  (actor_iter (isActorPaused (d_pauses (g_dbg w))))
                  (mkPauses (isActorPaused (d_pauses (g_dbg w))) (pausedBreaks (d_pauses (g_dbg w))) false
                     (nodePausedBk (d_pauses (g_dbg w))) ∅ (isChannelOpen (d_pauses (g_dbg w)))
                     (closed (d_pauses (g_dbg w))) (made (d_pauses (g_dbg w))))) as Hs.
    simpl in E. rewrite E in Hs. exact Hs.
  - intros k ch. rewrite P. intros Hk. apply C. eauto.
Qed.

(** The message of [pauseAllSidecars]. *)
Definition pause_all_msg (bk : breakpoint_t) : gmap string string :=
  <["command" := "pause"]> (<["actorType" := ""]> (<["actorId" := ""]> {["breakpointId" := id bk]})).

Fixpoint unregister_all (nodes : list string) : M (@world W) unit :=
  match nodes with
  | [] => ret tt
  | node :: nodes' => unregisterDebugger false node ;;* unregister_all nodes'
  end.

Lemma unregister_kept node (w : @world W) :
  node ≠ "" → is_Some (debuggersMap (g_dbg w) !! "") →
  ∃ w', unregisterDebugger false node w = (Ok tt, w') ∧ is_Some (debuggersMap (g_dbg w') !! "") ∧
    isDebuggerPresent (g_dbg w') = isDebuggerPresent (g_dbg w) ∧ d_bks (g_dbg w') = d_bks (g_dbg w) ∧
    d_pauses (g_dbg w') = d_pauses (g_dbg w).
Proof.
  intros Hn Hs. unfold unregisterDebugger, bind at 1, the_dbg, bind, get, ret.
  assert (delete node (debuggersMap (g_dbg w)) !! "" = debuggersMap (g_dbg w) !! "") as Hl by by apply lookup_delete_ne.
  rewrite decide_False.
  - eexists. split; [done|]. simpl. by rewrite Hl.
  - intros E%map_size_empty_inv. rewrite <-Hl, E, lookup_empty in Hs. by destruct Hs.
Qed.

(** The message by which a global breakpoint pauses the other sidecars names no
    debugger, so they register one without a name, which never leaves: when all
    debuggers have left, the sidecar still takes itself for debugged, and its
    pauses and its breakpoints stay. *)
Theorem global_pause_never_ends bk bytes nodes (w : @world W) :
  MarshalMsg (pause_all_msg bk) = Ok bytes → Forall (λ n, n ≠ "") nodes →
  ∃ w1 w2, (handlerDebugger false bytes w).2 = w1 ∧ isNodePaused (d_pauses (g_dbg w1)) = true ∧
    unregister_all nodes w1 = (Ok tt, w2) ∧ isDebuggerPresent (g_dbg w2) = true ∧
    d_bks (g_dbg w2) = d_bks (g_dbg w1) ∧ d_pauses (g_dbg w2) = d_pauses (g_dbg w1).
Proof.
  intros Em Hn.
  assert (∃ w1, (handlerDebugger false bytes w).2 = w1 ∧ isNodePaused (d_pauses (g_dbg w1)) = true ∧
    isDebuggerPresent (g_dbg w1) = true ∧ is_Some (debuggersMap (g_dbg w1) !! "")) as (w1 & E1 & Hp & Hd & Hs).
  { eexists. split; [done|]. unfold handlerDebugger. rewrite (UnmarshalMsg_Marshal _ _ Em).
    change (index_str (pause_all_msg bk) "command") with "pause". cbn [String.eqb Ascii.eqb Bool.eqb].
    change (index_str (pause_all_msg bk) "srcNodeId") with "".
    change (pause_target (pause_all_msg bk)) with (@None actorTuple_t).
    unfold reply_ok, marshalled, bind, attempt, of_res, registerDebugger, on_dbg, the_dbg, bind, get, ret, modify,
      on_pauses, pauseNode, modify. simpl.
    destruct (MarshalReply _); simpl; rewrite lookup_insert_eq; eauto. }
  assert (∀ w, isDebuggerPresent (g_dbg w) = true → is_Some (debuggersMap (g_dbg w) !! "") →
    ∃ w2, unregister_all nodes w = (Ok tt, w2) ∧ isDebuggerPresent (g_dbg w2) = true ∧
      d_bks (g_dbg w2) = d_bks (g_dbg w) ∧ d_pauses (g_dbg w2) = d_pauses (g_dbg w)) as Hall.
  { clear -Hn. induction Hn as [|n nodes Hn _ IH]; intros w Hd Hs; [by exists w|].
    destruct (unregister_kept n w Hn Hs) as (w1 & E & Hs1 & D1 & B1 & P1). cbn [unregister_all].
    rewrite (bind_ret _ _ _ _ _ E). destruct (IH w1) as (w2 & E2 & D2 & B2 & P2); [congruence|done|].
    exists w2. split_and!; congruence. }
  destruct (Hall w1 Hd Hs) as (w2 & E2 & D2 & B2 & P2). exists w1, w2. done.
Qed.

End debuggers.

(* ---------------------------------------------------------------------- *)
(** ** Concrete runs *)

Module Witness.
#[local] Existing Instance MiniJson.MiniJson.
#[local] Existing Instance MiniJson.MiniJson_laws.
#[local] Existing Instance canonical_iter.

#[local] Instance canonical_actors : ActorIter :=
  {| actor_iter := λ A m, map_to_list m; actor_iter_perm := λ A m, reflexivity _ |}.

(** The steps of the interleaving, as a function. *)
Inductive label : Type :=
| LOp (op : pause_op)
| LNew (t : nat) (info : actorTuple_t)
| LLook (t : nat)
| LWake (t : nat)
| LLeave (t : nat).

Definition exec (l : label) (s : psystem) : option psystem :=
  let '(mkSystem p ws) := s in
  match l with
  | LOp op => match perform op p with (Ok tt, p') => Some (mkSystem p' ws) | _ => None end
  | LNew t info => match ws !! t with None => Some (mkSystem p (<[t := (info, WLooks false)]> ws)) | Some _ => None end
  | LLook t =>
      match ws !! t with
      | Some (info, WLooks node) =>
          match isActorPaused p !! wait_key info node with
          | Some ch => Some (mkSystem p (<[t := (info, WBlocked node ch)]> ws))
          | None => Some (mkSystem p (<[t := (info, after_wait node)]> ws))
          end
      | _ => None
      end
  | LWake t =>
      match ws !! t with
      | Some (info, WBlocked node ch) =>
          if decide (ch ∈ closed p) then Some (mkSystem p (<[t := (info, WWoken node)]> ws)) else None
      | _ => None
      end
  | LLeave t =>
      match ws !! t with
      | Some (info, WWoken node) =>
          Some (mkSystem (forget_pause (wait_key info node) p).2 (<[t := (info, after_wait node)]> ws))
      | _ => None
      end
  end.

Definition execs (ls : list label) (s : psystem) : option psystem :=
  foldl (λ os l, match os with Some s => exec l s | None => None end) (Some s) ls.

Lemma exec_sound l s s' : exec l s = Some s' → pstep s s'.
Proof.
  destruct s as [p ws]. destruct l as [op|t info|t|t|t]; simpl.
  - destruct (perform op p) as [[[]| | |] p'] eqn:E; try done. intros [= <-]. by apply (step_op op).
  - destruct (ws !! t) eqn:E; [done|]. intros [= <-]. by apply step_new.
  - destruct (ws !! t) as [[info [node| | |]]|] eqn:E; try done.
    destruct (isActorPaused p !! wait_key info node) eqn:Ek; intros [= <-]; [by eapply step_enter|by eapply step_skip].
  - destruct (ws !! t) as [[info [|node ch| |]]|] eqn:E; try done. case_decide; [|done].
    intros [= <-]. by eapply step_wake.
  - destruct (ws !! t) as [[info [| |node|]]|] eqn:E; try done. intros [= <-]. by eapply step_leave.
Qed.

Lemma execs_none ls : foldl (λ os l, match os with Some s => exec l s | None => None end) None ls = None.
Proof. by induction ls. Qed.

Lemma execs_sound ls s s' : execs ls s = Some s' → rtc pstep s s'.
Proof.
  revert s. induction ls as [|l ls IH]; intros s; unfold execs; simpl; [by intros [= <-]|].
  destruct (exec l s) as [s1|] eqn:E; [|by rewrite execs_none]. intros Hr.
  eapply rtc_l; [by eapply exec_sound|]. by apply IH.
Qed.

Definition account (n : string) : actorTuple_t := mkTuple n "Account".
Definition stop : breakpoint_t := mkBreakpoint "bk-1" "actor" "" "" false (mkAttrs "1" "Account" "/deposit" "request" "").

Definition state_after (ls : list label) : psystem := default initial (execs ls initial).

Lemma state_after_reachable ls : is_Some (execs ls initial) → rtc pstep initial (state_after ls).
Proof. intros [s E]. unfold state_after. rewrite E. simpl. by eapply execs_sound. Qed.

(** The actor is paused and unpaused twice, with a request that waits. *)
Definition busy_run : list label :=
  [LOp (PPause (account "1") stop); LNew 0 (account "1"); LLook 0; LOp (PUnpause (account "1"));
   LOp (PUnpauseNode true)].

Lemma pausing_safe_witness :
  is_Ok (perform (PUnpause (account "1")) (ps_pauses (state_after busy_run))).1 ∧
  ∀ k, is_Some (isActorPaused (ps_pauses (state_after busy_run)) !! k) ↔
       is_Some (pausedBreaks (ps_pauses (state_after busy_run)) !! k).
Proof.
  apply (pausing_safe (state_after busy_run) (PUnpause (account "1"))).
  apply state_after_reachable. vm_compute. by eexists.
Defined.

(** With one goroutine the waits are exclusive. *)
Lemma exclusive_single s info w : ps_waiters s = {[0%nat := (info, w)]} ∨ ps_waiters s = ∅ → exclusive s.
Proof.
  intros Hs t t' k (i & n & _ & Ht) (i' & n' & _ & Ht').
  assert (∀ t x, ps_waiters s !! t = Some x → t = 0%nat) as H0.
  { intros t0 x E. destruct Hs as [Hs|Hs]; rewrite Hs in E; [by apply lookup_singleton_Some in E as [<- _]|done]. }
  assert (t = 0%nat) as -> by (destruct Ht as [[ch E]|E]; eauto).
  destruct Ht' as [[ch' E']|E']; symmetry; eauto.
Qed.

Definition waiting_run : list label :=
  [LOp (PPause (account "1") stop); LNew 0 (account "1"); LLook 0].

Lemma exclusive_waiters_witness :
  let s := state_after waiting_run in
  ∃ p', perform (PUnpauseNode true) (ps_pauses s) = (Ok tt, p') ∧
    pstep (mkSystem p' (ps_waiters s)) (mkSystem p' (<[0%nat := (account "1", WWoken false)]> (ps_waiters s))).
Proof.
  apply (exclusive_waiters_wake (state_after waiting_run) 0%nat (account "1") false 0%nat (PUnpauseNode true)).
  - eapply rtc_l; [split; [by apply (exec_sound (LOp (PPause (account "1") stop)))|]|].
    { apply (exclusive_single _ (account "1") WDone). by right. }
    eapply rtc_l; [split; [by apply (exec_sound (LNew 0%nat (account "1")))|]|].
    { eapply exclusive_single. left. vm_compute. reflexivity. }
    eapply rtc_l; [split; [by apply (exec_sound (LLook 0%nat))|]|].
    { eapply exclusive_single. left. vm_compute. reflexivity. }
    vm_compute. apply rtc_refl.
  - vm_compute. reflexivity.
  - right. by exists true.
Defined.

(** Two requests wait for the node; after both are woken, the first one leaves,
    the node is paused again and a third request waits; the second one leaves and
    takes the new pause along. *)
Definition orphan_run : list label :=
  [LOp (PPause nodeActor stop);
   LNew 0 (account "1"); LLook 0; LLook 0; LNew 1 (account "2"); LLook 1; LLook 1;
   LOp (PUnpause nodeActor); LWake 0; LWake 1; LLeave 0;
   LOp (PPause nodeActor stop); LNew 2 (account "3"); LLook 2; LLook 2; LLeave 1].

(** Every command of a debugger that could wake it. *)
Definition rescue : list label :=
  [LOp (PUnpause nodeActor); LOp (PUnpause (account "3")); LOp (PUnpauseNode false)].

Lemma orphan_waits_witness :
  let s' := default initial (execs rescue (state_after orphan_run)) in
  ps_waiters s' !! 2%nat = Some (account "3", WBlocked true 1) ∧ orphaned 1 (ps_pauses s').
Proof.
  refine (orphan_waits_forever (state_after orphan_run) _ 2%nat (account "3") true 1%nat _ _ _ _).
  - apply state_after_reachable. vm_compute. by eexists.
  - vm_compute. reflexivity.
  - split_and!; [vm_compute; lia|by vm_compute|]. intros k. vm_compute. done.
  - apply (execs_sound rescue). vm_compute. reflexivity.
Defined.

(** A pause that was ended while nobody waited stays recorded, so that pausing the
    actor again does nothing: the next request is not held. *)
Example lost_pause :
  let s := state_after [LOp (PPause (account "1") stop); LOp (PUnpause (account "1"));
                        LOp (PPause (account "1") stop); LNew 0 (account "1"); LLook 0; LWake 0] in
  ps_waiters s !! 0%nat = Some (account "1", WWoken false).
Proof. by vm_compute. Qed.

#[local] Existing Instances CommandProps.Witness.ops CommandProps.Witness.replies CommandProps.Witness.sidecars3.

#[local] Instance no_conns : DebugOps (list string) := {|
  MarshalWaitInfos l := Ok (Itoa (Z.of_nat (length l)));
  MarshalBusy _ _ := Ok "";
  WriteMessage _ bytes := ret tt;
  CloseConn _ := ret tt;
  cancel9 := ret tt;
|}.

Definition set_msg (bk path isRequest : string) : gmap string string :=
  <["command" := "setBreakpoint"]> (<["breakpointId" := bk]> (<["breakpointType" := "actor"]>
  (<["actorType" := "Account"]> (<["path" := path]> {["isRequest" := isRequest]})))).

Definition bytes_of (msg : gmap string string) : string := match MarshalMsg msg with Ok s => s | _ => "" end.

Definition shown_text (v : any) : string := "value".
Definition no_match (r s : string) : bool := false.
Definition one_cond (c : string) : option CondList_p := None.

(** A breakpoint for all accounts was set; a request of account 1 is paused by it. *)
Definition w1 : @world (list string) :=
  (handlerDebugger false (bytes_of (set_msg "bk-1" "/deposit" "request")) (mkWorld dbg0 [])).2.

Definition w2 : @world (list string) :=
  (request_break shown_text no_match one_cond CommandProps.Witness.account "req-1" "/deposit" "{}" w1).2.

(** The request waits for its own actor, which a command then lets go on. *)
Definition go_on_msg : gmap string string :=
  <["command" := "unpause"]> (<["actorType" := "Account"]> {["actorId" := "1"]}).
Definition w_on : @world (list string) := (handlerDebugger false (bytes_of go_on_msg) w2).2.


Lemma breakpoint_roundtrip_witness :
  let msg := set_msg "bk-1" "/deposit" "request" in
  ∃ b', setBreakpoint msg (mkBreakpoints ∅ ∅) = (Ok tt, b') ∧ keyed b' ∧
    breakpointsByAttrs b' !! attrs_key msg = Some (breakpoint_of msg) ∧
    unsetBreakpoint {["breakpointId" := "bk-1"]} b' = (Ok tt, mkBreakpoints ∅ ∅).
Proof.
  apply (breakpoint_roundtrip (set_msg "bk-1" "/deposit" "request") {["breakpointId" := "bk-1"]} (mkBreakpoints ∅ ∅)).
  - by intros k bk.
  - reflexivity.
  - reflexivity.
  - by vm_compute.
  - reflexivity.
Defined.

(** A breakpoint that is set again under its identifier for another path stays hit
    on the old path, and is not unset with it. *)
Example reused_id_stays :
  let b1 := (setBreakpoint (set_msg "bk-1" "/deposit" "request") (mkBreakpoints ∅ ∅)).2 in
  let b2 := (setBreakpoint (set_msg "bk-1" "/withdraw" "request") b1).2 in
  let b3 := (unsetBreakpoint {["breakpointId" := "bk-1"]} b2).2 in
  breakpoints b3 = ∅ ∧
  is_Some (breakpointsByAttrs b3 !! mkAttrs "" "Account" "/deposit" "request" "").
Proof. vm_compute. split; [done|by eexists]. Qed.

Lemma check_first_match_witness :
  checkBreakpoint shown_text no_match one_cond (mkAttrs "1" "Account" "/deposit" "request" "flow-1") "{}" "{}"
      (d_bks (g_dbg w1)) =
    Ok (Some (breakpoint_of (set_msg "bk-1" "/deposit" "request"))).
Proof.
  refine (eq_trans (check_first_match shown_text no_match one_cond
            (mkAttrs "1" "Account" "/deposit" "request" "flow-1") "{}" "{}" ∅ ∅ (d_bks (g_dbg w1)) _ _ _ _) _).
  - vm_compute. reflexivity.
  - vm_compute. reflexivity.
  - intros cs. by exists false.
  - intros cs. by exists false.
  - vm_compute. reflexivity.
Defined.

(** The actor is paused; the debugger n1 leaves. *)
Definition w3 : @world (list string) :=
  mkWorld (mkDbg (mkBreakpoints ∅ ∅) (ps_pauses (state_after waiting_run)) true {["n1" := true]} ∅ ∅ ∅ ∅ [] ∅) [].

Lemma last_debugger_witness :
  ∃ w', unregisterDebugger false "n1" w3 = (Ok tt, w') ∧
    isDebuggerPresent (g_dbg w') = false ∧ d_bks (g_dbg w') = mkBreakpoints ∅ ∅ ∧
    isNodePaused (d_pauses (g_dbg w')) = false ∧
    ∀ k ch, isActorPaused (d_pauses (g_dbg w')) !! k = Some ch → ch ∈ closed (d_pauses (g_dbg w')).
Proof.
  apply (last_debugger_leaves "n1" w3).
  - vm_compute. reflexivity.
  - apply (reachable_wfp (state_after waiting_run)), state_after_reachable. vm_compute. by eexists.
Defined.

Lemma global_pause_witness :
  ∃ w1 w2, (handlerDebugger false (bytes_of (pause_all_msg stop)) (mkWorld dbg0 ([] : list string))).2 = w1 ∧
    isNodePaused (d_pauses (g_dbg w1)) = true ∧
    unregister_all ["n1"; "n2"] w1 = (Ok tt, w2) ∧ isDebuggerPresent (g_dbg w2) = true ∧
    d_bks (g_dbg w2) = d_bks (g_dbg w1) ∧ d_pauses (g_dbg w2) = d_pauses (g_dbg w1).
Proof.
  apply (global_pause_never_ends stop (bytes_of (pause_all_msg stop)) ["n1"; "n2"] (mkWorld dbg0 [])).
  - vm_compute. reflexivity.
  - repeat constructor; done.
Defined.

End Witness.

End Debugger.
