(* ===== verification/DebugRoutes.v ===== *)
(** * DebugRoutes: the debuggers of a sidecar

    Models src/core/internal/runtime/routes-debug.go: the commands that a debugger
    sends over its websocket, which a sidecar turns into requests to the sidecars
    of the application and whose outcomes it sends to its debuggers.  The state
    they act on is in [Debugger]. *)

From S2P Require Import Prelude GoLib Json Messages Store Reminders DebugParser Commands CommandProps Debugger Routes.
Open Scope string_scope.
Open Scope Z_scope.
Open Scope go_scope.

Module DebugRoutes.
Import Rpc Commands Debugger.
Import Reminders(Actor, mkActor, a_Type, a_ID).

Definition mapget (m : gmap string string) (key def : string) : string := default def (m !! key).

Record listBreakpointInfo_t : Type := mkListBreakpoint {
  lb_BreakpointId : string;
  lb_BreakpointType : string;
  lb_ActorType : string;
  lb_ActorId : string;
  lb_Path : string;
  lb_IsRequest : string;
  lb_Nodes : list string;
}.

(** The waiting requests of all sidecars, with the node they wait on. *)
Definition listPauseInfo_t : Type := (waitInfo_t * string)%type.

Definition listBusyInfo_t : Type := (gmap string actorSentInfo_t * gmap string actorSentInfo_t)%type.

(** What a debugger's command uses of the sidecar and of JSON. *)
Class ServeOps (W : Type) : Type := {
  AppName : string;
  RestBodyContentType : string;
  serve_uuid : M W string;
  serve_CallActor : Actor → string → string → string → string → M W Reply;
  serve_CallService : string → string → string → string → string → M W Reply;
  serve_state : string → string → M W (gmap string any);
  serve_sessions : string → M W (gmap string (list string));
  purge : string → string → M W unit;
  UnmarshalBreakpoints : string → gmap string listBreakpointInfo_t + gerror;
  UnmarshalPauses : string → list waitInfo_t + gerror;
  UnmarshalBusy : string → listBusyInfo_t + gerror;
  MarshalBreakpoints : gmap string listBreakpointInfo_t → res string;
  MarshalPauses : list listPauseInfo_t → res string;
  MarshalAllBusy : string → listBusyInfo_t → res string;
  MarshalActors : gmap string (list string) → res string;
  UnmarshalArgs : string → option (list string);
}.

Section routes.
Context {W : Type} `{RpcOps W} `{SidecarOps W} `{DebugOps W} `{ServeOps W} `{Routes.SystemOps W} `{Json} `{CommandJson} `{MapIter}.
Context (Error : option gerror → string).

Abbreviation world := (@Debugger.world W) (only parsing).

Definition status_error (code : Z) : gerror := EMsg ("Status code of reply not OK: " ++ Itoa code).

(** The functions [doCall]: a request to the debugger's endpoint of a sidecar. *)
Definition call_sidecar (msgBytes sidecar : string) : M world Reply :=
  let* bytes := on_env (rpc_Call (mkDestination (Node sidecar) debuggerEndpoint) zeroTime "" msgBytes) in
  match UnmarshalReply bytes with
  | inr err => throw err
  | inl reply => if negb (StatusCode reply =? 200) then throw (status_error (StatusCode reply)) else ret reply
  end.

(** A request to every sidecar: those that succeeded, and the last error. *)
Fixpoint call_sidecars (msgBytes : string) (sidecars : list string) (nodes : list string) (err : option gerror)
    : M world (list string * option gerror) :=
  match sidecars with
  | [] => ret (nodes, err)
  | sidecar :: sidecars' =>
      let* x := attempt (call_sidecar msgBytes sidecar) in
      match x with
      | inl _ => call_sidecars msgBytes sidecars' (nodes ++ [sidecar])%list None
      | inr e => call_sidecars msgBytes sidecars' nodes (Some e)
      end
  end.

(** The nodes on which a command was carried out. *)
Definition carried_out (msgBytes : string) (node : option string) : M world (list string + option gerror) :=
  if String.eqb (default "" node) "" then
    let* sidecars := on_env GetNodeIDs in
    let* '(nodes, err) := call_sidecars msgBytes sidecars [] None in
    ret (match nodes with [] => inr err | _ => inl nodes end)
  else
    let node := default "" node in
    let* x := attempt (call_sidecar msgBytes node) in
    ret (match x with inl _ => inl [node] | inr err => inr (Some err) end).

Definition with_node (bodyJson msg : gmap string string) : gmap string string :=
  match bodyJson !! "node" with Some node => <["node" := node]> msg | None => msg end.

Definition set_error (err : option gerror) : gerror := EMsg ("failed to set breakpoint: " ++ Error err).

(** The message of a breakpoint, which the sidecars decode as strings. *)
Definition set_breakpoint_msg (breakpointId : string) (bodyJson : gmap string string) : gmap string string :=
  with_node bodyJson
    (<["command" := "setBreakpoint"]> (<["breakpointId" := breakpointId]>
    (<["breakpointType" := mapget bodyJson "breakpointType" "global"]> (<["actorId" := mapget bodyJson "actorId" ""]>
    (<["actorType" := mapget bodyJson "actorType" ""]> (<["path" := mapget bodyJson "path" ""]>
    (<["flowId" := mapget bodyJson "flowId" ""]> (<["isCaller" := mapget bodyJson "isCaller" "caller"]>
    (<["isRequest" := mapget bodyJson "isRequest" "request"]> (<["srcNodeId" := GetNodeID]>
    (<["conds" := mapget bodyJson "conds" ""]> (<["respConds" := mapget bodyJson "respConds" ""]>
    (<["deleteOnHit" := index_str bodyJson "deleteOnHit"]> ∅))))))))))))).

(** A message as a map of interfaces, with the nodes that took it. *)
Definition with_nodes (msg : gmap string string) (nodes : list string) : gmap string any :=
  <["nodes" := AStrings nodes]> (AString <$> msg).

Definition missing_argument (bodyJson : gmap string string) : option gerror :=
  match bodyJson !! "flowId" with
  | Some _ => None
  | None =>
      match bodyJson !! "path" with
      | None => Some (EMsg "Path is not an optional argument")
      | Some _ =>
          match bodyJson !! "actorType" with
          | None => Some (EMsg "Actor type is not an optional argument")
          | Some _ => None
          end
      end
  end.

(** returns reply message, err *)
Definition implSetBreakpoint (bodyJson : gmap string string) : M world string :=
  let* breakpointId :=
    (if String.eqb (index_str bodyJson "breakpointId") "" then
       let* u := on_env serve_uuid in ret ("bk-" ++ u)
     else ret (index_str bodyJson "breakpointId")) in
  match missing_argument bodyJson with
  | Some err => throw (set_error (Some err))
  | None =>
      let msg := set_breakpoint_msg breakpointId bodyJson in
      let* x := attempt (of_res (MarshalMsg msg)) in
      match x with
      | inr err => throw (set_error (Some err))
      | inl msgBytes =>
          let* done := carried_out msgBytes (bodyJson !! "node") in
          match done with
          | inr err => throw (set_error err)
          | inl nodes =>
              of_res (Marshal (AMap (<["commandId" := AString (index_str bodyJson "commandId")]> (with_nodes msg nodes))))
          end
      end
  end.

Definition implUnsetBreakpoint (bodyJson : gmap string string) : M world string :=
  match bodyJson !! "breakpointId" with
  | None => throw (EMsg "argument breakpointId not given")
  | Some breakpointId =>
      let msg := with_node bodyJson
        (<["command" := "unsetBreakpoint"]> (<["breakpointId" := breakpointId]> {["srcNodeId" := GetNodeID]})) in
      let* msgBytes := of_res (MarshalMsg msg) in
      let* done := carried_out msgBytes (bodyJson !! "node") in
      match done with
      | inr (Some err) => throw err
      | inr None => ret ""
      | inl nodes => of_res (Marshal (AMap (with_nodes msg nodes)))
      end
  end.

(** The goroutine of a breakpoint that is deleted when it is hit. *)
Definition unset_spawned : M world unit :=
  let* d := the_dbg in
  match spawned d with
  | [] => ret tt
  | bk :: rest =>
      on_dbg (set_spawned rest) ;;*
      let* x := attempt (implUnsetBreakpoint {["breakpointId" := bk]}) in
      sendAll (match x with inl retBytes => retBytes | inr _ => "" end) "" ;;*
      ret tt
  end.

(** A request to every sidecar that stops at the first error. *)
Fixpoint call_each (msgBytes : string) (sidecars : list string) : M world unit :=
  match sidecars with
  | [] => ret tt
  | sidecar :: sidecars' => call_sidecar msgBytes sidecar ;;* call_each msgBytes sidecars'
  end.

(** [implPause] and [implUnpause] differ in their command only. *)
Definition impl_pausing (command : string) (bodyJson : gmap string string) : M world string :=
  match bodyJson !! "actorType", bodyJson !! "actorId" with
  | None, Some _ => throw (EMsg "if actorId is set, then actorType must be set")
  | _, _ =>
      let msg := with_node bodyJson
        (<["command" := command]> (<["actorType" := mapget bodyJson "actorType" ""]>
        (<["actorId" := mapget bodyJson "actorId" ""]> {["srcNodeId" := GetNodeID]}))) in
      let* msgBytes := of_res (MarshalMsg msg) in
      let node := default "" (bodyJson !! "node") in
      (if String.eqb node "" then let* sidecars := on_env GetNodeIDs in call_each msgBytes sidecars
       else call_sidecar msgBytes node ;;* ret tt) ;;*
      ret msgBytes
  end.

Definition implPause : gmap string string → M world string := impl_pausing "pause".
Definition implUnpause : gmap string string → M world string := impl_pausing "unpause".

(* ---------------------------------------------------------------------- *)
(** ** Lists of all sidecars *)

(** The payload of one sidecar's answer is decoded and added to what was gathered;
    a sidecar that fails adds nothing.  The flag tells whether one succeeded. *)
Fixpoint gather {A B} (decode : string → A + gerror) (add : string → A → B → B) (msgBytes : string)
    (sidecars : list string) (acc : B) (successful : bool) (err : option gerror)
    : M world (B * bool * option gerror) :=
  match sidecars with
  | [] => ret (acc, successful, err)
  | sidecar :: sidecars' =>
      let* x := attempt (call_sidecar msgBytes sidecar) in
      match x with
      | inr e => gather decode add msgBytes sidecars' acc successful (Some e)
      | inl reply =>
          match decode (Payload reply) with
          | inr e => gather decode add msgBytes sidecars' acc successful (Some e)
          | inl payload => gather decode add msgBytes sidecars' (add sidecar payload acc) true None
          end
      end
  end.

Definition add_breakpoint (sidecar : string) (l : gmap string listBreakpointInfo_t)
    (kv : string * listBreakpointInfo_t) : gmap string listBreakpointInfo_t :=
  let '(id, bk) := kv in
  match l !! id with
  | None =>
      <[id := mkListBreakpoint id (lb_BreakpointType bk) (lb_ActorType bk) (lb_ActorId bk) (lb_Path bk)
                (lb_IsRequest bk) [sidecar]]> l
  | Some newBk =>
      <[id := mkListBreakpoint (lb_BreakpointId newBk) (lb_BreakpointType newBk) (lb_ActorType newBk)
                (lb_ActorId newBk) (lb_Path newBk) (lb_IsRequest newBk) (lb_Nodes newBk ++ [sidecar])%list]> l
  end.

Definition add_breakpoints (sidecar : string) (payload l : gmap string listBreakpointInfo_t)
    : gmap string listBreakpointInfo_t := foldl (add_breakpoint sidecar) l (map_iter 70 payload).

Definition add_pauses (sidecar : string) (payload : list waitInfo_t) (l : list listPauseInfo_t)
    : list listPauseInfo_t := (l ++ ((λ info, (info, sidecar)) <$> payload))%list.

(** A request that both report is taken from the later one. *)
Definition add_busy (sidecar : string) (payload l : listBusyInfo_t) : listBusyInfo_t :=
  (payload.1 ∪ l.1, payload.2 ∪ l.2).

Definition command_msg (command : string) : M world string :=
  let* x := attempt (of_res (MarshalMsg {["command" := command]})) in
  ret (match x with inl bytes => bytes | inr _ => "" end).

(** What a debugger gets for a command: an error, a message to all debuggers, or
    nothing; [Unregister] ends its connection, [Invoke] is run by a goroutine. *)
Inductive response : Type :=
| SendError (text cmdId : string)
| SendAll (bytes : string)
| Quiet
| Unregister
| Invoke (actor : Actor) (path payload cmdId : string).

Definition answer (cmdId : string) (m : M world string) : M world response :=
  let* x := attempt m in
  ret (match x with inl bytes => SendAll bytes | inr err => SendError (Error (Some err)) cmdId end).

Definition list_command {A B} (command cmdId : string) (decode : string → A + gerror) (add : string → A → B → B)
    (empty : B) (marshal : B → res string) : M world response :=
  let* msgBytes := command_msg command in
  let* sidecars := on_env GetNodeIDs in
  let* '(acc, successful, err) := gather decode add msgBytes sidecars empty false None in
  if successful : bool then answer cmdId (of_res (marshal acc)) else ret (SendError (Error err) cmdId).

(** Every sidecar is told; errors are printed. *)
Definition edit_all (msg : gmap string string) : M world response :=
  let* x := attempt (of_res (MarshalMsg
              (<["command" := "editResponse"]> (<["requestId" := index_str msg "requestId"]>
               {["edit" := index_str msg "edit"]})))) in
  let* sidecars := on_env GetNodeIDs in
  call_sidecars (match x with inl bytes => bytes | inr _ => "" end) sidecars [] None ;;*
  ret Quiet.

(** The arguments of an invocation: those that are not JSON are strings. *)
Definition invoke_params (args : list string) : list any :=
  (λ a, match Unmarshal a with Some v => v | None => AString a end) <$> args.

Definition kar_invoke (msgBytes cmdId : string) : M world response :=
  match UnmarshalArgs msgBytes with
  | None => ret (SendError "Error: no arguments provided." cmdId)
  | Some (ty :: id :: path :: params) =>
      let* x := attempt (of_res (Marshal (ASlice (invoke_params params)))) in
      ret (match x with
           | inl payload => Invoke (mkActor ty id) ("/" ++ path) payload cmdId
           | inr err => SendError (Error (Some err)) cmdId
           end)
  | Some _ => ret (SendError "Error: too few arguments provided." cmdId)
  end.

(** What [doInvoke] reports of the reply: its status and its value or its error. *)
Definition invoke_result (reply : Reply) : gmap string any :=
  if StatusCode reply =? 200 then
    if HasPrefix (ContentType reply) "application/kar+json" then
      match UnmarshalResult (Payload reply) with
      | inl result =>
          if cr_Error result then {["error" := AString (cr_Message result)]} else {["value" := cr_Value result]}
      | inr _ => ∅
      end
    else {["value" := AString (Payload reply)]}
  else ∅.

Definition doInvoke (actor : Actor) (path payload cmdId : string) : M world response :=
  answer cmdId
    (let* reply := on_env (serve_CallActor actor path payload "" "") in
     of_res (Marshal (AMap (<["commandId" := AString cmdId]> (<["command" := AString "kar invoke"]>
       (<["status" := AInt (StatusCode reply)]> (invoke_result reply))))))).

(** [strings.ToUpper] on ASCII text. *)
Definition upper_ascii (c : Ascii.ascii) : Ascii.ascii :=
  let n := Ascii.N_of_ascii c in
  if ((97 <=? n) && (n <=? 122))%N then Ascii.ascii_of_N (n - 32)%N else c.

Fixpoint ToUpper (s : string) : string :=
  match s with EmptyString => EmptyString | String c s' => String (upper_ascii c) (ToUpper s') end.

(** The body and the header of a request to a service. *)
Definition rest_body (args : list string) : string * string :=
  match args with
  | body :: _ =>
      (body, "{" ++ MiniJson.quote "Content-Type" ++ ": [" ++ MiniJson.quote RestBodyContentType ++ "]}")
  | [] => ("", "")
  end.

Definition kar_rest (msgBytes cmdId : string) : M world response :=
  match UnmarshalArgs msgBytes with
  | None => ret (SendError "Error: no arguments provided." cmdId)
  | Some (method :: service :: path :: rest) =>
      let '(body, header) := rest_body rest in
      answer cmdId
        (let* reply := on_env (serve_CallService service ("/" ++ path) body header (ToUpper method)) in
         of_res (Marshal (AMap (<["commandId" := AString cmdId]> (<["command" := AString "kar rest"]>
           (<["status" := AInt (StatusCode reply)]>
            {[ (if negb (StatusCode reply =? 200) then "error" else "value") := AString (Payload reply) ]}))))))
  | Some _ => ret (SendError "Error: too few arguments provided." cmdId)
  end.

Definition implGetSidecars : M world string :=
  let* topology := on_env Routes.GetTopology in
  let* ports := on_env Routes.GetPorts in
  let* entries := of_res (map_res (Routes.sidecar_data ports) (map_iter 71 topology)) in
  let* x := attempt (of_res (Routes.MarshalTopology (fill entries))) in
  ret (match x with inl m => m | inr _ => "" end).

(** The fields of an answer about actors: the state of one, or all of a type. *)
Definition get_actors (actorType actorId : string) : M world (gmap string string) :=
  if negb (String.eqb actorId "") then
    let* x := attempt (on_env (serve_state actorType actorId)) in
    match x with
    | inl actorState =>
        if decide (size actorState = 0%nat) then ret ∅
        else
          let* b := attempt (of_res (Marshal (AMap actorState))) in
          ret (match b with inl bytes => {["state" := bytes]} | inr _ => ∅ end)
    | inr _ => ret ∅
    end
  else
    let* x := attempt (on_env (serve_sessions actorType)) in
    match x with
    | inl actorMap =>
        let* b := attempt (of_res (MarshalActors actorMap)) in
        ret {["actors" := match b with inl bytes => bytes | inr _ => "" end]}
    | inr _ => ret {["actors" := ""]}
    end.

Definition kar_get (msg : gmap string string) (cmdId : string) : M world response :=
  let subsystem := index_str msg "subsystem" in
  if String.eqb subsystem "sidecars" || String.eqb subsystem "sidecar" then
    answer cmdId
      (let* sidecars := implGetSidecars in
       of_res (MarshalMsg (<["commandId" := cmdId]> (<["command" := "kar get"]>
                (<["subsystem" := "sidecars"]> {["sidecars" := sidecars]})))))
  else if String.eqb subsystem "actor" || String.eqb subsystem "actors" then
    answer cmdId
      (let* fields := get_actors (index_str msg "actorType") (index_str msg "actorId") in
       of_res (MarshalMsg (<["commandId" := cmdId]> (<["command" := "kar get"]> (<["subsystem" := "actors"]> fields)))))
  else ret (SendError ("Invalid command: " ++ subsystem) cmdId).

(* ---------------------------------------------------------------------- *)
(** ** The connection of a debugger *)

(** [json.Unmarshal] into a [map[string]string] whose error is ignored: members
    that are not strings are empty. *)
Definition UnmarshalPartial (s : string) : gmap string string :=
  match Unmarshal s with
  | Some (AMap m) => (λ v, match v with AString t => t | _ => "" end) <$> m
  | _ => ∅
  end.

Definition debug_command (msgBytes : string) : M world response :=
  let msg := UnmarshalPartial msgBytes in
  let cmdId := index_str msg "commandId" in
  match msg !! "command" with
  | None => ret (SendError "Message must be given a command" "")
  | Some cmd =>
      if String.eqb cmd "setBreakpoint" then answer cmdId (implSetBreakpoint msg)
      else if String.eqb cmd "unsetBreakpoint" then answer cmdId (implUnsetBreakpoint msg)
      else if String.eqb cmd "unregister" then ret Unregister
      else if String.eqb cmd "pause" then answer cmdId (implPause msg)
      else if String.eqb cmd "unpause" then answer cmdId (implUnpause msg)
      else if String.eqb cmd "listBreakpoints" then
        list_command "listBreakpoints" cmdId UnmarshalBreakpoints add_breakpoints ∅ MarshalBreakpoints
      else if String.eqb cmd "listPausedActors" then
        list_command "listPausedActors" cmdId UnmarshalPauses add_pauses [] MarshalPauses
      else if String.eqb cmd "listBusyActors" then
        list_command "listBusyActors" cmdId UnmarshalBusy add_busy (∅, ∅) (MarshalAllBusy cmdId)
      else if String.eqb cmd "editResponse" then edit_all msg
      else if String.eqb cmd "kar purge" then on_env (purge ("kar" ++ Store.sep ++ AppName) "*") ;;* ret Quiet
      else if String.eqb cmd "kar drain" then
        on_env (purge ("kar" ++ Store.sep ++ AppName) ("pubsub" ++ Store.sep ++ "*")) ;;* ret Quiet
      else if String.eqb cmd "kar invoke" then kar_invoke msgBytes cmdId
      else if String.eqb cmd "kar rest" then kar_rest msgBytes cmdId
      else if String.eqb cmd "kar get" then kar_get msg cmdId
      else ret Quiet
  end.

(** The result tells whether the loop goes on. *)
Definition sendErrorBytes (debugConn : nat) (debuggerId text cmd : string) : M world bool :=
  let* x := attempt (of_res (MarshalMsg
              (<["command" := "error"]> (<["commandId" := cmd]> {["error" := text]})))) in
  let* sent := attempt (on_env (WriteMessage debugConn (match x with inl bytes => bytes | inr _ => "" end))) in
  match sent with
  | inl _ => ret true
  | inr _ => closeConn debugConn debuggerId ;;* ret false
  end.

Definition respond (debugConn : nat) (debuggerId : string) (r : response) : M world bool :=
  match r with
  | SendError text cmdId => sendErrorBytes debugConn debuggerId text cmdId
  | SendAll bytes =>
      let* err := sendAll bytes debuggerId in
      ret (match err with None => true | Some _ => false end)
  | Quiet => ret true
  | Unregister => closeConn debugConn debuggerId ;;* ret false
  | Invoke actor path payload cmdId => ret true
  end.

(** The loop over the messages received; the connection breaks after the last. *)
Fixpoint serve (debugConn : nat) (debuggerId : string) (messages : list string) : M world unit :=
  match messages with
  | [] => closeConn debugConn debuggerId
  | msgBytes :: messages' =>
      let* r := debug_command msgBytes in
      let* go_on := respond debugConn debuggerId r in
      if go_on : bool then serve debugConn debuggerId messages' else ret tt
  end.

Definition debugServe (debugConn : nat) (debuggerId : string) (messages : list string) : M world unit :=
  let* x := attempt (of_res (MarshalMsg (<["command" := "appName"]> {["appName" := AppName]}))) in
  let* sent := attempt (on_env (WriteMessage debugConn (match x with inl bytes => bytes | inr _ => "" end))) in
  match sent with
  | inr _ => closeConn debugConn debuggerId
  | inl _ => serve debugConn debuggerId messages
  end.

(** The header [Id] and the upgrade to a websocket are those of the request. *)
Definition routeImplRegisterDebugger (ids : list string) (upgraded : option nat) (messages : list string)
    : M world unit :=
  let* x := attempt (of_res (MarshalMsg (<["command" := "registerDebugger"]> {["nodeId" := GetNodeID]}))) in
  match x with
  | inr _ => ret tt
  | inl msgBytes =>
      let* sidecars := on_env GetNodeIDs in
      tell_nodes sidecars msgBytes ;;*
      match ids, upgraded with
      | debuggerId :: _, Some debugConn =>
          on_dbg (set_conns (<[debuggerId := debugConn]>)) ;;*
          debugServe debugConn debuggerId messages ;;*
          closeConn debugConn debuggerId
      | _, _ => ret tt
      end
  end.

End routes.

(* ---------------------------------------------------------------------- *)
(** ** A breakpoint on all sidecars *)

Section cluster.
Import CommandProps.
Context {W : Type} `{RpcOps W} `{SidecarOps W} `{DebugOps W} `{ServeOps W} `{JsonLaws} `{CommandJsonLaws} `{MapIter} `{ActorIter}.
Context (IsDebugMode : bool).
(** The debugger's state of each sidecar, and the sidecars that can be reached. *)
Context (state_of : string → W → dbg) (up : string → bool).

(** A request to the debugger's endpoint of a sidecar that can be reached runs its
    handler, here for the commands that only change the debugger's state; the
    others fail. *)
Definition serving : Prop := ∀ n bytes w,
  if up n then
    ∀ text d, handlerDebugger IsDebugMode bytes (mkWorld (state_of n w) w) = (Ok (Some text, None), mkWorld d w) →
    ∃ w', rpc_Call (mkDestination (Node n) debuggerEndpoint) zeroTime "" bytes w = (Ok text, w') ∧
      state_of n w' = d ∧ ∀ m, m ≠ n → state_of m w' = state_of m w
  else
    ∃ err w', rpc_Call (mkDestination (Node n) debuggerEndpoint) zeroTime "" bytes w = (Err err, w') ∧
      ∀ m, state_of m w' = state_of m w.

(** The state of a sidecar after it was told a breakpoint. *)
Definition told (msg : gmap string string) (d d' : dbg) : Prop :=
  d_bks d' = (setBreakpoint msg (d_bks d)).2 ∧ isDebuggerPresent d' = true ∧
  d_pauses d' = d_pauses d ∧ waitingActors d' = waitingActors d.

Lemma handler_told bytes msg d (e : W) text :
  UnmarshalMsg bytes = Some msg → index_str msg "command" = "setBreakpoint" →
  MarshalReply (mkReply 200 "application/json" "") = Ok text →
  ∃ d', handlerDebugger IsDebugMode bytes (mkWorld d e) = (Ok (Some text, None), mkWorld d' e) ∧ told msg d d'.
Proof.
  intros Eb Ec Em. unfold handlerDebugger. rewrite Eb, Ec. cbn [String.eqb Ascii.eqb Bool.eqb].
  unfold registerDebugger, reply_ok, marshalled, on_bks, the_dbg, on_dbg, bind, attempt, of_res, get, ret, modify.
  rewrite Em. simpl. unfold setBreakpoint. destruct (breakpointsByAttrs (d_bks d) !! attrs_key msg) eqn:E;
    (eexists; split; [done|]); split_and!; try done; unfold setBreakpoint; by rewrite E.
Qed.

Context (msg : gmap string string) (bytes text : string).
Context (Hserving : serving) (Hmsg : MarshalMsg msg = Ok bytes).
Context (Hcommand : index_str msg "command" = "setBreakpoint").
Context (Htext : MarshalReply (mkReply 200 "application/json" "") = Ok text).

Lemma call_sidecar_spec n (g : dbg) (e : W) :
  if up n then
    ∃ r e', call_sidecar bytes n (mkWorld g e) = (Ok r, mkWorld g e') ∧ told msg (state_of n e) (state_of n e') ∧
      ∀ m, m ≠ n → state_of m e' = state_of m e
  else
    ∃ err e', call_sidecar bytes n (mkWorld g e) = (Err err, mkWorld g e') ∧ ∀ m, state_of m e' = state_of m e.
Proof.
  pose proof (Hserving n bytes e) as Hs. destruct (up n).
  - destruct (handler_told bytes msg (state_of n e) e text) as (d' & E & Ht);
      [by apply UnmarshalMsg_Marshal|done|done|].
    destruct (Hs _ _ E) as (e' & Ec & En & Eo). exists (mkReply 200 "application/json" ""), e'.
    split_and!; [|by rewrite En|done]. unfold call_sidecar, bind, on_env. cbn [g_env g_dbg]. rewrite Ec.
    by rewrite (unmarshal_reply _ _ Htext).
  - destruct Hs as (err & e' & Ec & Eo). exists err, e'. split; [|done].
    unfold call_sidecar, bind, on_env. cbn [g_env g_dbg]. by rewrite Ec.
Qed.

(** The requests to all sidecars: those that can be reached are told. *)
Lemma call_sidecars_spec sidecars nodes err (g : dbg) (e : W) : NoDup sidecars →
  ∃ err' e', call_sidecars bytes sidecars nodes err (mkWorld g e) =
      (Ok ((nodes ++ filter (λ n, up n = true) sidecars)%list, err'), mkWorld g e') ∧
    (∀ n, n ∈ sidecars → up n = true → told msg (state_of n e) (state_of n e')) ∧
    (∀ n, n ∉ sidecars ∨ up n = false → state_of n e' = state_of n e).
Proof.
  revert nodes err e. induction sidecars as [|n sidecars IH]; intros nodes err e Hnd.
  - exists err, e. rewrite app_nil_r. split_and!; [done|by intros n ?%elem_of_nil|done].
  - apply NoDup_cons in Hnd as [Hn Hnd]. pose proof (call_sidecar_spec n g e) as Hs. cbn [call_sidecars].
    rewrite filter_cons. destruct (up n) eqn:Eup.
    + destruct Hs as (r & e1 & E1 & T1 & O1). erewrite bind_ret by (apply attempt_inl; exact E1). cbv beta iota.
      destruct (IH (nodes ++ [n])%list None e1 Hnd) as (err' & e2 & E2 & T2 & O2).
      exists err', e2. rewrite decide_True by done. split_and!.
      * by rewrite E2, <-app_assoc.
      * intros m [-> |Hm]%elem_of_cons Hup; [rewrite (O2 n) by auto; done|].
        assert (m ≠ n) by congruence. rewrite <-(O1 m) by done. by apply T2.
      * intros m Hm. rewrite (O2 m) by (rewrite elem_of_cons in Hm; tauto). apply O1.
        intros ->. destruct Hm as [Hm|?]; [apply Hm; by left|congruence].
    + destruct Hs as (er & e1 & E1 & O1). erewrite bind_ret by (apply attempt_inr; exact E1). cbv beta iota.
      destruct (IH nodes (Some er) e1 Hnd) as (err' & e2 & E2 & T2 & O2).
      exists err', e2. rewrite decide_False by congruence. split_and!.
      * by rewrite E2.
      * intros m [-> |Hm]%elem_of_cons Hup; [congruence|]. rewrite <-(O1 m). by apply T2.
      * intros m Hm. rewrite (O2 m) by (rewrite elem_of_cons in Hm; tauto). apply O1.
Qed.

(** Without a node, a command is carried out on the sidecars that can be reached. *)
Lemma carried_out_spec sidecars (g : dbg) (e : W) :
  GetNodeIDs e = (Ok sidecars, e) → NoDup sidecars → Exists (λ n, up n = true) sidecars →
  ∃ e', carried_out bytes None (mkWorld g e) = (Ok (inl (filter (λ n, up n = true) sidecars)), mkWorld g e') ∧
    (∀ n, n ∈ sidecars → up n = true → told msg (state_of n e) (state_of n e')) ∧
    (∀ n, n ∉ sidecars ∨ up n = false → state_of n e' = state_of n e).
Proof.
  intros En Hnd Hex.
  destruct (call_sidecars_spec sidecars [] None g e Hnd) as (err' & e' & Ec & Htold & Hother).
  exists e'. split_and!; [|done|done]. unfold carried_out. cbn [default String.eqb].
  erewrite bind_ret by (unfold on_env; cbn [g_env]; rewrite En; reflexivity).
  erewrite bind_ret by exact Ec. cbv beta iota. rewrite app_nil_l.
  apply Exists_exists in Hex as (n0 & Hin & Hup).
  assert (n0 ∈ filter (λ n, up n = true) sidecars) as Hf by (by apply list_elem_of_filter).
  destruct (filter _ sidecars); [by apply elem_of_nil in Hf|done].
Qed.

End cluster.

(** C27: a breakpoint without a node is set on every sidecar that can be reached,
    and on no other; the answer names exactly those.  A sidecar that has a
    breakpoint with the same attributes keeps it and is named as well. *)
Theorem breakpoint_everywhere {W : Type} `{RpcOps W} `{SidecarOps W} `{DebugOps W} `{ServeOps W} `{JsonLaws}
    `{CommandProps.CommandJsonLaws} `{MapIter} `{ActorIter}
    (Error : option gerror → string) (IsDebugMode : bool) (state_of : string → W → dbg) (up : string → bool)
    (bodyJson : gmap string string) (path actorType breakpointId bytes text out : string)
    (sidecars : list string) (g : dbg) (e : W) :
  serving IsDebugMode state_of up →
  bodyJson !! "path" = Some path → bodyJson !! "actorType" = Some actorType →
  bodyJson !! "node" = None → index_str bodyJson "breakpointId" = breakpointId → breakpointId ≠ "" →
  let msg := set_breakpoint_msg breakpointId bodyJson in
  MarshalMsg msg = Ok bytes → MarshalReply (mkReply 200 "application/json" "") = Ok text →
  GetNodeIDs e = (Ok sidecars, e) → NoDup sidecars → Exists (λ n, up n = true) sidecars →
  Marshal (AMap (<["commandId" := AString (index_str bodyJson "commandId")]>
                   (with_nodes msg (filter (λ n, up n = true) sidecars)))) = Ok out →
  ∃ e', implSetBreakpoint Error bodyJson (mkWorld g e) = (Ok out, mkWorld g e') ∧
    (∀ n, n ∈ sidecars → up n = true →
       let b := d_bks (state_of n e) in let b' := d_bks (state_of n e') in
       match breakpointsByAttrs b !! attrs_key msg with
       | None => b' = mkBreakpoints (<[breakpointId := breakpoint_of msg]> (breakpoints b))
                        (<[attrs_key msg := breakpoint_of msg]> (breakpointsByAttrs b))
       | Some _ => b' = b
       end) ∧
    (∀ n, n ∉ sidecars ∨ up n = false → state_of n e' = state_of n e).
Proof.
  intros Hs Hp Ha Hno Hid Hne msg Em Et En Hnd Hex Eo.
  assert (index_str msg "breakpointId" = breakpointId ∧ index_str msg "command" = "setBreakpoint") as [Hmid Hcmd].
  { unfold msg, set_breakpoint_msg, with_node. by rewrite Hno. }
  destruct (carried_out_spec IsDebugMode state_of up msg bytes text Hs Em Hcmd Et sidecars g e En Hnd Hex)
    as (e' & Ec & Htold & Hother).
  exists e'. split_and!; [| |done].
  - unfold implSetBreakpoint. rewrite Hid. destruct (String.eqb_spec breakpointId ""); [done|].
    erewrite bind_ret by reflexivity. unfold missing_argument. rewrite Hp, Ha. fold msg.
    assert (∀ A (x : option string) (y : A), match x with Some _ => y | None => y end = y) as -> by (by intros ? []).
    erewrite bind_ret by (apply attempt_inl; unfold of_res; by rewrite Em). cbv beta iota.
    rewrite Hno. erewrite bind_ret by exact Ec. cbv beta iota. unfold of_res. by rewrite Eo.
  - intros n Hin Hup b b'. destruct (Htold n Hin Hup) as (Eb & _). fold b b' in Eb.
    unfold setBreakpoint in Eb. rewrite Hmid in Eb.
    by destruct (breakpointsByAttrs b !! attrs_key msg).
Qed.

(* ---------------------------------------------------------------------- *)
(** ** A concrete application *)

Module Witness.
#[local] Existing Instance canonical_iter.
#[local] Existing Instance Debugger.Witness.canonical_actors.
#[local] Existing Instances CommandProps.Witness.replies CommandProps.Witness.replies_laws.

(** JSON with a list in it, which the fragment of the other witnesses has not. *)
Definition marshal_nodes (v : any) : res string :=
  match v with
  | AMap m => match m !! "nodes" with
              | Some (AStrings l) => Ok (String.concat "," l)
              | _ => MiniJson.mini_marshal v
              end
  | _ => MiniJson.mini_marshal v
  end.

#[local] Instance json_nodes : Json := {| Marshal := marshal_nodes; Unmarshal := MiniJson.mini_unmarshal |}.

#[local] Instance json_nodes_laws : JsonLaws.
Proof.
  split. intros m s. cbn [Marshal Unmarshal json_nodes]. unfold marshal_nodes, any_of_msg at 1.
  rewrite lookup_fmap. destruct (m !! "nodes"); simpl; apply (unmarshal_msg (JsonLaws := MiniJson.MiniJson_laws)).
Qed.

(** The debugger's states of three sidecars, of which n3 cannot be reached. *)
Abbreviation app := (gmap string dbg) (only parsing).
Definition state_of (n : string) (w : app) : dbg := default dbg0 (w !! n).
Definition up (n : string) : bool := negb (String.eqb n "n3").

Definition inert (call : Destination → Z → string → string → M app string) : RpcOps app := {|
  now := ret 0; uuid := ret "1"; rpc_Call := call; rpc_Tell _ _ _ _ := ret tt;
  rpc_Async _ _ _ := ret ""; rpc_AsyncParent _ _ _ _ := ret ""; rpc_receive _ := ret "";
  rpc_Reclaim _ := ret tt; rpc_DelSession _ := ret tt;
|}.

#[local] Instance three : SidecarOps app := {|
  GetLocalActivatedSessions ty := ret ∅;
  GetNodeIDs := ret ["n1"; "n2"; "n3"];
  GetNodeID := "n1";
  call_node _ _ _ := ret "";
  Hostname := inl "localhost";
  MarshalSessions _ := Ok "";
  UnmarshalSessions _ := inl ∅;
|}.

#[local] Instance no_conns : DebugOps app := {|
  MarshalWaitInfos l := Ok "";
  MarshalBusy _ _ := Ok "";
  WriteMessage _ bytes := ret tt;
  CloseConn _ := ret tt;
  cancel9 := ret tt;
|}.

#[local] Instance serve_ops : ServeOps app := {|
  AppName := "app"; RestBodyContentType := "application/json"; serve_uuid := ret "1";
  serve_CallActor _ _ _ _ _ := ret (mkReply 204 "" ""); serve_CallService _ _ _ _ _ := ret (mkReply 204 "" "");
  serve_state _ _ := ret ∅; serve_sessions _ := ret ∅; purge _ _ := ret tt;
  UnmarshalBreakpoints _ := inl ∅; UnmarshalPauses _ := inl []; UnmarshalBusy _ := inl (∅, ∅);
  MarshalBreakpoints _ := Ok ""; MarshalPauses _ := Ok ""; MarshalAllBusy _ _ := Ok "";
  MarshalActors _ := Ok ""; UnmarshalArgs _ := None;
|}.

Definition call_handler (d : Destination) (deadline : Z) (parent bytes : string) : M app string := λ w,
  match d_Target d with
  | Node n =>
      if up n then
        match handlerDebugger (H := inert (λ _ _ _ _, ret "")) false bytes (mkWorld (state_of n w) w) with
        | (Ok (Some text, None), w') => (Ok text, <[n := g_dbg w']> w)
        | _ => (Err (EMsg "failed"), w)
        end
      else (Err (EMsg "unreachable"), w)
  | _ => (Err (EMsg "not a node"), w)
  end.

#[local] Instance ops : RpcOps app := inert call_handler.

Lemma app_serving : serving false state_of up.
Proof.
  intros n bytes w. destruct (up n) eqn:E.
  - intros text d Eh. exists (<[n := d]> w). unfold rpc_Call, ops, inert, call_handler. simpl. rewrite E.
    change (handlerDebugger (H := inert (λ _ _ _ _, ret "")) false bytes (mkWorld (state_of n w) w))
      with (handlerDebugger false bytes (mkWorld (state_of n w) w)). rewrite Eh.
    split_and!; [done|unfold state_of; by rewrite lookup_insert_eq|].
    intros m Hm. unfold state_of. by rewrite lookup_insert_ne.
  - exists (EMsg "unreachable"), w. unfold rpc_Call, ops, inert, call_handler. simpl. by rewrite E.
Qed.

Definition body : gmap string string :=
  <["breakpointId" := "bk-1"]> (<["path" := "/deposit"]> {["actorType" := "Account"]}).

Definition message : string := match MarshalMsg (set_breakpoint_msg "bk-1" body) with Ok s => s | _ => "" end.

Lemma breakpoint_everywhere_witness :
  ∃ e', implSetBreakpoint (λ _, "") body (mkWorld dbg0 ∅) = (Ok "n1,n2", mkWorld dbg0 e') ∧
    (∀ n, n ∈ ["n1"; "n2"; "n3"] → up n = true →
       let b := d_bks (state_of n ∅) in let b' := d_bks (state_of n e') in
       match breakpointsByAttrs b !! attrs_key (set_breakpoint_msg "bk-1" body) with
       | None => b' = mkBreakpoints (<["bk-1" := breakpoint_of (set_breakpoint_msg "bk-1" body)]> (breakpoints b))
                        (<[attrs_key (set_breakpoint_msg "bk-1" body) :=
                             breakpoint_of (set_breakpoint_msg "bk-1" body)]> (breakpointsByAttrs b))
       | Some _ => b' = b
       end) ∧
    (∀ n, n ∉ ["n1"; "n2"; "n3"] ∨ up n = false → state_of n e' = state_of n ∅).
Proof.
  refine (breakpoint_everywhere (λ _, "") false state_of up body "/deposit" "Account" "bk-1" message
            "200;application/json;" "n1,n2" ["n1"; "n2"; "n3"] dbg0 ∅ app_serving _ _ _ _ _ _ _ _ _ _ _).
  - reflexivity.
  - reflexivity.
  - reflexivity.
  - reflexivity.
  - done.
  - vm_compute. reflexivity.
  - vm_compute. reflexivity.
  - reflexivity.
  - repeat (constructor; [set_solver|]). constructor.
  - by constructor.
  - vm_compute. reflexivity.
Defined.
End Witness.

End DebugRoutes.
