(* ===== verification/Events.v ===== *)
(** * Events: subscriptions of actors to topics

    Models src/core/internal/runtime/events.go and the subscriber of
    src/core/pkg/rpc/topics.go.  The collection of event sources implements the
    interface [Bindings]; a subscription runs a consumer group whose messages
    become tells to the actor.  Kafka is a parameter: [subscribe_outcome] says
    whether a consumer group can be created, the messages of a claim are a
    list. *)

From S2P Require Import Prelude GoLib Json Store Messages Sessions Reminders Bindings Commands CommandProps.
Open Scope string_scope.
Open Scope Z_scope.
Open Scope go_scope.

Module Events.
Import Reminders(Actor, mkActor, a_Type, a_ID).

#[export] Existing Instance Reminders.Actor_eq_dec.

#[export] Instance Actor_countable : Countable Actor.
Proof.
  refine (inj_countable' (λ a, (a_Type a, a_ID a)) (λ p, mkActor p.1 p.2) _). by intros [].
Defined.

(* ---------------------------------------------------------------------- *)
(** ** Sources *)

(** An event source.  The fields [cancel] and [closed], which are set when the
    source is added, are in the table [c_subs] of the collection. *)
Record source : Type := mkSource {
  src_Actor : Actor;
  src_ID : string;
  src_key : string;
  src_Path : string;
  src_Topic : string;
  src_Group : string;
  src_ContentType : string;
  src_OffsetOldest : bool;
}.

#[export] Instance source_eq_dec : EqDecision source.
Proof. solve_decision. Defined.

(** The collection, and the consumer groups of this process: [c_live] are those
    that were not cancelled, numbered in the order of their creation. *)
Record sources : Type := mkSources {
  c_map : gmap Actor (gmap string source);
  c_subs : gmap (Actor * string) nat;
  c_live : gset nat;
  c_next : nat;
}.

Definition StatusServiceUnavailable : Z := 503.
Definition StatusInternalServerError : Z := 500.

Definition actor_sources (actor : Actor) (c : sources) : gmap string source := default ∅ (c_map c !! actor).

Definition source_at (actor : Actor) (id : string) (c : sources) : option source := actor_sources actor c !! id.

Section collection.
Context `{Json} `{MapIter}.
(** The outcome of [sarama.NewConsumerGroup] for the n-th subscription. *)
Context (subscribe_outcome : nat → source → option gerror).
Context (json_error : string → gerror).

(** The status and the error of [subscribe]; [ECtx] is [context.Canceled]. *)
Definition subscribe (s : source) (c : sources) : (Z * option gerror) :=
  match subscribe_outcome (c_next c) s with
  | None => (Bindings.StatusOK, None)
  | Some err => ((if decide (err = ECtx) then StatusServiceUnavailable else StatusInternalServerError), Some err)
  end.

(** add binding to collection *)
Definition add (s : source) : M sources (Z * option gerror) := λ c,
  let c1 := match c_map c !! src_Actor s with Some _ => c_map c | None => <[src_Actor s := ∅]> (c_map c) end in
  match subscribe s c with
  | (code, Some err) => (Ok (code, Some err), mkSources c1 (c_subs c) (c_live c) (S (c_next c)))
  | (_, None) =>
      let m := default ∅ (c1 !! src_Actor s) in
      (Ok (Bindings.StatusOK, None),
       mkSources (<[src_Actor s := <[src_ID s := s]> m]> c1)
         (<[(src_Actor s, src_ID s) := c_next c]> (c_subs c)) ({[c_next c]} ∪ c_live c) (S (c_next c)))
  end.

(** find bindings in collection *)
Definition find (actor : Actor) (id : string) (c : sources) : list source :=
  if negb (String.eqb id "") then match source_at actor id c with Some b => [b] | None => [] end
  else (map_iter 50 (actor_sources actor c)).*2.

(** [b.cancel(); <-b.closed]: the consumer group of a source ends. *)
Definition close_source (actor : Actor) (id : string) (c : sources) : sources :=
  mkSources (c_map c) (delete (actor, id) (c_subs c))
    (match c_subs c !! (actor, id) with Some n => c_live c ∖ {[n]} | None => c_live c end) (c_next c).

(** remove bindings from collection *)
Definition cancel (actor : Actor) (id : string) (c : sources) : list source * sources :=
  if negb (String.eqb id "") then
    match source_at actor id c with
    | Some b =>
        let c1 := close_source actor id c in
        ([b], mkSources (<[actor := delete id (actor_sources actor c)]> (c_map c1))
                (c_subs c1) (c_live c1) (c_next c1))
    | None => ([], c)
    end
  else
    let l := map_iter 51 (actor_sources actor c) in
    let c1 := foldl (λ c kv, close_source actor kv.1 c) c l in
    (l.*2, mkSources (delete actor (c_map c1)) (c_subs c1) (c_live c1) (c_next c1)).

Definition load (actor : Actor) (id key : string) (m : gmap string string) : source + gerror :=
  inl (mkSource actor id key (index_str m "path") (index_str m "topic") (index_str m "group")
         (index_str m "contentType") (String.eqb (index_str m "offsetOldest") "true")).

Definition parse (actor : Actor) (id key payload : string) : (source * gmap string string) + gerror :=
  match UnmarshalMsg payload with
  | None => inr (json_error payload)
  | Some m =>
      match load actor id key m with
      | inl b => inl (b, m)
      | inr err => inr err
      end
  end.

#[export] Instance source_bindings : Bindings.Bindings sources source := {|
  Bindings.k := src_key;
  Bindings.add := add;
  Bindings.cancel := cancel;
  Bindings.find := find;
  Bindings.parse := parse;
  Bindings.load := load;
|}.

(* ---------------------------------------------------------------------- *)
(** ** The message of an event *)

(** The events of this type are JSON already. *)
Definition jsonType (s : source) : bool :=
  String.eqb (src_ContentType s) "" || String.eqb (src_ContentType s) "text/json" ||
  String.eqb (src_ContentType s) "application/json" || HasSuffix (src_ContentType s) "+json".

(** The consumer group of a subscription. *)
Definition group_of (s : source) : string :=
  if String.eqb (src_Group s) "" then src_ID s else src_Group s.

Definition event_msg (path arg : string) : gmap string string :=
  Commands.actor_msg "tell" path ("[" ++ arg ++ "]").

(** The argument of the method: an event that is not JSON is made a string. *)
Definition event_arg (s : source) (value : string) : res string :=
  if jsonType s then Ok value else Marshal (AString value).

Definition rawEventToActorTellMsg (s : source) (value : string) : res string :=
  match event_arg s value with
  | Ok arg => Commands.MarshalMsg (event_msg (src_Path s) arg)
  | failure => failure
  end.

End collection.

(* ---------------------------------------------------------------------- *)
(** ** The subscriber (topics.go) *)

Section subscriber.
Context {W : Type}.
Context (transform : string → res string) (Tell : string → M W unit).

(** The claim: the offsets of the messages with their values; the offset that the
    group has committed is one more than the last one marked. *)
Record claim_state : Type := mkClaim { cs_world : W; cs_committed : Z }.

Definition on_world {A} (m : M W A) : M claim_state A := λ c,
  let '(a, w) := m (cs_world c) in (a, mkClaim w (cs_committed c)).

(** [session.MarkMessage]: marking never goes back. *)
Definition MarkMessage (offset : Z) : M claim_state unit :=
  modify (λ c, mkClaim (cs_world c) (Z.max (cs_committed c) (offset + 1))).

(** The body of the loop; after a failed transformation the value is nil. *)
Definition consume_event (msg : Z * string) : M claim_state unit :=
  let* x := attempt (of_res (transform msg.2)) in
  let transformed := match x with inl bytes => bytes | inr _ => "" end in
  let* told := attempt (on_world (Tell transformed)) in
  match told with
  | inl _ => MarkMessage msg.1
  | inr _ => ret tt
  end.

Fixpoint ConsumeClaim (messages : list (Z * string)) : M claim_state unit :=
  match messages with
  | [] => ret tt
  | msg :: messages' => consume_event msg ;;* ConsumeClaim messages'
  end.

End subscriber.

(** The channel [ready] of a subscription, which the main routine waits for:
    true when it is closed. *)
Definition Setup : M bool unit := λ ready,
  if ready : bool then (Panic "close of closed channel", ready) else (Ok tt, true).

(** The loop of the goroutine of [subscribe]: each turn has a session of the
    consumer group, with a new subscriber that is given the same channel. *)
Fixpoint sessions (n : nat) : M bool unit :=
  match n with
  | O => ret tt
  | S n' => Setup ;;* sessions n'
  end.

(* ---------------------------------------------------------------------- *)
(** ** The collection keeps the promises of the interface *)

(** Case analysis on the condition of the first [if decide P] of the goal. *)
Ltac if_decide Ed :=
  match goal with |- context [if @decide ?P ?d then _ else _] => destruct (@decide P d) as [Ed|Ed] end.


(** Sources are where they say they are, and the running consumer groups are
    those of the sources, one each. *)
Record wf (c : sources) : Prop := {
  wf_keyed : ∀ a id b, source_at a id c = Some b → src_Actor b = a ∧ src_ID b = id;
  wf_subs : ∀ a id, is_Some (source_at a id c) ↔ is_Some (c_subs c !! (a, id));
  wf_inj : ∀ p q n, c_subs c !! p = Some n → c_subs c !! q = Some n → p = q;
  wf_live : ∀ n, n ∈ c_live c ↔ ∃ p, c_subs c !! p = Some n;
  wf_next : ∀ n, n ∈ c_live c → (n < c_next c)%nat;
}.

Definition empty_sources : sources := mkSources ∅ ∅ ∅ 0.

Lemma no_sources_wf : wf empty_sources.
Proof.
  split; unfold source_at, actor_sources; simpl.
  - intros a id b. rewrite lookup_empty. simpl. by rewrite lookup_empty.
  - intros a id. rewrite !lookup_empty. simpl. by rewrite !lookup_empty.
  - intros p q n. by rewrite lookup_empty.
  - intros n. split; [set_solver|]. intros [p Hp]. by rewrite lookup_empty in Hp.
  - set_solver.
Qed.

(** The sources that an actor and an identifier, or the empty one, stand for. *)
Definition named (actor : Actor) (id : string) (b : source) : bool :=
  bool_decide (src_Actor b = actor) && (String.eqb id "" || String.eqb (src_ID b) id).

Lemma named_spec actor id b :
  named actor id b = true ↔ src_Actor b = actor ∧ (id = "" ∨ src_ID b = id).
Proof.
  unfold named. rewrite andb_true_iff, bool_decide_eq_true, orb_true_iff, !String.eqb_eq. done.
Qed.

Lemma source_at_insert a m c subs live next a' id :
  source_at a' id (mkSources (<[a := m]> (c_map c)) subs live next) =
    if decide (a' = a) then m !! id else source_at a' id c.
Proof.
  unfold source_at, actor_sources. simpl. case_decide as E.
  - subst a'. by rewrite lookup_insert_eq.
  - by rewrite lookup_insert_ne.
Qed.

Lemma source_at_frame c c' a id : c_map c' = c_map c → source_at a id c' = source_at a id c.
Proof. unfold source_at, actor_sources. by intros ->. Qed.

Section laws.
Context `{Json} `{MapIter}.
Context (subscribe_outcome : nat → source → option gerror) (json_error : string → gerror).

Lemma elem_of_find a i c b : wf c →
  b ∈ find a i c ↔ source_at (src_Actor b) (src_ID b) c = Some b ∧ named a i b = true.
Proof.
  intros Hwf. rewrite named_spec. unfold find. destruct (String.eqb_spec i "") as [->|Hi]; simpl.
  - rewrite list_elem_of_fmap. split.
    + intros ([id b'] & -> & Hin). simpl. rewrite map_iter_perm, elem_of_map_to_list in Hin.
      destruct (wf_keyed c Hwf a id b' Hin) as [<- <-]. auto.
    + intros [Hb [<- _]]. exists (src_ID b, b). split; [done|]. by rewrite map_iter_perm, elem_of_map_to_list.
  - split.
    + destruct (source_at a i c) as [b'|] eqn:E; [|by intros ?%elem_of_nil].
      intros ->%list_elem_of_singleton. destruct (wf_keyed c Hwf a i b' E) as [Ha Hid].
      rewrite Ha, Hid. auto.
    + intros [Hb [<- [?|<-]]]; [done|]. rewrite Hb. by left.
Qed.

Lemma NoDup_find a i c : wf c → NoDup (find a i c).
Proof.
  intros Hwf. unfold find. destruct (negb (String.eqb i "")).
  - destruct (source_at a i c); [apply NoDup_singleton|apply NoDup_nil_2].
  - apply NoDup_fmap_2_strong.
    + intros [x b] [y b'] Hx Hy E. simpl in E. subst b'.
      rewrite map_iter_perm, elem_of_map_to_list in Hx. rewrite map_iter_perm, elem_of_map_to_list in Hy.
      destruct (wf_keyed c Hwf a x b Hx) as [_ <-]. destruct (wf_keyed c Hwf a y b Hy) as [_ <-]. done.
    + rewrite map_iter_perm. apply NoDup_map_to_list.
Qed.

(** Adding a source: on success it is found, and owns a new consumer group. *)
Lemma add_source_spec s c : wf c → source_at (src_Actor s) (src_ID s) c = None →
  ∃ code err c', add subscribe_outcome s c = (Ok (code, err), c') ∧ wf c' ∧
    (∀ a id, source_at a id c' =
       if decide (err = None ∧ a = src_Actor s ∧ id = src_ID s) then Some s else source_at a id c).
Proof.
  intros Hwf Hn. unfold add, subscribe.
  set (c1 := match c_map c !! src_Actor s with Some _ => c_map c | None => <[src_Actor s := ∅]> (c_map c) end).
  assert (∀ subs live n a id, source_at a id (mkSources c1 subs live n) = source_at a id c) as Hc1.
  { intros subs live n a id. unfold c1. destruct (c_map c !! src_Actor s) eqn:E; [by apply source_at_frame|].
    rewrite source_at_insert. case_decide as Ea; [|done]. subst a. rewrite lookup_empty.
    unfold source_at, actor_sources. rewrite E. simpl. by rewrite lookup_empty. }
  destruct (subscribe_outcome (c_next c) s) as [err|].
  - eexists _, (Some err), _. split; [done|]. split.
    + destruct Hwf as [Hk Hs Hi Hl Hx]. split; simpl; try done.
      * intros a id b. rewrite Hc1. apply Hk.
      * intros a id. rewrite Hc1. apply Hs.
      * intros n Hin. specialize (Hx n Hin). lia.
    + intros a id. rewrite Hc1. by rewrite decide_False by by intros [? _].
  - eexists _, None, _. split; [done|].
    assert (∀ subs live n a id,
      source_at a id (mkSources (<[src_Actor s := <[src_ID s := s]> (default ∅ (c1 !! src_Actor s))]> c1) subs live n) =
      if decide ((@None gerror) = None ∧ a = src_Actor s ∧ id = src_ID s) then Some s else source_at a id c) as Hat.
    { intros subs live n a id.
      change (source_at a id (mkSources (<[src_Actor s := <[src_ID s := s]> (default ∅ (c1 !! src_Actor s))]>
                (c_map (mkSources c1 subs live n))) subs live n) = 
        if decide ((@None gerror) = None ∧ a = src_Actor s ∧ id = src_ID s) then Some s else source_at a id c).
      rewrite source_at_insert, Hc1. case_decide as Ea.
      - subst a. destruct (decide (id = src_ID s)) as [->|Hne].
        + rewrite lookup_insert_eq. by rewrite decide_True.
        + rewrite lookup_insert_ne by done. rewrite decide_False by naive_solver.
          rewrite <-(Hc1 subs live n). done.
      - by rewrite decide_False by naive_solver. }
    split; [|intros a id; apply Hat].
    destruct Hwf as [Hk Hs Hi Hl Hx].
    assert (∀ n, c_subs c !! n ≠ Some (c_next c)) as Hfresh.
    { intros p Hp. assert (c_next c ∈ c_live c) as Hin by (apply Hl; eauto). specialize (Hx _ Hin). lia. }
    split; simpl.
    + intros a id b. rewrite Hat. case_decide as E; [|apply Hk]. intros [= <-]. naive_solver.
    + intros a id. rewrite Hat. case_decide as E.
      * destruct E as (_ & -> & ->). rewrite lookup_insert_eq. by split; eexists.
      * rewrite lookup_insert_ne; [apply Hs|]. naive_solver.
    + intros p q n Hp Hq. apply lookup_insert_Some in Hp as [[<- <-]|[_ Hp]];
        apply lookup_insert_Some in Hq as [[<- Hq']|[_ Hq]]; try done.
      * by destruct (Hfresh q).
      * subst n. by destruct (Hfresh p).
      * by eapply Hi.
    + intros n. rewrite elem_of_union, elem_of_singleton, Hl. split.
      * intros [->|[p Hp]]; [exists (src_Actor s, src_ID s); by rewrite lookup_insert_eq|].
        exists p. rewrite lookup_insert_ne; [done|]. intros <-.
        assert (is_Some (source_at (src_Actor s) (src_ID s) c)) as [x E] by (apply Hs; eauto). congruence.
      * intros [p Hp]. apply lookup_insert_Some in Hp as [[_ <-]|[_ Hp]]; eauto.
    + intros n [->%elem_of_singleton|Hin]%elem_of_union; [lia|]. specialize (Hx n Hin). lia.
Qed.

(** The running consumer groups are those of the table, one each. *)
Definition owned (c : sources) : Prop :=
  (∀ p q n, c_subs c !! p = Some n → c_subs c !! q = Some n → p = q) ∧
  (∀ n, n ∈ c_live c ↔ ∃ p, c_subs c !! p = Some n) ∧
  (∀ n, n ∈ c_live c → (n < c_next c)%nat).

Lemma close_source_owned a id c : owned c → owned (close_source a id c).
Proof.
  intros (Hi & Hl & Hx). unfold close_source. split_and!; simpl.
  - intros p q n [_ Hp]%lookup_delete_Some [_ Hq]%lookup_delete_Some. by eapply Hi.
  - intros n. destruct (c_subs c !! (a, id)) as [m|] eqn:E.
    + rewrite elem_of_difference, elem_of_singleton, Hl. split.
      * intros [[p Hp] Hne]. exists p. rewrite lookup_delete_ne; [done|]. intros <-. congruence.
      * intros [p [Hne Hp]%lookup_delete_Some]. split; [eauto|]. intros ->. apply Hne. by eapply Hi.
    + rewrite Hl. split; intros [p Hp]; exists p.
      * rewrite lookup_delete_ne; [done|]. intros <-. congruence.
      * by apply lookup_delete_Some in Hp as [_ Hp].
  - intros n Hin. apply Hx. destruct (c_subs c !! (a, id)); [set_solver|done].
Qed.

(** Closing sources one after the other. *)
Lemma close_all a (l : list (string * source)) c :
  let c' := foldl (λ c kv, close_source a kv.1 c) c l in
  c_map c' = c_map c ∧ c_next c' = c_next c ∧ (owned c → owned c') ∧
  (∀ p, c_subs c' !! p = if decide (p.1 = a ∧ p.2 ∈ l.*1) then None else c_subs c !! p).
Proof.
  revert c. induction l as [|[id b] l IH]; intros c; simpl.
  - split_and!; try done. intros p. rewrite decide_False; [done|]. by intros [_ ?%elem_of_nil].
  - destruct (IH (close_source a id c)) as (H1 & H2 & H3 & H4). split_and!.
    + by rewrite H1.
    + by rewrite H2.
    + intros Ho. by apply H3, close_source_owned.
    + intros [a' id']. rewrite H4. unfold close_source. simpl.
      destruct (decide ((a, id) = (a', id'))) as [[= <- <-]|Hne].
      * rewrite lookup_delete_eq. destruct (decide (a = a ∧ id ∈ l.*1)) as [?|_]; symmetry;
          [apply decide_True|apply decide_True]; split; [done|left|done|left].
      * rewrite lookup_delete_ne by done. apply decide_ext. rewrite elem_of_cons. naive_solver.
Qed.

Lemma wf_owned c : wf c → owned c.
Proof. intros [Hk Hs Hi Hl Hx]. by split_and!. Qed.

(** Cancelling removes what is named, and ends its consumer groups. *)
Lemma cancel_source_spec a i c : wf c →
  (cancel a i c).1 ≡ₚ find a i c ∧ wf (cancel a i c).2 ∧
  ∀ a' id, source_at a' id (cancel a i c).2 =
    if decide (a' = a ∧ (i = "" ∨ id = i)) then None else source_at a' id c.
Proof.
  intros Hwf. pose proof Hwf as [Hk Hs Hi Hl Hx]. unfold cancel, find. destruct (String.eqb_spec i "") as [->|Hne]; simpl.
  - destruct (close_all a (map_iter 51 (actor_sources a c)) c) as (H1 & H2 & H3 & H4).
    set (c1 := foldl _ c _) in *. destruct (H3 (wf_owned c Hwf)) as (Oi & Ol & Ox).
    assert (∀ a' id, source_at a' id (mkSources (delete a (c_map c1)) (c_subs c1) (c_live c1) (c_next c1)) =
      if decide (a' = a) then None else source_at a' id c) as Hat.
    { intros a' id. unfold source_at, actor_sources. simpl. rewrite H1. case_decide as E.
      - subst a'. rewrite lookup_delete_eq. simpl. by rewrite lookup_empty.
      - by rewrite lookup_delete_ne. }
    split_and!; [apply fmap_Permutation; by rewrite !map_iter_perm| |].
    2: { intros a' id. rewrite Hat. apply decide_ext. tauto. }
    split; try done.
    + intros a' id b. rewrite Hat. case_decide; [done|]. apply Hk.
    + intros a' id. rewrite Hat. simpl. rewrite H4. simpl. case_decide as E.
      * subst a'. split; [by intros [? ?]|]. case_decide as Ed; [by intros [? ?]|]. intros [b Hb]%Hs.
        destruct Ed. split; [done|]. apply list_elem_of_fmap. exists (id, b). split; [done|].
        by rewrite map_iter_perm, elem_of_map_to_list.
      * rewrite decide_False by naive_solver. apply Hs.
  - destruct (source_at a i c) as [b|] eqn:E.
    + assert (∀ subs live n a' id,
        source_at a' id (mkSources (<[a := delete i (actor_sources a c)]> (c_map c)) subs live n) =
        if decide (a' = a ∧ (i = "" ∨ id = i)) then None else source_at a' id c) as Hat.
      { intros subs live n a' id. rewrite source_at_insert. case_decide as Ea.
        - subst a'. destruct (decide (id = i)) as [->|Hid].
          + by rewrite lookup_delete_eq, decide_True by auto.
          + rewrite lookup_delete_ne by done. rewrite decide_False by naive_solver. done.
        - by rewrite decide_False by naive_solver. }
      split_and!; [done| |intros; apply Hat].
      destruct (close_source_owned a i c (wf_owned c Hwf)) as (Oi & Ol & Ox).
      split; [| |exact Oi|exact Ol|exact Ox]; simpl.
      * intros a' id b'. rewrite Hat. if_decide Ed; [done|]. apply Hk.
      * intros a' id. rewrite Hat. simpl. rewrite lookup_delete_is_Some. split.
        -- if_decide Ed; [by intros [? ?]|]. intros Hin. split; [naive_solver|]. by apply Hs.
        -- intros [Hd Hin]. rewrite decide_False by naive_solver. by apply Hs.
    + split_and!; [done|done|]. intros a' id. simpl. if_decide Ed; [|done].
      destruct Ed as [-> [?| ->]]; [done|]. done.
Qed.

Lemma parse_named a i key payload b m :
  parse json_error a i key payload = inl (b, m) →
  named a i b = true ∧ src_key b = key ∧ load a i key m = inl b.
Proof.
  unfold parse. destruct (UnmarshalMsg payload) as [m'|]; [|done]. simpl. intros [= <- <-].
  split; [|done]. apply named_spec. simpl. auto.
Qed.

#[export] Program Instance source_bindings_laws :
    @Bindings.BindingsLaws sources source (source_bindings subscribe_outcome json_error) := {|
  Bindings.wf := wf;
  Bindings.matches := named;
|}.
Next Obligation. intros a i q b Hwf Hb. apply elem_of_find in Hb; [|done]. by destruct Hb. Qed.
Next Obligation.
  intros a i key payload b m E. by apply parse_named in E as (? & ? & _).
Qed.
Next Obligation.
  intros a i b q Hwf Hm Hnone. simpl in Hnone. assert (source_at (src_Actor b) (src_ID b) q = None) as Hn.
  { destruct (source_at (src_Actor b) (src_ID b) q) as [b'|] eqn:E; [|done].
    destruct (wf_keyed q Hwf _ _ _ E) as [Ha Hid]. enough (b' ∈ find a i q) as Hin by (rewrite Hnone in Hin; by apply elem_of_nil in Hin).
    apply elem_of_find; [done|]. rewrite Ha, Hid. split; [done|].
    rewrite named_spec in Hm |- *. by rewrite Ha, Hid. }
  destruct (add_source_spec b q Hwf Hn) as (code & err & q' & E & Hwf' & Hat).
  exists code, err, q'. split_and!; [done|done|]. intros a' i'. simpl.
  apply NoDup_Permutation; [by apply NoDup_find| |].
  - apply NoDup_app. split_and!; [destruct err, (named a' i' b); first [apply NoDup_nil_2|apply NoDup_singleton]| |by apply NoDup_find].
    intros b' Hb' Hin. assert (b' = b) as -> by (destruct err, (named a' i' b); set_solver).
    apply elem_of_find in Hin as [Hin _]; [congruence|done].
  - intros b'. rewrite elem_of_app, !elem_of_find, Hat by done. if_decide Ed.
    + destruct Ed as (-> & Ha & Hid). split.
      * intros [[= <-] ->]. left. by left.
      * destruct (named a' i' b) eqn:En; [|intros [?%elem_of_nil|[? _]]; [done|congruence]].
        intros [->%list_elem_of_singleton|[? _]]; [done|congruence].
    + split; [tauto|]. intros [Hin|?]; [|done]. destruct err, (named a' i' b); try by apply elem_of_nil in Hin.
      apply list_elem_of_singleton in Hin as ->. by destruct Ed.
Qed.
Next Obligation.
  intros a i q Hwf. destruct (cancel_source_spec a i q Hwf) as (P & Hwf' & Hat). split_and!; [done|done|].
  intros a' i'. simpl. apply NoDup_Permutation; [by apply NoDup_find|by apply NoDup_filter, NoDup_find|].
  intros b. rewrite list_elem_of_filter, !elem_of_find, Hat, <-not_true_iff_false, !named_spec by done.
  if_decide Ed; [|tauto]. split; [by intros [? _]|]. intros [Hn _]. destruct Hn. tauto.
Qed.

(* ---------------------------------------------------------------------- *)
(** ** Subscriptions and their consumer groups *)

(** The operations of [bindings.go] on the collection: a subscription replaces
    the one of the same identifier, unless its consumer group cannot be created;
    an unsubscription ends one or all of the subscriptions of an actor. *)
Inductive operation : Type :=
| OpSubscribe (s : source)
| OpUnsubscribe (actor : Actor) (id : string).

Definition perform (op : operation) (c : sources) : sources :=
  match op with
  | OpSubscribe s => (add subscribe_outcome s (cancel (src_Actor s) (src_ID s) c).2).2
  | OpUnsubscribe actor id => (cancel actor id c).2
  end.

Lemma perform_wf op c : wf c → wf (perform op c).
Proof.
  intros Hwf. destruct op as [s|actor id]; simpl; [|by apply cancel_source_spec].
  destruct (cancel_source_spec (src_Actor s) (src_ID s) c Hwf) as (_ & Hwf' & Hat).
  destruct (add_source_spec s _ Hwf') as (code & err & c' & E & Hwf'' & _).
  - rewrite Hat. by rewrite decide_True by auto.
  - by rewrite E.
Qed.

Lemma performs_wf ops c : wf c → wf (foldl (λ c op, perform op c) c ops).
Proof. revert c. induction ops as [|op ops IH]; intros c Hwf; [done|]. by apply IH, perform_wf. Qed.

(** After any sequence of subscriptions and unsubscriptions, also when
    consumer groups cannot be created, the consumer groups that were not cancelled
    are those of the sources of the collection: every source has one, none has
    two sources, and none is left without a source. *)
Theorem subscriptions_live ops :
  let c := foldl (λ c op, perform op c) empty_sources ops in
  (∀ a id s, source_at a id c = Some s → ∃ n, c_subs c !! (a, id) = Some n ∧ n ∈ c_live c) ∧
  (∀ n, n ∈ c_live c → ∃ a id s, source_at a id c = Some s ∧ c_subs c !! (a, id) = Some n ∧
     ∀ a' id', c_subs c !! (a', id') = Some n → a' = a ∧ id' = id).
Proof.
  intros c. destruct (performs_wf ops empty_sources no_sources_wf) as [Hk Hs Hi Hl Hx]. fold c in Hk, Hs, Hi, Hl, Hx.
  split.
  - intros a id s E. destruct (proj1 (Hs a id) (mk_is_Some _ _ E)) as [n Hn]. exists n. split; [done|].
    apply Hl. by exists (a, id).
  - intros n Hn. destruct (proj1 (Hl n) Hn) as [[a id] Hp].
    destruct (proj2 (Hs a id) (mk_is_Some _ _ Hp)) as [s E]. exists a, id, s. split_and!; [done|done|].
    intros a' id' Hp'. pose proof (Hi _ _ _ Hp' Hp) as [= -> ->]. done.
Qed.

End laws.

(* ---------------------------------------------------------------------- *)
(** ** The delivery of events *)

Section delivery.
Import CommandProps.
Context {W : Type} `{Commands.RpcOps W} `{Commands.AppOps W} `{JsonLaws} `{CommandJsonLaws}.
Context (json_error : string → gerror).
#[local] Existing Instance Commands.no_hooks.

(** An event that a subscription transforms is a tell that the sidecar of the
    actor understands: the application gets a request for the path of the source
    with the event as the only argument, as it is when its type is JSON and as a
    JSON string otherwise; no reply and no tail call follow when the method
    returns nothing. *)
Theorem event_delivered s value arg bytes target requestID w w' reply e debugReply :
  event_arg s value = Ok arg → rawEventToActorTellMsg s value = Ok bytes →
  owned target w → ready target requestID w w' →
  Commands.invoke "POST" (method_msg target requestID "tell" (src_Path s) ("[" ++ arg ++ "]")) (Commands.h_env w')
    = (Ok reply, e) →
  Commands.StatusCode reply = 204 → Commands.MarshalReply reply = Ok debugReply →
  Commands.handlerActor target requestID bytes w =
    (Ok (None, None, None), Commands.mkHworld (Commands.h_inst w') e).
Proof.
  intros Ea E Ho Hr Ei Hs Ed. unfold rawEventToActorTellMsg in E. rewrite Ea in E.
  erewrite method_runs; [|exact E|done|by right|done|done|done].
  unfold method_result. change (String.eqb "tell" "tell") with true. cbv match.
  unfold Commands.tell_result. by rewrite Hs.
Qed.

End delivery.

(* ---------------------------------------------------------------------- *)
(** ** The consumption of a claim *)

Section consumption.
(** The messages of a claim and the requests told so far; a tell can fail. *)
Context (transform : string → res string) (told : string → bool).

Definition log_tell (err : gerror) (value : string) : M (list string) unit := λ log,
  if told value then (Ok tt, (log ++ [value])%list) else (Err err, log).

(** What is told for a message. *)
Definition told_value (value : string) : string :=
  match transform value with Ok bytes => bytes | _ => "" end.

Definition fails (r : res string) : Prop := match r with Ok _ | Err _ => True | _ => False end.

Lemma consume_event_spec err msg (c : @claim_state (list string)) :
  fails (transform msg.2) →
  consume_event transform (log_tell err) msg c =
    (Ok tt, if told (told_value msg.2)
            then mkClaim (cs_world c ++ [told_value msg.2])%list (Z.max (cs_committed c) (msg.1 + 1))
            else c).
Proof.
  intros Hf. unfold consume_event, told_value, log_tell, on_world, bind, attempt, of_res.
  destruct c as [log committed]. destruct (transform msg.2) as [bytes| err'| |]; try done; simpl.
  - destruct (told bytes); [done|done].
  - destruct (told ""); [done|done].
Qed.

(** The events of a claim are told in order, those that cannot be told are
    skipped, and the offset that is committed follows the last one that was told:
    an event whose tell failed is not delivered again once a later one was told. *)
Theorem claim_consumed err messages (c : @claim_state (list string)) :
  Forall (λ msg, fails (transform msg.2)) messages →
  let sent := filter (λ msg, told (told_value msg.2) = true) messages in
  ConsumeClaim transform (log_tell err) messages c =
    (Ok tt, mkClaim (cs_world c ++ ((λ msg, told_value msg.2) <$> sent))%list
              (foldl (λ committed msg, Z.max committed (msg.1 + 1)) (cs_committed c) sent)).
Proof.
  revert c. induction messages as [|msg messages IH]; intros c Hf; simpl.
  - rewrite app_nil_r. by destruct c.
  - apply Forall_cons in Hf as [Hm Hf]. unfold bind. rewrite consume_event_spec by done.
    rewrite IH by done. rewrite filter_cons. case_decide as E.
    + rewrite E. simpl. by rewrite <-app_assoc.
    + apply not_true_is_false in E. by rewrite E.
Qed.

End consumption.

(** The second session of a consumer group, after a rebalance of the topic, closes
    a channel that is closed. *)
Example second_session_panics n : sessions (S (S n)) false = (Panic "close of closed channel", true).
Proof. reflexivity. Qed.



(* ---------------------------------------------------------------------- *)
(** ** Concrete runs *)

Module Witness.
#[local] Existing Instance MiniJson.MiniJson.
#[local] Existing Instance MiniJson.MiniJson_laws.
#[local] Existing Instance canonical_iter.
#[local] Existing Instance CommandProps.Witness.ops.
#[local] Existing Instance Commands.no_hooks.
#[local] Existing Instances CommandProps.Witness.replies CommandProps.Witness.replies_laws.

Definition clicks (path : string) : source :=
  mkSource (mkActor "Account" "1") "sub" "binding_0_subscriptions_Account_1_sub" path "clicks" "" "text/plain" false.

Definition events_history : list operation :=
  [OpSubscribe (clicks "/a"); OpSubscribe (clicks "/b"); OpSubscribe (clicks "/c");
   OpUnsubscribe (mkActor "Other" "1") ""].

(** The third consumer group cannot be created: its subscription is gone. *)
Definition third_fails (n : nat) (s : source) : option gerror :=
  if Nat.eqb n 2 then Some (EMsg "no brokers") else None.

Lemma subscriptions_live_witness :
  let c := foldl (λ c op, perform third_fails op c) empty_sources events_history in
  (source_at (mkActor "Account" "1") "sub" c = None ∧ c_live c = ∅) ∧
  (∀ n, n ∈ c_live c → ∃ a id s, source_at a id c = Some s ∧ c_subs c !! (a, id) = Some n ∧
     ∀ a' id', c_subs c !! (a', id') = Some n → a' = a ∧ id' = id).
Proof. split; [by vm_compute|]. apply (subscriptions_live third_fails EMsg events_history). Defined.

(** An application whose methods return nothing, but that answers other requests. *)
#[local] Instance quiet : Commands.AppOps (list string) := {|
  Commands.invoke method msg := λ s,
    (Ok (Commands.mkReply (if String.eqb method "POST" then 204 else 201) "" ""), index_str msg "payload" :: s);
  Commands.state_Del := λ _, ret 1;
|}.

Definition json_clicks : source :=
  mkSource (mkActor "Account" "1") "sub" "key" "/count" "clicks" "" "application/json" false.

Definition json_bytes : string :=
  match rawEventToActorTellMsg json_clicks "41" with Ok bytes => bytes | _ => "" end.

Definition activated : @Commands.hworld (list string) :=
  Commands.mkHworld (Sessions.Sessions.set_activated true CommandProps.Witness.instance0) [].

Lemma event_delivered_witness :
  Commands.handlerActor CommandProps.Witness.account "req-9" json_bytes activated =
    (Ok (None, None, None), Commands.mkHworld (Commands.h_inst activated) ["[41]"]).
Proof.
  refine (event_delivered json_clicks "41" "41" json_bytes CommandProps.Witness.account "req-9" activated activated
            (Commands.mkReply 204 "" "") ["[41]"] "204;;" _ _ _ _ _ _ _).
  - reflexivity.
  - vm_compute. reflexivity.
  - reflexivity.
  - by apply CommandProps.ready_activated.
  - vm_compute. reflexivity.
  - reflexivity.
  - vm_compute. reflexivity.
Defined.

(** The second event of the claim cannot be told and is lost: the offset 13 is
    committed. *)
Lemma claim_consumed_witness :
  ConsumeClaim (λ v, Ok v) (log_tell (λ v, negb (String.eqb v "b")) (EMsg "broken pipe"))
    [(10, "a"); (11, "b"); (12, "c")] (mkClaim [] 10) = (Ok tt, mkClaim ["a"; "c"] 13).
Proof.
  refine (claim_consumed (λ v, Ok v) (λ v, negb (String.eqb v "b")) (EMsg "broken pipe")
            [(10, "a"); (11, "b"); (12, "c")] (mkClaim [] 10) _).
  repeat constructor.
Defined.

End Witness.

End Events.
