(* ===== verification/Deadlock.v ===== *)
(** * Deadlock: the deadlock detector of the command-line debugger

    Models src/core/cmd/kar-debugger/kar-debugger.go, from the types of
    [listBusyInfo_t] to [checkDeadlock]: the graph of actors and pending requests
    built from what the sidecars report, and the depth-first search for a cycle
    of actors that wait for each other.  The search marks and unmarks the nodes of
    the graph it is given; its recursion takes fuel, and a number of levels equal
    to the number of actors is always enough.

    The main results are [search_complete], the search against the declarative
    [deadlock] of a graph, and its instance for a report of the sidecars. *)

From S2P Require Import Prelude GoLib.
Open Scope string_scope.
Open Scope list_scope.
Open Scope go_scope.

Module Deadlock.

(* ---------------------------------------------------------------------- *)
(** ** Data *)

Record actorJson_t : Type := mkActor { ActorType : string; ActorId : string }.

#[export] Instance actorJson_eq_dec : EqDecision actorJson_t.
Proof. solve_decision. Defined.
#[export] Instance actorJson_countable : Countable actorJson_t.
Proof.
  refine (inj_countable' (λ a, (ActorType a, ActorId a)) (λ p, mkActor p.1 p.2) _). by intros [].
Defined.

Record actorSentInfo_t : Type := mkSent {
  Actor : actorJson_t;
  ParentId : string;
  RequestValue : string;
  FlowId : string;
  IsHandling : bool;
}.

Record listBusyInfo_t : Type := mkBusy {
  ActorHandling : gmap string actorSentInfo_t;
  ActorSent : gmap string actorSentInfo_t;
}.

Record request_t : Type := mkRequest {
  q_RequestId : string;
  CallStack : string;      (** the flow of the request *)
  q_RequestValue : string;
}.

#[export] Instance request_eq_dec : EqDecision request_t.
Proof. solve_decision. Defined.
#[export] Instance request_countable : Countable request_t.
Proof.
  refine (inj_countable' (λ q, (q_RequestId q, CallStack q, q_RequestValue q))
            (λ '(i, c, v), mkRequest i c v) _). by intros [].
Defined.

Record edge_t : Type := mkEdge {
  SrcActor : actorJson_t;
  DstActor : actorJson_t;
  Req : request_t;
  ParentValue : string;
}.

#[export] Instance edge_eq_dec : EqDecision edge_t.
Proof. solve_decision. Defined.

Record node_t : Type := mkNode { Edges : gmap request_t edge_t; IsVisited : bool }.

Notation graph_t := (gmap actorJson_t node_t).

(** The zero values. *)
Definition no_actor : actorJson_t := mkActor "" "".
Definition no_info : actorSentInfo_t := mkSent no_actor "" "" "" false.
Definition no_node : node_t := mkNode ∅ false.

(** Indexing the maps: the zero value for a key that is not there. *)
Definition info_of (m : gmap string actorSentInfo_t) (k : string) : actorSentInfo_t :=
  default no_info (m !! k).
Definition node_of (g : graph_t) (a : actorJson_t) : node_t := default no_node (g !! a).

(* ---------------------------------------------------------------------- *)
(** ** Building the graph *)

(** [retgraph[src].Edges[q] = e], in a node that is made first if it is missing. *)
Definition add_edge (src : actorJson_t) (e : edge_t) (g : graph_t) : graph_t :=
  <[src := mkNode (<[Req e := e]> (Edges (node_of g src))) (IsVisited (node_of g src))]> g.

(** The edge of a root request: the parent of [info] is no pending request. *)
Definition root_edge (b : listBusyInfo_t) (info : actorSentInfo_t) : edge_t :=
  let parentInfo := info_of (ActorHandling b) (ParentId info) in
  mkEdge no_actor (Actor parentInfo)
    (mkRequest (ParentId info) (FlowId info) (RequestValue parentInfo)) "".

Definition add_root (b : listBusyInfo_t) (g : graph_t) (x : string * actorSentInfo_t) : graph_t :=
  match ActorSent b !! ParentId x.2 with
  | Some _ => g
  | None => add_edge no_actor (root_edge b x.2) g
  end.

(** The edge of a pending request, from the actor that handles its parent. *)
Definition sent_edge (b : listBusyInfo_t) (reqId : string) (info : actorSentInfo_t) : edge_t :=
  let parentInfo := info_of (ActorHandling b) (ParentId info) in
  mkEdge (Actor parentInfo) (Actor info) (mkRequest reqId (FlowId info) (RequestValue info))
    (RequestValue parentInfo).

Definition add_sent (b : listBusyInfo_t) (g : graph_t) (x : string * actorSentInfo_t) : graph_t :=
  add_edge (SrcActor (sent_edge b x.1 x.2)) (sent_edge b x.1 x.2) g.

Definition makeDeadlockGraph `{MapIter} (b : listBusyInfo_t) : graph_t :=
  let g := {[no_actor := no_node]} in
  let g := foldl (add_root b) g (map_iter 200 (ActorSent b)) in
  foldl (add_sent b) g (map_iter 201 (ActorSent b)).

(* ---------------------------------------------------------------------- *)
(** ** Searching the graph *)

(** Go's order of iteration over the edges of a node. *)
Class EdgeIter : Type := {
  edge_iter : gmap request_t edge_t → list (request_t * edge_t);
  edge_iter_perm : ∀ m, edge_iter m ≡ₚ map_to_list m;
}.

Definition set_visited (a : actorJson_t) (v : bool) (g : graph_t) : graph_t :=
  <[a := mkNode (Edges (node_of g a)) v]> g.

(** The first edge of [path] that enters [a], and what follows it. *)
Fixpoint entry (a : actorJson_t) (path : list edge_t) : list edge_t :=
  match path with
  | [] => []
  | e :: path' => if decide (DstActor e = a) then path else entry a path'
  end.

(** [checkDeadlockCycles] at a node that is visited. *)
Definition at_visited (a : actorJson_t) (path : list edge_t) : bool * list edge_t :=
  match entry a path, last path with
  | e :: _, Some l =>
      if String.eqb (CallStack (Req e)) (CallStack (Req l)) then (false, []) else (true, entry a path)
  | _, _ => (true, path)
  end.

Section search.
Context `{EdgeIter}.

(** The loop over the edges of a node. *)
Fixpoint check_edges (check : actorJson_t → list edge_t → M graph_t (bool * list edge_t))
    (path : list edge_t) (es : list edge_t) : M graph_t (bool * list edge_t) :=
  match es with
  | [] => ret (false, [])
  | e :: es' =>
      let* '(c, npath) := check (DstActor e) (path ++ [e]) in
      if (c : bool) then ret (c, npath) else check_edges check path es'
  end.

Fixpoint checkDeadlockCycles (fuel : nat) (a : actorJson_t) (path : list edge_t)
    : M graph_t (bool * list edge_t) :=
  match fuel with
  | O => of_res OutOfFuel
  | S fuel' =>
      let* g := get in
      if IsVisited (node_of g a) then ret (at_visited a path)
      else
        modify (set_visited a true) ;;*
        finally
          (let* g := get in
           check_edges (checkDeadlockCycles fuel') path (edge_iter (Edges (node_of g a))).*2)
          (modify (set_visited a false))
  end.
End search.

Definition checkDeadlock `{MapIter, EdgeIter} (fuel : nat) (b : listBusyInfo_t) : res (list edge_t) :=
  match (checkDeadlockCycles fuel no_actor [] (makeDeadlockGraph b)).1 with
  | Ok (_, path) => Ok path
  | Err e => Err e
  | Panic s => Panic s
  | OutOfFuel => OutOfFuel
  end.

(* ---------------------------------------------------------------------- *)
(** ** What a deadlock is *)

(** The edges of a graph that leave [a]. *)
Definition leaves (g : graph_t) (a : actorJson_t) (e : edge_t) : Prop :=
  ∃ q, Edges (node_of g a) !! q = Some e.

(** A walk: each edge leaves the actor the one before it enters. *)
Fixpoint walk (lv : actorJson_t → edge_t → Prop) (a : actorJson_t) (p : list edge_t) : Prop :=
  match p with
  | [] => True
  | e :: p' => lv a e ∧ walk lv (DstActor e) p'
  end.

(** The actor a walk from [a] ends at. *)
Definition target (a : actorJson_t) (p : list edge_t) : actorJson_t :=
  default a (DstActor <$> last p).

(** The actors of a walk from [a]. *)
Definition actors (a : actorJson_t) (p : list edge_t) : list actorJson_t := a :: (DstActor <$> p).

(** A walk that enters an actor by the request of one flow, goes on through other
    actors, and comes back to it by a request of another flow: none of the actors
    from the first entry on can proceed. *)
Definition closes (a : actorJson_t) (p rep : list edge_t) : Prop :=
  ∃ pre e mid l, p = pre ++ rep ∧ rep = (e :: mid) ++ [l] ∧
    DstActor l = DstActor e ∧ CallStack (Req l) ≠ CallStack (Req e) ∧
    NoDup (actors a (pre ++ e :: mid)).

(** [rep] is the part of the walk that a report shows. *)
Definition deadlock (lv : actorJson_t → edge_t → Prop) (root : actorJson_t) (rep : list edge_t) : Prop :=
  ∃ p, walk lv root p ∧ closes root p rep.

(** Equal nodes, whatever the keys. *)
Definition same (g g' : graph_t) : Prop := ∀ a, node_of g' a = node_of g a.

(* ---------------------------------------------------------------------- *)
(** ** Walks and marks *)

#[export] Instance same_preorder : PreOrder same.
Proof. split; [by intros g a|]. intros g1 g2 g3 E1 E2 a. by rewrite E2, E1. Qed.

Lemma node_of_set_visited a v g b :
  node_of (set_visited a v g) b =
    if decide (b = a) then mkNode (Edges (node_of g a)) v else node_of g b.
Proof.
  unfold set_visited, node_of. destruct (decide (b = a)) as [->|].
  - by rewrite lookup_insert_eq.
  - by rewrite lookup_insert_ne.
Qed.

Lemma walk_app lv a p q : walk lv a (p ++ q) ↔ walk lv a p ∧ walk lv (target a p) q.
Proof.
  revert a. induction p as [|e p IH]; intros a; simpl; [tauto|]. rewrite IH.
  assert (target (DstActor e) p = target a (e :: p)) as ->.
  { unfold target. destruct p using rev_ind; [done|].
    by rewrite app_comm_cons, !last_snoc. }
  tauto.
Qed.

Lemma target_snoc a p e : target a (p ++ [e]) = DstActor e.
Proof. unfold target. by rewrite last_snoc. Qed.

Lemma actors_app a p q : actors a (p ++ q) = actors a p ++ (DstActor <$> q).
Proof. unfold actors. by rewrite fmap_app. Qed.

Lemma walk_mono (lv lv' : actorJson_t → edge_t → Prop) a p :
  (∀ b e, lv b e → lv' b e) → walk lv a p → walk lv' a p.
Proof. intros E. revert a. induction p as [|e p IH]; intros a; simpl; [done|]. naive_solver. Qed.

Lemma walk_edges g g' a p :
  (∀ b, Edges (node_of g' b) = Edges (node_of g b)) → walk (leaves g) a p → walk (leaves g') a p.
Proof. intros E. apply walk_mono. intros b e (q & Hq). exists q. by rewrite E. Qed.

(** The actors marked when the search comes to the end of [path]. *)
Definition visited (root : actorJson_t) (path : list edge_t) : list actorJson_t :=
  match path with [] => [] | _ => actors root (removelast path) end.

Definition marked (g : graph_t) (vs : list actorJson_t) : Prop :=
  ∀ a, IsVisited (node_of g a) = true ↔ a ∈ vs.

(** A deadlock whose walk extends [path]. *)
Definition extends (g : graph_t) (root : actorJson_t) (path rep : list edge_t) : Prop :=
  ∃ q, walk (leaves g) root (path ++ q) ∧ closes root (path ++ q) rep.

Lemma elem_of_entry a path : a ∈ DstActor <$> path →
  ∃ pre e mid, path = pre ++ e :: mid ∧ DstActor e = a ∧ entry a path = e :: mid ∧ a ∉ DstActor <$> pre.
Proof.
  induction path as [|e path IH]; simpl; [by intros ?%not_elem_of_nil|]. intros Hin.
  destruct (decide (DstActor e = a)) as [E|N].
  - exists [], e, path. split_and!; try done. apply not_elem_of_nil.
  - apply elem_of_cons in Hin as [->|Hin]; [done|].
    destruct (IH Hin) as (pre & e' & mid & -> & He & En & Hn). exists (e :: pre), e', mid.
    split_and!; try done. simpl. rewrite not_elem_of_cons. done.
Qed.

Lemma entry_app a pre e mid : a ∉ DstActor <$> pre → DstActor e = a → entry a (pre ++ e :: mid) = e :: mid.
Proof.
  intros Hn He. induction pre as [|x pre IH]; simpl; [by rewrite decide_True|].
  simpl in Hn. apply not_elem_of_cons in Hn as [Hx Hn]. rewrite decide_False by done. by apply IH.
Qed.

Lemma visited_snoc root path e : visited root (path ++ [e]) = actors root path.
Proof. unfold visited. rewrite removelast_last. by destruct path. Qed.

Lemma actors_visited root path : actors root path = visited root path ++ [target root path].
Proof.
  destruct path as [|l path _] using rev_ind; [done|].
  by rewrite visited_snoc, target_snoc, actors_app.
Qed.

(** What closes a walk enters an actor of the walk before its last edge. *)
Lemma closes_visited root p rep : closes root p rep → target root p ∈ visited root p.
Proof.
  intros (pre & e & mid & l & -> & -> & Hd & _ & _).
  rewrite app_assoc, visited_snoc, target_snoc, Hd.
  rewrite actors_app. apply elem_of_app. right. simpl. set_solver.
Qed.

(** Nothing that goes on past an actor met twice closes. *)
Lemma closes_beyond root path q rep :
  target root path ∈ visited root path → q ≠ [] → ¬ closes root (path ++ q) rep.
Proof.
  intros Hin Hq (pre & e & mid & l & E & -> & _ & _ & Hnd).
  destruct q as [|l' q _] using rev_ind; [done|]. rewrite !app_assoc in E.
  apply app_inj_2 in E as [E _]; [|done]. rewrite <-E, actors_app, actors_visited in Hnd.
  apply NoDup_app in Hnd as [Hnd _]. apply NoDup_app in Hnd as (_ & Hnd & _).
  apply (Hnd _ Hin). set_solver.
Qed.

(** ** At an actor that is visited, the test decides whether the path closes. *)
Lemma at_visited_spec root path :
  NoDup (visited root path) → target root path ∈ visited root path →
  match at_visited (target root path) path with
  | (true, rep) => closes root path rep
  | (false, rep) => rep = [] ∧ ∀ rep, ¬ closes root path rep
  end.
Proof.
  destruct path as [|l p _] using rev_ind; [by intros _ ?%not_elem_of_nil|].
  rewrite visited_snoc, target_snoc. intros Hnd Hin. unfold at_visited.
  destruct (elem_of_entry (DstActor l) (p ++ [l])) as (pre & e & mid & E & He & En & Hn); [set_solver|].
  rewrite En, last_snoc. destruct (String.eqb_spec (CallStack (Req e)) (CallStack (Req l))) as [Ef|Ef].
  - split; [done|]. intros rep (pre' & e' & mid' & l' & E' & -> & Hd & Hf & Hnd').
    rewrite app_assoc in E'. apply app_inj_2 in E' as [-> [= <-]]; [|done].
    rewrite <-app_assoc, <-app_comm_cons, entry_app in En; [by simplify_eq| |done].
    rewrite actors_app in Hnd'. apply NoDup_app in Hnd' as (_ & Hnd' & _). intros Hin'.
    apply (Hnd' (DstActor l)); [|rewrite Hd]; simpl; set_solver.
  - destruct mid as [|l' mid _] using rev_ind.
    { apply app_inj_2 in E as [_ [= ->]]; [|done]. done. }
    rewrite app_comm_cons, app_assoc in E. apply app_inj_2 in E as [-> [= <-]]; [|done].
    exists pre, e, mid, l. split_and!; try done. by rewrite <-!app_assoc.
Qed.

(* ---------------------------------------------------------------------- *)
(** ** The search *)

Lemma extends_same g g' root path rep :
  (∀ b, Edges (node_of g' b) = Edges (node_of g b)) → extends g root path rep → extends g' root path rep.
Proof. intros E (q & W & C). exists q. split; [by eapply walk_edges|done]. Qed.

Lemma extends_cons g root path e rep : extends g root (path ++ [e]) rep → extends g root path rep.
Proof. intros (q & W & C). exists (e :: q). by rewrite cons_middle, app_assoc. Qed.

(** At an actor that is not visited, a deadlock goes on by one of its edges. *)
Lemma extends_edge g root path rep :
  target root path ∉ visited root path → extends g root path rep →
  ∃ e, leaves g (target root path) e ∧ extends g root (path ++ [e]) rep.
Proof.
  intros Hn ([|e q] & W & C).
  - rewrite app_nil_r in C. by apply closes_visited in C.
  - pose proof W as W'. apply walk_app in W' as [_ [Hl _]]. exists e. split; [done|].
    exists q. by rewrite <-app_assoc.
Qed.

Section search_spec.
Context `{EdgeIter}.

Lemma elem_of_edge_iter g a e : e ∈ (edge_iter (Edges (node_of g a))).*2 ↔ leaves g a e.
Proof.
  rewrite edge_iter_perm, list_elem_of_fmap. unfold leaves. split.
  - intros ([q e'] & -> & Hin%elem_of_map_to_list). by exists q.
  - intros (q & Hq). exists (q, e). split; [done|]. by apply elem_of_map_to_list.
Qed.

(** A search below one edge, and what the loop over the edges makes of it. *)
Definition searches (g : graph_t) (root : actorJson_t) (path : list edge_t) (r : res (bool * list edge_t) * graph_t)
    : Prop :=
  ∃ c rep g', r = (Ok (c, rep), g') ∧ same g g' ∧
    if (c : bool) then extends g root path rep else rep = [] ∧ ∀ rep, ¬ extends g root path rep.

Lemma check_edges_spec check root path es g :
  (∀ e g', e ∈ es → same g g' → searches g' root (path ++ [e]) (check (DstActor e) (path ++ [e]) g')) →
  ∃ c rep g', check_edges check path es g = (Ok (c, rep), g') ∧ same g g' ∧
    if (c : bool) then extends g root path rep
    else rep = [] ∧ ∀ e rep, e ∈ es → ¬ extends g root (path ++ [e]) rep.
Proof.
  intros Hc. assert (same g g) as Hs by done. revert Hs. generalize g at 2 3 as g1.
  induction es as [|e es IH]; intros g1 Hs; simpl.
  - exists false, [], g1. split_and!; [done..|]. by intros e rep ?%not_elem_of_nil.
  - destruct (Hc e g1 (list_elem_of_here _ _) Hs) as (c & rep & g2 & E & Hs2 & Hx).
    assert (∀ b, Edges (node_of g b) = Edges (node_of g1 b)) as Hb by (intros b; by rewrite Hs).
    unfold bind. rewrite E. destruct c.
    + exists true, rep, g2. split_and!; [done|by etrans|]. eapply extends_same; [done|].
      by eapply extends_cons.
    + destruct (IH ltac:(intros e' g' Hin; apply Hc; by right) g2 ltac:(by etrans)) as (c & rep' & g3 & E3 & Hs3 & Hx3).
      exists c, rep', g3. split_and!; [done..|]. destruct c; [done|]. destruct Hx as [_ Hx], Hx3 as [-> Hx3]. split; [done|].
      intros e' rep'' [->|Hin]%elem_of_cons Hx'; [|by eapply Hx3].
      eapply Hx. eapply extends_same; [|done]. intros b. symmetry. apply Hb.
Qed.

Lemma marked_set_visited g root path :
  marked g (visited root path) → marked (set_visited (target root path) true g) (actors root path).
Proof.
  intros Hm a. rewrite node_of_set_visited, actors_visited, elem_of_app, list_elem_of_singleton.
  destruct (decide (a = target root path)); simpl; [tauto|]. rewrite (Hm a). tauto.
Qed.

Lemma marked_same g g' vs : same g g' → marked g vs → marked g' vs.
Proof. intros Hs Hm a. by rewrite Hs. Qed.

Lemma search_spec (V : gset actorJson_t) root fuel : ∀ g path,
  (∀ a e, leaves g a e → DstActor e ∈ V) → target root path ∈ V →
  marked g (visited root path) → walk (leaves g) root path → NoDup (visited root path) →
  (size (V ∖ list_to_set (visited root path)) < fuel)%nat →
  searches g root path (checkDeadlockCycles fuel (target root path) path g).
Proof.
  induction fuel as [|fuel IH]; intros g path HV Ha Hm Hw Hnd Hf; [lia|].
  cbn [checkDeadlockCycles]. unfold bind at 1, get.
  destruct (IsVisited (node_of g (target root path))) eqn:Ev.
  { apply Hm in Ev. pose proof (at_visited_spec root path Hnd Ev) as Hc.
    destruct (at_visited (target root path) path) as [c rep]. exists c, rep, g. split_and!; [done..|].
    destruct c.
    - exists []. by rewrite app_nil_r.
    - destruct Hc as [-> Hc]. split; [done|]. intros rep' (q & W & C). destruct (decide (q = [])) as [->|Hq].
      + rewrite app_nil_r in C. by eapply Hc.
      + by eapply closes_beyond. }
  assert (target root path ∉ visited root path) as Hn by (intros Hin%Hm; congruence).
  set (g1 := set_visited (target root path) true g).
  assert (∀ b, Edges (node_of g1 b) = Edges (node_of g b)) as Hb.
  { intros b. unfold g1. rewrite node_of_set_visited. by case_decide; subst. }
  assert (∀ b, Edges (node_of g b) = Edges (node_of g1 b)) as Hb' by done.
  assert (∀ a e, leaves g1 a e ↔ leaves g a e) as Hl by (intros; unfold leaves; by rewrite Hb).
  destruct (check_edges_spec (checkDeadlockCycles fuel) root path
              (edge_iter (Edges (node_of g1 (target root path)))).*2 g1) as (c & rep & g2 & E & Hs & Hx).
  { intros e g' Hin%elem_of_edge_iter Hs.
    assert (∀ b, Edges (node_of g' b) = Edges (node_of g b)) as Hb2 by (intros b; by rewrite Hs).
    rewrite <-(target_snoc root path e). apply IH.
    - intros a e'. unfold leaves. rewrite Hb2. apply HV.
    - rewrite target_snoc. eapply HV. by apply Hl.
    - rewrite visited_snoc. eapply marked_same; [done|]. by apply marked_set_visited.
    - apply walk_app. split; [by eapply walk_edges|]. split; [|done].
      unfold leaves. rewrite Hb2. by apply Hl.
    - rewrite visited_snoc, actors_visited. apply NoDup_app. split_and!; [done| |apply NoDup_singleton].
      intros a Hin' ->%list_elem_of_singleton. done.
    - rewrite visited_snoc, actors_visited, list_to_set_app_L, list_to_set_singleton_L.
      assert (size (V ∖ (list_to_set (visited root path) ∪ {[target root path]})) < size (V ∖ list_to_set (visited root path)))%nat; [|lia].
      apply subset_size. split; [set_solver|]. intros Hsub.
      assert (target root path ∈ V ∖ list_to_set (visited root path)) as Hin' by set_solver.
      apply Hsub in Hin'. set_solver. }
  exists c, rep, (set_visited (target root path) false g2). split_and!.
  - unfold bind, modify, finally, get. fold g1. cbn beta iota. by rewrite E.
  - intros a. rewrite node_of_set_visited. unfold same in Hs. rewrite !Hs, Hb. case_decide as Ea; subst.
    + unfold marked in Hm. by destruct (node_of g (target root path)); simpl in *; subst.
    + unfold g1. by rewrite node_of_set_visited, decide_False.
  - destruct c; [by eapply extends_same|]. destruct Hx as [-> Hx]. split; [done|]. intros rep' Hd.
    destruct (extends_edge g root path rep' Hn Hd) as (e & He & Hd').
    eapply Hx; [|by eapply extends_same]. apply elem_of_edge_iter. by apply Hl.
Qed.
End search_spec.

(* ---------------------------------------------------------------------- *)
(** ** The graph of a report *)

(** The edges of a report of the sidecars: its pending requests and the roots of
    their chains. *)
Definition pending (b : listBusyInfo_t) (a : actorJson_t) (e : edge_t) : Prop :=
  a = SrcActor e ∧ ∃ reqId info, ActorSent b !! reqId = Some info ∧
    (e = sent_edge b reqId info ∨ ActorSent b !! ParentId info = None ∧ e = root_edge b info).

Definition add_edges (es : list edge_t) (g : graph_t) : graph_t :=
  foldl (λ g e, add_edge (SrcActor e) e g) g es.

Lemma node_of_add_edge src e g a :
  node_of (add_edge src e g) a =
    if decide (a = src) then mkNode (<[Req e := e]> (Edges (node_of g a))) (IsVisited (node_of g a))
    else node_of g a.
Proof.
  unfold add_edge. unfold node_of. destruct (decide (a = src)) as [->|].
  - by rewrite lookup_insert_eq.
  - by rewrite lookup_insert_ne.
Qed.

(** Two edges with the same request leave the same node only if they are equal. *)
Definition coherent (es : list edge_t) : Prop :=
  ∀ e e', e ∈ es → e' ∈ es → SrcActor e = SrcActor e' → Req e = Req e' → e = e'.

Lemma add_edges_spec es : coherent es →
  let g := add_edges es {[no_actor := no_node]} in
  (∀ a q e, Edges (node_of g a) !! q = Some e ↔ e ∈ es ∧ a = SrcActor e ∧ q = Req e) ∧
  ∀ a, IsVisited (node_of g a) = false.
Proof.
  intros Hc. unfold add_edges. induction es as [|e es IH] using rev_ind.
  - assert (∀ a, node_of {[no_actor := no_node]} a = no_node) as Hn.
    { intros a. unfold node_of. destruct (decide (a = no_actor)) as [->|].
      - by rewrite lookup_singleton_eq.
      - by rewrite lookup_singleton_ne. }
    simpl. split; [|intros a; by rewrite Hn]. intros a q e. rewrite Hn. simpl.
    rewrite lookup_empty, elem_of_nil. split; [done|by intros [? _]].
  - rewrite foldl_app. simpl.
    destruct IH as [IHe IHv]. { intros x y Hx Hy. apply Hc; set_solver. }
    split; [|intros a; rewrite node_of_add_edge, IHv; by destruct (decide _)].
    intros a q x. rewrite node_of_add_edge. destruct (decide (a = SrcActor e)) as [->|Ha]; simpl.
    + destruct (decide (q = Req e)) as [->|Hq].
      * rewrite lookup_insert_eq. split; [intros [= ->]; set_solver|].
        intros (Hx & Hs & Hq). f_equal. apply Hc; set_solver.
      * rewrite lookup_insert_ne by done. rewrite IHe. set_solver.
    + rewrite IHe. set_solver.
Qed.

Section graph.
Context `{MapIter}.

Definition root_edges (b : listBusyInfo_t) : list edge_t :=
  (λ x, root_edge b x.2) <$> filter (λ x, ActorSent b !! ParentId x.2 = None) (map_iter 200 (ActorSent b)).

Definition sent_edges (b : listBusyInfo_t) : list edge_t :=
  (λ x, sent_edge b x.1 x.2) <$> map_iter 201 (ActorSent b).

Lemma add_roots b l g :
  foldl (add_root b) g l =
  add_edges ((λ x : string * _, root_edge b x.2) <$> filter (λ x, ActorSent b !! ParentId x.2 = None) l) g.
Proof.
  revert g. induction l as [|x l IH]; intros g; [done|]. cbn [foldl]. rewrite IH. clear IH.
  rewrite filter_cons. unfold add_root.
  destruct (ActorSent b !! ParentId x.2) eqn:Ep; [by rewrite decide_False|by rewrite decide_True].
Qed.

Lemma add_sents b l g : foldl (add_sent b) g l = add_edges ((λ x, sent_edge b x.1 x.2) <$> l) g.
Proof. revert g. induction l as [|x l IH]; intros g; [done|apply IH]. Qed.

Lemma makeDeadlockGraph_edges b :
  makeDeadlockGraph b = add_edges (root_edges b ++ sent_edges b) {[no_actor := no_node]}.
Proof.
  unfold makeDeadlockGraph. rewrite add_roots, add_sents. unfold add_edges. by rewrite foldl_app.
Qed.

Lemma elem_of_map_iter {A} site (m : gmap string A) x : x ∈ map_iter site m ↔ m !! x.1 = Some x.2.
Proof. rewrite map_iter_perm. destruct x as [k v]. apply elem_of_map_to_list. Qed.

Lemma elem_of_graph_edges b e : e ∈ root_edges b ++ sent_edges b ↔ pending b (SrcActor e) e.
Proof.
  rewrite elem_of_app. unfold root_edges, sent_edges. rewrite !list_elem_of_fmap. unfold pending. split.
  - intros [([k i] & -> & [Hp Hx]%list_elem_of_filter)|([k i] & -> & Hx)]; apply elem_of_map_iter in Hx;
      split; [done| |done|]; exists k, i; split; [done|by right|done|by left].
  - intros (_ & k & i & Hx & [->|[Hp ->]]).
    + right. exists (k, i). split; [done|]. by apply elem_of_map_iter.
    + left. exists (k, i). split; [done|]. apply list_elem_of_filter. split; [done|]. by apply elem_of_map_iter.
Qed.

Lemma graph_coherent b : coherent (root_edges b ++ sent_edges b).
Proof.
  intros e e' (_ & k & i & Hk & He)%elem_of_graph_edges (_ & k' & i' & Hk' & He')%elem_of_graph_edges _ Hq.
  destruct He as [->|[Hn ->]], He' as [->|[Hn' ->]]; unfold sent_edge, root_edge in *; simpl in Hq;
    simplify_eq; try congruence.
  all: repeat match goal with E : _ = _ |- _ => progress rewrite E end; done.
Qed.

Lemma graph_leaves b a e : leaves (makeDeadlockGraph b) a e ↔ pending b a e.
Proof.
  rewrite makeDeadlockGraph_edges. destruct (add_edges_spec _ (graph_coherent b)) as [He _].
  unfold leaves. setoid_rewrite He. setoid_rewrite elem_of_graph_edges. split.
  - by intros (q & Hp & -> & _).
  - intros Hp. exists (Req e). by destruct Hp as [-> ?].
Qed.

Lemma graph_unmarked b : marked (makeDeadlockGraph b) [].
Proof.
  intros a. rewrite makeDeadlockGraph_edges, (proj2 (add_edges_spec _ (graph_coherent b))).
  by rewrite elem_of_nil.
Qed.

(** The actors the edges of a report enter, and the node of the roots. *)
Definition vertices (b : listBusyInfo_t) : gset actorJson_t :=
  list_to_set (no_actor :: (DstActor <$> root_edges b ++ sent_edges b)).

Lemma size_vertices b : (size (vertices b) ≤ 1 + 2 * size (ActorSent b))%nat.
Proof.
  unfold vertices. etrans; [apply size_list_to_set_le|]. simpl. rewrite length_fmap, length_app.
  unfold root_edges, sent_edges. rewrite !length_fmap, (map_iter_perm _ 201), length_map_to_list.
  pose proof (length_filter (λ x, ActorSent b !! ParentId x.2 = None) (map_iter 200 (ActorSent b))) as Hl.
  pose proof (Permutation_length (map_iter_perm _ 200 (ActorSent b))) as Hp.
  rewrite length_map_to_list in Hp. lia.
Qed.

Context `{EdgeIter}.

(** The search of a report, with a level of recursion for each actor. *)
Lemma checkDeadlock_spec b fuel : (1 + 2 * size (ActorSent b) < fuel)%nat →
  ∃ c path, checkDeadlock fuel b = Ok path ∧
    if (c : bool) then deadlock (pending b) no_actor path
    else path = [] ∧ ∀ rep, ¬ deadlock (pending b) no_actor rep.
Proof.
  intros Hf. unfold checkDeadlock.
  destruct (search_spec (vertices b) no_actor fuel (makeDeadlockGraph b) []) as (c & rep & g' & E & _ & Hx).
  - intros a e Hl%graph_leaves. unfold vertices. apply elem_of_list_to_set. right.
    apply list_elem_of_fmap. exists e. split; [done|].
    apply elem_of_graph_edges. by destruct Hl as [-> ?].
  - unfold vertices. apply elem_of_list_to_set. by left.
  - apply graph_unmarked.
  - done.
  - constructor.
  - pose proof (size_vertices b).
    pose proof (subseteq_size (vertices b ∖ list_to_set (visited no_actor [])) (vertices b) ltac:(set_solver)). lia.
  - change (target no_actor []) with no_actor in E. rewrite E. exists c, rep. split; [done|].
    assert (∀ r, extends (makeDeadlockGraph b) no_actor [] r ↔ deadlock (pending b) no_actor r) as Hd.
    { intros r. unfold extends, deadlock. simpl. split; intros (p & W & C); exists p; (split; [|done]);
        eapply walk_mono; try exact W; intros; by apply graph_leaves. }
    destruct c; [by apply Hd|]. destruct Hx as [-> Hx]. split; [done|]. intros r. rewrite <-Hd. apply Hx.
Qed.

(** C23: The deadlock detector decides deadlock: given one level of recursion per
    actor that a report can name, the search ends, what it returns is a walk of
    pending requests that comes back to an actor by the request of another flow
    whenever it is not empty, and it is empty only when the pending requests of
    the report have no such walk from a root request. *)
Theorem deadlock_detected b fuel : (1 + 2 * size (ActorSent b) < fuel)%nat →
  ∃ path, checkDeadlock fuel b = Ok path ∧
    (path ≠ [] → deadlock (pending b) no_actor path) ∧
    (path = [] ↔ ∀ rep, ¬ deadlock (pending b) no_actor rep).
Proof.
  intros Hf. destruct (checkDeadlock_spec b fuel Hf) as (c & path & E & Hx). exists path. split; [done|].
  destruct c.
  - split; [done|]. split; [|by intros Hn; destruct (Hn path)]. intros ->.
    destruct Hx as (p & _ & pre & e & mid & l & _ & Hr & _). by destruct mid.
  - destruct Hx as [-> Hx]. by split.
Qed.

(** Nobody in a reported deadlock can proceed: each request of the report is
    pending, and every actor that handles one of them also handles the parent of
    the next one, back to the first actor, which is wanted by two flows. *)
Theorem report_is_cycle b fuel path : checkDeadlock fuel b = Ok path → path ≠ [] →
  (1 + 2 * size (ActorSent b) < fuel)%nat →
  (∀ e, e ∈ path → pending b (SrcActor e) e) ∧
  (∀ i e e', path !! i = Some e → path !! S i = Some e' → DstActor e = SrcActor e') ∧
  ∃ e l, head path = Some e ∧ last path = Some l ∧ DstActor l = DstActor e ∧
    CallStack (Req l) ≠ CallStack (Req e).
Proof.
  intros E Hne Hf. destruct (checkDeadlock_spec b fuel Hf) as (c & path' & E' & Hx).
  rewrite E in E'. injection E' as <-. destruct c; [|by destruct Hx].
  destruct Hx as (p & W & pre & e & mid & l & -> & -> & Hd & Hc & _).
  apply walk_app in W as [_ W]. split_and!.
  - revert W. generalize (target no_actor pre) as a. clear. induction ((e :: mid) ++ [l]) as [|x q IH]; intros a W x'.
    + by intros ?%not_elem_of_nil.
    + destruct W as [[Ha Hp] W]. intros [->|Hin]%elem_of_cons; [by split|by eapply IH].
  - revert W. generalize (target no_actor pre) as a. clear. induction ((e :: mid) ++ [l]) as [|x q IH]; intros a W i.
    + done.
    + destruct W as [_ W]. intros y y'. destruct i as [|i]; simpl.
      * intros [= <-]. destruct q as [|z q]; [done|]. simpl. intros [= <-]. by destruct W as [[Ha _] _].
      * by eapply IH.
  - exists e, l. split_and!; [done| |done..]. by rewrite last_snoc.
Qed.
End graph.

(* ---------------------------------------------------------------------- *)
(** ** Two flows that call each other's actor *)

Module Witness.

#[local] Existing Instance canonical_iter.
#[local] Instance canonical_edges : EdgeIter :=
  {| edge_iter := map_to_list; edge_iter_perm := λ m, reflexivity _ |}.

Definition alice : actorJson_t := mkActor "Philosopher" "alice".
Definition bob : actorJson_t := mkActor "Philosopher" "bob".

(** alice handles r1 of flow f1 and calls bob; bob handles r2 of the flow [f] and
    calls alice. *)
Definition report (f : string) : listBusyInfo_t :=
  mkBusy
    (<["r1" := mkSent alice "" "eat" "f1" false]> {["r2" := mkSent bob "" "eat" f false]})
    (<["c1" := mkSent bob "r1" "take" "f1" false]> {["c2" := mkSent alice "r2" "take" f false]}).

Definition edge (src dst : actorJson_t) (id flow value parent : string) : edge_t :=
  mkEdge src dst (mkRequest id flow value) parent.

Definition shown : list edge_t :=
  [edge no_actor alice "r1" "f1" "eat" ""; edge alice bob "c1" "f1" "take" "eat";
   edge bob alice "c2" "f2" "take" "eat"].

Example found : checkDeadlock 6 (report "f2") = Ok shown.
Proof. vm_compute. reflexivity. Qed.

(** In one flow the calls are reentrant. *)
Example reentrant : checkDeadlock 6 (report "f1") = Ok [].
Proof. vm_compute. reflexivity. Qed.

Lemma deadlock_detected_witness : (1 + 2 * size (ActorSent (report "f2")) < 6)%nat ∧
  ∃ path, checkDeadlock 6 (report "f2") = Ok path ∧
    (path ≠ [] → deadlock (pending (report "f2")) no_actor path) ∧
    (path = [] ↔ ∀ rep, ¬ deadlock (pending (report "f2")) no_actor rep).
Proof.
  assert ((1 + 2 * size (ActorSent (report "f2")) < 6)%nat) as Hf by (vm_compute; lia).
  split; [exact Hf|]. exact (deadlock_detected (report "f2") 6 Hf).
Defined.

Lemma report_is_cycle_witness :
  (∀ e, e ∈ shown → pending (report "f2") (SrcActor e) e) ∧
  (∀ i e e', shown !! i = Some e → shown !! S i = Some e' → DstActor e = SrcActor e') ∧
  ∃ e l, head shown = Some e ∧ last shown = Some l ∧ DstActor l = DstActor e ∧
    CallStack (Req l) ≠ CallStack (Req e).
Proof.
  apply (report_is_cycle (report "f2") 6 shown).
  - vm_compute. reflexivity.
  - discriminate.
  - vm_compute. lia.
Defined.
End Witness.
End Deadlock.
