(* ===== verification/KarServer.v ===== *)
(** * KarServer: the server of the command-line debugger

    Models src/core/cmd/kar-debugger/kar-debugger.go: what the server keeps of the
    sidecars ([breakpoints], [pausedActors], [busyInfo]) and the messages it
    handles, from its sidecar ([listenSidecar], [handleNotifyPause]) and from its
    clients ([serveDebugger]).  Each message is one step: the locks of the source
    are released before the next message, except on the path that leaves one
    locked ([bk_held]).  The decoding of messages into the structs of the source
    is the JSON library's; printing is left out. *)

From S2P Require Import Prelude GoLib Json Deadlock.
Import Deadlock.
Open Scope string_scope.
Open Scope Z_scope.
Open Scope list_scope.
Open Scope go_scope.

Module KarServer.

(* ---------------------------------------------------------------------- *)
(** ** Data *)

(** The source has two structs for actors, one of them for JSON. *)
Notation actor_t := actorJson_t.

Record listPauseInfo_t : Type := mkPause {
  p_ActorType : string;
  p_ActorId : string;
  p_RequestId : string;
  p_FlowId : string;
  p_RequestValue : string;
  ResponseValue : string;
  IsResponse : string;
  BreakpointId : string;
  NodeId : string;
  IsPaused : bool;
  PauseDepth : Z;
  EndActorId : string;
  EndActorType : string;
  ChildActorId : string;
  ChildActorType : string;
  CanStep : bool;
}.

Record breakpoint_t : Type := mkBk {
  b_BreakpointId : string;
  BreakpointType : string;
  b_ActorType : string;
  b_ActorId : string;
  b_Path : string;
  b_FlowId : string;
  IsRequest : string;
  Nodes : gset string;
  DeleteOnHit : string;
  HitActorType : string;
  HitActorId : string;
  NumPausedActors : Z;
  isPaused : bool;
}.

#[export] Instance pause_eq_dec : EqDecision listPauseInfo_t.
Proof. solve_decision. Defined.
#[export] Instance bk_eq_dec : EqDecision breakpoint_t.
Proof. solve_decision. Defined.

(** The global variables; [bk_held] is a [breakpointsLock] no one releases,
    [steps] the goroutines that are about to tell a client that its single step
    was hit, [written] what was written to the connections of clients, [sent] what
    was sent to the sidecar. *)
Record server : Type := mkServer {
  pausedActors : gmap actor_t listPauseInfo_t;
  breakpoints : gmap string breakpoint_t;
  busyInfo : listBusyInfo_t;
  idToConn : gmap string nat;
  stepBreakpoints : gmap string string;
  respChans : gset string;
  bk_held : bool;
  steps : list (string * string);
  written : list (nat * string);
  sent : list string;
}.

Definition server0 : server := mkServer ∅ ∅ (mkBusy ∅ ∅) ∅ ∅ ∅ false [] [] [].

Definition on_paused (f : gmap actor_t listPauseInfo_t → gmap actor_t listPauseInfo_t) (s : server) : server :=
  mkServer (f (pausedActors s)) (breakpoints s) (busyInfo s) (idToConn s) (stepBreakpoints s)
    (respChans s) (bk_held s) (steps s) (written s) (sent s).
Definition on_bks (f : gmap string breakpoint_t → gmap string breakpoint_t) (s : server) : server :=
  mkServer (pausedActors s) (f (breakpoints s)) (busyInfo s) (idToConn s) (stepBreakpoints s)
    (respChans s) (bk_held s) (steps s) (written s) (sent s).
Definition set_busy (b : listBusyInfo_t) (s : server) : server :=
  mkServer (pausedActors s) (breakpoints s) b (idToConn s) (stepBreakpoints s)
    (respChans s) (bk_held s) (steps s) (written s) (sent s).
Definition on_conns (f : gmap string nat → gmap string nat) (s : server) : server :=
  mkServer (pausedActors s) (breakpoints s) (busyInfo s) (f (idToConn s)) (stepBreakpoints s)
    (respChans s) (bk_held s) (steps s) (written s) (sent s).
Definition on_steps (f : gmap string string → gmap string string) (s : server) : server :=
  mkServer (pausedActors s) (breakpoints s) (busyInfo s) (idToConn s) (f (stepBreakpoints s))
    (respChans s) (bk_held s) (steps s) (written s) (sent s).
Definition on_resp (f : gset string → gset string) (s : server) : server :=
  mkServer (pausedActors s) (breakpoints s) (busyInfo s) (idToConn s) (stepBreakpoints s)
    (f (respChans s)) (bk_held s) (steps s) (written s) (sent s).
Definition hold_bks (s : server) : server :=
  mkServer (pausedActors s) (breakpoints s) (busyInfo s) (idToConn s) (stepBreakpoints s)
    (respChans s) true (steps s) (written s) (sent s).
Definition set_spawned (l : list (string * string)) (s : server) : server :=
  mkServer (pausedActors s) (breakpoints s) (busyInfo s) (idToConn s) (stepBreakpoints s)
    (respChans s) (bk_held s) l (written s) (sent s).
Definition write_conn (c : nat) (bytes : string) (s : server) : server :=
  mkServer (pausedActors s) (breakpoints s) (busyInfo s) (idToConn s) (stepBreakpoints s)
    (respChans s) (bk_held s) (steps s) (written s ++ [(c, bytes)]) (sent s).
Definition send_sidecar (str : string) (s : server) : server :=
  mkServer (pausedActors s) (breakpoints s) (busyInfo s) (idToConn s) (stepBreakpoints s)
    (respChans s) (bk_held s) (steps s) (written s) (sent s ++ [str]).

(** json.Unmarshal of the bytes of a message into the types the handlers use (the
    fields that fit are set, whatever the error), and json.Marshal of answers. *)
Class ServerJson : Type := {
  as_msg : string → gmap string string;
  as_nodes : string → option (list any);                      (** [.([]interface{})] of "nodes" *)
  as_pause : string → listPauseInfo_t;
  as_pauses : string → list listPauseInfo_t;                  (** "actorsList" *)
  as_breakpoints : string → gmap string (breakpoint_t * list string);   (** "breakpoints", with [NodesList] *)
  as_busy : string → listBusyInfo_t;                          (** "busyInfo" *)
  json_msg : gmap string string → string;
  json_pauses : list listPauseInfo_t → string;                (** {"actors": ...} *)
  json_breakpoint : option breakpoint_t → string;             (** {"breakpoint": ...} or {} *)
  json_breakpoints : list breakpoint_t → string;              (** {"breakpoints": ...} *)
  json_request : option actorSentInfo_t → string;             (** {"request": ...} or {} *)
  json_edges : list edge_t → string;
}.

(** Go's order of iteration over the map of paused actors. *)
Class PauseIter : Type := {
  pause_iter : gmap actor_t listPauseInfo_t → list (actor_t * listPauseInfo_t);
  pause_iter_perm : ∀ m, pause_iter m ≡ₚ map_to_list m;
}.

(* ---------------------------------------------------------------------- *)
(** ** Pauses *)

Definition no_pause : listPauseInfo_t :=
  mkPause "" "" "" "" "" "" "" "" "" false 0 "" "" "" "" false.

(** One actor less is paused by a breakpoint. *)
Definition bk_unpause (bk : breakpoint_t) : breakpoint_t :=
  let n := NumPausedActors bk - 1 in
  let hit := bool_decide (n <= 0) in
  mkBk (b_BreakpointId bk) (BreakpointType bk) (b_ActorType bk) (b_ActorId bk) (b_Path bk) (b_FlowId bk)
    (IsRequest bk) (Nodes bk) (DeleteOnHit bk) (if hit then "" else HitActorType bk)
    (if hit then "" else HitActorId bk) n false.

Definition bk_pause (bk : breakpoint_t) : breakpoint_t :=
  mkBk (b_BreakpointId bk) (BreakpointType bk) (b_ActorType bk) (b_ActorId bk) (b_Path bk) (b_FlowId bk)
    (IsRequest bk) (Nodes bk) (DeleteOnHit bk) (HitActorType bk) (HitActorId bk)
    (NumPausedActors bk + 1) (isPaused bk).

Definition bk_hit (ty id : string) (bk : breakpoint_t) : breakpoint_t :=
  mkBk (b_BreakpointId bk) (BreakpointType bk) (b_ActorType bk) (b_ActorId bk) (b_Path bk) (b_FlowId bk)
    (IsRequest bk) (Nodes bk) (DeleteOnHit bk) ty id (NumPausedActors bk) true.

Definition bk_nodes (nodes : gset string) (bk : breakpoint_t) : breakpoint_t :=
  mkBk (b_BreakpointId bk) (BreakpointType bk) (b_ActorType bk) (b_ActorId bk) (b_Path bk) (b_FlowId bk)
    (IsRequest bk) nodes (DeleteOnHit bk) (HitActorType bk) (HitActorId bk) (NumPausedActors bk) (isPaused bk).

(** What unpausing an actor does to its breakpoint and to the table. *)
Definition unpause_actor (a : actor_t) (s : server) : server :=
  on_paused (delete a)
    (match pausedActors s !! a with
     | Some info => if PauseDepth info =? 0 then on_bks (alter bk_unpause (BreakpointId info)) s else s
     | None => s
     end).

(** case "unpause" *)
Definition handle_unpause `{PauseIter} (msg : gmap string string) (s : server) : server :=
  let s := unpause_actor (mkActor (index_str msg "actorType") (index_str msg "actorId")) s in
  if String.eqb (index_str msg "actorId") "" && String.eqb (index_str msg "actorType") "" then
    foldl (λ s x, if String.eqb (NodeId x.2) (index_str msg "srcNodeId") then unpause_actor x.1 s else s)
      s (pause_iter (pausedActors s))
  else s.

Definition handleNotifyPause (actorType actorId : string) (myInfo : listPauseInfo_t) (s : server) : server :=
  let myActor := mkActor actorType actorId in
  let s :=
    match pausedActors s !! myActor with
    | Some _ => s
    | None => if PauseDepth myInfo =? 0 then on_bks (alter bk_pause (BreakpointId myInfo)) s else s
    end in
  on_paused (<[myActor := myInfo]>) s.

(** case "listPausedActors" *)
Definition handle_listPausedActors (infos : list listPauseInfo_t) (s : server) : server :=
  foldl (λ s info,
    let s := on_paused (<[mkActor (p_ActorType info) (p_ActorId info) := info]>) s in
    if PauseDepth info =? 0 then on_bks (alter bk_pause (BreakpointId info)) s else s) s infos.

(* ---------------------------------------------------------------------- *)
(** ** Indirect pauses: case "listBusyActors" *)

(** The entry of an actor that is paused itself. *)
Definition direct_pause (curActor : actor_t) (curInfo : actorSentInfo_t) (i : listPauseInfo_t) : listPauseInfo_t :=
  mkPause (p_ActorType i) (p_ActorId i) (p_RequestId i) (FlowId curInfo) (p_RequestValue i) (ResponseValue i)
    (IsResponse i) (BreakpointId i) (NodeId i) true 0 (ActorId curActor) (ActorType curActor)
    (ChildActorId i) (ChildActorType i) (negb (String.eqb (ParentId curInfo) "")).

(** The entry of an actor that waits for [childReq], from the entry [i] of the
    actor its calls end at. *)
Definition indirect_pause (info : listBusyInfo_t) (curInfo : actorSentInfo_t) (curActor : actor_t)
    (childReq : string) (depth : Z) (i : listPauseInfo_t) : listPauseInfo_t :=
  let child := info_of (ActorSent info) childReq in
  mkPause (ActorType curActor) (ActorId curActor) childReq (FlowId curInfo) (RequestValue child)
    (ResponseValue i) "request" (BreakpointId i) (NodeId i) true depth (EndActorId i) (EndActorType i)
    (ActorId (Actor child)) (ActorType (Actor child)) true.

(** The actor a request of the report is for. *)
Definition actor_of (info : listBusyInfo_t) (req : string) : actor_t :=
  match ActorSent info !! req with
  | Some sentInfo => Actor sentInfo
  | None => Actor (info_of (ActorHandling info) req)
  end.

(** The parent of a request, if it is a request that is sent. *)
Definition parent_of (info : listBusyInfo_t) (req : string) : string :=
  match ActorSent info !! req with Some sentInfo => ParentId sentInfo | None => "" end.

(** [for curReq != ""]: up the chain of calls. *)
Fixpoint mark_chain (fuel : nat) (info : listBusyInfo_t) (curInfo : actorSentInfo_t)
    (endInfo : option listPauseInfo_t) (depth : Z) (curReq childReq : string)
    (pa : gmap actor_t listPauseInfo_t) : res (gmap actor_t listPauseInfo_t) :=
  if String.eqb curReq "" then Ok pa
  else match fuel with
  | O => OutOfFuel
  | S fuel' =>
      let curActor := actor_of info curReq in
      let pa' :=
        match endInfo, pa !! curActor with
        | Some i, None => <[curActor := indirect_pause info curInfo curActor childReq depth i]> pa
        | _, _ => pa
        end in
      mark_chain fuel' info curInfo endInfo (depth + 1) (parent_of info curReq) curReq pa'
  end.

(** One turn of the loop over the requests that are sent; [endInfo] is the copy
    of the entry made before the entry is completed. *)
Definition mark_request (fuel : nat) (info : listBusyInfo_t) (pa : gmap actor_t listPauseInfo_t)
    (x : string * actorSentInfo_t) : res (gmap actor_t listPauseInfo_t) :=
  let '(req, curInfo) := x in
  let curActor := Actor curInfo in
  let endInfo :=
    match pa !! curActor with
    | Some tmp => if PauseDepth tmp =? 0 then Some tmp else None
    | None => None
    end in
  let pa' :=
    match endInfo with Some tmp => <[curActor := direct_pause curActor curInfo tmp]> pa | None => pa end in
  mark_chain fuel info curInfo endInfo 1 (ParentId curInfo) req pa'.

Fixpoint mark_requests (fuel : nat) (info : listBusyInfo_t) (xs : list (string * actorSentInfo_t))
    (pa : gmap actor_t listPauseInfo_t) : res (gmap actor_t listPauseInfo_t) :=
  match xs with
  | [] => Ok pa
  | x :: xs' =>
      match mark_request fuel info pa x with
      | Ok pa' => mark_requests fuel info xs' pa'
      | failure => failure
      end
  end.

(** case "listBusyActors", up to the answer to the client that waits for it. *)
Definition handle_listBusyActors `{MapIter} (fuel : nat) (info : listBusyInfo_t) : M server unit :=
  modify (set_busy info) ;;*
  let* s := get in
  let* pa := of_res (mark_requests fuel info (map_iter 210 (ActorSent info)) (pausedActors s)) in
  modify (on_paused (λ _, pa)).

(* ---------------------------------------------------------------------- *)
(** ** Messages of the sidecar *)

Section listen.
Context `{ServerJson, PauseIter, MapIter}.

(** Answer the client that sent a command; the entry is dropped unless the
    message asks to keep it. *)
Definition answer_client (msg : gmap string string) (bytes : string) : M server unit :=
  let commandId := index_str msg "commandId" in
  let* s := get in
  (match idToConn s !! commandId with
   | Some c => modify (write_conn c bytes)
   | None => ret tt
   end) ;;*
  match msg !! "keepAlive" with
  | Some _ => ret tt
  | None => modify (on_conns (delete commandId))
  end.

(** case "notifyBreakpoint" *)
Definition handle_notifyBreakpoint (msg : gmap string string) (msgBytes : string) : M server unit :=
  let id := index_str msg "breakpointId" in
  let* s := get in
  match breakpoints s !! id with
  | None => ret tt
  | Some bk =>
      let deletes := String.eqb (DeleteOnHit bk) "true" in
      (if deletes then
         (if String.eqb id "" then of_res (Panic "slice bounds out of range") else ret tt) ;;*
         modify (λ s, set_spawned (steps s ++ [(b_BreakpointId bk, msgBytes)]) s)
       else if (NumPausedActors bk =? 0) || negb (isPaused bk) then
         modify (on_bks (<[id := bk_hit (index_str msg "actorType") (index_str msg "actorId") bk]>))
       else ret tt) ;;*
      modify (handleNotifyPause (index_str msg "actorType") (index_str msg "actorId") (as_pause msgBytes))
  end.

(** The goroutine that tells a client its single step was hit. *)
Definition notify_step (x : string * string) : M server unit :=
  let* s := get in
  match stepBreakpoints s !! x.1 with
  | None => ret tt
  | Some cmdId =>
      match idToConn s !! cmdId with
      | None => ret tt
      | Some c => modify (write_conn c x.2)
      end
  end.

(** [node.(string)] of each element. *)
Definition node_names (nodes : list any) : res (gset string) :=
  match map_res as_string nodes with
  | Ok names => Ok (list_to_set names)
  | Err e => Err e
  | Panic w => Panic w
  | OutOfFuel => OutOfFuel
  end.

(** What follows a message: the loop goes on, or the listener returns. *)
Inductive flow : Type := Continue | Return.

Definition new_breakpoint (msg : gmap string string) (nodes : gset string) : breakpoint_t :=
  mkBk (index_str msg "breakpointId") (index_str msg "breakpointType") (index_str msg "actorType")
    (index_str msg "actorId") (index_str msg "path") (index_str msg "flowId") (index_str msg "isRequest")
    nodes (if String.eqb (index_str msg "deleteOnHit") "true" then "true" else "") "" "" 0 false.

(** case "setBreakpoint": without a list of nodes the listener returns, and
    [breakpointsLock] stays locked. *)
Definition handle_setBreakpoint (msg : gmap string string) (msgBytes : string) : M server flow :=
  let id := index_str msg "breakpointId" in
  (if String.eqb (index_str msg "deleteOnHit") "true"
   then modify (on_steps (<[id := index_str msg "commandId"]>)) else ret tt) ;;*
  match as_nodes msgBytes with
  | None => modify hold_bks ;;* ret Return
  | Some nodes =>
      let* nodes := of_res (node_names nodes) in
      modify (on_bks (λ bks,
        match bks !! id with
        | None => <[id := new_breakpoint msg nodes]> bks
        | Some bk => <[id := bk_nodes nodes bk]> bks
        end)) ;;*
      answer_client msg (json_msg {["breakpointId" := id]}) ;;*
      ret Continue
  end.

(** case "unsetBreakpoint" *)
Definition handle_unsetBreakpoint (msg : gmap string string) (msgBytes : string) : M server unit :=
  let id := index_str msg "breakpointId" in
  let* nodes := of_res (match as_nodes msgBytes with Some l => Ok l | None => Panic "interface conversion" end) in
  let* s := get in
  match breakpoints s !! id with
  | None => ret tt
  | Some bk =>
      let* names := of_res (node_names nodes) in
      let left := Nodes bk ∖ names in
      modify (on_bks (if decide (left = ∅) then delete id else <[id := bk_nodes left bk]>))
  end.

(** case "listBreakpoints" *)
Definition handle_listBreakpoints (msgBytes : string) : M server unit :=
  modify (on_bks (λ _, (λ x, bk_nodes (list_to_set x.2) x.1) <$> as_breakpoints msgBytes)).

(** The answer to the goroutine that waits for a report. *)
Definition wake_client (msg : gmap string string) : M server unit :=
  modify (on_resp (λ chans, chans ∖ {[index_str msg "commandId"]})).

(** A message of the sidecar; [fuel] bounds the chains of calls of a report. *)
Definition listenSidecar (fuel : nat) (msgBytes : string) : M server flow :=
  let msg := as_msg msgBytes in
  match msg !! "command" with
  | None => ret Continue
  | Some cmd =>
      if String.eqb cmd "error" then answer_client msg msgBytes ;;* ret Continue
      else if String.eqb cmd "unpause" then modify (handle_unpause msg) ;;* ret Continue
      else if String.eqb cmd "notifyPause" then
        modify (handleNotifyPause (index_str msg "actorType") (index_str msg "actorId") (as_pause msgBytes)) ;;*
        ret Continue
      else if String.eqb cmd "notifyBreakpoint" then handle_notifyBreakpoint msg msgBytes ;;* ret Continue
      else if String.eqb cmd "setBreakpoint" then handle_setBreakpoint msg msgBytes
      else if String.eqb cmd "unsetBreakpoint" then handle_unsetBreakpoint msg msgBytes ;;* ret Continue
      else if String.eqb cmd "listBreakpoints" then handle_listBreakpoints msgBytes ;;* ret Continue
      else if String.eqb cmd "listPausedActors" then
        modify (handle_listPausedActors (as_pauses msgBytes)) ;;* ret Continue
      else if String.eqb cmd "listBusyActors" then
        handle_listBusyActors fuel (as_busy msgBytes) ;;* wake_client msg ;;* ret Continue
      else if String.eqb cmd "kar invoke" || String.eqb cmd "kar rest" || String.eqb cmd "kar get" then
        let commandId := index_str msg "commandId" in
        let* s := get in
        (match idToConn s !! commandId with
         | Some c => modify (write_conn c msgBytes)
         | None => ret tt
         end) ;;*
        modify (on_conns (delete commandId)) ;;* ret Continue
      else ret Continue
  end.
End listen.

(* ---------------------------------------------------------------------- *)
(** ** Messages of the clients *)

Section serve.
Context `{ServerJson, PauseIter, MapIter, EdgeIter, Json}.
(** The answer to a request for historical requests, as json.Marshal encodes it. *)
Context (readKafka : gmap string string → string).

(** [if ok && field != val { continue }] *)
Definition keeps (msg : gmap string string) (key field : string) : bool :=
  match msg !! key with Some val => String.eqb field val | None => true end.

(** A test on the decoded request of a paused actor. *)
Definition keeps_request (msg : gmap string string) (key : string) (info : listPauseInfo_t)
    (f : gmap string string → res string) : res bool :=
  match msg !! key with
  | None => Ok true
  | Some val =>
      match UnmarshalMsg (p_RequestValue info) with
      | None => Ok false
      | Some reqInfo =>
          match f reqInfo with
          | Ok s => Ok (String.eqb s val)
          | Err e => Err e
          | Panic w => Panic w
          | OutOfFuel => OutOfFuel
          end
      end
  end.

(** [reqInfo["path"][1:]] *)
Definition method_of (reqInfo : gmap string string) : res string :=
  match index_str reqInfo "path" with
  | EmptyString => Panic "slice bounds out of range"
  | String _ m => Ok m
  end.

(** The filter of "viewPausedActor". *)
Definition shows (msg : gmap string string) (info : listPauseInfo_t) : res bool :=
  if negb (keeps msg "actorId" (p_ActorId info) && keeps msg "actorType" (p_ActorType info) &&
           keeps msg "requestId" (p_RequestId info) && keeps msg "isResponse" (IsResponse info) &&
           keeps msg "breakpointId" (BreakpointId info) && keeps msg "nodeId" (NodeId info))
  then Ok false
  else
    match keeps_request msg "method" info method_of with
    | Ok true => keeps_request msg "requestType" info (λ m, Ok (index_str m "command"))
    | r => r
    end.

Fixpoint paused_list (msg : gmap string string) (infos : list listPauseInfo_t) : res (list listPauseInfo_t) :=
  match infos with
  | [] => Ok []
  | info :: infos' =>
      match shows msg info, paused_list msg infos' with
      | Ok b, Ok l => Ok (if (b : bool) then info :: l else l)
      | Ok _, r => r
      | Err e, _ => Err e
      | Panic w, _ => Panic w
      | OutOfFuel, _ => OutOfFuel
      end
  end.

(** Ask the sidecar for a report; the goroutine then waits for [commandId]. *)
Definition ask_report (commandId : string) : M server (option string) :=
  modify (on_resp (λ chans, chans ∪ {[commandId]})) ;;*
  modify (send_sidecar (json_msg (<["command" := "listBusyActors"]> {["commandId" := commandId]}))) ;;*
  ret (Some commandId).

Definition view_paused (conn : nat) (msg : gmap string string) : M server unit :=
  let* s := get in
  let* l := of_res (paused_list msg (pause_iter (pausedActors s)).*2) in
  modify (write_conn conn (json_pauses l)).

(** "viewBreakpoint" waits for [breakpointsLock]. *)
Definition view_breakpoint (conn : nat) (msg : gmap string string) : M server unit :=
  let* s := get in
  if bk_held s then of_res OutOfFuel
  else match msg !! "breakpointId" with
  | Some bkid => modify (write_conn conn (json_breakpoint (breakpoints s !! bkid)))
  | None => modify (write_conn conn (json_breakpoints (map_iter 211 (breakpoints s)).*2))
  end.

(** "viewRequest", once the report is there. *)
Definition view_request (conn : nat) (msg : gmap string string) : M server unit :=
  let* s := get in
  let reqId := index_str msg "requestId" in
  let req :=
    match ActorHandling (busyInfo s) !! reqId with
    | Some r => Some (mkSent (Actor r) (ParentId r) (RequestValue r) (FlowId r) true)
    | None => ActorSent (busyInfo s) !! reqId
    end in
  modify (write_conn conn (json_request req)).

Definition view_deadlocks (fuel conn : nat) : M server unit :=
  let* s := get in
  let* path := of_res (checkDeadlock fuel (busyInfo s)) in
  modify (write_conn conn (json_edges path)).

(** A message of a client, up to the wait for a report under the fresh id
    [uuid]: [Some uuid] when it waits. *)
Definition serve_start (uuid : string) (conn : nat) (msgBytes : string) : M server (option string) :=
  let msg := as_msg msgBytes in
  match msg !! "commandId", msg !! "command" with
  | Some id, Some cmd =>
      modify (on_conns (<[id := conn]>)) ;;*
      if String.eqb cmd "vkr" then modify (write_conn conn (readKafka msg)) ;;* ret None
      else if bool_decide (cmd ∈ ["unpause"; "setBreakpoint"; "unsetBreakpoint"; "editResponse";
                                  "kar invoke"; "kar get"; "kar rest"]) then
        modify (send_sidecar msgBytes) ;;* ret None
      else if String.eqb cmd "viewDeadlocks" || String.eqb cmd "viewRequest" then ask_report uuid
      else if String.eqb cmd "viewBreakpoint" then view_breakpoint conn msg ;;* ret None
      else if String.eqb cmd "viewPausedActor" then
        if String.eqb (index_str msg "ind") "true" then ask_report uuid
        else view_paused conn msg ;;* ret None
      else ret None
  | _, _ => ret None
  end.

(** The rest, once the listener has received from the channel. *)
Definition serve_finish (fuel conn : nat) (msgBytes : string) : M server unit :=
  let msg := as_msg msgBytes in
  let cmd := index_str msg "command" in
  if String.eqb cmd "viewDeadlocks" then view_deadlocks fuel conn
  else if String.eqb cmd "viewRequest" then view_request conn msg
  else if String.eqb cmd "viewPausedActor" then view_paused conn msg
  else ret tt.
End serve.

(* ---------------------------------------------------------------------- *)
(** ** The chains of a report *)

(** [up info r q]: [q] is the request [r] or one of those it was made for. *)
Inductive up (info : listBusyInfo_t) : string → string → Prop :=
| up_here r : r ≠ "" → up info r r
| up_parent r i q : r ≠ "" → ActorSent info !! r = Some i → up info (ParentId i) q → up info r q.

(** Requests are made for requests that exist before them. *)
Definition acyclic (info : listBusyInfo_t) : Prop :=
  ∃ rank : string → nat, ∀ r i, ActorSent info !! r = Some i → ParentId i ≠ "" →
    (rank (ParentId i) < rank r)%nat.

(** Turns a chain can take from [cur]. *)
Definition need (rank : string → nat) (info : listBusyInfo_t) (cur : string) : nat :=
  if decide (cur = "") then 0
  else match ActorSent info !! cur with
       | None => 1
       | Some _ => 2 + size (filter (λ k, (rank k < rank cur)%nat) (dom (ActorSent info)))
       end.

Lemma need_parent rank info cur i :
  (∀ r i, ActorSent info !! r = Some i → ParentId i ≠ "" → (rank (ParentId i) < rank r)%nat) →
  cur ≠ "" → ActorSent info !! cur = Some i → (need rank info (ParentId i) < need rank info cur)%nat.
Proof.
  intros Hr Hc Hi. unfold need at 2. rewrite decide_False, Hi by done. unfold need.
  destruct (decide (ParentId i = "")) as [|Hp]; [lia|]. pose proof (Hr _ _ Hi Hp).
  destruct (ActorSent info !! ParentId i) as [j|] eqn:Ej; [|lia].
  assert (size (filter (λ k, (rank k < rank (ParentId i))%nat) (dom (ActorSent info))) <
          size (filter (λ k, (rank k < rank cur)%nat) (dom (ActorSent info))))%nat; [|lia].
  apply subset_size. split.
  - intros k [Hk Hd]%elem_of_filter. apply elem_of_filter. split; [lia|done].
  - intros Hsub. assert (ParentId i ∈ filter (λ k, (rank k < rank cur)%nat) (dom (ActorSent info))) as Hin.
    { apply elem_of_filter. split; [done|]. by apply elem_of_dom. }
    apply Hsub, elem_of_filter in Hin as [Hlt _]. lia.
Qed.

Lemma need_bound rank info cur : (need rank info cur ≤ 2 + size (ActorSent info))%nat.
Proof.
  unfold need. destruct (decide _); [lia|]. destruct (_ !! _); [|lia].
  rewrite <-(size_dom (ActorSent info)). 
  assert (size (filter (λ k, (rank k < rank cur)%nat) (dom (ActorSent info))) ≤ size (dom (ActorSent info)))%nat; [|lia].
  apply subseteq_size. by intros k [_ ?]%elem_of_filter.
Qed.

(** What an indirect pause of the request [r] says of the actor it is for. *)
Definition waits_for (info : listBusyInfo_t) (i : listPauseInfo_t) (r : string) (e : listPauseInfo_t) : Prop :=
  0 < PauseDepth e ∧ BreakpointId e = BreakpointId i ∧ NodeId e = NodeId i ∧
  ∃ c, ActorSent info !! p_RequestId e = Some c ∧ ParentId c = r ∧
    ChildActorType e = ActorType (Actor c) ∧ ChildActorId e = ActorId (Actor c).

Lemma mark_chain_spec rank info curInfo endInfo fuel : ∀ depth curReq childReq pa,
  (∀ r i, ActorSent info !! r = Some i → ParentId i ≠ "" → (rank (ParentId i) < rank r)%nat) →
  (need rank info curReq ≤ fuel)%nat → 0 < depth →
  (∃ c, ActorSent info !! childReq = Some c ∧ ParentId c = curReq) →
  ∃ pa', mark_chain fuel info curInfo endInfo depth curReq childReq pa = Ok pa' ∧ pa ⊆ pa' ∧
    (is_Some endInfo → ∀ r, up info curReq r → actor_of info r ∈ dom pa') ∧
    (∀ a e, pa' !! a = Some e → pa !! a = None →
      ∃ i r, endInfo = Some i ∧ up info curReq r ∧ a = actor_of info r ∧ waits_for info i r e).
Proof.
  induction fuel as [|fuel IH]; intros depth curReq childReq pa Hr Hf Hd (c & Hc & Hcp); simpl.
  - destruct (String.eqb_spec curReq "") as [->|Hne].
    + exists pa. split_and!; [done..| |intros; congruence]. intros _ r Hu. inversion Hu; congruence.
    + exfalso. unfold need in Hf. rewrite decide_False in Hf by done. destruct (_ !! _); lia.
  - destruct (String.eqb_spec curReq "") as [->|Hne].
    { exists pa. split_and!; [done..| |intros; congruence]. intros _ r Hu. inversion Hu; congruence. }
    set (curActor := actor_of info curReq).
    set (pa1 := match endInfo, pa !! curActor with
                | Some i, None => <[curActor := indirect_pause info curInfo curActor childReq depth i]> pa
                | _, _ => pa end).
    assert (pa ⊆ pa1) as Hsub.
    { unfold pa1. destruct endInfo as [i|]; [|done]. destruct (pa !! curActor) eqn:E; [done|]. by apply insert_subseteq. }
    assert (is_Some endInfo → curActor ∈ dom pa1) as Hin.
    { intros [i Hi]. unfold pa1. rewrite Hi. destruct (pa !! curActor) eqn:E; apply elem_of_dom; [by eexists|].
      rewrite lookup_insert_eq. by eexists. }
    assert (∀ a e, pa1 !! a = Some e → pa !! a = None →
      ∃ i, endInfo = Some i ∧ a = curActor ∧ waits_for info i curReq e) as Hnew.
    { intros a e. unfold pa1. destruct endInfo as [i|]; [|congruence].
      destruct (pa !! curActor) eqn:E; [congruence|]. intros [[<- <-]|[_ Ha]]%lookup_insert_Some Hn; [|congruence].
      exists i. split_and!; [done..|]. unfold waits_for. simpl. split_and!; [done..|].
      exists c. unfold info_of. rewrite Hc. simpl. done. }
    destruct (ActorSent info !! curReq) as [si|] eqn:Es.
    + destruct (IH (depth + 1) (ParentId si) curReq pa1 Hr) as (pa' & E & Hs & Hcomp & Hsound).
      { pose proof (need_parent rank info curReq si Hr Hne Es). lia. } { lia. } { by exists si. }
      exists pa'. split_and!.
      * fold curActor. unfold parent_of. rewrite Es. exact E.
      * by etrans.
      * intros Hi r Hu. inversion Hu; subst.
        -- apply (subseteq_dom _ _ Hs). by apply Hin.
        -- apply Hcomp; [done|]. by simplify_eq.
      * intros a e Ha Hn. destruct (pa1 !! a) as [e1|] eqn:E1.
        -- rewrite (lookup_weaken _ _ _ _ E1 Hs) in Ha. injection Ha as ->.
           destruct (Hnew _ _ E1 Hn) as (i & Hi & -> & Hw). exists i, curReq. split_and!; try done. by constructor.
        -- destruct (Hsound _ _ Ha E1) as (i & r & Hi & Hu & -> & Hw). exists i, r. split_and!; try done.
           by eapply up_parent.
    + exists pa1. split_and!.
      * fold curActor pa1. unfold parent_of. rewrite Es. by destruct fuel.
      * done.
      * intros Hi r Hu. inversion Hu; subst; [by apply Hin|congruence].
      * intros a e Ha Hn. destruct (Hnew _ _ Ha Hn) as (i & Hi & -> & Hw).
        exists i, curReq. split_and!; try done. by constructor.
Qed.

(** Entries stay, those of actors paused themselves for the same breakpoint and
    node. *)
Definition kept (pa pa' : gmap actor_t listPauseInfo_t) : Prop := ∀ a i, pa !! a = Some i →
  ∃ i', pa' !! a = Some i' ∧ BreakpointId i' = BreakpointId i ∧ NodeId i' = NodeId i ∧
    PauseDepth i' = PauseDepth i ∧ (PauseDepth i ≠ 0 → i' = i).

#[export] Instance kept_preorder : PreOrder kept.
Proof.
  split; [intros pa a i E; by exists i|]. intros pa1 pa2 pa3 H1 H2 a i E.
  destruct (H1 _ _ E) as (i2 & E2 & B2 & N2 & D2 & S2). destruct (H2 _ _ E2) as (i3 & E3 & B3 & N3 & D3 & S3).
  exists i3. split_and!; [congruence..|]. intros Hd. rewrite S3 by congruence. by apply S2.
Qed.

Lemma kept_subseteq pa pa' : pa ⊆ pa' → kept pa pa'.
Proof. intros Hs a i E. exists i. split_and!; try done. by eapply lookup_weaken. Qed.

Lemma kept_dom pa pa' : kept pa pa' → dom pa ⊆ dom pa'.
Proof. intros Hk a [i E]%elem_of_dom. destruct (Hk _ _ E) as (i' & E' & _). apply elem_of_dom. by eexists. Qed.

(** The actors that are paused themselves. *)
Definition direct (pa : gmap actor_t listPauseInfo_t) (a : actor_t) (i : listPauseInfo_t) : Prop :=
  pa !! a = Some i ∧ PauseDepth i = 0.

(** [e] is an entry for the actor of a request [r], that [req] of the requests
    [xs] was made for, and the actor of [req] is paused itself. *)
Definition due_to (info : listBusyInfo_t) (xs : list (string * actorSentInfo_t))
    (pa : gmap actor_t listPauseInfo_t) (a : actor_t) (e : listPauseInfo_t) : Prop :=
  ∃ x tmp r, x ∈ xs ∧ direct pa (Actor x.2) tmp ∧ up info (ParentId x.2) r ∧ a = actor_of info r ∧
    waits_for info tmp r e.

Lemma mark_request_spec rank fuel info pa x :
  (∀ r i, ActorSent info !! r = Some i → ParentId i ≠ "" → (rank (ParentId i) < rank r)%nat) →
  (2 + size (ActorSent info) ≤ fuel)%nat → ActorSent info !! x.1 = Some x.2 →
  ∃ pa', mark_request fuel info pa x = Ok pa' ∧ kept pa pa' ∧
    (∀ tmp r, direct pa (Actor x.2) tmp → up info (ParentId x.2) r → actor_of info r ∈ dom pa') ∧
    (∀ a e, pa' !! a = Some e → pa !! a = None → due_to info [x] pa a e).
Proof.
  destruct x as [req curInfo]. intros Hr Hf Hx. cbn [fst snd] in *. unfold mark_request.
  set (endInfo := match pa !! Actor curInfo with
                  | Some tmp => if PauseDepth tmp =? 0 then Some tmp else None | None => None end).
  set (pa1 := match endInfo with Some tmp => <[Actor curInfo := direct_pause (Actor curInfo) curInfo tmp]> pa
              | None => pa end).
  assert (∀ tmp, endInfo = Some tmp ↔ direct pa (Actor curInfo) tmp) as Hend.
  { intros tmp. unfold endInfo, direct. destruct (pa !! Actor curInfo) as [i|]; [|by split; [|intros [? _]]].
    destruct (Z.eqb_spec (PauseDepth i) 0); split; intros; destruct_and?; simplify_eq; done. }
  assert (kept pa pa1) as Hk.
  { unfold pa1. destruct endInfo as [tmp|] eqn:E; [|done]. destruct (proj1 (Hend tmp) eq_refl) as [Hp Hd].
    intros a i Ha. destruct (decide (a = Actor curInfo)) as [->|Hne].
    - simplify_eq. eexists. split; [apply lookup_insert_eq|]. by split_and!.
    - exists i. rewrite lookup_insert_ne by congruence. by split_and!. }
  assert (∀ a, pa !! a = None → pa1 !! a = None) as Hnone.
  { intros a Ha. unfold pa1. destruct endInfo as [tmp|] eqn:E; [|done].
    destruct (proj1 (Hend tmp) eq_refl) as [Hp Hd]. rewrite lookup_insert_ne; [done|]. intros Heq. congruence. }
  destruct (mark_chain_spec rank info curInfo endInfo fuel 1 (ParentId curInfo) req pa1 Hr)
    as (pa' & E & Hs & Hcomp & Hsound).
  { pose proof (need_bound rank info (ParentId curInfo)). lia. } { lia. } { by exists curInfo. }
  exists pa'. split_and!; [done| | |].
  - etrans; [done|]. by apply kept_subseteq.
  - intros tmp r Hd%Hend Hu. apply Hcomp; [by eexists|done].
  - intros a e Ha Hn. destruct (Hsound a e Ha (Hnone a Hn)) as (i & r & Hi%Hend & Hu & -> & Hw).
    exists (req, curInfo), i, r. split_and!; try done. by left.
Qed.

(** The actors paused themselves are the same before and after. *)
Lemma direct_back info xs pa pa' a tmp : kept pa pa' →
  (∀ a e, pa' !! a = Some e → pa !! a = None → due_to info xs pa a e) →
  direct pa' a tmp → ∃ tmp', direct pa a tmp' ∧ BreakpointId tmp = BreakpointId tmp' ∧ NodeId tmp = NodeId tmp'.
Proof.
  intros Hk Hs [Ha Hd]. destruct (pa !! a) as [i|] eqn:E.
  - destruct (Hk _ _ E) as (i' & E' & B & N & D & _). simplify_eq. exists i. split; [split; congruence|]. split; congruence.
  - destruct (Hs _ _ Ha E) as (x & t & r & _ & _ & _ & _ & Hw & _). lia.
Qed.

Lemma direct_kept pa pa' a tmp : kept pa pa' → direct pa a tmp → ∃ tmp', direct pa' a tmp'.
Proof. intros Hk [Ha Hd]. destruct (Hk _ _ Ha) as (i & E & _ & _ & D & _). exists i. split; congruence. Qed.

Lemma mark_requests_spec rank fuel info xs : ∀ pa,
  (∀ r i, ActorSent info !! r = Some i → ParentId i ≠ "" → (rank (ParentId i) < rank r)%nat) →
  (2 + size (ActorSent info) ≤ fuel)%nat → (∀ x, x ∈ xs → ActorSent info !! x.1 = Some x.2) →
  ∃ pa', mark_requests fuel info xs pa = Ok pa' ∧ kept pa pa' ∧
    (∀ x tmp r, x ∈ xs → direct pa (Actor x.2) tmp → up info (ParentId x.2) r → actor_of info r ∈ dom pa') ∧
    (∀ a e, pa' !! a = Some e → pa !! a = None → due_to info xs pa a e).
Proof.
  induction xs as [|x xs IH]; intros pa Hr Hf Hx; simpl.
  - exists pa. split_and!; [done..| |intros; congruence]. by intros x tmp r ?%not_elem_of_nil.
  - destruct (mark_request_spec rank fuel info pa x Hr Hf (Hx x (list_elem_of_here _ _)))
      as (pa1 & E1 & Hk1 & Hc1 & Hs1).
    destruct (IH pa1 Hr Hf ltac:(intros y Hy; apply Hx; by right)) as (pa2 & E2 & Hk2 & Hc2 & Hs2).
    exists pa2. rewrite E1. split_and!; [done|by etrans| |].
    + intros y tmp r [->|Hy]%elem_of_cons Hd Hu.
      * apply (kept_dom _ _ Hk2). by eapply Hc1.
      * destruct (direct_kept _ _ _ _ Hk1 Hd) as [tmp' Hd']. by eapply Hc2.
    + intros a e Ha Hn. destruct (pa1 !! a) as [e1|] eqn:En.
      * destruct (Hs1 _ _ En Hn) as (y & tmp & r & Hy & Hd & Hu & -> & Hw).
        destruct (Hk2 _ _ En) as (e' & E' & _ & _ & _ & Hsame). rewrite Ha in E'. injection E' as <-.
        rewrite (Hsame ltac:(destruct Hw; lia)). exists y, tmp, r. apply list_elem_of_singleton in Hy as ->.
        split_and!; try done. by left.
      * destruct (Hs2 _ _ Ha En) as (y & tmp & r & Hy & Hd & Hu & -> & Hw).
        destruct (direct_back info [x] pa pa1 _ tmp Hk1 Hs1 Hd) as (tmp' & Hd' & Hb & Hnode).
        exists y, tmp', r. split_and!; try done; [by right|].
        destruct Hw as (? & ? & ? & ?). split_and!; [done|congruence..|done].
Qed.

(* ---------------------------------------------------------------------- *)
(** ** The number of actors a breakpoint pauses *)

Definition by_bk (id : string) (x : actor_t * listPauseInfo_t) : Prop :=
  BreakpointId x.2 = id ∧ PauseDepth x.2 = 0.

Definition paused_by (id : string) (pa : gmap actor_t listPauseInfo_t) : nat := size (filter (by_bk id) pa).

Definition counted (s : server) : Prop := ∀ id bk, breakpoints s !! id = Some bk →
  NumPausedActors bk = Z.of_nat (paused_by id (pausedActors s)).

Lemma paused_by_delete id a i pa : pa !! a = Some i →
  paused_by id pa = (paused_by id (delete a pa) + if decide (by_bk id (a, i)) then 1 else 0)%nat.
Proof.
  intros Ha. unfold paused_by. rewrite map_filter_delete. destruct (decide (by_bk id (a, i))) as [Hb|Hb].
  - assert (filter (by_bk id) pa !! a = Some i) as Hf by (by apply map_lookup_filter_Some).
    rewrite map_size_delete_Some by (by rewrite Hf).
    assert (size (filter (by_bk id) pa) ≠ 0)%nat; [|lia].
    intros E%map_size_empty_inv. by rewrite E in Hf.
  - rewrite delete_id; [lia|]. apply map_lookup_filter_None. right. intros j Hj. congruence.
Qed.

Lemma paused_by_new id a i pa : pa !! a = None →
  paused_by id (<[a := i]> pa) = (paused_by id pa + if decide (by_bk id (a, i)) then 1 else 0)%nat.
Proof.
  intros Ha. rewrite (paused_by_delete id a i (<[a := i]> pa)) by apply lookup_insert_eq.
  by rewrite delete_insert_id.
Qed.

Lemma paused_by_same id a i j pa : pa !! a = Some i → (by_bk id (a, i) ↔ by_bk id (a, j)) →
  paused_by id (<[a := j]> pa) = paused_by id pa.
Proof.
  intros Ha Hb. rewrite (paused_by_delete id a j (<[a := j]> pa)) by apply lookup_insert_eq.
  rewrite (paused_by_delete id a i pa Ha), delete_insert_eq.
  destruct (decide (by_bk id (a, i))), (decide (by_bk id (a, j))); tauto.
Qed.

Lemma alter_lookup (f : breakpoint_t → breakpoint_t) k (m : gmap string breakpoint_t) id bk :
  alter f k m !! id = Some bk →
  ∃ bk0, m !! id = Some bk0 ∧ bk = if decide (k = id) then f bk0 else bk0.
Proof.
  destruct (decide (k = id)) as [->|Hne].
  - rewrite lookup_alter_eq. intros (b & E & ->)%fmap_Some. rewrite E. by exists b.
  - rewrite lookup_alter_ne by done. intros E. by exists bk.
Qed.

Lemma counted_unpause_actor a s : counted s → counted (unpause_actor a s).
Proof.
  intros Hc id bk. unfold unpause_actor. destruct (pausedActors s !! a) as [i|] eqn:Ea; simpl.
  - destruct (Z.eqb_spec (PauseDepth i) 0) as [Hd|Hd]; simpl.
    + intros (bk0 & Hb & ->)%alter_lookup. pose proof (Hc _ _ Hb) as Hn.
      rewrite (paused_by_delete id a i _ Ea) in Hn.
      destruct (decide (BreakpointId i = id)) as [He|He].
      * rewrite decide_True in Hn by done. simpl. lia.
      * rewrite decide_False in Hn by (intros [? _]; done). lia.
    + intros Hb. pose proof (Hc _ _ Hb) as Hn. rewrite (paused_by_delete id a i _ Ea), decide_False in Hn.
      * lia.
      * by intros [_ ?].
  - intros Hb. rewrite delete_id by done. by apply Hc.
Qed.

(** An entry that counts as the one it replaces. *)
Definition as_before (s : server) (a : actor_t) (i : listPauseInfo_t) : Prop :=
  ∀ i0, pausedActors s !! a = Some i0 →
    (PauseDepth i0 = 0 ↔ PauseDepth i = 0) ∧ BreakpointId i0 = BreakpointId i.

Lemma counted_notify ty id i s : as_before s (mkActor ty id) i → counted s → counted (handleNotifyPause ty id i s).
Proof.
  intros Hb Hc k bk. unfold handleNotifyPause. destruct (pausedActors s !! mkActor ty id) as [i0|] eqn:Ea; simpl.
  - intros Hk. destruct (Hb _ Ea) as [Hd Hi]. rewrite (paused_by_same k _ i0); [by apply Hc|done|].
    unfold by_bk. simpl. rewrite Hi, Hd. done.
  - destruct (Z.eqb_spec (PauseDepth i) 0) as [Hd|Hd]; simpl; rewrite (paused_by_new k _ _ _ Ea).
    + intros (bk0 & Hk & ->)%alter_lookup. pose proof (Hc _ _ Hk) as Hn.
      destruct (decide (BreakpointId i = k)) as [He|He].
      * rewrite decide_True by done. simpl. lia.
      * rewrite decide_False by (intros [? _]; done). lia.
    + intros Hk. rewrite decide_False by (by intros [_ ?]). rewrite (Hc _ _ Hk). lia.
Qed.

Lemma counted_list infos : ∀ s, counted s →
  NoDup ((λ i, mkActor (p_ActorType i) (p_ActorId i)) <$> infos) →
  (∀ i, i ∈ infos → pausedActors s !! mkActor (p_ActorType i) (p_ActorId i) = None) →
  counted (handle_listPausedActors infos s).
Proof.
  unfold handle_listPausedActors. induction infos as [|i infos IH]; intros s Hc Hnd Hn; simpl; [done|].
  apply NoDup_cons in Hnd as [Hni Hnd]. apply IH; [|done|].
  - pose proof (counted_notify (p_ActorType i) (p_ActorId i) i s) as Hs. unfold handleNotifyPause in Hs.
    assert (pausedActors s !! mkActor (p_ActorType i) (p_ActorId i) = None) as E by (apply Hn; by left).
    rewrite E in Hs. unfold as_before in Hs. rewrite E in Hs. specialize (Hs ltac:(done) Hc).
    by destruct (PauseDepth i =? 0).
  - intros j Hj. assert (pausedActors (on_paused <[mkActor (p_ActorType i) (p_ActorId i):=i]> s)
      !! mkActor (p_ActorType j) (p_ActorId j) = None) as Hx.
    { simpl. rewrite lookup_insert_ne; [apply Hn; by right|]. intros E. apply Hni. rewrite E.
      apply list_elem_of_fmap. by exists j. }
    by destruct (PauseDepth i =? 0).
Qed.

Lemma paused_by_kept info xs id pa pa' : kept pa pa' →
  (∀ a e, pa' !! a = Some e → pa !! a = None → due_to info xs pa a e) →
  paused_by id pa' = paused_by id pa.
Proof.
  intros Hk Hs. unfold paused_by. rewrite <-!(size_dom (D:=gset actor_t)). f_equal. apply set_eq. intros a.
  rewrite !elem_of_dom. unfold is_Some. setoid_rewrite map_lookup_filter_Some. unfold by_bk. simpl. split.
  - intros (e & Ha & Hb & Hd). destruct (direct_back info xs pa pa' a e Hk Hs (conj Ha Hd)) as (i & [Hi Hd'] & Hb' & _).
    exists i. split_and!; congruence.
  - intros (i & Ha & Hb & Hd). destruct (Hk _ _ Ha) as (e & He & Hb' & _ & Hd' & _). exists e. split_and!; congruence.
Qed.

Lemma counted_same s s' :
  pausedActors s' = pausedActors s → breakpoints s' = breakpoints s → counted s → counted s'.
Proof. intros Ep Eb Hc id bk. rewrite Ep, Eb. apply Hc. Qed.

(** A rewrite of breakpoints that leaves their counts. *)
Lemma counted_insert id bk' s :
  NumPausedActors bk' = Z.of_nat (paused_by id (pausedActors s)) → counted s →
  counted (on_bks (<[id := bk']>) s).
Proof.
  intros Hn Hc k bk. simpl. intros [[<- <-]|[_ Hk]]%lookup_insert_Some; [done|by apply Hc].
Qed.

Section counted.
Context `{ServerJson, PauseIter, MapIter}.

Lemma counted_unpause msg s : counted s → counted (handle_unpause msg s).
Proof.
  intros Hc. unfold handle_unpause.
  pose proof (counted_unpause_actor (mkActor (index_str msg "actorType") (index_str msg "actorId")) s Hc) as Hc1.
  destruct (_ && _); [|done]. revert Hc1. generalize (unpause_actor (mkActor (index_str msg "actorType") (index_str msg "actorId")) s).
  intros s1. induction (pause_iter (pausedActors s1)) as [|x l IH] using rev_ind; intros Hc1; [done|].
  rewrite foldl_app. simpl. destruct (String.eqb _ _); [apply counted_unpause_actor|]; by apply IH.
Qed.

Lemma answer_client_same msg bytes s :
  pausedActors (answer_client msg bytes s).2 = pausedActors s ∧
  breakpoints (answer_client msg bytes s).2 = breakpoints s ∧ bk_held (answer_client msg bytes s).2 = bk_held s.
Proof.
  unfold answer_client, bind, get, modify, ret. destruct (idToConn s !! _), (msg !! "keepAlive"); done.
Qed.

(** What a message of the sidecar must be for the counts to stay right. *)
Record fits (fuel : nat) (msgBytes : string) (s : server) : Prop := {
  fits_pause : ∀ cmd, as_msg msgBytes !! "command" = Some cmd →
    cmd = "notifyPause" ∨ cmd = "notifyBreakpoint" →
    as_before s (mkActor (index_str (as_msg msgBytes) "actorType") (index_str (as_msg msgBytes) "actorId"))
      (as_pause msgBytes);
  fits_set : as_msg msgBytes !! "command" = Some "setBreakpoint" →
    breakpoints s !! index_str (as_msg msgBytes) "breakpointId" = None →
    paused_by (index_str (as_msg msgBytes) "breakpointId") (pausedActors s) = 0%nat;
  fits_breakpoints : as_msg msgBytes !! "command" = Some "listBreakpoints" → ∀ id x,
    as_breakpoints msgBytes !! id = Some x → NumPausedActors x.1 = Z.of_nat (paused_by id (pausedActors s));
  fits_paused : as_msg msgBytes !! "command" = Some "listPausedActors" →
    NoDup ((λ i, mkActor (p_ActorType i) (p_ActorId i)) <$> as_pauses msgBytes) ∧
    ∀ i, i ∈ as_pauses msgBytes → pausedActors s !! mkActor (p_ActorType i) (p_ActorId i) = None;
  fits_busy : as_msg msgBytes !! "command" = Some "listBusyActors" →
    acyclic (as_busy msgBytes) ∧ (2 + size (ActorSent (as_busy msgBytes)) ≤ fuel)%nat;
}.

Lemma counted_notifyBreakpoint msg bytes s :
  as_before s (mkActor (index_str msg "actorType") (index_str msg "actorId")) (as_pause bytes) →
  counted s → counted (handle_notifyBreakpoint msg bytes s).2.
Proof.
  intros Hb Hc. unfold handle_notifyBreakpoint, bind, get, modify, of_res, ret.
  destruct (breakpoints s !! index_str msg "breakpointId") as [bk|] eqn:Ek; [|done].
  destruct (String.eqb (DeleteOnHit bk) "true").
  - destruct (String.eqb _ ""); simpl; [done|]. by apply counted_notify.
  - destruct ((NumPausedActors bk =? 0) || negb (isPaused bk)); simpl; (apply counted_notify; [exact Hb|]); [|done].
    apply counted_insert; [exact (Hc _ _ Ek)|done].
Qed.

Lemma counted_setBreakpoint msg bytes s :
  (breakpoints s !! index_str msg "breakpointId" = None →
   paused_by (index_str msg "breakpointId") (pausedActors s) = 0%nat) →
  counted s → counted (handle_setBreakpoint msg bytes s).2.
Proof.
  intros Hnew Hc. unfold handle_setBreakpoint. unfold bind at 1.
  assert (∃ s1, (if String.eqb (index_str msg "deleteOnHit") "true"
    then modify (on_steps <[index_str msg "breakpointId" := index_str msg "commandId"]>) else ret tt) s = (Ok tt, s1) ∧
    pausedActors s1 = pausedActors s ∧ breakpoints s1 = breakpoints s) as (s1 & -> & Ep & Eb).
  { destruct (String.eqb _ _); by eexists. }
  assert (counted s1) as Hc1 by (by eapply counted_same).
  destruct (as_nodes bytes) as [nodes|]; [|by eapply counted_same].
  unfold bind at 1, of_res. destruct (node_names nodes) as [names|e|w|]; [|done..].
  unfold bind at 1, modify at 1.
  match goal with |- counted ((_ ;;* _)%go ?s2).2 => assert (counted s2) as Hc2 end.
  { intros k bk. simpl. rewrite Ep. destruct (breakpoints s1 !! index_str msg "breakpointId") as [bk0|] eqn:E0;
      intros [[<- <-]|[_ Hk]]%lookup_insert_Some; simpl; [rewrite <-Ep; by apply Hc1|rewrite <-Ep; by apply Hc1| |rewrite <-Ep; by apply Hc1].
    rewrite Hnew; [done|]. by rewrite <-Eb. }
  revert Hc2. match goal with |- counted ?s2 → _ => generalize s2 end. intros s2 Hc2.
  unfold bind. destruct (answer_client_same msg (json_msg {["breakpointId" := index_str msg "breakpointId"]}) s2) as (Ep2 & Eb2 & _).
  destruct (answer_client _ _ s2) as [[]]; simpl in *; by eapply counted_same.
Qed.

Lemma counted_unsetBreakpoint msg bytes s : counted s → counted (handle_unsetBreakpoint msg bytes s).2.
Proof.
  intros Hc. unfold handle_unsetBreakpoint, bind, of_res, get, modify.
  destruct (as_nodes bytes) as [nodes|]; [|done].
  destruct (breakpoints s !! index_str msg "breakpointId") as [bk|] eqn:Ek; [|done].
  destruct (node_names nodes) as [names|e|w|]; [|done..]. destruct (decide _).
  - intros k b. simpl. intros [_ Hk]%lookup_delete_Some. by apply Hc.
  - apply counted_insert; [exact (Hc _ _ Ek)|done].
Qed.

Lemma counted_busy fuel info s : acyclic info → (2 + size (ActorSent info) ≤ fuel)%nat →
  counted s → counted (handle_listBusyActors fuel info s).2.
Proof.
  intros [rank Hr] Hf Hc. unfold handle_listBusyActors, bind, of_res, get, modify.
  destruct (mark_requests_spec rank fuel info (map_iter 210 (ActorSent info)) (pausedActors s) Hr Hf)
    as (pa' & E & Hk & _ & Hs); [intros x; apply elem_of_map_iter|].
  change (pausedActors (set_busy info s)) with (pausedActors s). rewrite E. simpl.
  intros id bk Hb. simpl. rewrite (paused_by_kept _ _ id _ _ Hk Hs). by apply Hc.
Qed.

(** The number a breakpoint shows stays right: after any message of the sidecar
    that fits, each breakpoint's count is the number of actors in the table that
    are paused themselves at it. *)
Theorem pauses_counted fuel msgBytes s : fits fuel msgBytes s → counted s →
  counted (listenSidecar fuel msgBytes s).2.
Proof.
  intros [Hp Hset Hbks Hps Hbusy] Hc. unfold listenSidecar.
  destruct (as_msg msgBytes !! "command") as [cmd|] eqn:Ecmd; [|done].
  assert (∀ s' : server, counted s' → counted (ret (W:=server) Continue s').2) as Hret by done.
  assert (∀ m : M server unit, counted (m s).2 → counted ((m ;;* ret Continue)%go s).2) as Hthen.
  { intros m. unfold bind. by destruct (m s) as [[] ?]. }
  repeat match goal with |- context [String.eqb cmd ?x] => destruct (String.eqb_spec cmd x) as [->|] end.
  all: cbn [orb]; try (unfold bind, get, modify, ret; destruct (idToConn s !! _); by eapply counted_same).
  all: try done.
  - apply Hthen. destruct (answer_client_same (as_msg msgBytes) msgBytes s) as (? & ? & _). by eapply counted_same.
  - apply Hthen. by apply counted_unpause.
  - apply Hthen. apply counted_notify; [|done]. by eapply Hp; [done|left].
  - apply Hthen. apply counted_notifyBreakpoint; [|done]. by eapply Hp; [done|right].
  - apply counted_setBreakpoint; [|done]. by apply Hset.
  - apply Hthen. by apply counted_unsetBreakpoint.
  - apply Hthen. intros id bk. simpl. intros (x & <- & Hx)%lookup_fmap_Some. simpl. by apply Hbks.
  - apply Hthen. destruct (Hps eq_refl). by apply counted_list.
  - destruct (Hbusy eq_refl) as [Ha Hf]. pose proof (counted_busy fuel _ s Ha Hf Hc) as Hc'.
    unfold bind at 1. destruct (handle_listBusyActors fuel (as_busy msgBytes) s) as [[] s']; done.
Qed.
End counted.

(* ---------------------------------------------------------------------- *)
(** ** What the clients are told *)

Section views.
Context `{ServerJson, PauseIter, MapIter, EdgeIter, Json}.
Context (readKafka : gmap string string → string).

(** C38: The indirect pauses of a report: marking ends when the requests of the
    report form no cycle; the entries of paused actors stay; every actor whose
    call chain ends at an actor that is paused itself has an entry afterwards;
    and an entry that is new is for such an actor, at the breakpoint and node of
    the paused one, and names the pending request the actor waits for. *)
Theorem indirect_pauses fuel info s : acyclic info → (2 + size (ActorSent info) ≤ fuel)%nat →
  ∃ s', handle_listBusyActors fuel info s = (Ok tt, s') ∧ busyInfo s' = info ∧
    kept (pausedActors s) (pausedActors s') ∧
    (∀ req i tmp r, ActorSent info !! req = Some i → direct (pausedActors s) (Actor i) tmp →
       up info (ParentId i) r → actor_of info r ∈ dom (pausedActors s')) ∧
    (∀ a e, pausedActors s' !! a = Some e → pausedActors s !! a = None →
       ∃ req i tmp r, ActorSent info !! req = Some i ∧ direct (pausedActors s) (Actor i) tmp ∧
         up info (ParentId i) r ∧ a = actor_of info r ∧ waits_for info tmp r e).
Proof.
  intros [rank Hr] Hf.
  destruct (mark_requests_spec rank fuel info (map_iter 210 (ActorSent info)) (pausedActors s) Hr Hf)
    as (pa' & E & Hk & Hcomp & Hsound); [intros x; apply elem_of_map_iter|].
  exists (on_paused (λ _, pa') (set_busy info s)). split_and!; [|done|done| |].
  - unfold handle_listBusyActors, bind, modify, get, of_res.
    change (pausedActors (set_busy info s)) with (pausedActors s). by rewrite E.
  - intros req i tmp r Hi Hd Hu. eapply (Hcomp (req, i)); [|done..]. by apply elem_of_map_iter.
  - intros a e Ha Hn. destruct (Hsound a e Ha Hn) as ([req i] & tmp & r & Hx%elem_of_map_iter & Hd & Hu & -> & Hw).
    by exists req, i, tmp, r.
Qed.

(** Viewing deadlocks, from end to end: the client's command asks the sidecar
    for a report and waits; the report, whatever the server kept before, is stored
    and ends the wait; and what the client then gets is a deadlock of that report
    if it has one, and the empty list if it has none. *)
Theorem view_deadlocks_end_to_end fuel uuid conn req report id s :
  as_msg req !! "commandId" = Some id → as_msg req !! "command" = Some "viewDeadlocks" →
  as_msg report !! "command" = Some "listBusyActors" → index_str (as_msg report) "commandId" = uuid →
  acyclic (as_busy report) → (2 + 2 * size (ActorSent (as_busy report)) ≤ fuel)%nat →
  ∃ s1 s2 s3 path,
    serve_start readKafka uuid conn req s = (Ok (Some uuid), s1) ∧ uuid ∈ respChans s1 ∧
    listenSidecar fuel report s1 = (Ok Continue, s2) ∧ uuid ∉ respChans s2 ∧
    serve_finish fuel conn req s2 = (Ok tt, s3) ∧ written s3 = written s ++ [(conn, json_edges path)] ∧
    (path ≠ [] → deadlock (pending (as_busy report)) no_actor path) ∧
    (path = [] ↔ ∀ rep, ¬ deadlock (pending (as_busy report)) no_actor rep).
Proof.
  intros Hid Hcmd Hrep Huuid [rank Hr] Hf.
  destruct (checkDeadlock_spec (as_busy report) fuel) as (c & path & Ep & Hx); [lia|].
  set (s1 := send_sidecar (json_msg (<["command" := "listBusyActors"]> {["commandId" := uuid]}))
               (on_resp (λ chans, chans ∪ {[uuid]}) (on_conns (<[id := conn]>) s))).
  destruct (mark_requests_spec rank fuel (as_busy report) (map_iter 210 (ActorSent (as_busy report)))
              (pausedActors s1) Hr ltac:(lia)) as (pa' & E & _); [intros x; apply elem_of_map_iter|].
  set (s2 := on_resp (λ chans, chans ∖ {[uuid]}) (on_paused (λ _, pa') (set_busy (as_busy report) s1))).
  exists s1, s2, (write_conn conn (json_edges path) s2), path. split_and!.
  - unfold serve_start. rewrite Hid, Hcmd. reflexivity.
  - simpl. set_solver.
  - unfold listenSidecar. rewrite Hrep. cbn [String.eqb Ascii.eqb Bool.eqb].
    unfold handle_listBusyActors, wake_client, bind, modify, get, of_res.
    change (pausedActors (set_busy (as_busy report) s1)) with (pausedActors s1). rewrite E.
    unfold s2. by rewrite Huuid.
  - simpl. set_solver.
  - assert (index_str (as_msg req) "command" = "viewDeadlocks") as Ei by (unfold index_str; by rewrite Hcmd).
    unfold serve_finish. rewrite Ei. change (String.eqb "viewDeadlocks" "viewDeadlocks") with true. cbv iota.
    unfold view_deadlocks, bind, get, of_res, modify. change (busyInfo s2) with (as_busy report). by rewrite Ep.
  - done.
  - intros Hne. destruct c; [done|]. by destruct Hx.
  - destruct c; [|by destruct Hx]. split; [|by intros Hn; destruct (Hn path)]. intros ->.
    destruct Hx as (p & _ & pre & e & mid & l & _ & Hr' & _). by destruct mid.
Qed.

(** A sidecar's answer to "setBreakpoint" that has no list of nodes is fatal: the
    listener returns and leaves the lock of the breakpoints locked, so that no
    later message is handled and a client that views breakpoints is never
    answered. *)
Theorem set_without_nodes_wedges fuel msgBytes s :
  as_msg msgBytes !! "command" = Some "setBreakpoint" → as_nodes msgBytes = None →
  ∃ s', listenSidecar fuel msgBytes s = (Ok Return, s') ∧ breakpoints s' = breakpoints s ∧
    ∀ uuid conn req id, as_msg req !! "commandId" = Some id → as_msg req !! "command" = Some "viewBreakpoint" →
      (serve_start readKafka uuid conn req s').1 = OutOfFuel ∧
      written (serve_start readKafka uuid conn req s').2 = written s.
Proof.
  intros Hcmd Hn. unfold listenSidecar. rewrite Hcmd. cbn [String.eqb Ascii.eqb Bool.eqb].
  unfold handle_setBreakpoint. rewrite Hn. unfold bind, modify, ret.
  destruct (String.eqb _ "true"); eexists; (split; [reflexivity|]); (split; [done|]);
    intros uuid conn req id Hid Hc; unfold serve_start; rewrite Hid, Hc; split; reflexivity.
Qed.
End views.

(* ---------------------------------------------------------------------- *)
(** ** A paused philosopher *)

Module Witness.
Import Deadlock.Witness.

#[local] Existing Instance canonical_iter.
#[local] Existing Instance canonical_edges.
#[local] Existing Instance Json.MiniJson.MiniJson.
#[local] Instance canonical_pauses : PauseIter :=
  {| pause_iter := map_to_list; pause_iter_perm := λ m, reflexivity _ |}.

(** bob is paused at a breakpoint; his entry, as his node reports it. *)
Definition at_bk (i : string) : listPauseInfo_t :=
  mkPause "Philosopher" "bob" i "f1" "" "" "request" "bk" "n1" false 0 "" "" "" "" false.

Definition bk0 : breakpoint_t := mkBk "bk" "actor" "Philosopher" "" "/take" "" "request" {["n1"]} "" "" "" 0 false.

(** The messages of the examples, by name. *)
Definition fields (s : string) : gmap string string :=
  if String.eqb s "view" then <["commandId" := "c"]> {["command" := "viewDeadlocks"]}
  else if String.eqb s "report" then <["commandId" := "u"]> {["command" := "listBusyActors"]}
  else if String.eqb s "pause" then
    <["actorType" := "Philosopher"]> (<["actorId" := "bob"]> {["command" := "notifyPause"]})
  else if String.eqb s "set" then {["command" := "setBreakpoint"]}
  else if String.eqb s "unpause" then
    <["actorType" := "Philosopher"]> (<["actorId" := "bob"]> {["command" := "unpause"]})
  else ∅.

#[local] Instance named_json : ServerJson := {|
  as_msg := fields;
  as_nodes := λ _, None;
  as_pause := λ _, at_bk "c1";
  as_pauses := λ _, [];
  as_breakpoints := λ _, ∅;
  as_busy := λ _, report "f2";
  json_msg := λ _, "msg";
  json_pauses := λ _, "pauses";
  json_breakpoint := λ _, "breakpoint";
  json_breakpoints := λ _, "breakpoints";
  json_request := λ _, "request";
  json_edges := λ _, "edges";
|}.

Lemma report_acyclic f : acyclic (report f).
Proof.
  exists (λ r, if String.prefix "c" r then 1%nat else 0%nat). intros r i. cbn [report ActorSent].
  intros [[<- <-]|[_ [<- <-]%lookup_singleton_Some]]%lookup_insert_Some _; vm_compute; lia.
Qed.

Definition s_bk : server := on_bks (<["bk" := bk0]>) server0.
Definition s_paused : server := handleNotifyPause "Philosopher" "bob" (at_bk "c1") s_bk.

Lemma pauses_counted_witness :
  counted s_bk ∧ fits 6 "pause" s_bk ∧ counted (listenSidecar 6 "pause" s_bk).2.
Proof.
  assert (counted s_bk) as Hc.
  { intros id bk. simpl. intros [[<- <-]|[_ Hk]]%lookup_insert_Some; [done|]. by rewrite lookup_empty in Hk. }
  assert (fits 6 "pause" s_bk) as Hf.
  { split.
    - intros cmd _ _ i0 Hi. vm_compute in Hi. congruence.
    - intros E. vm_compute in E. congruence.
    - intros E. vm_compute in E. congruence.
    - intros E. vm_compute in E. congruence.
    - intros E. vm_compute in E. congruence. }
  split; [exact Hc|]. split; [exact Hf|]. apply (pauses_counted 6 "pause" s_bk Hf Hc).
Defined.

Lemma indirect_pauses_witness : ∃ s', handle_listBusyActors 6 (report "f2") s_paused = (Ok tt, s') ∧
  is_Some (pausedActors s' !! alice).
Proof.
  destruct (indirect_pauses 6 (report "f2") s_paused (report_acyclic "f2")) as (s' & E & _ & _ & Hc & _).
  { vm_compute. lia. }
  exists s'. split; [exact E|]. apply elem_of_dom.
  apply (Hc "c1" (mkSent bob "r1" "take" "f1" false) (at_bk "c1") "r1").
  - vm_compute. reflexivity.
  - split; vm_compute; reflexivity.
  - apply up_here. discriminate.
Defined.

Lemma view_deadlocks_end_to_end_witness : ∃ s1 s2 s3 path,
  serve_start (λ _, "kafka") "u" 7 "view" s_paused = (Ok (Some "u"), s1) ∧ "u" ∈ respChans s1 ∧
  listenSidecar 6 "report" s1 = (Ok Continue, s2) ∧ "u" ∉ respChans s2 ∧
  serve_finish 6 7 "view" s2 = (Ok tt, s3) ∧ written s3 = written s_paused ++ [(7%nat, json_edges path)] ∧
  (path ≠ [] → deadlock (pending (report "f2")) no_actor path) ∧
  (path = [] ↔ ∀ rep, ¬ deadlock (pending (report "f2")) no_actor rep).
Proof.
  refine (view_deadlocks_end_to_end (λ _, "kafka") 6 "u" 7 "view" "report" "c" s_paused _ _ _ _ _ _).
  - vm_compute. reflexivity.
  - vm_compute. reflexivity.
  - vm_compute. reflexivity.
  - vm_compute. reflexivity.
  - apply report_acyclic.
  - vm_compute. lia.
Defined.

Lemma set_without_nodes_wedges_witness : ∃ s', listenSidecar 6 "set" s_bk = (Ok Return, s') ∧
  breakpoints s' = breakpoints s_bk.
Proof.
  destruct (set_without_nodes_wedges (λ _, "kafka") 6 "set" s_bk) as (s' & E & Eb & _).
  - vm_compute. reflexivity.
  - vm_compute. reflexivity.
  - exists s'. split; [exact E|exact Eb].
Defined.

(** The entry of an actor paused indirectly does not say by whom: the copy it is
    made from is taken before the end of the chain is written into it. *)
Example end_of_chain_lost : ∃ s' e, handle_listBusyActors 6 (report "f2") s_paused = (Ok tt, s') ∧
  pausedActors s' !! alice = Some e ∧ PauseDepth e = 1 ∧ EndActorType e = "" ∧ EndActorId e = "".
Proof. eexists _, _. split; [vm_compute; reflexivity|]. by vm_compute. Qed.

(** After bob is unpaused, alice is still listed as paused because of him. *)
Example indirect_pause_stays : ∃ s1 s2, handle_listBusyActors 6 (report "f2") s_paused = (Ok tt, s1) ∧
  listenSidecar 6 "unpause" s1 = (Ok Continue, s2) ∧
  pausedActors s2 !! bob = None ∧ is_Some (pausedActors s2 !! alice).
Proof.
  eexists _, _. split; [vm_compute; reflexivity|]. split; [vm_compute; reflexivity|].
  split; [by vm_compute|]. vm_compute. by eexists.
Qed.
End Witness.
End KarServer.
