(* ===== verification/KarQuery.v ===== *)
(** * KarQuery: arguments and historical requests of the command-line debugger

    Models src/core/cmd/kar-debugger/kar-debugger.go: the reading of the command
    line ([getArgs], [getArgsList]) and the search for historical requests in
    Kafka ([processReadKafka]).  The partitions are read by goroutines that update
    one table under a lock, so what the table holds is the result of some
    interleaving of their messages; the theorems hold for every sequence. *)

From S2P Require Import Prelude GoLib Json DebugParser.
Open Scope string_scope.
Open Scope Z_scope.
Open Scope list_scope.

Module KarQuery.
Import DebugParser.

(* ---------------------------------------------------------------------- *)
(** ** Arguments *)

(** [curSplit[1:]], the name an option has by default. *)
Definition option_name (dst curSplit : string) : string :=
  if String.eqb dst "" then match curSplit with EmptyString => "" | String _ s => s end else dst.

(** The loop of [getArgs]; [getting] is the option that waits for its value. *)
Fixpoint args_loop (names : list string) (options boolOptions : gmap string string) (startIndex : Z)
    (args : list string) (getting : option string) (argIdx : Z) (retval : gmap string string)
    : gmap string string :=
  match args with
  | [] => retval
  | curSplit :: rest =>
      if String.eqb curSplit "" then args_loop names options boolOptions startIndex rest getting argIdx retval
      else match getting with
      | Some o => args_loop names options boolOptions startIndex rest None argIdx (<[o := curSplit]> retval)
      | None =>
          match options !! curSplit with
          | Some dst =>
              if bool_decide (rest = []) then retval
              else args_loop names options boolOptions startIndex rest (Some (option_name dst curSplit)) argIdx retval
          | None =>
              match boolOptions !! curSplit with
              | Some dst =>
                  args_loop names options boolOptions startIndex rest None argIdx
                    (<[option_name dst curSplit := "true"]> retval)
              | None =>
                  if Z.of_nat (length names) <=? argIdx - startIndex
                  then args_loop names options boolOptions startIndex rest None argIdx retval
                  else
                    args_loop names options boolOptions startIndex rest None (argIdx + 1)
                      (if startIndex <=? argIdx
                       then <[nth (Z.to_nat (argIdx - startIndex)) names "" := curSplit]> retval else retval)
              end
          end
      end
  end.

Definition getArgs (commandId : string) (args names : list string) (options boolOptions : gmap string string)
    (startIndex : Z) : gmap string string :=
  args_loop names options boolOptions startIndex args None 0 {["commandId" := commandId]}.

(** The loop of [getArgsList]: once it is getting an option, it never stops. *)
Fixpoint list_loop (options boolOptions : gmap string string) (startIndex : Z) (args : list string)
    (isGettingOption : bool) (argIdx : Z) (retval : list string) : list string :=
  match args with
  | [] => retval
  | curSplit :: rest =>
      if String.eqb curSplit "" || isGettingOption
      then list_loop options boolOptions startIndex rest isGettingOption argIdx retval
      else match options !! curSplit with
      | Some _ =>
          if bool_decide (rest = []) then retval
          else list_loop options boolOptions startIndex rest true argIdx retval
      | None =>
          match boolOptions !! curSplit with
          | Some _ => list_loop options boolOptions startIndex rest false argIdx retval
          | None =>
              list_loop options boolOptions startIndex rest false (argIdx + 1)
                (if startIndex <=? argIdx then retval ++ [curSplit] else retval)
          end
      end
  end.

Definition getArgsList (args : list string) (options boolOptions : gmap string string) (startIndex : Z)
    : list string :=
  list_loop options boolOptions startIndex args false 0 [].

(* ---------------------------------------------------------------------- *)
(** ** Historical requests: data *)

Record reqMsg_t : Type := mkReqMsg {
  m_ActorType : string;
  m_ActorId : string;
  m_Path : string;
  m_Payload : any;
  m_Sequence : Z;
  m_Timestamp : Z;
  m_Deadline : Z;
}.

Record kafkaReq_t : Type := mkKafkaReq {
  RequestId : string;
  k_ParentId : string;
  k_RequestType : string;
  MsgFound : bool;
  EarliestTailCall : reqMsg_t;
  LatestTailCall : reqMsg_t;
  k_Response : any;
  ResponseTimestamp : Z;
}.

Record genMsg_t : Type := mkGenMsg {
  g_IsResponse : bool;
  g_RequestId : string;
  g_ParentId : string;
  g_RequestType : string;
  g_Sequence : Z;
  g_Timestamp : Z;
  g_Deadline : Z;
  g_ActorId : string;
  g_ActorType : string;
  g_Path : string;
  g_Payload : any;
  g_Response : any;
}.

(** A record of a partition, as the Kafka library delivers it. *)
Record ConsumerMessage : Type := mkConsumerMessage {
  Headers : list (string * string);
  MsgValue : string;
  Timestamp : Z;
  Offset : Z;
}.

Definition no_reqMsg : reqMsg_t := mkReqMsg "" "" "" ANil 0 0 0.

(* ---------------------------------------------------------------------- *)
(** ** Reading a message *)

Section read.
Context `{Json}.

(** [unpackRequestValue] and [unpackResponseValue] differ in the key that is
    unpacked; the error is that of the last json.Unmarshal. *)
Definition unpack (key : string) (s : string) : gmap string any * bool :=
  let retval := default ∅ (UnmarshalMap s) in
  let ok := bool_decide (is_Some (UnmarshalMap s)) in
  match retval !! key with
  | Some (AString payloadStr) =>
      match Unmarshal payloadStr with
      | Some v => (<["payload" := v]> retval, true)
      | None => (<["payload" := ANil]> retval, false)
      end
  | _ => (retval, ok)
  end.

Definition unpackRequestValue : string → gmap string any * bool := unpack "payload".
Definition unpackResponseValue : string → gmap string any * bool := unpack "Payload".

(** What one header sets. *)
Definition read_header (key value : string) (g : genMsg_t) : genMsg_t :=
  let '(mkGenMsg resp id parent ty sq ts dl aid aty path payload response) := g in
  if String.eqb key "RequestID" then mkGenMsg resp value parent ty sq ts dl aid aty path payload response
  else if String.eqb key "Type" then
    if String.eqb value "Call" || String.eqb value "Tell" then
      mkGenMsg false id parent (if String.eqb value "Call" then "call" else "tell") sq ts dl aid aty path payload response
    else if String.eqb value "Response" then mkGenMsg true id parent "call" sq ts dl aid aty path payload response
    else if String.eqb value "Done" then mkGenMsg true id parent "tell" sq ts dl aid aty path payload response
    else g
  else if String.eqb key "Sequence" then
    mkGenMsg resp id parent ty (Atoi value).1 ts dl aid aty path payload response
  else if String.eqb key "Deadline" then
    mkGenMsg resp id parent ty sq ts (Atoi value).1 aid aty path payload response
  else if String.eqb key "Parent" then mkGenMsg resp id value ty sq ts dl aid aty path payload response
  else if String.eqb key "Session" then mkGenMsg resp id parent ty sq ts dl value aty path payload response
  else if String.eqb key "Service" then mkGenMsg resp id parent ty sq ts dl aid value path payload response
  else g.

(** The loop over the headers, which the debugger's own messages leave early. *)
Fixpoint read_headers (hs : list (string * string)) (g : genMsg_t) : genMsg_t :=
  match hs with
  | [] => g
  | (key, value) :: hs' =>
      if String.eqb key "Method" && String.eqb value "handlerDebugger" then g
      else read_headers hs' (read_header key value g)
  end.

Definition set_request (path : string) (payload : any) (g : genMsg_t) : genMsg_t :=
  mkGenMsg (g_IsResponse g) (g_RequestId g) (g_ParentId g) (g_RequestType g) (g_Sequence g) (g_Timestamp g)
    (g_Deadline g) (g_ActorId g) (g_ActorType g) path payload (g_Response g).

Definition set_response (v : any) (g : genMsg_t) : genMsg_t :=
  mkGenMsg (g_IsResponse g) (g_RequestId g) (g_ParentId g) (g_RequestType g) (g_Sequence g) (g_Timestamp g)
    (g_Deadline g) (g_ActorId g) (g_ActorType g) (g_Path g) (g_Payload g) v.

Definition handleMessage (msg : ConsumerMessage) : genMsg_t :=
  let g := read_headers (Headers msg)
    (mkGenMsg false "" "" "" 0 (Unix (Timestamp msg)) 0 "" "" "" ANil ANil) in
  if negb (g_IsResponse g) then
    let '(reqVal, ok) := unpackRequestValue (MsgValue msg) in
    if (ok : bool) then
      set_request (match reqVal !! "path" with Some (AString p) => p | _ => "" end) (index_any reqVal "payload") g
    else g
  else
    let '(respVal, ok) := unpackResponseValue (MsgValue msg) in
    if (ok : bool) then set_response (AMap respVal) g else g.
End read.

(* ---------------------------------------------------------------------- *)
(** ** The table of requests *)

Definition reqMsg_of (g : genMsg_t) : reqMsg_t :=
  mkReqMsg (g_ActorType g) (g_ActorId g) (g_Path g) (g_Payload g) (g_Sequence g) (g_Timestamp g) (g_Deadline g).

Definition new_req (g : genMsg_t) : kafkaReq_t :=
  if g_IsResponse g then
    mkKafkaReq (g_RequestId g) "" "" false no_reqMsg no_reqMsg (g_Response g) (g_Timestamp g)
  else
    mkKafkaReq (g_RequestId g) (g_ParentId g) (g_RequestType g) true (reqMsg_of g) (reqMsg_of g) ANil 0.

Definition update_req (g : genMsg_t) (curReq : kafkaReq_t) : kafkaReq_t :=
  let '(mkKafkaReq id parent _ found e l response ts) := curReq in
  let ty := g_RequestType g in
  if g_IsResponse g then mkKafkaReq id parent ty found e l (g_Response g) (g_Timestamp g)
  else
    let reqMsg := reqMsg_of g in
    if (m_Sequence reqMsg <? m_Sequence e) || negb found then
      mkKafkaReq id parent ty true reqMsg l response ts
    else if (m_Sequence l <? m_Sequence reqMsg) || negb found then
      mkKafkaReq id parent ty true e reqMsg response ts
    else mkKafkaReq id parent ty found e l response ts.

(** A message, under [retLock]. *)
Definition add_message (retmap : gmap string kafkaReq_t) (g : genMsg_t) : gmap string kafkaReq_t :=
  <[g_RequestId g := match retmap !! g_RequestId g with
                     | Some curReq => update_req g curReq
                     | None => new_req g
                     end]> retmap.

Definition summary (msgs : list genMsg_t) : gmap string kafkaReq_t := foldl add_message ∅ msgs.

(* ---------------------------------------------------------------------- *)
(** ** processReadKafka *)

Section query.
Context `{Json, MapIter}.
Context (Sprint : any → string) (regexp_Match : string → string → bool).
Context (ParseConds : string → option CondList_p).
(** json.Marshal of a request, decoded again into an interface. *)
Context (any_of_req : kafkaReq_t → any).

(** [loopMsgs] reads a partition up to the offset before the high watermark; with
    no such message it waits for ever. *)
Fixpoint loopMsgs (hwo : Z) (msgs : list ConsumerMessage) : res (list genMsg_t) :=
  match msgs with
  | [] => OutOfFuel
  | msg :: msgs' =>
      if Offset msg =? hwo - 1 then Ok [handleMessage msg]
      else match loopMsgs hwo msgs' with
           | Ok gs => Ok (handleMessage msg :: gs)
           | failure => failure
           end
  end.

(** The test on a request of the table; it is given the struct itself. *)
Definition selected (debugMsg : gmap string string) (x : string * kafkaReq_t) : res bool :=
  let conds := index_str debugMsg "conds" in
  if String.eqb conds "" && String.eqb x.1 (index_str debugMsg "reqId") then Ok true
  else runConds Sprint regexp_Match ParseConds (AStruct "main.kafkaReq_t") conds.

Fixpoint select_loop (debugMsg : gmap string string) (xs : list (string * kafkaReq_t))
    (retmap : gmap string kafkaReq_t) : res (gmap string kafkaReq_t) :=
  match xs with
  | [] => Ok retmap
  | x :: xs' =>
      match selected debugMsg x with
      | Ok true => select_loop debugMsg xs' retmap
      | Ok false => select_loop debugMsg xs' (delete x.1 retmap)
      | Err e => Err e
      | Panic w => Panic w
      | OutOfFuel => OutOfFuel
      end
  end.

(** The values of a request at the selections; those that fail are left out. *)
Fixpoint select_values (obj : any) (selections : list string) (myId : gmap string any) : res (gmap string any) :=
  match selections with
  | [] => Ok myId
  | sel :: selections' =>
      match access Sprint obj (tail (Split "." sel)) with
      | Ok curItem => select_values obj selections' (<[sel := curItem]> myId)
      | Err _ => select_values obj selections' myId
      | Panic w => Panic w
      | OutOfFuel => OutOfFuel
      end
  end.

Fixpoint count_loop (selections : list string) (reqs : list kafkaReq_t) (countmap : gmap string Z)
    : res (gmap string Z) :=
  match reqs with
  | [] => Ok countmap
  | req :: reqs' =>
      match select_values (any_of_req req) selections ∅ with
      | Ok myId =>
          let idJson := match Marshal (AMap myId) with Ok s => s | _ => "" end in
          count_loop selections reqs' (<[idJson := default 0 (countmap !! idJson) + 1]> countmap)
      | Err e => Err e
      | Panic w => Panic w
      | OutOfFuel => OutOfFuel
      end
  end.

(** [order] is the order in which the goroutines of the partitions add their
    messages to the table. *)
Definition processReadKafka (order : list genMsg_t) (debugMsg : gmap string string)
    : res (gmap string Z + gmap string kafkaReq_t) :=
  let retmap := summary order in
  match select_loop debugMsg (map_iter 220 retmap) retmap with
  | Ok retmap' =>
      let select := index_str debugMsg "select" in
      if String.eqb select "" then Ok (inr retmap')
      else match count_loop (TrimSpace <$> Split "," select) (map_iter 221 retmap').*2 ∅ with
           | Ok countmap => Ok (inl countmap)
           | Err e => Err e
           | Panic w => Panic w
           | OutOfFuel => OutOfFuel
           end
  | Err e => Err e
  | Panic w => Panic w
  | OutOfFuel => OutOfFuel
  end.
End query.

(** The message of the command "vkr". *)
Definition vkr_message (commandId : string) (args : list string) : gmap string string :=
  <["command" := "vkr"]>
    (getArgs commandId args ["requestId"] (<["-select" := ""]> {["-conds" := ""]}) {["-sidecar" := ""]} 2).

(* ---------------------------------------------------------------------- *)
(** ** The table holds the first and the last tail call *)

Definition of_request (id : string) (g : genMsg_t) : Prop := g_RequestId g = id ∧ g_IsResponse g = false.

#[export] Instance of_request_dec id g : Decision (of_request id g).
Proof. unfold of_request. apply _. Defined.

(** The messages of the request [id]. *)
Definition about (id : string) (msgs : list genMsg_t) : list genMsg_t := filter (λ g, g_RequestId g = id) msgs.

(** What the table says of a request whose messages are [ms]. *)
Definition sums_up (ms : list genMsg_t) (r : kafkaReq_t) : Prop :=
  MsgFound r = true ∧
  (∃ g, g ∈ ms ∧ g_IsResponse g = false ∧ EarliestTailCall r = reqMsg_of g) ∧
  (∃ g, g ∈ ms ∧ g_IsResponse g = false ∧ LatestTailCall r = reqMsg_of g) ∧
  ∀ g, g ∈ ms → g_IsResponse g = false →
    m_Sequence (EarliestTailCall r) ≤ g_Sequence g ≤ m_Sequence (LatestTailCall r).

Lemma sums_up_update ms r g : sums_up ms r → sums_up (ms ++ [g]) (update_req g r).
Proof.
  destruct r as [id parent ty found e l response ts]. unfold sums_up. simpl.
  intros (-> & (ge & He & Re & Ee) & (gl & Hl & Rl & El) & Hb). unfold update_req.
  setoid_rewrite elem_of_app. setoid_rewrite list_elem_of_singleton.
  assert (m_Sequence e ≤ m_Sequence l) as Hel by (destruct (Hb ge He Re); subst; simpl in *; lia).
  destruct (g_IsResponse g) eqn:Eg; simpl.
  - split_and!; [done|by exists ge; auto|by exists gl; auto|].
    intros x [Hx| ->] Hr; [by apply Hb|congruence].
  - rewrite !orb_false_r.
    destruct (Z.ltb_spec (g_Sequence g) (m_Sequence e)) as [Hlt|Hge];
      [|destruct (Z.ltb_spec (m_Sequence l) (g_Sequence g)) as [Hlt|Hge']]; simpl; split_and!; eauto.
    all: intros x [Hx| ->] Hr; simpl; [pose proof (Hb x Hx Hr)|]; try lia.
Qed.

(** The table of historical requests: whatever the order in which the messages
    of the partitions are added, for a request that is met before its response
    the entry holds one of the request's messages with the least sequence number
    and one with the greatest. *)
Theorem kafka_summary msgs id g ms : about id msgs = g :: ms → g_IsResponse g = false →
  ∃ r, summary msgs !! id = Some r ∧ RequestId r = id ∧ k_ParentId r = g_ParentId g ∧ sums_up (g :: ms) r.
Proof.
  intros Ha Hg. revert ms Ha. unfold summary.
  induction msgs as [|m msgs IH] using rev_ind; intros ms; [done|].
  unfold about. rewrite filter_app, foldl_app, filter_cons, filter_nil. cbn [foldl].
  unfold add_message at 1. destruct (decide (g_RequestId m = id)) as [<-|Hne].
  - rewrite lookup_insert_eq. fold (about (g_RequestId m) msgs).
    destruct (about (g_RequestId m) msgs) as [|g' ms'] eqn:Eab.
    + intros [= -> <-].
      assert (∀ l, about (g_RequestId g) l = [] → foldl add_message ∅ l !! g_RequestId g = None) as Hnone.
      { clear. intros l. induction l as [|x l IH] using rev_ind; [done|]. unfold about.
        rewrite filter_app, foldl_app, filter_cons, filter_nil. cbn [foldl]. intros [El Ex]%app_eq_nil.
        destruct (decide (g_RequestId x = g_RequestId g)); [done|]. unfold add_message at 1.
        rewrite lookup_insert_ne by done. by apply IH. }
      rewrite (Hnone _ Eab). eexists. split; [done|]. unfold new_req. rewrite Hg. simpl.
      split; [done|]. split; [done|]. unfold sums_up. simpl.
      split_and!; [done|exists g|exists g|]; [split_and!; [by left|done..]..|].
      intros x ->%list_elem_of_singleton _. lia.
    + intros [= -> <-]. destruct (IH ms' eq_refl) as (r & -> & Hid & Hp & Hs). eexists. split; [done|].
      apply (sums_up_update _ _ m) in Hs. rewrite app_comm_cons. split; [|split; [|done]].
      * destruct r; simpl in *. repeat case_match; done.
      * destruct r; simpl in *. repeat case_match; done.
  - rewrite lookup_insert_ne by done. rewrite app_nil_r. apply IH.
Qed.

(* ---------------------------------------------------------------------- *)
(** ** Reading the command line *)

(** A command line as it is meant: words, options with a value and options
    without one. *)
Inductive item : Type :=
| Word (w : string)
| Opt (k v : string)
| Flag (k : string).

Definition render (i : item) : list string :=
  match i with Word w => [w] | Opt k v => [k; v] | Flag k => [k] end.

Definition words (items : list item) : list string :=
  omap (λ i, match i with Word w => Some w | _ => None end) items.

Section args.
Context (options boolOptions : gmap string string).

Definition proper (i : item) : Prop :=
  match i with
  | Word w => w ≠ "" ∧ options !! w = None ∧ boolOptions !! w = None
  | Opt k v => k ≠ "" ∧ v ≠ "" ∧ is_Some (options !! k)
  | Flag k => k ≠ "" ∧ options !! k = None ∧ is_Some (boolOptions !! k)
  end.

(** The keys the options of a command line set. *)
Definition set_by (i : item) : option string :=
  match i with
  | Word _ => None
  | Opt k _ => (λ dst, option_name dst k) <$> options !! k
  | Flag k => (λ dst, option_name dst k) <$> boolOptions !! k
  end.

Lemma args_word names start w rest argIdx m : w ≠ "" → options !! w = None → boolOptions !! w = None →
  args_loop names options boolOptions start (w :: rest) None argIdx m =
    if Z.of_nat (length names) <=? argIdx - start
    then args_loop names options boolOptions start rest None argIdx m
    else args_loop names options boolOptions start rest None (argIdx + 1)
           (if start <=? argIdx then <[nth (Z.to_nat (argIdx - start)) names "" := w]> m else m).
Proof. intros Hw Ho Hb. simpl. destruct (String.eqb_spec w ""); [done|]. by rewrite Ho, Hb. Qed.

Lemma args_opt names start k v rest argIdx m dst : k ≠ "" → v ≠ "" → options !! k = Some dst →
  args_loop names options boolOptions start (k :: v :: rest) None argIdx m =
  args_loop names options boolOptions start rest None argIdx (<[option_name dst k := v]> m).
Proof.
  intros Hk Hv Ho. simpl. destruct (String.eqb_spec k ""); [done|]. rewrite Ho.
  destruct (String.eqb_spec v ""); [done|]. done.
Qed.

Lemma args_flag names start k rest argIdx m dst : k ≠ "" → options !! k = None → boolOptions !! k = Some dst →
  args_loop names options boolOptions start (k :: rest) None argIdx m =
  args_loop names options boolOptions start rest None argIdx (<[option_name dst k := "true"]> m).
Proof. intros Hk Ho Hb. simpl. destruct (String.eqb_spec k ""); [done|]. by rewrite Ho, Hb. Qed.

(** Reading from the word number [idx] on, for a name no option sets. *)
Lemma args_loop_name names start name j (items : list item) : ∀ idx m,
  Forall proper items → NoDup names → names !! j = Some name →
  Forall (λ i, set_by i ≠ Some name) items →
  (idx ≤ start + length names)%nat →
  args_loop names options boolOptions (Z.of_nat start) (concat (render <$> items)) None (Z.of_nat idx) m !! name =
    if decide (idx ≤ start + j)%nat
    then from_option Some (m !! name) (words items !! (start + j - idx)%nat) else m !! name.
Proof.
  intros idx m Hp Hnd Hj Hset. revert idx m. induction items as [|i items IH]; intros idx m Hidx.
  { change (words []) with (@nil string). rewrite lookup_nil. by destruct (decide _). }
  apply Forall_cons in Hp as [Hi Hp], Hset as [Hsi Hset]. specialize (IH Hp Hset).
  pose proof (lookup_lt_Some _ _ _ Hj) as Hlt.
  destruct i as [w|k v|k]; simpl in Hi, Hsi.
  - destruct Hi as (Hw & Ho & Hb). change (concat (render <$> Word w :: items)) with (w :: concat (render <$> items)).
    rewrite args_word by done. change (words (Word w :: items)) with (w :: words items).
    destruct (Z.leb_spec (Z.of_nat (length names)) (Z.of_nat idx - Z.of_nat start)).
    + rewrite IH by done. rewrite !decide_False by lia. done.
    + replace (Z.of_nat idx + 1) with (Z.of_nat (S idx)) by lia. rewrite IH by lia.
      destruct (Z.leb_spec (Z.of_nat start) (Z.of_nat idx)) as [Hs|Hs].
      * replace (Z.to_nat (Z.of_nat idx - Z.of_nat start)) with (idx - start)%nat by lia.
        destruct (decide (idx = start + j)%nat) as [->|Hne].
        -- replace (start + j - start)%nat with j by lia. rewrite (nth_lookup_Some _ _ _ _ Hj).
           rewrite lookup_insert_eq, decide_False, decide_True by lia.
           by replace (start + j - (start + j))%nat with 0%nat by lia.
        -- rewrite lookup_insert_ne.
           2: { intros E. apply Hne. destruct (lookup_lt_is_Some_2 names (idx - start)) as [x Hx]; [lia|].
                rewrite (nth_lookup_Some _ _ _ _ Hx) in E. subst. pose proof (NoDup_lookup _ _ _ _ Hnd Hj Hx). lia. }
           destruct (decide (S idx ≤ start + j)%nat).
           ++ rewrite decide_True by lia. by replace (start + j - idx)%nat with (S (start + j - S idx)) by lia.
           ++ by rewrite decide_False by lia.
      * rewrite !decide_True by lia. by replace (start + j - idx)%nat with (S (start + j - S idx)) by lia.
  - destruct Hi as (Hk & Hv & [dst Hd]). change (concat (render <$> Opt k v :: items)) with (k :: v :: concat (render <$> items)).
    rewrite (args_opt _ _ _ _ _ _ _ dst), IH by done. rewrite Hd in Hsi. rewrite lookup_insert_ne by (intros E; simpl in Hsi; congruence).
    done.
  - destruct Hi as (Hk & Ho & [dst Hd]). change (concat (render <$> Flag k :: items)) with (k :: concat (render <$> items)).
    rewrite (args_flag _ _ _ _ _ _ dst), IH by done. rewrite Hd in Hsi. rewrite lookup_insert_ne by (intros E; simpl in Hsi; congruence).
    done.
Qed.

(** Reading back a command line: wherever its options stand, the names of a
    command are given its words from [startIndex] on, in order, and a name past
    the last word is not set. *)
Theorem getArgs_words commandId names start (items : list item) j name :
  Forall proper items → NoDup names → names !! j = Some name → name ≠ "commandId" →
  Forall (λ i, set_by i ≠ Some name) items →
  getArgs commandId (concat (render <$> items)) names options boolOptions (Z.of_nat start) !! name =
    words items !! (start + j)%nat.
Proof.
  intros Hp Hnd Hj Hc Hset. unfold getArgs. change 0 with (Z.of_nat 0).
  rewrite (args_loop_name names start name j) by (done || lia).
  rewrite decide_True by lia. rewrite Nat.sub_0_r, lookup_singleton_ne by done.
  by destruct (words items !! (start + j)%nat).
Qed.

Lemma list_loop_done start args idx l : list_loop options boolOptions start args true idx l = l.
Proof. induction args as [|a args IH]; simpl; [done|]. by rewrite orb_true_r. Qed.

Lemma list_loop_words start (items : list item) args : ∀ idx l,
  Forall proper items → Forall (λ i, match i with Opt _ _ => False | _ => True end) items →
  list_loop options boolOptions (Z.of_nat start) (concat (render <$> items) ++ args) false (Z.of_nat idx) l =
  list_loop options boolOptions (Z.of_nat start) args false (Z.of_nat (idx + length (words items)))
    (l ++ drop (start - idx) (words items)).
Proof.
  intros idx l Hp Hn. revert idx l. induction items as [|i items IH]; intros idx l.
  { change (words []) with (@nil string). by rewrite drop_nil, app_nil_r, Nat.add_0_r. }
  apply Forall_cons in Hp as [Hi Hp], Hn as [Hni Hn]. specialize (IH Hp Hn).
  destruct i as [w|k v|k]; [|done|]; simpl in Hi.
  - destruct Hi as (Hw & Ho & Hb). change (words (Word w :: items)) with (w :: words items). simpl.
    destruct (String.eqb_spec w ""); [done|]. simpl. rewrite Ho, Hb.
    replace (Z.of_nat idx + 1) with (Z.of_nat (S idx)) by lia. rewrite IH.
    replace (S idx + length (words items))%nat with (idx + S (length (words items)))%nat by lia.
    destruct (Z.leb_spec (Z.of_nat start) (Z.of_nat idx)).
    + replace (start - idx)%nat with 0%nat by lia. replace (start - S idx)%nat with 0%nat by lia.
      simpl. by rewrite <-app_assoc.
    + by replace (start - idx)%nat with (S (start - S idx)) by lia.
  - destruct Hi as (Hk & Ho & [dst Hd]). change (words (Flag k :: items)) with (words items). simpl.
    destruct (String.eqb_spec k ""); [done|]. simpl. by rewrite Ho, Hd, IH.
Qed.

(** The list of the words of a command line loses what follows the first
    option with a value: [getArgsList] returns the words before it only. *)
Theorem getArgsList_cut (items : list item) k v rest start :
  Forall proper items → Forall (λ i, match i with Opt _ _ => False | _ => True end) items →
  proper (Opt k v) →
  getArgsList (concat (render <$> items) ++ k :: v :: rest) options boolOptions (Z.of_nat start) =
    drop start (words items).
Proof.
  intros Hp Hn (Hk & Hv & [dst Hd]). unfold getArgsList. change 0 with (Z.of_nat 0).
  rewrite list_loop_words by done. simpl. destruct (String.eqb_spec k ""); [done|]. rewrite Hd. simpl.
  rewrite list_loop_done, Nat.sub_0_r. by destruct (String.eqb v "").
Qed.
End args.

(* ---------------------------------------------------------------------- *)
(** ** Historical requests are not found *)

(** No command line sets a key that is neither a name nor an option's. *)
Lemma args_loop_keys names options boolOptions start key args : ∀ getting idx m,
  key ∉ names → key ≠ "" → (∀ k dst, options !! k = Some dst → option_name dst k ≠ key) →
  (∀ k dst, boolOptions !! k = Some dst → option_name dst k ≠ key) →
  getting ≠ Some key → m !! key = None →
  args_loop names options boolOptions start args getting idx m !! key = None.
Proof.
  intros getting idx m Hn He Ho Hb. revert getting idx m.
  induction args as [|a args IH]; intros getting idx m Hg Hm; [done|]. simpl.
  destruct (String.eqb a ""); [by apply IH|]. destruct getting as [o|].
  { apply IH; [done|]. rewrite lookup_insert_ne by congruence. done. }
  destruct (options !! a) as [dst|] eqn:Ea.
  { destruct (bool_decide _); [done|]. apply IH; [|done]. intros [= E]. by eapply Ho. }
  destruct (boolOptions !! a) as [dst|] eqn:Eb.
  { apply IH; [done|]. rewrite lookup_insert_ne; [done|]. by eapply Hb. }
  destruct (_ <=? _) eqn:El; [by apply IH|]. apply IH; [done|]. destruct (start <=? idx) eqn:Es; [|done].
  rewrite lookup_insert_ne; [done|]. intros E. destruct (nth_in_or_default (Z.to_nat (idx - start)) names "") as [Hin|Hd].
  - rewrite E in Hin. by apply list_elem_of_In in Hin.
  - congruence.
Qed.

(** The client's message names the request under a key the server does not read. *)
Lemma vkr_no_reqId commandId args : vkr_message commandId args !! "reqId" = None.
Proof.
  unfold vkr_message. rewrite lookup_insert_ne by done. apply args_loop_keys.
  - intros Hin. set_solver.
  - done.
  - intros k dst [[<- <-]|[_ [<- <-]%lookup_singleton_Some]]%lookup_insert_Some; done.
  - intros k dst [<- <-]%lookup_singleton_Some. done.
  - done.
  - by rewrite lookup_singleton_ne.
Qed.

Section vkr.
Context `{Json, MapIter}.
Context (Sprint : any → string) (regexp_Match : string → string → bool).
Context (ParseConds : string → option CondList_p) (any_of_req : kafkaReq_t → any).
(** The grammar needs a condition. *)
Hypothesis no_conds : ParseConds "" = None.

(** A condition that looks at a field of the request. *)
Definition names_field (c : Cond_p) : Prop :=
  (∃ a, Accessor (LHS c) = Some a ∧ List_ a ≠ []) ∨ (∃ a, Accessor (RHS c) = Some a ∧ List_ a ≠ []).

Notation struct := (AStruct "main.kafkaReq_t").

Lemma operand_struct e a : Accessor e = Some a → List_ a ≠ [] → operand Sprint struct e = Ok None.
Proof. intros Ha Hn. unfold operand. rewrite Ha. by destruct (List_ a). Qed.

Lemma cond_struct c : names_field c → cond Sprint regexp_Match struct c ≠ Ok true.
Proof.
  intros [(a & Ha & Hn)|(a & Ha & Hn)]; unfold cond.
  - by rewrite (operand_struct _ a).
  - rewrite (operand_struct (RHS c) a) by done. by destruct (operand _ _ _) as [[]| | |].
Qed.

Lemma all_conds_struct cs c : c ∈ cs → names_field c → all_conds Sprint regexp_Match struct cs ≠ Ok true.
Proof.
  induction cs as [|c' cs IH]; [by intros ?%not_elem_of_nil|]. intros [->|Hin]%elem_of_cons Hc; simpl.
  - pose proof (cond_struct c' Hc). destruct (cond _ _ _ _) as [[]| | |]; done.
  - specialize (IH Hin Hc). by destruct (cond _ _ _ _) as [[]| | |].
Qed.

Lemma select_loop_spec debugMsg xs : ∀ m m',
  select_loop Sprint regexp_Match ParseConds debugMsg xs m = Ok m' →
  m' ⊆ m ∧ ∀ x, x ∈ xs → selected Sprint regexp_Match ParseConds debugMsg x = Ok true ∨ m' !! x.1 = None.
Proof.
  induction xs as [|x xs IH]; intros m m'; simpl.
  - intros [= <-]. split; [done|]. by intros x ?%not_elem_of_nil.
  - destruct (selected _ _ _ _ x) as [[]| | |] eqn:Ex; try done; intros [Hs Hx]%IH.
    + split; [done|]. intros y [->|Hy]%elem_of_cons; [by left|by apply Hx].
    + split; [etrans; [done|]; apply delete_subseteq|].
      intros y [->|Hy]%elem_of_cons; [right|by apply Hx].
      destruct (m' !! x.1) as [r|] eqn:Er; [|done].
      pose proof (lookup_weaken _ _ _ _ Er Hs) as Hd. by rewrite lookup_delete_eq in Hd.
Qed.

Lemma summary_keys order id r : summary order !! id = Some r → ∃ g, g ∈ order ∧ g_RequestId g = id.
Proof.
  unfold summary. revert r. induction order as [|g order IH] using rev_ind; intros r; [done|].
  rewrite foldl_app. simpl. unfold add_message at 1. intros [[<- _]|[_ Hr]]%lookup_insert_Some.
  - exists g. set_solver.
  - destruct (IH _ Hr) as (g' & ? & ?). exists g'. set_solver.
Qed.

(** The command that views historical requests never shows one: the server reads
    the id under another key than the client sends it under, and it evaluates
    conditions on a Go struct, of which no field can be reached.  Only a request
    without an id is ever shown by id, and with a condition that names a field no
    request is; the counts of selected values are empty as well. *)
Theorem vkr_never_finds commandId args order r :
  (∀ l, ParseConds (index_str (vkr_message commandId args) "conds") = Some l →
     ∃ c, c ∈ default [] (cl_Head l) ++ [cl_Tail l] ∧ names_field c) →
  (∀ g, g ∈ order → g_RequestId g ≠ "") →
  processReadKafka Sprint regexp_Match ParseConds any_of_req order (vkr_message commandId args) = Ok r →
  r = inl ∅ ∨ r = inr ∅.
Proof.
  intros Hconds Hids. unfold processReadKafka. set (dbg := vkr_message commandId args) in *.
  destruct (select_loop _ _ _ dbg _ _) as [m| | |] eqn:Em; [|done..].
  apply select_loop_spec in Em as [Hsub Hsel].
  assert (m = ∅) as ->.
  { apply map_empty. intros id. destruct (m !! id) as [q|] eqn:Eq; [|done].
    pose proof (lookup_weaken _ _ _ _ Eq Hsub) as Hq.
    destruct (summary_keys _ _ _ Hq) as (g & Hg & <-). pose proof (Hids g Hg) as Hne.
    assert ((g_RequestId g, q) ∈ map_iter 220 (summary order)) as Hin.
    { rewrite map_iter_perm. by apply elem_of_map_to_list. }
    destruct (Hsel _ Hin) as [Ht|Hn]; [|simpl in Hn; congruence]. exfalso. revert Ht. unfold selected. simpl.
    assert (index_str dbg "reqId" = "") as -> by (unfold index_str, dbg; by rewrite vkr_no_reqId).
    destruct (String.eqb_spec (g_RequestId g) ""); [done|]. rewrite andb_false_r. unfold runConds.
    destruct (ParseConds (index_str dbg "conds")) as [l|] eqn:El; [|done].
    destruct (Hconds l eq_refl) as (c & Hc & Hf). by apply (all_conds_struct _ c). }
  destruct (String.eqb _ ""); [intros [= <-]; by right|].
  assert ((map_iter 221 (∅ : gmap string kafkaReq_t)).*2 = []) as ->.
  { pose proof (map_iter_perm _ 221 (∅ : gmap string kafkaReq_t)) as Hp. rewrite map_to_list_empty in Hp.
    by apply Permutation_nil_r in Hp as ->. }
  simpl. intros [= <-]. by left.
Qed.
End vkr.

(* ---------------------------------------------------------------------- *)
(** ** A log with a tail call *)

Module Witness.

#[local] Existing Instance canonical_iter.
#[local] Existing Instance MiniJson.MiniJson.

Definition req (id : string) (seq : Z) : genMsg_t :=
  mkGenMsg false id "p" "call" seq 0 0 "alice" "Philosopher" "/eat" ANil ANil.
Definition resp (id : string) : genMsg_t := mkGenMsg true id "" "call" 0 0 0 "" "" "" ANil (AString "ok").

Lemma kafka_summary_witness :
  about "r" [req "r" 1; req "q" 0; req "r" 2; resp "r"; req "r" 0] = [req "r" 1; req "r" 2; resp "r"; req "r" 0] ∧
  ∃ r, summary [req "r" 1; req "q" 0; req "r" 2; resp "r"; req "r" 0] !! "r" = Some r ∧
    RequestId r = "r" ∧ k_ParentId r = "p" ∧ sums_up [req "r" 1; req "r" 2; resp "r"; req "r" 0] r.
Proof.
  assert (about "r" [req "r" 1; req "q" 0; req "r" 2; resp "r"; req "r" 0] = [req "r" 1; req "r" 2; resp "r"; req "r" 0])
    as E by reflexivity.
  split; [exact E|]. exact (kafka_summary _ "r" (req "r" 1) _ E eq_refl).
Defined.

(** When the response is met first, the last tail call is never filled in: it is
    shown with no actor, no method and sequence number 0. *)
Example response_first : ∃ r, summary [resp "r"; req "r" 2] !! "r" = Some r ∧
  m_Sequence (EarliestTailCall r) = 2 ∧ LatestTailCall r = no_reqMsg.
Proof. eexists. split; [vm_compute; reflexivity|]. by vm_compute. Qed.

Definition opts : gmap string string := <["-v" := "verbose"]> {["-select" := ""]}.
Definition bools : gmap string string := {["-h" := "help"]}.
Definition line : list item :=
  [Word "kar-debugger"; Opt "-v" "2"; Word "vkr"; Flag "-h"; Word "r1"].

Lemma line_proper : Forall (proper opts bools) line.
Proof. repeat constructor; try done; vm_compute; by eexists. Qed.

Lemma getArgs_words_witness :
  getArgs "id" (concat (render <$> line)) ["requestId"] opts bools 2 !! "requestId" = Some "r1".
Proof.
  refine (eq_trans (getArgs_words opts bools "id" ["requestId"] 2 line 0 "requestId" line_proper _ _ _ _) _).
  - apply NoDup_singleton.
  - reflexivity.
  - discriminate.
  - repeat constructor; vm_compute; discriminate.
  - reflexivity.
Defined.

Lemma getArgsList_cut_witness :
  getArgsList (concat (render <$> [Word "kar-debugger"; Word "kar"; Flag "-h"]) ++ "-v" :: "2" :: ["invoke"; "A"])
    opts bools 2 = [].
Proof.
  refine (eq_trans (getArgsList_cut opts bools [Word "kar-debugger"; Word "kar"; Flag "-h"] "-v" "2" ["invoke"; "A"] 2 _ _ _) _).
  - repeat constructor; try done; vm_compute; by eexists.
  - repeat constructor.
  - split_and!; [done..|]. vm_compute. by eexists.
  - reflexivity.
Defined.

(** One condition on a field, however it is written. *)
Definition parse0 (s : string) : option CondList_p :=
  if String.eqb s "" then None
  else Some (mkCondList None (mkCond (mkExpr None None None (Some (mkAccessor ["RequestType"]))) "=="
                                (mkExpr None None (Some "call") None))).

Definition view : list string := ["kar-debugger"; "vkr"; "r"; "-conds"; "x"].

Lemma vkr_never_finds_witness :
  match processReadKafka (λ _, "") (λ _ _, false) parse0 (λ _, ANil) [req "r" 0] (vkr_message "id" view) with
  | Ok r => r = inl ∅ ∨ r = inr ∅
  | _ => False
  end.
Proof.
  assert (processReadKafka (λ _, "") (λ _ _, false) parse0 (λ _, ANil) [req "r" 0] (vkr_message "id" view)
    = Ok (inr ∅)) as E by (vm_compute; reflexivity).
  rewrite E.
  apply (vkr_never_finds (λ _, "") (λ _ _, false) parse0 (λ _, ANil) eq_refl "id" view [req "r" 0] (inr ∅)); [..|exact E].
  - intros l. vm_compute. intros [= <-]. eexists. split; [left|]. left. eexists. split; [reflexivity|done].
  - intros g ->%list_elem_of_singleton. discriminate.
Defined.

Example vkr_shows_nothing :
  processReadKafka (λ _, "") (λ _ _, false) parse0 (λ _, ANil) [req "r" 0] (vkr_message "id" ["kar-debugger"; "vkr"; "r"])
  = Ok (inr ∅).
Proof. vm_compute. reflexivity. Qed.
End Witness.
End KarQuery.
