(* ===== verification/KarClient.v ===== *)
(** * KarClient: the commands of the debugger's client

    Models the client of src/core/cmd/kar-debugger/kar-debugger.go ([processClient],
    [processClientKar]) and what it prints: the message that a command line becomes,
    the answers that are awaited, the checks.  The connection to the debugger's server
    is the class [Conn]; the decoding of its answers into the structs of the source is
    the class [ClientJson].  What is printed is a list of pieces; the texts of usage
    are named by their command, and indented JSON is the value that is printed. *)

From S2P Require Import Prelude GoLib Json Commands DebugRoutes Deadlock KarServer KarQuery.
Import Deadlock KarServer.
Open Scope string_scope.
Open Scope Z_scope.
Open Scope list_scope.
Open Scope go_scope.

Module KarClient.
Import KarQuery(getArgs, getArgsList, unpackRequestValue, unpackResponseValue, kafkaReq_t, reqMsg_t, RequestId,
  k_ParentId, k_RequestType, MsgFound, EarliestTailCall, LatestTailCall, k_Response, m_ActorType, m_ActorId, m_Path,
  m_Payload, m_Sequence, m_Timestamp, m_Deadline).

(* ---------------------------------------------------------------------- *)
(** ** Interfaces *)

Record sidecarData_t : Type := mkSidecar {
  sc_Actors : list string;
  sc_Services : list string;
  sc_Host : string;
  sc_Port : Z;
}.

(** A piece of the output. *)
Inductive output : Type :=
| Out (s : string)
| Usage (cmd : string)
| Help
| PrettyAny (v : any)
| PrettyBreakpoints (bs : list breakpoint_t)
| PrettyPauses (l : list (listPauseInfo_t * gmap string any * gmap string any)).

(** The connection to the server: a message is sent whole, and a message is received
    whole; [getArgs] makes a fresh identifier of the command. *)
Class Conn (W : Type) : Type := {
  dial : string → string → M W unit;
  sendDebugger : string → M W unit;
  recvDebugger : M W string;
  new_uuid : M W string;
  Getenv : string → string;
}.

(** [json.Unmarshal] into the types of the answers, when there is no error; the inner
    option is whether the field is there. *)
Class ClientJson : Type := {
  un_msg : string → option (gmap string string);
  un_edges : string → list edge_t;
  un_breakpoint : string → option (option breakpoint_t);
  un_breakpoints : string → option (option (list breakpoint_t));
  un_request : string → option (option actorSentInfo_t);
  un_pauses : string → option (option (list listPauseInfo_t));
  un_kafka : string → option (gmap string kafkaReq_t);
  un_sidecars : string → gmap string sidecarData_t;
  un_actors : string → gmap string (list string);
  json_args : string → list string → string → string;   (** the command, "args" and "commandId" *)
}.

Record cworld (W : Type) : Type := mkCworld { cw_env : W; cw_out : list output }.
Arguments mkCworld {W}.
Arguments cw_env {W}.
Arguments cw_out {W}.

Section client.
Context {W : Type} `{Conn W} `{ClientJson} `{ServerJson} `{Json} `{MapIter}.
Context (Sprint : any → string) (Error : gerror → string).
Context (sort_strings : list string → list string).
Context (verbose : Z).

Definition env {A} (m : M W A) : M (cworld W) A := λ w,
  let '(r, e) := m (cw_env w) in (r, mkCworld e (cw_out w)).

Definition show (o : output) : M (cworld W) unit := λ w, (Ok tt, mkCworld (cw_env w) (cw_out w ++ [o])).

Fixpoint show_all (os : list output) : M (cworld W) unit :=
  match os with [] => ret tt | o :: os' => show o ;;* show_all os' end.

Definition say (s : string) : M (cworld W) unit := show (Out s).

Definition nl : string := String "010" "".
Definition tab : string := String "009" "".
Definition dq : string := String "034" "".
Definition sayln (s : string) : M (cworld W) unit := say (s +:+ nl).

(** Send a message, and receive its answer. *)
Definition fire (bytes : string) (k : M (cworld W) unit) : M (cworld W) unit :=
  let* x := attempt (env (sendDebugger bytes)) in
  match x with
  | inr err => say ("Error sending message to debugger: " +:+ Error err +:+ nl)
  | inl _ => k
  end.

Definition ask (bytes : string) (k : string → M (cworld W) unit) : M (cworld W) unit :=
  fire bytes
    (let* x := attempt (env recvDebugger) in
     match x with
     | inr err => say ("Error receiving response from debugger: " +:+ Error err +:+ nl)
     | inl responseBytes => k responseBytes
     end).

(** Three commands go on, with no bytes, when nothing could be received. *)
Definition ask_on (bytes : string) (k : string → M (cworld W) unit) : M (cworld W) unit :=
  fire bytes
    (let* x := attempt (env recvDebugger) in
     match x with
     | inr err => say ("Error receiving from debugger: " +:+ Error err +:+ nl) ;;* k ""
     | inl responseBytes => k responseBytes
     end).

Definition args_of (os_args names : list string) (options boolOptions : gmap string string) (startIndex : Z)
    : M (cworld W) (gmap string string) :=
  let* id := env new_uuid in ret (getArgs id os_args names options boolOptions startIndex).

Definition bad_answer (bytes : string) : M (cworld W) unit :=
  say ("Error unmarshalling response: invalid JSON" +:+ nl) ;;* say ("Response: " +:+ bytes +:+ nl).

(* ---------------------------------------------------------------------- *)
(** ** What is printed *)

(** [x.(string)] *)
Definition as_string (v : option any) : res string :=
  match v with Some (AString s) => Ok s | _ => Panic "interface conversion: interface {} is not string" end.

(** [s[1:]] *)
Definition tail_of (s : string) : res string :=
  match s with "" => Panic "slice bounds out of range" | String _ s' => Ok s' end.

(** [rv["path"].(string)[1:]] *)
Definition path_tail (rv : gmap string any) : res string :=
  match as_string (rv !! "path") with Ok s => tail_of s | r => r end.

Definition printBreakpoint (b : breakpoint_t) : list output :=
  [Out ("* Breakpoint " +:+ b_BreakpointId b +:+ ":" +:+ nl);
   Out (tab +:+ "* Breakpoint type: " +:+ BreakpointType b +:+ nl)] ++
  (if negb (String.eqb (b_ActorType b) "") then [Out (tab +:+ "* Break on actor type: " +:+ b_ActorType b +:+ nl)] else []) ++
  (if negb (String.eqb (b_ActorId b) "") then [Out (tab +:+ "* Break on actor ID: " +:+ b_ActorId b +:+ nl)] else []) ++
  (if negb (String.eqb (b_Path b) "") then [Out (tab +:+ "* Break on method: " +:+ b_Path b +:+ nl)] else []) ++
  [Out (tab +:+ "* Break on request vs. response: " +:+ IsRequest b +:+ nl);
   Out (tab +:+ "* Breakpoint present on nodes:" +:+ nl)] ++
  ((λ node, Out (tab +:+ tab +:+ "* " +:+ node +:+ nl)) <$> elements (Nodes b)) ++
  (if negb (String.eqb (HitActorType b) "") then
     [Out (nl +:+ tab +:+ "* Breakpoint triggered by actor: " +:+ HitActorType b +:+ " " +:+ HitActorId b +:+ nl)] else []) ++
  [Out (tab +:+ "* Number of actors paused due to this breakpoint: " +:+ Itoa (NumPausedActors b) +:+ nl)].

(** What is printed of the request and of the response of a paused actor. *)
Definition print_values (pauseInfo : listPauseInfo_t) : M (cworld W) unit :=
  match UnmarshalMsg (p_RequestValue pauseInfo) with
  | None =>
      show_all [Out ("Error unmarshalling value: invalid JSON" +:+ nl);
                Out ("Value string: " +:+ dq +:+ p_RequestValue pauseInfo +:+ dq +:+ nl); PrettyPauses [(pauseInfo, ∅, ∅)]]
  | Some reqInfo =>
      show_all [Out (tab +:+ tab +:+ "* Request type: " +:+ index_str reqInfo "command" +:+ nl);
                Out (tab +:+ tab +:+ "* Request path: " +:+ index_str reqInfo "path" +:+ nl);
                Out (tab +:+ tab +:+ "* Request payload: " +:+ index_str reqInfo "payload" +:+ nl)] ;;*
      if negb (String.eqb (IsResponse pauseInfo) "response") then ret tt
      else match UnmarshalMap (ResponseValue pauseInfo) with
      | None => if 2 <=? verbose then say ("Error unpacking response info: invalid JSON" +:+ nl) else ret tt
      | Some responseMap =>
          show_all [Out nl; Out (tab +:+ tab +:+ "* Response status code: " +:+
                                 Sprint (default ANil (responseMap !! "StatusCode")) +:+ nl)] ;;*
          let* payload := of_res (as_string (responseMap !! "Payload")) in
          match UnmarshalMap payload with
          | None => ret tt
          | Some payloadMap =>
              say (tab +:+ tab +:+ "* Response value: " +:+ Sprint (default ANil (payloadMap !! "value")) +:+ nl)
          end
      end
  end.

(** The line of the target has its identifier before its type. *)
Definition printPausedActorFull (pauseInfo : listPauseInfo_t) : M (cworld W) unit :=
  say ("* " +:+ p_ActorType pauseInfo +:+ " " +:+ p_ActorId pauseInfo +:+ " on node " +:+ NodeId pauseInfo +:+ nl) ;;*
  show_all
    (if 0 <? PauseDepth pauseInfo then
      [Out (tab +:+ "* Indirectly paused due to actor " +:+ EndActorType pauseInfo +:+ " " +:+ EndActorId pauseInfo +:+ nl);
       Out (tab +:+ tab +:+ "* Pause depth: " +:+ Itoa (PauseDepth pauseInfo) +:+ nl);
       Out (tab +:+ "* Paused while sending request " +:+ p_RequestId pauseInfo +:+ nl);
       Out (tab +:+ "* Target actor: " +:+ ChildActorId pauseInfo +:+ " " +:+ ChildActorType pauseInfo +:+ nl)]
    else
      [Out (tab +:+ "* Paused while processing ");
       Out (if String.eqb (IsResponse pauseInfo) "response" then "response" else "request");
       Out (" " +:+ p_RequestId pauseInfo +:+ nl)]) ;;*
  print_values pauseInfo ;;*
  say (tab +:+ "* Paused due to breakpoint " +:+ BreakpointId pauseInfo +:+ nl).

Definition viewRequestDetails (info : actorSentInfo_t) (reqId : string) : M (cworld W) unit :=
  show_all
    ([Out ("* Request " +:+ reqId +:+ " to actor " +:+ ActorType (Actor info) +:+ " " +:+ ActorId (Actor info) +:+ nl);
      Out (tab +:+ if IsHandling info then "* Request is currently being handled." +:+ nl
                   else "* Request is in flight, not yet being handled." +:+ nl)] ++
     (if negb (String.eqb (ParentId info) "") then [Out (tab +:+ "* Parent request: " +:+ ParentId info +:+ nl)] else [])) ;;*
  let '(reqVal, ok) := unpackRequestValue (RequestValue info) in
  if negb ok then ret tt
  else
    say (tab +:+ "* Request type: " +:+ Sprint (default ANil (reqVal !! "command")) +:+ nl) ;;*
    let* method := of_res (path_tail reqVal) in
    show_all [Out (tab +:+ "* Method: " +:+ method +:+ "()" +:+ nl);
              Out (tab +:+ "* Arguments:" +:+ nl); PrettyAny (default ANil (reqVal !! "payload")); Out nl].

(** [\t\t* Method] and what follows, of a tail call. *)
Definition print_call (indent after : string) (c : reqMsg_t) : list output :=
  (match m_Path c with
   | "" => []
   | String _ p => [Out (indent +:+ "* Method: " +:+ m_ActorType c +:+ "." +:+ p +:+ after +:+ nl)]
   end) ++
  [Out (indent +:+ "* Arguments:" +:+ nl); PrettyAny (m_Payload c);
   Out (indent +:+ "* Timestamp: " +:+ Itoa (m_Timestamp c) +:+ nl);
   Out (indent +:+ "* Deadline: " +:+ Itoa (m_Deadline c) +:+ nl)].

Definition print_tail_call (title : string) (c : reqMsg_t) : list output :=
  [Out (tab +:+ "* " +:+ title +:+ " tail call:" +:+ nl);
   Out (tab +:+ tab +:+ "* Target actor: " +:+ m_ActorType c +:+ " " +:+ m_ActorId c +:+ nl)] ++
  print_call (tab +:+ tab) "" c ++ [Out (tab +:+ tab +:+ "* Sequence number: " +:+ Itoa (m_Sequence c) +:+ nl)].

Definition printKafkaReq (req : kafkaReq_t) : list output :=
  let etc := EarliestTailCall req in
  let ltc := LatestTailCall req in
  [Out ("* Request " +:+ RequestId req +:+ " ");
   Out (if MsgFound req then "of type " +:+ k_RequestType req +:+ " to " +:+ m_ActorType etc +:+ " " +:+ m_ActorId etc +:+ nl
        else nl)] ++
  (if negb (String.eqb (k_ParentId req) "") then [Out (tab +:+ "* Parent: " +:+ k_ParentId req +:+ nl)] else []) ++
  (if MsgFound req then
     if m_Sequence etc =? m_Sequence ltc then print_call tab "()" etc
     else print_tail_call "Earliest" etc ++ print_tail_call "Latest" ltc
   else []) ++
  (if is_nil (k_Response req) then [] else [Out nl; Out (tab +:+ "* Response: " +:+ nl); PrettyAny (k_Response req)]).

(** Print one after the other; a panic ends the process. *)
Fixpoint print_each {A} (f : A → M (cworld W) unit) (l : list A) : M (cworld W) unit :=
  match l with
  | [] => ret tt
  | a :: l' => f a ;;* print_each f l'
  end.

(* ---------------------------------------------------------------------- *)
(** ** The commands *)

Context (os_args : list string).

Definition usage_details (what cmd : string) : M (cworld W) unit :=
  sayln what ;;* sayln "Usage details:" ;;* show (Usage cmd).

Definition client_unpause : M (cworld W) unit :=
  let* msg := args_of os_args ["actorType"; "actorId"] {["-node" := ""]} ∅ 2 in
  let ty := index_str msg "actorType" in
  let id := index_str msg "actorId" in
  if (String.eqb ty "" && negb (String.eqb id "")) || (negb (String.eqb ty "") && String.eqb id "") then
    usage_details "If one of actorType or actorId is given, then both must be given." "unpause"
  else fire (json_msg (<["command" := "unpause"]> msg)) (ret tt).

(** The options of the command b. *)
Definition b_options : gmap string string :=
  <["-node" := ""]> (<["-location" := "isRequest"]> (<["-actorId" := ""]> (<["-type" := "breakpointType"]>
  (<["-conds" := ""]> {["-respConds" := ""]})))).

(** Its message, when the two arguments are given. *)
Definition b_message (msg : gmap string string) : option (gmap string string) :=
  match msg !! "path", msg !! "actorType" with
  | Some path, Some _ => Some (<["command" := "setBreakpoint"]> (<["path" := "/" +:+ path]> msg))
  | _, _ => None
  end.

Definition breakpoint_set (text responseBytes : string) (k : M (cworld W) unit) : M (cworld W) unit :=
  match un_msg responseBytes with
  | None => say ("Error unmarshalling response: invalid JSON" +:+ nl)
  | Some response => say (text +:+ "reakpoint " +:+ index_str response "breakpointId" +:+ " set." +:+ nl) ;;* k
  end.

Definition client_b : M (cworld W) unit :=
  let* msg := args_of os_args ["actorType"; "path"] b_options ∅ 2 in
  match b_message msg with
  | None => usage_details "Missing a required argument." "b"
  | Some msg => ask (json_msg msg) (λ responseBytes, breakpoint_set "B" responseBytes (ret tt))
  end.

Definition client_d : M (cworld W) unit :=
  let* msg := args_of os_args ["breakpointId"] ∅ ∅ 2 in
  if String.eqb (index_str msg "breakpointId") "" then usage_details "Missing a required argument." "d"
  else fire (json_msg (<["command" := "unsetBreakpoint"]> msg)) (ret tt).

(** One edge of the cycle; [last] is that of the request that closes it. *)
Definition print_edge (x : bool * edge_t) : M (cworld W) unit :=
  let '(last, edge) := x in
  say "* " ;;* (if last : bool then say "But " else ret tt) ;;*
  say (ActorType (SrcActor edge) +:+ " " +:+ ActorId (SrcActor edge) +:+ " is waiting on " +:+
       ActorType (DstActor edge) +:+ " " +:+ ActorId (DstActor edge)) ;;*
  say (if last then "!" else ".") ;;* say nl ;;*
  let* method := of_res (path_tail (unpackRequestValue (q_RequestValue (Req edge))).1) in
  say (tab +:+ "* Waiting on method " +:+ ActorId (DstActor edge) +:+ "." +:+ method +:+ "()" +:+ nl) ;;*
  let* parent := of_res (path_tail (unpackRequestValue (ParentValue edge)).1) in
  say (tab +:+ "* Method is being called from: " +:+ ActorId (SrcActor edge) +:+ "." +:+ parent +:+ "()" +:+ nl).

(** The first edge, to the actor that the search entered, is not shown. *)
Definition mark_last (edges : list edge_t) : list (bool * edge_t) :=
  imap (λ i e, (Nat.eqb (S i) (length edges), e)) edges.

Definition client_vd : M (cworld W) unit :=
  let* msg := args_of [] [] ∅ ∅ 0 in
  ask (json_msg (<["command" := "viewDeadlocks"]> msg)) (λ responseBytes,
    match un_edges responseBytes with
    | [] => sayln "No deadlocks found."
    | _ :: edges =>
        sayln "Deadlock detected!" ;;* sayln "Cycle information:" ;;* print_each print_edge (mark_last edges)
    end).

Definition no_breakpoint_data : string := "Error getting breakpoint data: no breakpoint data provided" +:+ nl.

Definition client_vb : M (cworld W) unit :=
  let* msg := args_of os_args ["breakpointId"] {["-format" := ""]} ∅ 2 in
  let json := String.eqb (index_str msg "format") "json" in
  ask (json_msg (<["command" := "viewBreakpoint"]> msg)) (λ responseBytes,
    match msg !! "breakpointId" with
    | Some _ =>
        match un_breakpoint responseBytes with
        | None => say ("Error unmarshalling response: invalid JSON" +:+ nl)
        | Some None => say no_breakpoint_data
        | Some (Some bk) => if json then show (PrettyBreakpoints [bk]) else show_all (printBreakpoint bk)
        end
    | None =>
        match un_breakpoints responseBytes with
        | None => say ("Error unmarshalling response: invalid JSON" +:+ nl)
        | Some None => say no_breakpoint_data
        | Some (Some bks) =>
            if json then show (PrettyBreakpoints bks)
            else match bks with
                 | [] => say "No breakpoints are currently set."
                 | _ => show_all (bks ≫= printBreakpoint)
                 end
        end
    end).

(** One line of the counts of a selection: a key that is an object shows its values,
    each followed by a comma since the counter of the loop stays 0. *)
Definition print_count (x : string * any) : list output :=
  Out "* " ::
  (match UnmarshalMap x.1 with
   | Some keyMap =>
       map_iter 96 keyMap ≫= λ kv, [Out (dq +:+ Sprint kv.2 +:+ dq); Out ", "]
   | None => [Out x.1]
   end) ++ [Out (": " +:+ Sprint x.2 +:+ " requests found" +:+ nl)].

Definition client_vkr : M (cworld W) unit :=
  let* id := env new_uuid in
  let msg := KarQuery.vkr_message id os_args in
  ask_on (json_msg msg) (λ responseBytes,
    if String.eqb (index_str msg "select") "" then
      match un_kafka responseBytes with
      | None => ret tt
      | Some response => show_all (map_iter 97 response ≫= λ kv, printKafkaReq kv.2)
      end
    else
      match UnmarshalMap responseBytes with
      | None => ret tt
      | Some response => show_all (map_iter 98 response ≫= print_count)
      end).

Definition client_vrd : M (cworld W) unit :=
  let* msg := args_of os_args ["requestId"] (<["-format" := ""]> {["-ind" := ""]}) ∅ 2 in
  ask_on (json_msg (<["command" := "viewRequest"]> msg)) (λ responseBytes,
    match un_request responseBytes with
    | None => bad_answer responseBytes
    | Some None => sayln "Request not found."
    | Some (Some req) => viewRequestDetails req (index_str msg "requestId")
    end).

Definition vpa_options : gmap string string :=
  <["-format" := ""]> (<["-ind" := ""]> (<["-actorType" := ""]> (<["-actorId" := ""]> (<["-requestId" := ""]>
  (<["-method" := ""]> (<["-requestType" := ""]> (<["-isResponse" := ""]> (<["-breakpointId" := ""]>
  {["-nodeId" := ""]})))))))).

Definition client_vpa : M (cworld W) unit :=
  let* msg := args_of os_args ["actorType"; "actorId"] vpa_options ∅ 2 in
  ask_on (json_msg (<["command" := "viewPausedActor"]> msg)) (λ responseBytes,
    match un_pauses responseBytes with
    | None => bad_answer responseBytes
    | Some actors =>
        if String.eqb (index_str msg "format") "json" then
          show (PrettyPauses ((λ a, (a, (unpackRequestValue (p_RequestValue a)).1,
                                     (unpackResponseValue (ResponseValue a)).1)) <$> default [] actors))
        else match actors with
             | None => say ("Error: no actor data provided." +:+ nl)
             | Some actors => print_each printPausedActorFull actors
             end
    end).

Definition client_edit : M (cworld W) unit :=
  let* msg := args_of os_args ["requestId"; "edit"] ∅ ∅ 2 in
  fire (json_msg (<["command" := "editResponse"]> msg)) (say ("Response edited." +:+ nl)).

(** A single step: a breakpoint on the flow of a paused actor, deleted when it is
    hit, and everything goes on. *)
Definition step_pause (commandId actorType actorId : string) : gmap string string :=
  <["actorType" := actorType]> (<["actorId" := actorId]> (<["command" := "viewPausedActor"]>
  (<["commandId" := commandId]> (<["keepAlive" := "true"]> {["ind" := "true"]})))).

Definition step_breakpoint (commandId actorType actorId flowId : string) : gmap string string :=
  <["commandId" := commandId]> (<["flowId" := flowId]> (<["actorId" := actorId]> (<["actorType" := actorType]>
  (<["command" := "setBreakpoint"]> (<["keepAlive" := "true"]> (<["deleteOnHit" := "true"]>
  {["breakpointId" := "single-step of actor " +:+ actorType +:+ " " +:+ actorId]})))))).

Definition step_unpause (commandId : string) : gmap string string :=
  <["command" := "unpause"]> (<["commandId" := commandId]> {["keepAlive" := "true"]}).

Definition step_complete (responseBytes : string) : M (cworld W) unit :=
  let stepCompleteMsg := default ∅ (un_msg responseBytes) in
  sayln "Single-step complete." ;;* sayln "Current location:" ;;*
  say ("* Actor: " +:+ index_str stepCompleteMsg "actorType" +:+ " " +:+ index_str stepCompleteMsg "actorId" +:+ nl) ;;*
  say ("* Request vs response: " +:+ index_str stepCompleteMsg "isResponse" +:+ nl) ;;*
  let reqInfo := (unpackRequestValue (index_str stepCompleteMsg "requestValue")).1 in
  let* cmd := of_res (as_string (reqInfo !! "command")) in
  say (tab +:+ "* Request type: " +:+ cmd +:+ nl) ;;*
  let* path := of_res (as_string (reqInfo !! "path")) in
  say (tab +:+ "* Request method: " +:+ path +:+ nl) ;;*
  say (tab +:+ "* Request payload: " +:+ Sprint (default ANil (reqInfo !! "payload")) +:+ nl).

Definition client_step : M (cworld W) unit :=
  let* commandId := env new_uuid in
  let* msg := args_of os_args ["actorType"; "actorId"] ∅ ∅ 2 in
  match msg !! "actorId", msg !! "actorType" with
  | Some actorId, Some actorType =>
      let* sent := attempt (env (sendDebugger (json_msg (step_pause commandId actorType actorId)))) in
      match sent with
      | inr err => say ("Error sending pause message to debugger: " +:+ Error err +:+ nl)
      | inl _ =>
          let* x := attempt (env recvDebugger) in
          let pauseBytes := match x with inl b => b | inr _ => "" end in
          match un_pauses pauseBytes with
          | None => bad_answer pauseBytes
          | Some None | Some (Some []) => sayln "Cannot step: actor is not paused."
          | Some (Some (pauseInfo :: _)) =>
              if String.eqb (IsResponse pauseInfo) "response" && negb (CanStep pauseInfo) then
                sayln "Cannot step: actor is paused on a response and has no parent."
              else
                ask (json_msg (step_breakpoint commandId actorType actorId (p_FlowId pauseInfo))) (λ responseBytes,
                  breakpoint_set "Single-step b" responseBytes
                    (say ("Unpausing all actors..." +:+ nl) ;;*
                     let* up := attempt (env (sendDebugger (json_msg (step_unpause commandId)))) in
                     match up with
                     | inr err => say ("Error sending unpause message to debugger: " +:+ Error err +:+ nl)
                     | inl _ =>
                         let* hit := attempt (env recvDebugger) in
                         match hit with inr _ => ret tt | inl bytes => step_complete bytes end
                     end))
          end
      end
  | _, _ => usage_details "Missing a required argument." "step"
  end.

(* ---------------------------------------------------------------------- *)
(** ** The subcommands of kar *)

Definition help_flags : gmap string string := <["-h" := "help"]> {["-help" := ""]}.
Definition v_option : gmap string string := {["-v" := "verbose"]}.

Definition invoke_result (title : string) (fields : list (string * string)) (responseBytes : string) : M (cworld W) unit :=
  let m := default ∅ (UnmarshalMap responseBytes) in
  sayln title ;;*
  show_all ((λ f, Out (tab +:+ "* " +:+ f.1 +:+ ": " +:+ Sprint (default ANil (m !! f.2)) +:+ nl)) <$> fields).

Definition get_result (responseBytes : string) : M (cworld W) unit :=
  let getMsg := default ∅ (UnmarshalMap responseBytes) in
  let text k := match getMsg !! k with Some (AString s) => s | _ => "" end in
  if String.eqb (text "command") "error" then
    say ("Error: " +:+ text "error" +:+ nl +:+ "See below for information on how to use this command:" +:+ nl +:+ nl) ;;*
    show (Usage "kar get")
  else if String.eqb (text "subsystem") "sidecars" then
    let lines sc := nl +:+ fst sc +:+ " : " +:+ sc_Host (snd sc) +:+ " : " +:+ Itoa (sc_Port (snd sc)) +:+
      nl +:+ " : [" +:+ Join " " (sc_Actors (snd sc)) +:+ "]" +:+ nl +:+ " : [" +:+ Join " " (sc_Services (snd sc)) +:+ "]" in
    sayln (nl +:+ "Sidecar : host : port " +:+ nl +:+ " : Actors" +:+ nl +:+ " : Services" +:+
           String.concat "" (lines <$> map_iter 99 (un_sidecars (text "sidecars"))))
  else if String.eqb (text "subsystem") "actors" then
    match getMsg !! "state" with
    | Some (AString stateStr) =>
        sayln (match UnmarshalMap stateStr with Some _ => "<nil>" | None => "invalid JSON" end) ;;*
        show (PrettyAny (AMap (default ∅ (UnmarshalMap stateStr))))
    | _ =>
        let block kv := fst kv +:+ ": [" +:+ nl +:+
          String.concat "" ((λ id, "    " +:+ id +:+ nl) <$> sort_strings (snd kv)) +:+ "]" +:+ nl in
        sayln (String.concat "" (block <$> map_iter 100 (un_actors (text "actors"))))
    end
  else ret tt.

Definition processClientKar (karArgs : list string) : M (cworld W) unit :=
  match karArgs with
  | [] => show (Usage "kar")
  | sub :: rest =>
      let* argsMap := args_of os_args [] v_option help_flags 2 in
      if String.eqb (index_str argsMap "help") "true" then show (Usage ("kar " +:+ sub))
      else if String.eqb sub "invoke" then
        if (length karArgs <? 4)%nat then sayln "Error: too few arguments." ;;* show (Usage "kar invoke")
        else
          let* id := env new_uuid in
          ask (json_args "kar invoke" rest id) (λ bytes,
            say (String "013" "") ;;* invoke_result "Invocation result:" [("Status", "status"); ("Value", "value")] bytes)
      else if String.eqb sub "rest" then
        if (length karArgs <? 1 + 3)%nat then sayln "Error: too few arguments." ;;* show (Usage "kar rest")
        else
          let* id := env new_uuid in
          ask (json_args "kar rest" rest id)
            (invoke_result "Service call result:" [("Status", "status"); ("Error", "error"); ("Value", "value")])
      else if String.eqb sub "get" then
        if (length karArgs <? 1 + 1)%nat then sayln "Error: too few arguments." ;;* show (Usage "kar get")
        else
          let* msg := args_of karArgs ["subsystem"; "actorType"; "actorId"] ∅ ∅ 1 in
          ask (json_msg (<["command" := "kar get"]> msg)) get_result
      else show (Usage "kar")
  end.

(* ---------------------------------------------------------------------- *)
(** ** The client *)

(** Where the server is: the option, the environment, the default. *)
Definition first_of (option variable def : string) : string :=
  if negb (String.eqb option "") then option
  else if negb (String.eqb (Getenv variable) "") then Getenv variable else def.

Definition client_command (cmdName : string) : M (cworld W) unit :=
  if String.eqb cmdName "unpause" then client_unpause
  else if String.eqb cmdName "b" then client_b
  else if String.eqb cmdName "d" then client_d
  else if String.eqb cmdName "vd" then client_vd
  else if String.eqb cmdName "vb" then client_vb
  else if String.eqb cmdName "vkr" then client_vkr
  else if String.eqb cmdName "vrd" then client_vrd
  else if String.eqb cmdName "vpa" then client_vpa
  else if String.eqb cmdName "kar" then processClientKar (getArgsList os_args v_option help_flags 2)
  else if String.eqb cmdName "step" then client_step
  else if String.eqb cmdName "edit" then client_edit
  else if String.eqb cmdName "help" then
    match os_args !! 2%nat with Some cmd => show (Usage cmd) | None => show Help end
  else sayln "Unsupported command." ;;* show Help.

Definition processClient : M (cworld W) unit :=
  let* argsMap := args_of os_args ["cmdName"] v_option help_flags 1 in
  let cmdName := index_str argsMap "cmdName" in
  if bool_decide (is_Some (argsMap !! "help")) && negb (String.eqb cmdName "kar") then show (Usage cmdName)
  else
    let* hostPortMap := args_of os_args [] (<["-host" := ""]> {["-port" := ""]}) ∅ 1 in
    let host := first_of (index_str hostPortMap "host") "KAR_DEBUGGER_HOST" "localhost" in
    let port := first_of (index_str hostPortMap "port") "KAR_DEBUGGER_PORT" "5364" in
    let* x := attempt (env (dial host port)) in
    match x with
    | inr err =>
        say "Error connecting to debugger server: " ;;* say (tab +:+ Error err +:+ ":" +:+ nl +:+ nl) ;;*
        sayln "Have you started a debugger server on this host?" ;;*
        say ("If not, then in another terminal, run " +:+ dq +:+ nth 0 os_args "" +:+ " server karHost karPort" +:+ dq +:+ nl) ;;*
        say ("where karHost is the hostname of a KAR sidecar in your cluster" +:+ nl) ;;*
        say ("and karPort is the port." +:+ nl) ;;*
        say ("Then, try running this command again." +:+ nl)
    | inl _ => client_command cmdName
    end.
End client.

(* ---------------------------------------------------------------------- *)
(** ** Breakpoints, from the command line to the sidecars *)

(** An option of the command line, when it is given. *)
Definition opt (k : string) (v : option string) : list string := match v with Some x => [k; x] | None => [] end.
Definition given (v : option string) : Prop := v ≠ Some "".

Definition set_opt (k : string) (v : option string) (m : gmap string string) : gmap string string :=
  match v with Some x => <[k := x]> m | None => m end.

Lemma lookup_set_opt k v (m : gmap string string) j :
  set_opt k v m !! j = if String.eqb j k then (match v with Some x => Some x | None => m !! k end) else m !! j.
Proof.
  unfold set_opt. destruct (String.eqb_spec j k) as [->|Hn], v as [x|]; try done.
  - by rewrite lookup_insert_eq.
  - by rewrite lookup_insert_ne.
Qed.

Lemma args_loop_opt names options boolOptions start k v rest idx m dst :
  k ≠ "" → given v → options !! k = Some dst →
  KarQuery.args_loop names options boolOptions start (opt k v ++ rest) None idx m =
  KarQuery.args_loop names options boolOptions start rest None idx (set_opt (KarQuery.option_name dst k) v m).
Proof.
  intros Hk Hv Ho. destruct v as [x|]; [|done]. cbn [opt app set_opt].
  apply KarQuery.args_opt; [done| |done]. intros ->. by destruct Hv.
Qed.

(** A word that is not an option of the command. *)
Definition word (options boolOptions : gmap string string) (w : string) : Prop :=
  w ≠ "" ∧ options !! w = None ∧ boolOptions !! w = None.

Record b_line : Type := mkLine {
  l_prog : string; l_type : string; l_method : string;
  l_location : option string; l_kind : option string; l_node : option string; l_id : option string;
  l_conds : option string; l_respConds : option string;
}.

Definition b_args (l : b_line) : list string :=
  [l_prog l; "b"; l_type l; l_method l] ++ opt "-location" (l_location l) ++ opt "-type" (l_kind l) ++
  opt "-node" (l_node l) ++ opt "-actorId" (l_id l) ++ opt "-conds" (l_conds l) ++ opt "-respConds" (l_respConds l).

Definition proper_line (l : b_line) : Prop :=
  Forall (word b_options ∅) [l_prog l; l_type l; l_method l] ∧
  Forall given [l_location l; l_kind l; l_node l; l_id l; l_conds l; l_respConds l].

Definition b_fields (id : string) (l : b_line) : gmap string string :=
  set_opt "respConds" (l_respConds l) (set_opt "conds" (l_conds l) (set_opt "actorId" (l_id l)
  (set_opt "node" (l_node l) (set_opt "breakpointType" (l_kind l) (set_opt "isRequest" (l_location l)
  (<["path" := l_method l]> (<["actorType" := l_type l]> {["commandId" := id]}))))))).

(** Words before the arguments, the argument number [j], and words after them. *)
Section words.
Context (names : list string) (options boolOptions : gmap string string) (start : Z).

Lemma word_skip w rest idx m :
  word options boolOptions w → idx < start →
  KarQuery.args_loop names options boolOptions start (w :: rest) None idx m =
  KarQuery.args_loop names options boolOptions start rest None (idx + 1) m.
Proof.
  intros (Hw & Ho & Hb) Hi. rewrite KarQuery.args_word by done.
  destruct (Z.leb_spec (Z.of_nat (length names)) (idx - start)); [lia|].
  by destruct (Z.leb_spec start idx); [lia|].
Qed.

Lemma word_take w rest idx m j name :
  word options boolOptions w → idx = start + Z.of_nat j → names !! j = Some name →
  KarQuery.args_loop names options boolOptions start (w :: rest) None idx m =
  KarQuery.args_loop names options boolOptions start rest None (idx + 1) (<[name := w]> m).
Proof.
  intros (Hw & Ho & Hb) -> Hj. rewrite KarQuery.args_word by done.
  apply lookup_lt_Some in Hj as Hl.
  destruct (Z.leb_spec (Z.of_nat (length names)) (start + Z.of_nat j - start)); [lia|].
  destruct (Z.leb_spec start (start + Z.of_nat j)); [|lia].
  replace (Z.to_nat (start + Z.of_nat j - start)) with j by lia. by rewrite (nth_lookup_Some _ _ _ _ Hj).
Qed.

Lemma word_extra w rest idx m :
  word options boolOptions w → start + Z.of_nat (length names) <= idx →
  KarQuery.args_loop names options boolOptions start (w :: rest) None idx m =
  KarQuery.args_loop names options boolOptions start rest None idx m.
Proof.
  intros (Hw & Ho & Hb) Hi. rewrite KarQuery.args_word by done.
  by destruct (Z.leb_spec (Z.of_nat (length names)) (idx - start)); [|lia].
Qed.
End words.

Lemma word_b : word b_options ∅ "b" ∧ word v_option help_flags "b".
Proof. split; split_and!; done. Qed.

Lemma b_getArgs id l : proper_line l → getArgs id (b_args l) ["actorType"; "path"] b_options ∅ 2 = b_fields id l.
Proof.
  intros [Hw Hg]. unfold getArgs, b_args.
  apply Forall_cons in Hw as [H1 Hw]. apply Forall_cons in Hw as [H2 Hw]. apply Forall_cons in Hw as [H3 _].
  repeat (apply Forall_cons in Hg as [? Hg]). cbn [app].
  rewrite (word_skip _ _ _ _ _ _ _ _ H1), (word_skip _ _ _ _ _ _ _ _ (proj1 word_b)) by lia.
  rewrite (word_take _ _ _ _ _ _ _ _ 0 "actorType" H2), (word_take _ _ _ _ _ _ _ _ 1 "path" H3) by (lia || done).
  rewrite (args_loop_opt _ _ _ _ "-location" _ _ _ _ "isRequest") by (done || vm_compute; reflexivity).
  rewrite (args_loop_opt _ _ _ _ "-type" _ _ _ _ "breakpointType") by (done || vm_compute; reflexivity).
  rewrite (args_loop_opt _ _ _ _ "-node" _ _ _ _ "") by (done || vm_compute; reflexivity).
  rewrite (args_loop_opt _ _ _ _ "-actorId" _ _ _ _ "") by (done || vm_compute; reflexivity).
  rewrite (args_loop_opt _ _ _ _ "-conds" _ _ _ _ "") by (done || vm_compute; reflexivity).
  rewrite <-(app_nil_r (opt "-respConds" _)).
  rewrite (args_loop_opt _ _ _ _ "-respConds" _ _ _ _ "") by (done || vm_compute; reflexivity).
  reflexivity.
Qed.

(** The message of the command line. *)
Definition b_sent (id : string) (l : b_line) : gmap string string :=
  <["command" := "setBreakpoint"]> (<["path" := "/" +:+ l_method l]> (b_fields id l)).

Lemma b_message_sent id l : proper_line l →
  b_message (getArgs id (b_args l) ["actorType"; "path"] b_options ∅ 2) = Some (b_sent id l).
Proof.
  intros P. rewrite b_getArgs by done. unfold b_message, b_sent.
  assert (b_fields id l !! "path" = Some (l_method l)) as -> by (unfold b_fields; by rewrite !lookup_set_opt).
  assert (b_fields id l !! "actorType" = Some (l_type l)) as -> by (unfold b_fields; by rewrite !lookup_set_opt).
  done.
Qed.

Lemma UnmarshalPartial_Marshal `{JsonLaws} m s : Commands.MarshalMsg m = Ok s → DebugRoutes.UnmarshalPartial s = m.
Proof.
  intros E. unfold DebugRoutes.UnmarshalPartial. rewrite (unmarshal_msg _ _ E). unfold any_of_msg.
  rewrite <-map_fmap_compose. apply map_fmap_id.
Qed.

Section end_to_end.
Context {W : Type} `{Commands.RpcOps W} `{Commands.SidecarOps W} `{Debugger.Debugger.DebugOps W} `{DebugRoutes.ServeOps W}
  `{Routes.Routes.SystemOps W} `{JsonLaws} `{Commands.CommandJson} `{MapIter} `{ServerJson} `{PauseIter}.
Context (readKafka : gmap string string → string) (Error : option gerror → string).

Abbreviation set_msg := (DebugRoutes.set_breakpoint_msg (W := W)) (only parsing).

(** C28: A breakpoint is the one that its command line asks for: the client's message
    passes the server unchanged and is taken by the sidecar as a complete command, and
    what the sidecar then tells every sidecar names the actor type and the path of the
    arguments, and each option with its value or its default; the node of the option
    -node, and otherwise no node, is the one that is told. *)
Theorem breakpoint_as_asked id l bytes uuid conn s bk :
  proper_line l → Commands.MarshalMsg (b_sent id l) = Ok bytes → as_msg bytes = b_sent id l →
  b_message (getArgs id (b_args l) ["actorType"; "path"] b_options ∅ 2) = Some (b_sent id l) ∧
  (∃ s', serve_start readKafka uuid conn bytes s = (Ok None, s') ∧ KarServer.sent s' = KarServer.sent s ++ [bytes] ∧
     idToConn s' !! id = Some conn) ∧
  DebugRoutes.debug_command Error bytes =
    DebugRoutes.answer Error id (DebugRoutes.implSetBreakpoint (W := W) Error (b_sent id l)) ∧
  DebugRoutes.missing_argument (b_sent id l) = None ∧ b_sent id l !! "node" = l_node l ∧
  let m := set_msg bk (b_sent id l) in
  m !! "command" = Some "setBreakpoint" ∧ m !! "breakpointId" = Some bk ∧
  m !! "actorType" = Some (l_type l) ∧ m !! "path" = Some ("/" +:+ l_method l) ∧
  m !! "isRequest" = Some (default "request" (l_location l)) ∧
  m !! "breakpointType" = Some (default "global" (l_kind l)) ∧ m !! "actorId" = Some (default "" (l_id l)) ∧
  m !! "conds" = Some (default "" (l_conds l)) ∧ m !! "respConds" = Some (default "" (l_respConds l)).
Proof.
  intros P M A.
  assert (F : ∀ k, b_sent id l !! k = if String.eqb k "command" then Some "setBreakpoint" else
    if String.eqb k "path" then Some ("/" +:+ l_method l) else b_fields id l !! k).
  { intros k. unfold b_sent. destruct (String.eqb_spec k "command") as [->|]; [by rewrite lookup_insert_eq|].
    rewrite lookup_insert_ne by done. destruct (String.eqb_spec k "path") as [->|]; [by rewrite lookup_insert_eq|].
    by rewrite lookup_insert_ne. }
  assert (G : ∀ k v, b_fields id l !! k = v → b_sent id l !! k =
    if String.eqb k "command" then Some "setBreakpoint" else if String.eqb k "path" then Some ("/" +:+ l_method l) else v).
  { intros k v <-. apply F. }
  split; [by apply b_message_sent|]. split; [|split].
  - unfold serve_start. rewrite A.
    assert (b_sent id l !! "commandId" = Some id) as ->.
    { rewrite F. cbn [String.eqb Ascii.eqb Bool.eqb]. unfold b_fields. by rewrite !lookup_set_opt. }
    assert (b_sent id l !! "command" = Some "setBreakpoint") as -> by (by rewrite F).
    eexists. split; [reflexivity|]. split; [done|]. cbn. by rewrite lookup_insert_eq.
  - unfold DebugRoutes.debug_command. rewrite (UnmarshalPartial_Marshal _ _ M).
    assert (b_sent id l !! "command" = Some "setBreakpoint") as -> by (by rewrite F).
    assert (index_str (b_sent id l) "commandId" = id) as ->; [|done].
    unfold index_str. rewrite F. cbn [String.eqb Ascii.eqb Bool.eqb]. unfold b_fields. by rewrite !lookup_set_opt.
  - assert (Hnode : b_sent id l !! "node" = l_node l).
    { rewrite F. cbn [String.eqb Ascii.eqb Bool.eqb]. unfold b_fields. rewrite !lookup_set_opt. cbn. by destruct (l_node l). }
    assert (V : ∀ k v, b_fields id l !! k = v → (k =? "command" = false → k =? "path" = false → b_sent id l !! k = v)%string).
    { intros k v <- E1 E2. by rewrite F, E1, E2. }
    split; [|split; [exact Hnode|]].
    + unfold DebugRoutes.missing_argument.
      rewrite (V "flowId" None), (F "path"), (V "actorType" (Some (l_type l))); try done;
        unfold b_fields; by rewrite !lookup_set_opt.
    + unfold DebugRoutes.set_breakpoint_msg, DebugRoutes.with_node, DebugRoutes.mapget. rewrite Hnode.
      rewrite (V "actorType" (Some (l_type l))), (F "path"), (V "isRequest" (l_location l)), (V "breakpointType" (l_kind l)),
        (V "actorId" (l_id l)), (V "conds" (l_conds l)), (V "respConds" (l_respConds l)); try done;
        try (unfold b_fields; rewrite !lookup_set_opt; cbn; by repeat case_match).
Qed.
End end_to_end.

(* ---------------------------------------------------------------------- *)
(** ** The verbosity *)

(** The option -v, which the help of the client puts before the command, spoils
    every command that has arguments: the command is still found, but it reads the
    command line again without knowing the option, so that its arguments are the level
    and the name of the command.  Here for b: whatever type and method are asked for,
    the breakpoint is one on the method b of the actor type that is the level. *)
Theorem verbosity_shifts_arguments id prog level ty method :
  Forall (word b_options ∅) [prog; "-v"; level; ty; method] → Forall (word v_option help_flags) [prog; ty; method] →
  let args := [prog; "-v"; level; "b"; ty; method] in
  index_str (getArgs id args ["cmdName"] v_option help_flags 1) "cmdName" = "b" ∧
  ∃ msg, b_message (getArgs id args ["actorType"; "path"] b_options ∅ 2) = Some msg ∧
    msg !! "actorType" = Some level ∧ msg !! "path" = Some "/b".
Proof.
  intros Hw Hv args. apply Forall_cons in Hw as [W0 Hw]. apply Forall_cons in Hw as [W1 Hw].
  apply Forall_cons in Hw as [W2 Hw]. apply Forall_cons in Hw as [W3 Hw]. apply Forall_cons in Hw as [W4 _].
  apply Forall_cons in Hv as [V0 Hv]. apply Forall_cons in Hv as [V3 Hv]. apply Forall_cons in Hv as [V4 _].
  unfold getArgs, args. split.
  - rewrite (word_skip _ _ _ _ _ _ _ _ V0), (KarQuery.args_opt _ _ _ _ "-v" level _ _ _ "verbose") by (lia || apply W2 || done).
    rewrite (word_take _ _ _ _ _ _ _ _ 0 "cmdName" (proj2 word_b)) by (lia || done).
    rewrite (word_extra _ _ _ _ _ _ _ _ V3), (word_extra _ _ _ _ _ _ _ _ V4) by (cbn; lia). reflexivity.
  - rewrite (word_skip _ _ _ _ _ _ _ _ W0), (word_skip _ _ _ _ _ _ _ _ W1) by lia.
    rewrite (word_take _ _ _ _ _ _ _ _ 0 "actorType" W2), (word_take _ _ _ _ _ _ _ _ 1 "path" (proj1 word_b)) by (lia || done).
    rewrite (word_extra _ _ _ _ _ _ _ _ W3), (word_extra _ _ _ _ _ _ _ _ W4) by (cbn; lia).
    eexists. split; [reflexivity|]. split; reflexivity.
Qed.

(* ---------------------------------------------------------------------- *)
(** ** Witnesses *)

Module Witness.
Import MiniJson.
#[local] Existing Instance MiniJson.MiniJson.
#[local] Existing Instance MiniJson.MiniJson_laws.
#[local] Existing Instance canonical_iter.
#[local] Existing Instance CommandProps.CommandProps.Witness.replies.
#[local] Existing Instance DebugRoutes.Witness.three.
#[local] Existing Instance DebugRoutes.Witness.no_conns.
#[local] Existing Instance DebugRoutes.Witness.serve_ops.
#[local] Existing Instance DebugRoutes.Witness.ops.

#[local] Instance plain_json : ServerJson := {|
  as_msg := DebugRoutes.UnmarshalPartial;
  as_nodes := λ _, None;
  as_pause := λ _, no_pause;
  as_pauses := λ _, [];
  as_breakpoints := λ _, ∅;
  as_busy := λ _, mkBusy ∅ ∅;
  json_msg := λ m, match Commands.MarshalMsg m with Ok s => s | _ => "" end;
  json_pauses := λ _, "pauses";
  json_breakpoint := λ _, "breakpoint";
  json_breakpoints := λ _, "breakpoints";
  json_request := λ _, "request";
  json_edges := λ _, "edges";
|}.

#[local] Program Instance listed : PauseIter := {| pause_iter := map_to_list |}.
Next Obligation. done. Qed.

#[local] Instance system : Routes.Routes.SystemOps (gmap string Debugger.Debugger.dbg) := {|
  Routes.Routes.GetTopology := ret ∅; Routes.Routes.GetPorts := ret ∅; Routes.Routes.cancel_process := ret tt;
  Routes.Routes.MarshalTopology := λ _, Ok "{}"; Routes.Routes.MarshalIndent := λ _, Ok "{}";
  Routes.Routes.show_strings := String.concat " "; Routes.Routes.sort_strings := λ l, l;
|}.

Definition deposit : b_line :=
  mkLine "kar-debugger" "Account" "deposit" (Some "response") None None (Some "1") None None.
Definition sent_bytes : string := json_msg (b_sent "c1" deposit).

Lemma deposit_proper : proper_line deposit.
Proof. split; repeat constructor; done. Qed.

Lemma breakpoint_as_asked_witness :
  b_args deposit = ["kar-debugger"; "b"; "Account"; "deposit"; "-location"; "response"; "-actorId"; "1"] ∧
  ∃ s', serve_start (λ _, "") "u" 7%nat sent_bytes server0 = (Ok None, s') ∧ KarServer.sent s' = [sent_bytes].
Proof.
  split; [reflexivity|].
  destruct (breakpoint_as_asked (λ _, "") (λ _, "") "c1" deposit sent_bytes "u" 7%nat server0 "bk-1" deposit_proper)
    as (_ & (s' & E & Hs & _) & _).
  - vm_compute. reflexivity.
  - vm_compute. reflexivity.
  - exists s'. split; [exact E|exact Hs].
Defined.

Lemma verbosity_shifts_witness :
  index_str (getArgs "c" ["kd"; "-v"; "1"; "b"; "Account"; "deposit"] ["cmdName"] v_option help_flags 1) "cmdName" = "b" ∧
  ∃ msg, b_message (getArgs "c" ["kd"; "-v"; "1"; "b"; "Account"; "deposit"] ["actorType"; "path"] b_options ∅ 2) = Some msg ∧
    msg !! "actorType" = Some "1" ∧ msg !! "path" = Some "/b".
Proof.
  apply (verbosity_shifts_arguments "c" "kd" "1" "Account" "deposit"); repeat constructor; done.
Defined.

(** A client, whose world is what it sends and what it is still to receive. *)
#[local] Instance scripted : Conn (list string * list string) := {|
  dial := λ _ _, ret tt;
  sendDebugger := λ bytes w, (Ok tt, (w.1 ++ [bytes], w.2));
  recvDebugger := λ w, match w.2 with b :: bs => (Ok b, (w.1, bs)) | [] => (Err (EMsg "EOF"), w) end;
  new_uuid := ret "c1";
  Getenv := λ _, "";
|}.

#[local] Instance plain_client : ClientJson := {|
  un_msg := UnmarshalMsg;
  un_edges := λ _, [];
  un_breakpoint := λ _, None;
  un_breakpoints := λ _, None;
  un_request := λ _, None;
  un_pauses := λ s, if String.eqb s "paused" then Some (Some [no_pause]) else None;
  un_kafka := λ _, None;
  un_sidecars := λ _, ∅;
  un_actors := λ _, ∅;
  json_args := λ cmd args id, cmd +:+ ":" +:+ Join "," args;
|}.

Definition run (args answers : list string) :=
  processClient (λ v, match v with AString s => s | _ => "?" end) (λ _, "EOF") (λ l, l) 0 args
    (mkCworld ([], answers) []).

(** The message of the client is the one of the property, and its answer is shown. *)
Example client_sets_breakpoint :
  run (b_args deposit) [json_msg {["breakpointId" := "bk-9"]}] =
  (Ok tt, mkCworld ([sent_bytes], []) [Out ("Breakpoint bk-9 set." +:+ String "010" "")]).
Proof. vm_compute. reflexivity. Qed.

Example verbosity_spoils_unpause :
  (run ["kd"; "-v"; "1"; "d"; "bk-9"] []).2 =
  mkCworld ([json_msg (<["command" := "unsetBreakpoint"]> (<["commandId" := "c1"]> {["breakpointId" := "1"]}))], []) [].
Proof. vm_compute. reflexivity. Qed.
End Witness.
End KarClient.
