(* ===== verification/KarMain.v ===== *)
(** * KarMain: the debugger's program, its framing and its connection to Kafka

    Models the rest of src/core/cmd/kar-debugger/kar-debugger.go: [main], which starts
    the server or a client, the framing of messages between them by a null byte, the
    connection of the server to Kafka ([kafkaInit]) and the readers of partitions of
    [processReadKafka], whose messages [KarQuery] sums up. *)

From S2P Require Import Prelude GoLib Json Connect Deadlock KarServer KarQuery.
Import Connect.
Open Scope string_scope.
Open Scope Z_scope.
Open Scope list_scope.
Open Scope go_scope.

Module KarMain.
Import KarQuery(getArgs, genMsg_t, ConsumerMessage, Offset, handleMessage, loopMsgs, summary, kafkaReq_t).

(* ---------------------------------------------------------------------- *)
(** ** Framing *)

Definition NUL : Ascii.ascii := "000"%char.

(** What [sendDebugger] writes when the connection takes it whole. *)
Definition frame (msgBytes : string) : string := msgBytes +:+ String NUL "".

(** [ReadBytes(0)] on what the connection brings, without the delimiter: a message and
    what is left, or an error when it ends before a null byte. *)
Fixpoint recvDebugger (stream : string) : option (string * string) :=
  match stream with
  | "" => None
  | String c rest =>
      if Ascii.eqb c NUL then Some ("", rest)
      else match recvDebugger rest with
           | Some (msg, rest') => Some (String c msg, rest')
           | None => None
           end
  end.

(** The messages that a reader gets from a stream, one after the other. *)
Fixpoint recv_all (n : nat) (stream : string) : list string :=
  match n with
  | O => []
  | S n' => match recvDebugger stream with
            | Some (msg, rest) => msg :: recv_all n' rest
            | None => []
            end
  end.

Lemma recv_frame msg rest : has_char NUL msg = false → recvDebugger (frame msg +:+ rest) = Some (msg, rest).
Proof.
  unfold frame. induction msg as [|c msg IH]; [done|]. cbn. intros N.
  apply orb_false_iff in N as [Nc Nm]. apply bool_decide_eq_false in Nc.
  change ((String c msg +:+ String NUL "") +:+ rest) with (String c ((msg +:+ String NUL "") +:+ rest)).
  cbn. destruct (Ascii.eqb_spec c NUL); [done|]. by rewrite IH.
Qed.

(** A message that holds a null byte is cut there, and the rest of it is taken for the
    next one. *)
Lemma recv_cut a b rest : has_char NUL a = false →
  recvDebugger (frame (a +:+ String NUL b) +:+ rest) = Some (a, frame b +:+ rest).
Proof.
  intros N. replace (frame (a +:+ String NUL b) +:+ rest) with (frame a +:+ (frame b +:+ rest)); [by apply recv_frame|].
  unfold frame. by rewrite !append_assoc.
Qed.

(** Every message without a null byte arrives as it was sent, in order, and nothing
    is left over. *)
Lemma frames_roundtrip msgs rest : Forall (λ m, has_char NUL m = false) msgs →
  recv_all (length msgs) (foldr (λ m s, frame m +:+ s) rest msgs) = msgs.
Proof.
  induction 1 as [|m msgs N _ IH]; [done|]. cbn. rewrite recv_frame by done. by rewrite IH.
Qed.

(* ---------------------------------------------------------------------- *)
(** ** The connection of a client *)

Section connection.
Context `{KarServer.ServerJson, KarServer.PauseIter, MapIter, Deadlock.EdgeIter, Json}.
Context (readKafka : gmap string string → string) (fuel : nat) (uuid : string).
(** What the listener does until it wakes a client that waits for its report. *)
Context (listener : M KarServer.server unit).

(** The handling of one message. *)
Definition serve_message (conn : nat) (msgBytes : string) : M KarServer.server unit :=
  let* report := KarServer.serve_start readKafka uuid conn msgBytes in
  match report with
  | Some _ => listener ;;* KarServer.serve_finish fuel conn msgBytes
  | None => ret tt
  end.

(** A message that the server understands, and one after which it reads the next. *)
Definition understood (msgBytes : string) : bool :=
  let msg := KarServer.as_msg msgBytes in
  bool_decide (is_Some (msg !! "commandId")) && bool_decide (is_Some (msg !! "command")).

Definition keeps_alive (msgBytes : string) : bool :=
  bool_decide (is_Some (KarServer.as_msg msgBytes !! "keepAlive")).

(** [serveDebugger]: [n] bounds the messages that are read. *)
Fixpoint serveDebugger (n : nat) (conn : nat) (stream : string) : M KarServer.server unit :=
  match n with
  | O => of_res OutOfFuel
  | S n' =>
      match recvDebugger stream with
      | None => ret tt
      | Some (msgBytes, rest) =>
          if understood msgBytes then
            serve_message conn msgBytes ;;*
            if keeps_alive msgBytes then serveDebugger n' conn rest else ret tt
          else ret tt
      end
  end.

(** The messages of a connection are handled one after the other, up to the first that
    does not ask to keep it; what follows is not read. *)
Lemma messages_served conn msgs last rest n s :
  Forall (λ m, has_char NUL m = false ∧ understood m = true ∧ keeps_alive m = true) msgs →
  has_char NUL last = false → understood last = true → keeps_alive last = false → (length msgs < n)%nat →
  serveDebugger n conn (foldr (λ m str, frame m +:+ str) (frame last +:+ rest) msgs) s =
    foldr (λ m k, serve_message conn m ;;* k) (serve_message conn last ;;* ret tt) msgs s.
Proof.
  intros F N U A. revert n s. induction F as [|m msgs (Nm & Um & Am) _ IH]; intros [|n] s Hn; cbn in Hn; try lia.
  - cbn [foldr serveDebugger]. by rewrite recv_frame, U, A.
  - cbn [foldr serveDebugger]. rewrite recv_frame, Um, Am by done. unfold bind.
    destruct (serve_message conn m s) as [[] s1]; try done. apply IH. lia.
Qed.
End connection.

(* ---------------------------------------------------------------------- *)
(** ** Connecting to Kafka *)

(** The clients are nil until [kafkaInit] has made them. *)
Inductive kafka_state : Type :=
| NoClient
| KafkaErr (msg : string)
| KafkaReady (brokers : list string) (conf : sconf) (topic : string).

Section init.
Context {K : Type} `{SaramaOps K}.
Context (Getenv : string → string) (Error : gerror → string).
Context (NewConsumerFromClient : K → option gerror * K).

Definition or_default (s d : string) : string := if String.eqb s "" then d else s.

Definition bool_error (name tmp : string) : string :=
  "Error parsing " +:+ name +:+ " " +:+ String "034" "" +:+ tmp +:+ String "034" "" +:+ " as bool".

(** [strconv.ParseBool] of a variable that is set; the error, with the value 0. *)
Definition bool_var (name : string) (d : bool) : bool + string :=
  let tmp := Getenv name in
  if String.eqb tmp "" then inl d
  else match ParseBool tmp with Some b => inl b | None => inr (bool_error name tmp) end.

(** The second variable is assigned to [enableTLS] as well. *)
Definition tls_vars : (bool * bool) + string :=
  match bool_var "KAFKA_ENABLE_TLS" false with
  | inr e => inr e
  | inl enableTLS =>
      match bool_var "KAFKA_TLS_SKIP_VERIFY" enableTLS with
      | inr e => inr e
      | inl enableTLS' => inl (enableTLS', false)
      end
  end.

Definition debugger_conf (user password version : string) (enableTLS TLSSkipVerify : bool) : sconf :=
  let conf := set_version (ParseKafkaVersion version) NewConfig in
  let conf := if enableTLS then set_tls TLSSkipVerify conf else conf in
  if negb (String.eqb password "") then set_sasl user password conf else conf.

Definition kafkaInit (appName : string) (k : K) : kafka_state * K :=
  let brokersStr := Getenv "KAFKA_BROKERS" in
  if String.eqb brokersStr "" then
    (KafkaErr "At least one Kafka broker is required. Make sure to set the environment variable KAFKA_BROKERS.", k)
  else
    let brokers := Split "," brokersStr in
    let user := or_default (Getenv "KAFKA_USERNAME") "token" in
    let password := Getenv "KAFKA_PASSWORD" in
    let version := or_default (Getenv "KAFKA_VERSION") "2.8.1" in
    match tls_vars with
    | inr e => (KafkaErr e, k)
    | inl (enableTLS, TLSSkipVerify) =>
        let conf := debugger_conf user password version enableTLS TLSSkipVerify in
        match NewClient brokers conf k with
        | (Some err, k') => (KafkaErr ("Error making client: " +:+ Error err), k')
        | (None, k') =>
            match NewConsumerFromClient k' with
            | (Some err, k2) => (KafkaErr ("Error making consumer: " +:+ Error err), k2)
            | (None, k2) => (KafkaReady brokers conf ("kar_" +:+ appName), k2)
            end
        end
    end.

(** What a sidecar that is configured by the same environment alone is given by its
    configuration ([Config]). *)
Definition sidecar_config (enableTLS skip : bool) : Config :=
  mkConfig (or_default (Getenv "KAFKA_VERSION") "2.8.1") (Split "," (Getenv "KAFKA_BROKERS"))
    (or_default (Getenv "KAFKA_USERNAME") "token") (Getenv "KAFKA_PASSWORD") enableTLS skip ∅ 0 false.

(** The debugger connects as a sidecar of the same environment does, unless
    KAFKA_TLS_SKIP_VERIFY is set: then the verification is never skipped, and TLS is
    on or off as this variable says. *)
Lemma kafkaInit_conf appName k brokers conf topic k' enable skip :
  bool_var "KAFKA_ENABLE_TLS" false = inl enable → bool_var "KAFKA_TLS_SKIP_VERIFY" false = inl skip →
  kafkaInit appName k = (KafkaReady brokers conf topic, k') →
  topic = "kar_" +:+ appName ∧ brokers = Brokers (sidecar_config enable skip) ∧
  set_successes conf =
    configureClient (sidecar_config (if String.eqb (Getenv "KAFKA_TLS_SKIP_VERIFY") "" then enable else skip) false).
Proof.
  unfold kafkaInit, tls_vars. intros E S. rewrite E.
  assert (S' : bool_var "KAFKA_TLS_SKIP_VERIFY" enable =
    inl (if String.eqb (Getenv "KAFKA_TLS_SKIP_VERIFY") "" then enable else skip)).
  { unfold bool_var in S |- *. destruct (String.eqb (Getenv "KAFKA_TLS_SKIP_VERIFY") ""); [done|].
    by destruct (ParseBool (Getenv "KAFKA_TLS_SKIP_VERIFY")); simplify_eq. }
  rewrite S'. destruct (String.eqb (Getenv "KAFKA_BROKERS") ""); [done|].
  destruct (NewClient _ _ k) as [[err|] k1]; [done|]. destruct (NewConsumerFromClient k1) as [[err|] k2]; [done|].
  intros [= <- <- <- <-]. split_and!; [done|done|].
  unfold debugger_conf, configureClient, sidecar_config. cbn.
  destruct (if String.eqb (Getenv "KAFKA_TLS_SKIP_VERIFY") "" then enable else skip);
    destruct (String.eqb (Getenv "KAFKA_PASSWORD") ""); done.
Qed.
End init.

(* ---------------------------------------------------------------------- *)
(** ** The readers of processReadKafka *)

Section readers.
Context `{Json}.
(** The oldest offset of a partition, whose error is ignored; a reader of a partition:
    its high watermark and the messages that it delivers from an offset on, or nil. *)
Context (Partitions : string → list Z + gerror) (GetOffset : string → Z → Z).
Context (ConsumePartition : string → Z → Z → option (Z * list ConsumerMessage)).

(** The readers of the partitions that are not empty. *)
Definition open_readers (topic : string) (partitions : list Z) : list (Z * list ConsumerMessage) :=
  omap (λ p, let oldest := GetOffset topic p in
             match ConsumePartition topic p oldest with
             | Some (hwo, msgs) => if hwo =? oldest then None else Some (hwo, msgs)
             | None => None
             end) partitions.

(** The messages of each partition; the function waits for all readers. *)
Definition read_partitions (st : kafka_state) : res (list (list genMsg_t)) :=
  match st with
  | NoClient => Panic "invalid memory address or nil pointer dereference"
  | KafkaErr msg => Err (EMsg msg)
  | KafkaReady _ _ topic =>
      match Partitions topic with
      | inr err => Err err
      | inl partitions => map_res (λ r, loopMsgs r.1 r.2) (open_readers topic partitions)
      end
  end.

(** The messages up to the first whose offset is the last before the watermark. *)
Fixpoint until_watermark (hwo : Z) (msgs : list ConsumerMessage) : list ConsumerMessage :=
  match msgs with
  | [] => []
  | msg :: msgs' => if Offset msg =? hwo - 1 then [msg] else msg :: until_watermark hwo msgs'
  end.

Lemma loopMsgs_ends hwo msgs : (∃ m, m ∈ msgs ∧ Offset m = hwo - 1) →
  loopMsgs hwo msgs = Ok (handleMessage <$> until_watermark hwo msgs).
Proof.
  intros (m & Hm & Ho). induction msgs as [|x msgs IH]; [by apply not_elem_of_nil in Hm|]. cbn.
  destruct (Z.eqb_spec (Offset x) (hwo - 1)); [done|]. apply elem_of_cons in Hm as [->|Hm]; [done|].
  by rewrite (IH Hm).
Qed.

(** Reading ends when every partition delivers the record before its watermark, and
    then every record up to it is handled; it waits for ever, with the lock of Kafka
    held, when one does not. *)
Lemma read_partitions_ends brokers conf topic partitions : Partitions topic = inl partitions →
  (∀ r, r ∈ open_readers topic partitions → ∃ m, m ∈ r.2 ∧ Offset m = r.1 - 1) →
  read_partitions (KafkaReady brokers conf topic) =
    Ok ((λ r, handleMessage <$> until_watermark r.1 r.2) <$> open_readers topic partitions).
Proof.
  intros P D. cbn. rewrite P. apply map_res_Ok. intros r Hr. by apply loopMsgs_ends, D.
Qed.

Lemma loopMsgs_waits hwo msgs : (∀ m, m ∈ msgs → Offset m ≠ hwo - 1) → loopMsgs hwo msgs = OutOfFuel.
Proof.
  induction msgs as [|x msgs IH]; [done|]. intros D. cbn. destruct (Z.eqb_spec (Offset x) (hwo - 1)) as [E|].
  - by destruct (D x ltac:(by left)).
  - rewrite IH; [done|]. intros m Hm. apply D. by right.
Qed.
End readers.

(* ---------------------------------------------------------------------- *)
(** ** main *)

(** The connections of the process. *)
Class MainOps (W : Type) : Type := {
  ws_Dial : string → string → W → option gerror * W;
  ws_Write : string → W → option gerror * W;
  Listen : string → W → option gerror * W;
}.

(** How [main] ends, or goes on: a client's command, or the server accepting clients on
    a port. *)
Inductive started : Type :=
| HelpShown
| ServerUsage
| StartFailed (what : string) (err : gerror)
| Client
| Serving (serverPort : string).

Section main.
Context {W : Type} `{MainOps W} `{KarServer.ServerJson}.
Context (Getenv : string → string).

(** [verbose, _ = strconv.Atoi(...)] *)
Definition verbose_of (myArgs : gmap string string) : Z := (Atoi (index_str myArgs "verbose")).1.

Definition registerUrl (karHost karPort : string) : string :=
  "ws://" +:+ karHost +:+ ":" +:+ karPort +:+ "/kar/v1/debug/register".

(** The host and the port of the sidecar: both arguments, or the environment. *)
Definition sidecar_address (serverArgs : gmap string string) : option (string * string) :=
  match serverArgs !! "karHost", serverArgs !! "karPort" with
  | Some karHost, Some karPort => Some (karHost, karPort)
  | _, _ =>
      let karPort := Getenv "KAR_RUNTIME_PORT" in
      if negb (String.eqb karPort "") then Some ("localhost", karPort) else None
  end.

(** The listener of the sidecar is started after both messages, before the port is
    opened. *)
Definition start_server (debuggerId : string) (serverArgs : gmap string string) (w : W) : started * W :=
  match sidecar_address serverArgs with
  | None => (ServerUsage, w)
  | Some (karHost, karPort) =>
      match ws_Dial (registerUrl karHost karPort) debuggerId w with
      | (Some err, w1) => (StartFailed "Error connecting to KAR sidecar" err, w1)
      | (None, w1) =>
          match ws_Write (KarServer.json_msg {["command" := "listBreakpoints"]}) w1 with
          | (Some err, w2) => (StartFailed "Error getting breakpoints from KAR sidecar" err, w2)
          | (None, w2) =>
              match ws_Write (KarServer.json_msg {["command" := "listPausedActors"]}) w2 with
              | (Some err, w3) => (StartFailed "Error getting paused actors from KAR sidecar" err, w3)
              | (None, w3) =>
                  let serverPort := or_default (index_str serverArgs "serverPort") "5364" in
                  match Listen serverPort w3 with
                  | (Some err, w4) => (StartFailed "Error listening as debugger server" err, w4)
                  | (None, w4) => (Serving serverPort, w4)
                  end
              end
          end
      end
  end.

Definition main_flags : gmap string string := <["-h" := "help"]> {["-help" := ""]}.

(** [ids] are the identifiers that [getArgs] and the server make. *)
Definition main (ids : nat → string) (os_args : list string) (w : W) : started * W :=
  if bool_decide (length os_args = 1%nat) then (HelpShown, w)
  else
    let myArgs := getArgs (ids 0%nat) os_args ["cmdName"] {["-v" := "verbose"]} main_flags 1 in
    if String.eqb (index_str myArgs "cmdName") "server" then
      start_server (ids 1%nat) (getArgs (ids 2%nat) os_args ["karHost"; "karPort"] {["-serverPort" := ""]} ∅ 2) w
    else (Client, w).
End main.

(* ---------------------------------------------------------------------- *)
(** ** Runs *)

Module Witness.

(** The connections of a run: what was done, latest first. *)
#[local] Instance Log : MainOps (list string) := {|
  ws_Dial := λ url id w, (None, ("dial " +:+ url) :: w);
  ws_Write := λ msg w, (None, ("write " +:+ msg) :: w);
  Listen := λ port w, (None, ("listen " +:+ port) :: w);
|}.

Definition text (m : gmap string string) : string := default "" (m !! "command").

Section server.
Context `{KarServer.ServerJson}.

(** The server asks for breakpoints and paused actors before it listens. *)
Example server_starts :
  main (λ _, "PORT") (λ _, "id") ["kar-debugger"; "server"; "host"; "3500"; "-serverPort"; "7000"] [] =
    (Serving "7000",
     ["listen 7000"; "write " +:+ KarServer.json_msg {["command" := "listPausedActors"]};
      "write " +:+ KarServer.json_msg {["command" := "listBreakpoints"]};
      "dial ws://host:3500/kar/v1/debug/register"]).
Proof. by vm_compute. Qed.

(** One argument only: the environment gives both. *)
Example server_environment :
  main (λ _, "3501") (λ _, "id") ["kar-debugger"; "server"; "host"] [] =
    (Serving "5364",
     ["listen 5364"; "write " +:+ KarServer.json_msg {["command" := "listPausedActors"]};
      "write " +:+ KarServer.json_msg {["command" := "listBreakpoints"]};
      "dial ws://localhost:3501/kar/v1/debug/register"]).
Proof. by vm_compute. Qed.

(** A global option before the command makes it an argument of the server. *)
Example verbosity_shifts_server :
  sidecar_address (λ _, "") (getArgs "id" ["kar-debugger"; "-v"; "2"; "server"; "host"; "3500"] ["karHost"; "karPort"]
    {["-serverPort" := ""]} ∅ 2) = Some ("2", "server").
Proof. by vm_compute. Qed.
End server.

(** With a message of a client before the name of the application is known, the server
    uses clients that are nil. *)
Example too_early `{Json} parts offset consume : read_partitions parts offset consume NoClient =
  Panic "invalid memory address or nil pointer dereference".
Proof. done. Qed.

Example frames_cut : recv_all 2 (frame ("a" +:+ String NUL "b")) = ["a"; "b"].
Proof. done. Qed.
End Witness.
End KarMain.
