(* ===== verification/Config.v ===== *)
(** * Config: the command line, the environment and the configuration directory

    Models src/core/internal/config/config.go: the flags of each command, their
    parsing (the flag package of the standard library), and the settings that
    follow from them, from environment variables, from files of the
    configuration directory and from defaults; and SetVerbosity of
    src/core/pkg/logger/logger.go.  The variables of the package are kept by name
    in one map per type.  The usage texts are left out; the parsing of durations,
    the file system and the decoding of certificates are the class [Host]. *)

From S2P Require Import Prelude GoLib.
Open Scope string_scope.
Open Scope Z_scope.
Open Scope list_scope.
Open Scope go_scope.

Module Config.

(* ---------------------------------------------------------------------- *)
(** ** Variables *)

(** The global variables of the package, by name and type. *)
Record vars : Type := mkVars {
  strs : gmap string string;
  ints : gmap string Z;            (** int and time.Duration *)
  bools : gmap string bool;
  lists : gmap string (list string);
  topicConfig : gmap string string;
}.

#[export] Instance vars_eq_dec : EqDecision vars.
Proof. solve_decision. Defined.

Definition getS (v : vars) (x : string) : string := default "" (strs v !! x).
Definition getI (v : vars) (x : string) : Z := default 0 (ints v !! x).
Definition getB (v : vars) (x : string) : bool := default false (bools v !! x).

Definition getL (v : vars) (x : string) : list string := default [] (lists v !! x).

Definition setS (x s : string) (v : vars) : vars :=
  mkVars (<[x := s]> (strs v)) (ints v) (bools v) (lists v) (topicConfig v).
Definition setI (x : string) (n : Z) (v : vars) : vars :=
  mkVars (strs v) (<[x := n]> (ints v)) (bools v) (lists v) (topicConfig v).
Definition setB (x : string) (b : bool) (v : vars) : vars :=
  mkVars (strs v) (ints v) (<[x := b]> (bools v)) (lists v) (topicConfig v).
Definition setL (x : string) (l : list string) (v : vars) : vars :=
  mkVars (strs v) (ints v) (bools v) (<[x := l]> (lists v)) (topicConfig v).
Definition setT (k s : string) (v : vars) : vars :=
  mkVars (strs v) (ints v) (bools v) (lists v) (<[k := s]> (topicConfig v)).

(** The variables before [init]. *)
Definition vars0 : vars :=
  mkVars ∅ ∅ ∅ ∅ (<["retention.ms" := "900000"]> {["segment.ms" := "300000"]}).

Ltac by_lookup x y :=
  simpl; destruct (String.eqb_spec x y) as [->|]; [by rewrite lookup_insert_eq|by rewrite lookup_insert_ne].

Lemma getS_setS x s v y : getS (setS x s v) y = if String.eqb x y then s else getS v y.
Proof. unfold getS. by_lookup x y. Qed.
Lemma getI_setI x n v y : getI (setI x n v) y = if String.eqb x y then n else getI v y.
Proof. unfold getI. by_lookup x y. Qed.
Lemma getB_setB x b v y : getB (setB x b v) y = if String.eqb x y then b else getB v y.
Proof. unfold getB. by_lookup x y. Qed.
Lemma getL_setL x l v y : getL (setL x l v) y = if String.eqb x y then l else getL v y.
Proof. unfold getL. by_lookup x y. Qed.

(** An assignment leaves the variables of the other types. *)
Lemma getS_setI x a v y : getS (setI x a v) y = getS v y.
Proof. done. Qed.
Lemma getS_setB x a v y : getS (setB x a v) y = getS v y.
Proof. done. Qed.
Lemma getS_setL x a v y : getS (setL x a v) y = getS v y.
Proof. done. Qed.
Lemma getI_setS x a v y : getI (setS x a v) y = getI v y.
Proof. done. Qed.
Lemma getI_setB x a v y : getI (setB x a v) y = getI v y.
Proof. done. Qed.
Lemma getI_setL x a v y : getI (setL x a v) y = getI v y.
Proof. done. Qed.
Lemma getB_setS x a v y : getB (setS x a v) y = getB v y.
Proof. done. Qed.
Lemma getB_setI x a v y : getB (setI x a v) y = getB v y.
Proof. done. Qed.
Lemma getB_setL x a v y : getB (setL x a v) y = getB v y.
Proof. done. Qed.
Lemma getL_setS x a v y : getL (setS x a v) y = getL v y.
Proof. done. Qed.
Lemma getL_setI x a v y : getL (setI x a v) y = getL v y.
Proof. done. Qed.
Lemma getL_setB x a v y : getL (setB x a v) y = getL v y.
Proof. done. Qed.

(** Read a variable after an assignment. *)
Ltac look :=
  repeat first
    [ progress match goal with
      | |- context [getS (setS ?x ?n ?v) ?y] => rewrite (getS_setS x n v y)
      | |- context [getI (setI ?x ?n ?v) ?y] => rewrite (getI_setI x n v y)
      | |- context [getB (setB ?x ?n ?v) ?y] => rewrite (getB_setB x n v y)
      | |- context [getL (setL ?x ?n ?v) ?y] => rewrite (getL_setL x n v y)
      | |- context [getS (setI ?x ?n ?v) ?y] => rewrite (getS_setI x n v y)
      | |- context [getS (setB ?x ?n ?v) ?y] => rewrite (getS_setB x n v y)
      | |- context [getS (setL ?x ?n ?v) ?y] => rewrite (getS_setL x n v y)
      | |- context [getI (setS ?x ?n ?v) ?y] => rewrite (getI_setS x n v y)
      | |- context [getI (setB ?x ?n ?v) ?y] => rewrite (getI_setB x n v y)
      | |- context [getI (setL ?x ?n ?v) ?y] => rewrite (getI_setL x n v y)
      | |- context [getB (setS ?x ?n ?v) ?y] => rewrite (getB_setS x n v y)
      | |- context [getB (setI ?x ?n ?v) ?y] => rewrite (getB_setI x n v y)
      | |- context [getB (setL ?x ?n ?v) ?y] => rewrite (getB_setL x n v y)
      | |- context [getL (setS ?x ?n ?v) ?y] => rewrite (getL_setS x n v y)
      | |- context [getL (setI ?x ?n ?v) ?y] => rewrite (getL_setI x n v y)
      | |- context [getL (setB ?x ?n ?v) ?y] => rewrite (getL_setB x n v y)
      end ];
  cbn [String.eqb Ascii.eqb Bool.eqb].

(* ---------------------------------------------------------------------- *)
(** ** Flags *)

(** A flag: the variable it sets, with its default. *)
Inductive flag : Type :=
| StringVar (x value : string)
| IntVar (x : string) (value : Z)
| DurationVar (x : string) (value : Z)
| BoolVar (x : string) (value : bool)
| FuncVar.     (** [kafka_topic_config] *)

Definition is_bool (f : flag) : bool := match f with BoolVar _ _ => true | _ => false end.

Definition set_default (f : flag) (v : vars) : vars :=
  match f with
  | StringVar x s => setS x s v
  | IntVar x n | DurationVar x n => setI x n v
  | BoolVar x b => setB x b v
  | FuncVar => v
  end.

Definition Second : Z := 1000000000.
Definition Millisecond : Z := 1000000.
Definition Minute : Z := 60 * Second.

(** define the flags available on all commands *)
Definition globalOptions : list (string * flag) := [
  ("app", StringVar "AppName" "");
  ("kafka_brokers", StringVar "kafkaBrokers" "");
  ("kafka_enable_tls", BoolVar "KafkaConfig.EnableTLS" false);
  ("kafka_username", StringVar "KafkaConfig.User" "");
  ("kafka_password", StringVar "KafkaConfig.Password" "");
  ("kafka_version", StringVar "KafkaConfig.Version" "");
  ("kafka_tls_skip_verify", BoolVar "KafkaConfig.TLSSkipVerify" false);
  ("debug", BoolVar "IsDebugMode" false);
  ("kafka_topic_config", FuncVar);
  ("redis_host", StringVar "RedisConfig.Host" "");
  ("redis_port", IntVar "RedisConfig.Port" 0);
  ("redis_enable_tls", BoolVar "RedisConfig.EnableTLS" false);
  ("redis_password", StringVar "RedisConfig.Password" "");
  ("redis_user", StringVar "RedisConfig.User" "");
  ("redis_tls_skip_verify", BoolVar "RedisConfig.TLSSkipVerify" false);
  ("redis_ca_cert", StringVar "redisCABase64" "");
  ("request_retry_limit", DurationVar "RequestRetryLimit" (-1 * Second));
  ("redis_slow_op_threshold", DurationVar "RedisConfig.LongOperation" (1 * Second));
  ("v", StringVar "verbosity" "error");
  ("config_dir", StringVar "configDir" "");
  ("placement_cache", BoolVar "placementCache" true)].

(** The options of each command; [None] for a command that only prints. *)
Definition commandOptions (CmdName : string) : option (list (string * flag)) :=
  if String.eqb CmdName "run" then Some [
    ("service", StringVar "ServiceName" "");
    ("actors", StringVar "actorTypes" "");
    ("actor_collector_interval", DurationVar "ActorCollectorInterval" (10 * Second));
    ("actor_reminder_interval", DurationVar "ActorReminderInterval" (100 * Millisecond));
    ("actor_reminder_acceptable_delay", DurationVar "ActorReminderAcceptableDelay" (3 * Second));
    ("app_port", IntVar "AppPort" 8080);
    ("runtime_port", IntVar "RuntimePort" 0);
    ("sidecar_mode", BoolVar "SidecarMode" false);
    ("kubernetes_mode", BoolVar "KubernetesMode" false);
    ("h2c", BoolVar "H2C" false);
    ("hostname", StringVar "Hostname" "localhost");
    ("actor_busy_timeout", DurationVar "KafkaConfig.SessionBusyTimeout" (2 * Minute));
    ("missing_component_timeout", DurationVar "MissingComponentTimeout" (2 * Minute));
    ("cancel", BoolVar "KafkaConfig.Cancellation" false)]
  else if String.eqb CmdName "get" then Some [
    ("s", StringVar "GetSystemComponent" "actors");
    ("mr", BoolVar "GetResidentOnly" false);
    ("t", StringVar "GetActorType" "");
    ("i", StringVar "GetActorInstanceID" "");
    ("o", StringVar "GetOutputStyle" "")]
  else if String.eqb CmdName "invoke" then Some [
    ("actor_busy_timeout", DurationVar "KafkaConfig.SessionBusyTimeout" (2 * Minute));
    ("missing_component_timeout", DurationVar "MissingComponentTimeout" (2 * Minute))]
  else if String.eqb CmdName "rest" then Some [
    ("content_type", StringVar "RestBodyContentType" "application/json");
    ("missing_component_timeout", DurationVar "MissingComponentTimeout" (2 * Minute))]
  else if String.eqb CmdName "purge" || String.eqb CmdName "drain" then Some []
  else None.

Definition help_flags : list (string * flag) := [("help", BoolVar "help" false); ("h", BoolVar "help" false)].

Definition flags_of (cmd : list (string * flag)) : gmap string flag :=
  list_to_map (cmd ++ help_flags ++ globalOptions).

(** Defining the flags sets their variables to the defaults. *)
Definition defaults (cmd : list (string * flag)) (v : vars) : vars :=
  foldl (λ v f, set_default f.2 v) v (cmd ++ help_flags ++ globalOptions).

(* ---------------------------------------------------------------------- *)
(** ** The flag package *)

(** What the process reads: durations ([time.ParseDuration]), environment
    variables (empty when not set), files of a directory, and certificates; the
    decoder of PEM finds no block in some texts. *)
Class Host : Type := {
  ParseDuration : string → option Z;
  Getenv : string → string;
  ReadFile : string → string → option string;
  base64_Decode : string → option string;
  pem_Decode : string → option string;
  ParseCertificate : string → option string;
}.

(** How the process ends before [init] does: [os.Exit], or [logger.Fatal]. *)
Inductive stop : Type := Exit (status : Z) | Fatal (msg : string) | Crash (msg : string).

Section host.
Context `{Host}.

(** [k1=v1,k2=v2,...] *)
Fixpoint topic_config (xs : list string) (v : vars) : option vars :=
  match xs with
  | [] => Some v
  | x :: xs' =>
      match Split "=" x with
      | [k; s] => topic_config xs' (setT k s v)
      | _ => None
      end
  end.

(** [Value.Set] of a flag: [None] is an error. *)
Definition set_flag (f : flag) (value : string) (v : vars) : option vars :=
  match f with
  | StringVar x _ => Some (setS x value v)
  | IntVar x _ => match ParseInt0 64 value with (n, None) => Some (setI x n v) | _ => None end
  | DurationVar x _ => match ParseDuration value with Some d => Some (setI x d v) | None => None end
  | BoolVar x _ => match ParseBool value with Some b => Some (setB x b v) | None => None end
  | FuncVar => topic_config (Split "," value) v
  end.

(** The name and the value in an argument that is a flag; [Some None] ends the
    flags. *)
Definition flag_name (s : string) : option (option string) :=
  match s with
  | String "-" (String "-" EmptyString) => Some None
  | String "-" (String "-" name) => Some (Some name)
  | String "-" (String c name) => Some (Some (String c name))
  | _ => None
  end.

(** [name=value] *)
Fixpoint split_value (s : string) : string * option string :=
  match s with
  | EmptyString => (EmptyString, None)
  | String c s' =>
      if Ascii.eqb c "=" then (EmptyString, Some s')
      else let '(name, value) := split_value s' in (String c name, value)
  end.

(** [FlagSet.Parse]: the variables and the arguments that are left; an error ends
    the process with status 2. *)
Fixpoint parse_flags (flags : gmap string flag) (args : list string) (v : vars)
    : (vars * list string) + stop :=
  match args with
  | [] => inl (v, args)
  | s :: rest =>
      match flag_name s with
      | None => inl (v, args)
      | Some None => inl (v, rest)
      | Some (Some text) =>
          if HasPrefix text "-" || HasPrefix text "=" then inr (Exit 2)
          else
            let '(name, value) := split_value text in
            match flags !! name with
            | None => inr (Exit 2)
            | Some f =>
                if is_bool f then
                  match set_flag f (default "true" value) v with
                  | Some v' => parse_flags flags rest v'
                  | None => inr (Exit 2)
                  end
                else match value, rest with
                | Some x, _ =>
                    match set_flag f x v with
                    | Some v' => parse_flags flags rest v'
                    | None => inr (Exit 2)
                    end
                | None, x :: rest' =>
                    match set_flag f x v with
                    | Some v' => parse_flags flags rest' v'
                    | None => inr (Exit 2)
                    end
                | None, [] => inr (Exit 2)
                end
            end
      end
  end.

(* ---------------------------------------------------------------------- *)
(** ** Settings *)

(** src/core/pkg/logger/logger.go *)
Definition severity : list string := ["FATAL"; "ERROR"; "WARNING"; "INFO"; "DEBUG"].

Definition SetVerbosity (s : string) (v : vars) : vars :=
  let s := ToUpper s in
  match list_find (s =.) severity with
  | Some (i, _) => setI "logger.verbosity" (Z.of_nat i) v
  | None =>
      match Atoi s with
      | (n, None) => setI "logger.verbosity" n v
      | _ => v
      end
  end.

(** The levels, and the functions that print a message when the verbosity reaches
    theirs; [Sprintf] formats it, the output is a list of lines. *)
Definition fatalLog : Z := 0.
Definition errorLog : Z := 1.
Definition warningLog : Z := 2.
Definition infoLog : Z := 3.
Definition debugLog : Z := 4.

Section logger.
Context {A : Type} (Sprintf : string → list A → string).

Definition log_Printf (format : string) (args : list A) (out : list string) : list string :=
  (out ++ [Sprintf format args])%list.

Definition log_Debug (format : string) (args : list A) (v : vars) (out : list string) : list string :=
  if debugLog <=? getI v "logger.verbosity" then log_Printf ("[DEBUG] " +:+ format) args out else out.
Definition log_Info (format : string) (args : list A) (v : vars) (out : list string) : list string :=
  if infoLog <=? getI v "logger.verbosity" then log_Printf ("[INFO] " +:+ format) args out else out.
Definition log_Warning (format : string) (args : list A) (v : vars) (out : list string) : list string :=
  if warningLog <=? getI v "logger.verbosity" then log_Printf ("[WARNING] " +:+ format) args out else out.
Definition log_Error (format : string) (args : list A) (v : vars) (out : list string) : list string :=
  if errorLog <=? getI v "logger.verbosity" then log_Printf ("[ERROR] " +:+ format) args out else out.

(** The message is always printed, and the process exits with status 1. *)
Definition log_Fatal (format : string) (args : list A) (out : list string) : list string * stop :=
  (log_Printf ("[FATAL] " +:+ format) args out, Exit 1).

(** With the verbosity of a name, in whatever case, the levels of the names up to it
    are printed. *)
Lemma verbosity_levels name i v format args out : severity !! i = Some (ToUpper name) →
  let v' := SetVerbosity name v in
  (log_Error format args v' out ≠ out ↔ (1 ≤ i)%nat) ∧ (log_Warning format args v' out ≠ out ↔ (2 ≤ i)%nat) ∧
  (log_Info format args v' out ≠ out ↔ (3 ≤ i)%nat) ∧ (log_Debug format args v' out ≠ out ↔ (4 ≤ i)%nat).
Proof.
  intros E.
  assert (P : ∀ f, log_Printf f args out ≠ out).
  { intros f Eq. apply (f_equal length) in Eq. unfold log_Printf in Eq. rewrite length_app in Eq. cbn in Eq. lia. }
  assert (V : getI (SetVerbosity name v) "logger.verbosity" = Z.of_nat i).
  { unfold SetVerbosity. do 5 (destruct i as [|i]; [apply (inj Some) in E; rewrite <-E; etrans; [apply getI_setI|done]|]). done. }
  unfold log_Error, log_Warning, log_Info, log_Debug. cbn zeta. rewrite !V.
  split_and!; match goal with |- context [?a <=? ?b] => destruct (Z.leb_spec a b) as [L|L] end;
    unfold errorLog, warningLog, infoLog, debugLog in L; (split; [intros ?|intros ?]); try apply P; try lia; done.
Qed.
End logger.

Definition loadStringFromConfig (path file : string) : string :=
  if String.eqb path "" then "" else default "" (ReadFile path file).

(** The environment variable [e], or else the file [f] of the configuration. *)
Definition from_host (v : vars) (e f : string) : string :=
  if String.eqb (Getenv e) "" then loadStringFromConfig (getS v "configDir") f else Getenv e.

Inductive fallback : Type := Required (msg : string) | Otherwise (s : string) | Optional.

Definition string_setting (x e f : string) (d : fallback) : M vars unit :=
  let* v := get in
  if String.eqb (getS v x) "" then
    let s := from_host v e f in
    if String.eqb s "" then
      match d with
      | Required msg => throw (EMsg msg)
      | Otherwise s' => modify (setS x s')
      | Optional => modify (setS x s)
      end
    else modify (setS x s)
  else ret tt.

Definition bool_setting (x e f msg : string) : M vars unit :=
  let* v := get in
  if getB v x then ret tt
  else
    let s := from_host v e f in
    if String.eqb s "" then ret tt
    else match ParseBool s with
         | Some b => modify (setB x b)
         | None => throw (EMsg msg)
         end.

Definition parse_int (x s msg : string) : M vars unit :=
  match Atoi s with
  | (n, None) => modify (setI x n)
  | _ => throw (EMsg msg)
  end.

(** [RuntimePort] and [AppPort]: the environment, when the flag has its default. *)
Definition port_setting (x : string) (d : Z) (e msg : string) : M vars unit :=
  let* v := get in
  if getI v x =? d then
    if String.eqb (Getenv e) "" then ret tt else parse_int x (Getenv e) msg
  else ret tt.

Definition redis_port : M vars unit :=
  let* v := get in
  if getI v "RedisConfig.Port" =? 0 then
    if negb (String.eqb (Getenv "REDIS_PORT") "") then
      parse_int "RedisConfig.Port" (Getenv "REDIS_PORT") "error parsing environment variable REDIS_PORT"
    else
      let rp := loadStringFromConfig (getS v "configDir") "redis_port" in
      if negb (String.eqb rp "") then
        parse_int "RedisConfig.Port" rp "error parsing config value for redis_port: %s"
      else modify (setI "RedisConfig.Port" 6379)
  else ret tt.

(** The certificate of Redis; the decoder of PEM returns nil for a text without a
    block, which is then dereferenced. *)
Definition redis_ca : M vars unit :=
  let* v := get in
  if String.eqb (getS v "redisCABase64") "" then ret tt
  else
    let failed := EMsg "error parsing Redis CA certificate: %v" in
    match base64_Decode (getS v "redisCABase64") with
    | None => throw failed
    | Some buf =>
        match pem_Decode buf with
        | None => of_res (Panic "invalid memory address or nil pointer dereference")
        | Some block =>
            match ParseCertificate block with
            | None => throw failed
            | Some cert => modify (setS "RedisConfig.CA" cert)
            end
        end
    end.

Definition split_list (s : string) : list string := if String.eqb s "" then [] else Split "," s.

(** What follows the parsing of the command line. *)
Definition settings (CmdName : string) (args : list string) : M vars unit :=
  modify (λ v, SetVerbosity (getS v "verbosity") v) ;;*
  let* v := get in
  (if String.eqb (getS v "AppName") "" then throw (EMsg "app name is required") else ret tt) ;;*
  (if String.eqb (getS v "ServiceName") "" then modify (setS "ServiceName" "kar.none") else ret tt) ;;*
  modify (λ v, setB "rpc.PlacementCache" (getB v "placementCache") v) ;;*
  modify (λ v, setL "ActorTypes" (split_list (getS v "actorTypes")) v) ;;*
  port_setting "RuntimePort" 0 "KAR_RUNTIME_PORT" "error parsing KAR_RUNTIME_PORT as an integer" ;;*
  port_setting "AppPort" 8080 "KAR_APP_PORT" "error parsing KAR_APP_PORT as an integer" ;;*
  bool_setting "KafkaConfig.EnableTLS" "KAFKA_ENABLE_TLS" "kafka_enable_tls"
    "error parsing KAFKA_ENABLE_TLS as boolean" ;;*
  string_setting "kafkaBrokers" "KAFKA_BROKERS" "kafka_brokers" (Required "at least one Kafka broker is required") ;;*
  modify (λ v, setL "KafkaConfig.Brokers" (Split "," (getS v "kafkaBrokers")) v) ;;*
  string_setting "KafkaConfig.User" "KAFKA_USERNAME" "kafka_username" (Otherwise "token") ;;*
  string_setting "KafkaConfig.Password" "KAFKA_PASSWORD" "kafka_password" Optional ;;*
  string_setting "KafkaConfig.Version" "KAFKA_VERSION" "kafka_version" (Otherwise "2.8.1") ;;*
  bool_setting "KafkaConfig.TLSSkipVerify" "KAFKA_TLS_SKIP_VERIFY" "kafka_tls_skip_verify"
    "error parsing KAFKA_TLS_SKIP_VERIFY as boolean" ;;*
  bool_setting "RedisConfig.EnableTLS" "REDIS_ENABLE_TLS" "redis_enable_tls"
    "error parsing REDIS_ENABLE_TLS as boolean" ;;*
  bool_setting "RedisConfig.TLSSkipVerify" "REDIS_TLS_SKIP_VERIFY" "redis_tls_skip_verify"
    "error parsing REDIS_TLS_SKIP_VERIFY as boolean" ;;*
  string_setting "RedisConfig.Host" "REDIS_HOST" "redis_host" (Required "Redis host is required") ;;*
  string_setting "redisCABase64" "REDIS_CA" "redis_ca" Optional ;;*
  redis_ca ;;*
  redis_port ;;*
  string_setting "RedisConfig.Password" "REDIS_PASSWORD" "redis_password" Optional ;;*
  string_setting "RedisConfig.User" "REDIS_USER" "redis_user" Optional ;;*
  (if String.eqb CmdName "invoke" && (length args <? 3)%nat
   then throw (EMsg "invoke expects at least three arguments") else ret tt) ;;*
  (if String.eqb CmdName "rest" && negb ((length args =? 3)%nat || (length args =? 4)%nat)
   then throw (EMsg "rest expects either three or four arguments; got %v") else ret tt) ;;*
  modify (λ v, setS "GetOutputStyle" (ToLower (getS v "GetOutputStyle")) v).

(** The commands that only print. *)
Definition prints : list string := ["version"; "-help"; "--help"; "-h"; "--h"; "help"].

Definition init (args : list string) : (vars * list string) + stop :=
  match args with
  | _ :: CmdName :: args' =>
      if bool_decide (CmdName ∈ prints) then inr (Exit 0)
      else match commandOptions CmdName with
      | None => inr (Exit 2)
      | Some cmd =>
          match parse_flags (flags_of cmd) args' (defaults cmd vars0) with
          | inr st => inr st
          | inl (v, rest) =>
              if getB v "help" then inr (Exit 0)
              else match settings CmdName rest v with
                   | (Ok tt, v') => inl (v', rest)
                   | (Err (EMsg msg), _) => inr (Fatal msg)
                   | (Err _, _) => inr (Fatal "")
                   | (Panic msg, _) => inr (Crash msg)
                   | (OutOfFuel, _) => inr (Crash "")
                   end
          end
      end
  | _ => inr (Exit 2)
  end.

(* ---------------------------------------------------------------------- *)
(** ** The command line *)

(** An option as it is written: [-name value], [-name=value] or [-name]. *)
Inductive opt : Type := Spaced (name value : string) | Equals (name value : string) | Plain (name : string).

Definition opt_name (o : opt) : string := match o with Spaced n _ | Equals n _ | Plain n => n end.
Definition opt_value (o : opt) : string := match o with Spaced _ x | Equals _ x => x | Plain _ => "true" end.

Definition render (o : opt) : list string :=
  match o with
  | Spaced n x => ["-" +:+ n; x]
  | Equals n x => ["-" +:+ n +:+ "=" +:+ x]
  | Plain n => ["-" +:+ n]
  end.

(** Only options without a boolean value take the next argument. *)
Definition written_for (flags : gmap string flag) (o : opt) : Prop :=
  ∃ f, flags !! opt_name o = Some f ∧
    match o with Spaced _ _ => is_bool f = false | Equals _ _ => True | Plain _ => is_bool f = true end.

Definition flag_word (n : string) : bool :=
  negb (String.eqb n "") && negb (HasPrefix n "-") && negb (has_char "=" n).

Fixpoint set_opts (flags : gmap string flag) (opts : list opt) (v : vars) : option vars :=
  match opts with
  | [] => Some v
  | o :: opts' =>
      match flags !! opt_name o with
      | Some f => match set_flag f (opt_value o) v with Some v' => set_opts flags opts' v' | None => None end
      | None => None
      end
  end.

Lemma split_value_none n : has_char "=" n = false → split_value n = (n, None).
Proof.
  induction n as [|c n IH]; [done|]. cbn [has_char split_value]. intros [E%bool_decide_eq_false ?]%orb_false_iff.
  rewrite IH by done. by destruct (Ascii.eqb_spec c "=").
Qed.

Lemma split_value_some n x : has_char "=" n = false → split_value (n +:+ "=" +:+ x) = (n, Some x).
Proof.
  induction n as [|c n IH]; [done|]. cbn [has_char]. intros [E%bool_decide_eq_false ?]%orb_false_iff.
  change (split_value (String c (n +:+ "=" +:+ x)) = (String c n, Some x)). cbn [split_value]. rewrite IH by done. by destruct (Ascii.eqb_spec c "=").
Qed.

Lemma HasPrefix_char c s d : HasPrefix (String c s) (String d "") = bool_decide (d = c).
Proof. cbn [HasPrefix]. destruct s; apply andb_true_r. Qed.

Lemma flag_word_text n s : flag_word n = true → flag_name ("-" +:+ n +:+ s) = Some (Some (n +:+ s)) ∧
  HasPrefix (n +:+ s) "-" = false ∧ HasPrefix (n +:+ s) "=" = false ∧ has_char "=" n = false.
Proof.
  unfold flag_word. rewrite !andb_true_iff, !negb_true_iff. intros ((Hn & Hp) & Hc).
  destruct n as [|c n]; [done|]. rewrite HasPrefix_char in Hp. pose proof Hc as Hc0.
  cbn [has_char] in Hc. apply orb_false_iff in Hc as [Hc _]. apply bool_decide_eq_false in Hp, Hc.
  change (String c n +:+ s) with (String c (n +:+ s)). rewrite !HasPrefix_char, !bool_decide_eq_false_2 by done.
  split_and!; [|done..]. clear Hc0 Hn. change ("-" +:+ String c (n +:+ s)) with (String "-" (String c (n +:+ s))). by destruct c as [[] [] [] [] [] [] [] []].
Qed.

(** Flags are parsed as they are written: the command line is the settings of its
    options, one after the other, and what follows them; the value of an option is
    the next word whatever it is; and the first value that does not parse ends the
    process with status 2. *)
Lemma parse_render flags opts rest v : Forall (written_for flags) opts → Forall (flag_word ∘ opt_name) opts →
  parse_flags flags (concat (render <$> opts) ++ rest) v =
    match set_opts flags opts v with Some v' => parse_flags flags rest v' | None => inr (Exit 2) end.
Proof.
  intros Hw Hn. revert v. induction Hw as [|o opts (f & Ef & Hf) Hw IH]; intros v; [done|].
  apply Forall_cons in Hn as [Ho%Is_true_true Hn]. specialize (IH Hn). simpl in Ho. cbn [fmap list_fmap concat].
  cbn [set_opts]. rewrite Ef.
  destruct o as [n x|n x|n]; cbn [opt_name opt_value] in *; cbn [render app parse_flags].
  - destruct (flag_word_text n "" Ho) as (E1 & E2 & E3 & E4). rewrite !append_empty_r in *.
    rewrite E1, E2, E3. cbn [orb]. rewrite split_value_none by done. rewrite Ef, Hf.
    destruct (set_flag f x v); [apply IH|done].
  - destruct (flag_word_text n ("=" +:+ x) Ho) as (E1 & E2 & E3 & E4). rewrite E1, E2, E3. cbn [orb].
    rewrite split_value_some by done. rewrite Ef. change (default "true" (Some x)) with x. destruct (is_bool f), (set_flag f x v); first [apply IH|done].
  - destruct (flag_word_text n "" Ho) as (E1 & E2 & E3 & E4). rewrite !append_empty_r in *.
    rewrite E1, E2, E3. cbn [orb]. rewrite split_value_none by done. rewrite Ef, Hf. change (default "true" None) with "true".
    destruct (set_flag f "true" v); [apply IH|done].
Qed.

(* ---------------------------------------------------------------------- *)
(** ** Where settings come from *)

(** The first text that is not empty. *)
Definition first_text (l : list string) : string := default "" (head (filter (λ s, s ≠ "") l)).

(** A flag, or else the environment, or else the directory, or else a default. *)
Definition chosen (v : vars) (x e f d : string) : string :=
  first_text [getS v x; Getenv e; loadStringFromConfig (getS v "configDir") f; d].

(** The same for a boolean, which a flag can only switch on. *)
Definition enabled (v : vars) (x e f : string) : bool :=
  getB v x || default false (ParseBool (first_text [Getenv e; loadStringFromConfig (getS v "configDir") f])).

Definition number (s : string) : Z := (Atoi s).1.

(** A port, which the environment gives when the flag has its default. *)
Definition port (v : vars) (x : string) (d : Z) (e : string) : Z :=
  if (getI v x =? d) && negb (String.eqb (Getenv e) "") then number (Getenv e) else getI v x.

(** Settings that read alike. *)
Record agree (v w : vars) : Prop := {
  agree_S : ∀ x, getS v x = getS w x;
  agree_I : ∀ x, getI v x = getI w x;
  agree_B : ∀ x, getB v x = getB w x;
  agree_L : ∀ x, getL v x = getL w x;
}.

#[local] Instance agree_refl : Reflexive agree.
Proof. by split. Qed.

(** Assigning a variable what it holds. *)
Lemma setS_id x v : agree v (setS x (getS v x) v).
Proof. split; intros y; [|done..]. rewrite getS_setS. by destruct (String.eqb_spec x y) as [->|]. Qed.
Lemma setI_id x v : agree v (setI x (getI v x) v).
Proof. split; intros y; [done| |done..]. rewrite getI_setI. by destruct (String.eqb_spec x y) as [->|]. Qed.
Lemma setB_id x v : agree v (setB x (getB v x) v).
Proof. split; intros y; [done|done| |done]. rewrite getB_setB. by destruct (String.eqb_spec x y) as [->|]. Qed.

Lemma first_text_cons s l : first_text (s :: l) = if String.eqb s "" then first_text l else s.
Proof. unfold first_text. rewrite filter_cons. destruct (String.eqb_spec s ""); by case_decide. Qed.

Lemma from_host_text v e f : from_host v e f = first_text [Getenv e; loadStringFromConfig (getS v "configDir") f].
Proof.
  unfold from_host. rewrite !first_text_cons. destruct (String.eqb_spec (Getenv e) ""); [|done].
  by destruct (String.eqb_spec (loadStringFromConfig (getS v "configDir") f) "").
Qed.

Definition fallback_text (d : fallback) : string := match d with Otherwise s => s | _ => "" end.

Lemma string_setting_ok x e f d v u v' : string_setting x e f d v = (Ok u, v') →
  agree v' (setS x (chosen v x e f (fallback_text d)) v) ∧
  match d with Required _ => chosen v x e f "" ≠ "" | _ => True end.
Proof.
  unfold string_setting, chosen, bind, get, modify, ret, throw. rewrite from_host_text, !first_text_cons.
  destruct (String.eqb_spec (getS v x) "") as [Ex|Ex].
  2:{ intros [= _ <-]. split; [apply setS_id|by destruct d]. }
  destruct (String.eqb_spec (Getenv e) "") as [Ee|Ee].
  2:{ destruct (String.eqb_spec (Getenv e) ""); [done|]. intros [= _ <-]. split; [done|by destruct d]. }
  destruct (String.eqb_spec (loadStringFromConfig (getS v "configDir") f) "") as [El|El].
  - change (first_text []) with "". destruct d; [done|..]; intros [= _ <-]; simpl; split; try done.
    destruct (String.eqb_spec s "") as [->|]; done.
  - destruct (String.eqb_spec (loadStringFromConfig (getS v "configDir") f) ""); [done|].
    intros [= _ <-]. split; [done|by destruct d].
Qed.

Lemma bool_setting_ok x e f msg v u v' : bool_setting x e f msg v = (Ok u, v') →
  agree v' (setB x (enabled v x e f) v).
Proof.
  unfold bool_setting, enabled, bind, get, modify, ret, throw. rewrite from_host_text.
  destruct (getB v x) eqn:Ex; [intros [= _ <-]; rewrite orb_true_l, <-Ex; apply setB_id|]. rewrite orb_false_l.
  destruct (String.eqb_spec (first_text [Getenv e; loadStringFromConfig (getS v "configDir") f]) "") as [->|].
  - intros [= _ <-]. change (default false (ParseBool "")) with false. rewrite <-Ex. apply setB_id.
  - destruct (ParseBool _) as [b|]; [|done]. by intros [= _ <-].
Qed.

Lemma parse_int_ok x s msg v u v' : parse_int x s msg v = (Ok u, v') → v' = setI x (number s) v.
Proof. unfold parse_int, number. destruct (Atoi s) as [n [e|]]; [done|]. by intros [= _ <-]. Qed.

Lemma port_setting_ok x d e msg v u v' : port_setting x d e msg v = (Ok u, v') →
  agree v' (setI x (port v x d e) v).
Proof.
  unfold port_setting, port, bind, get. destruct (Z.eqb_spec (getI v x) d); simpl.
  2:{ intros [= _ <-]. apply setI_id. }
  destruct (String.eqb_spec (Getenv e) ""); simpl; [intros [= _ <-]; apply setI_id|].
  by intros ->%parse_int_ok.
Qed.

Definition redis_port_of (v : vars) : Z :=
  if getI v "RedisConfig.Port" =? 0 then
    number (first_text [Getenv "REDIS_PORT"; loadStringFromConfig (getS v "configDir") "redis_port"; "6379"])
  else getI v "RedisConfig.Port".

Lemma redis_port_ok v u v' : redis_port v = (Ok u, v') → agree v' (setI "RedisConfig.Port" (redis_port_of v) v).
Proof.
  unfold redis_port, redis_port_of, bind, get. rewrite !first_text_cons.
  destruct (getI v "RedisConfig.Port" =? 0); [|intros [= _ <-]; apply setI_id].
  destruct (String.eqb (Getenv "REDIS_PORT") ""); simpl; [|by intros ->%parse_int_ok].
  destruct (String.eqb (loadStringFromConfig (getS v "configDir") "redis_port") ""); simpl; [|by intros ->%parse_int_ok].
  by intros [= _ <-].
Qed.

Lemma redis_ca_ok v u v' : redis_ca v = (Ok u, v') → ∃ s, agree v' (setS "RedisConfig.CA" s v).
Proof.
  unfold redis_ca, bind, get, of_res, modify, throw, ret.
  destruct (String.eqb _ ""); [intros [= _ <-]; eexists; apply setS_id|].
  destruct (base64_Decode _) as [buf|]; [|done]. destruct (pem_Decode buf) as [bl|]; [|done].
  destruct (ParseCertificate bl) as [c|]; [|done]. intros [= _ <-]. by eexists.
Qed.

Lemma SetVerbosity_ok s v : ∃ n, agree (SetVerbosity s v) (setI "logger.verbosity" n v).
Proof.
  unfold SetVerbosity. destruct (list_find _ _) as [[i ?]|]; [by eexists|].
  destruct (Atoi _) as [n [e|]]; [eexists; apply setI_id|by eexists].
Qed.

Lemma when_ok (b : bool) (e : gerror) (v : vars) u v' :
  (if b then throw e else ret tt) v = (Ok u, v') → b = false ∧ v' = v.
Proof. destruct b; [done|]. by intros [= _ <-]. Qed.

(** Where each text and boolean may come from: the environment variable and the
    file, and the default. *)
Definition text_sources : list (string * string * string * string) := [
  ("kafkaBrokers", "KAFKA_BROKERS", "kafka_brokers", "");
  ("KafkaConfig.User", "KAFKA_USERNAME", "kafka_username", "token");
  ("KafkaConfig.Password", "KAFKA_PASSWORD", "kafka_password", "");
  ("KafkaConfig.Version", "KAFKA_VERSION", "kafka_version", "2.8.1");
  ("RedisConfig.Host", "REDIS_HOST", "redis_host", "");
  ("redisCABase64", "REDIS_CA", "redis_ca", "");
  ("RedisConfig.Password", "REDIS_PASSWORD", "redis_password", "");
  ("RedisConfig.User", "REDIS_USER", "redis_user", "")].

Definition bool_sources : list (string * string * string) := [
  ("KafkaConfig.EnableTLS", "KAFKA_ENABLE_TLS", "kafka_enable_tls");
  ("KafkaConfig.TLSSkipVerify", "KAFKA_TLS_SKIP_VERIFY", "kafka_tls_skip_verify");
  ("RedisConfig.EnableTLS", "REDIS_ENABLE_TLS", "redis_enable_tls");
  ("RedisConfig.TLSSkipVerify", "REDIS_TLS_SKIP_VERIFY", "redis_tls_skip_verify")].

Record configured (v v' : vars) : Prop := {
  conf_texts : Forall (λ '(x, e, f, d), getS v' x = chosen v x e f d) text_sources;
  conf_bools : Forall (λ '(x, e, f), getB v' x = enabled v x e f) bool_sources;
  conf_ports : getI v' "RuntimePort" = port v "RuntimePort" 0 "KAR_RUNTIME_PORT" ∧
    getI v' "AppPort" = port v "AppPort" 8080 "KAR_APP_PORT" ∧ getI v' "RedisConfig.Port" = redis_port_of v;
  conf_names : getS v' "AppName" = getS v "AppName" ∧ getS v' "ServiceName" = first_text [getS v "ServiceName"; "kar.none"];
  conf_lists : getL v' "ActorTypes" = split_list (getS v "actorTypes") ∧
    getL v' "KafkaConfig.Brokers" = Split "," (getS v' "kafkaBrokers");
  conf_required : Forall (λ x, getS v' x ≠ "") ["AppName"; "kafkaBrokers"; "RedisConfig.Host"];
}.

Lemma service_ok v u v' :
  (if String.eqb (getS v "ServiceName") "" then modify (setS "ServiceName" "kar.none") else ret tt) v = (Ok u, v') →
  agree v' (setS "ServiceName" (first_text [getS v "ServiceName"; "kar.none"]) v).
Proof.
  rewrite first_text_cons. destruct (String.eqb_spec (getS v "ServiceName") "") as [E|]; intros [= _ <-]; [done|].
  apply setS_id.
Qed.

Lemma modify_ok (f : vars → vars) v u v' : modify f v = (Ok u, v') → v' = f v.
Proof. by intros [= _ <-]. Qed.

(** What each step of a run of [settings] assigned. *)
Ltac assigned :=
  repeat match goal with
  | H : get _ = (Ok _, _) |- _ => injection H as <- <-
  | H : string_setting _ _ _ _ _ = (Ok _, _) |- _ => apply string_setting_ok in H as [H ?]
  | H : bool_setting _ _ _ _ _ = (Ok _, _) |- _ => apply bool_setting_ok in H
  | H : port_setting _ _ _ _ _ = (Ok _, _) |- _ => apply port_setting_ok in H
  | H : redis_port _ = (Ok _, _) |- _ => apply redis_port_ok in H
  | H : redis_ca _ = (Ok _, _) |- _ => apply redis_ca_ok in H as [? H]
  | H : (if _ then throw _ else ret tt) _ = (Ok _, _) |- _ => apply when_ok in H as [? ->]
  | H : (if _ then modify (setS "ServiceName" _) else ret tt) _ = (Ok _, _) |- _ => apply service_ok in H
  | H : modify _ _ = (Ok _, _) |- _ => apply modify_ok in H
  end.

(** Read a variable through all the assignments. *)
Ltac trace :=
  repeat (unfold chosen, enabled, port, redis_port_of; cbn [fallback_text];
    match goal with
    | H : agree ?w _ |- context [?w] =>
        rewrite ?(agree_S _ _ H), ?(agree_I _ _ H), ?(agree_B _ _ H), ?(agree_L _ _ H)
    | H : ?w = _ |- context [?w] => is_var w; rewrite !H
    end; look).

(** What a run of [settings] that ends has assigned. *)
Lemma settings_configured CmdName args v v' : settings CmdName args v = (Ok tt, v') → configured v v'.
Proof.
  unfold settings. intros Hrun. inv_ok.
  destruct (SetVerbosity_ok (getS v "verbosity") v) as [n Hn]. assigned. subst x0. split.
  - repeat (apply Forall_cons; split); try (apply Forall_nil; exact I); by trace.
  - repeat (apply Forall_cons; split); try (apply Forall_nil; exact I); by trace.
  - split_and!; by trace.
  - split_and!; by trace.
  - split; by trace.
  - repeat (apply Forall_cons; split); try (apply Forall_nil; exact I).
    + apply String.eqb_neq. revert H2. by trace.
    + revert H31. by trace.
    + revert H27. by trace.
Qed.

(** C29: each setting comes from the first source that has one: the flag, or else the
    environment variable, or else the file of the configuration directory, or else
    the default.  A run of [init] that ends has an application name, Kafka
    brokers and a Redis host; a port flag that has its default value is overridden
    by the environment, and so is a boolean flag that is off. *)
Theorem settings_precedence kar CmdName args v' rest : init (kar :: CmdName :: args) = inl (v', rest) →
  ∃ cmd v, commandOptions CmdName = Some cmd ∧
    parse_flags (flags_of cmd) args (defaults cmd vars0) = inl (v, rest) ∧ getB v "help" = false ∧ configured v v'.
Proof.
  unfold init. destruct (bool_decide _); [done|]. destruct (commandOptions CmdName) as [cmd|] eqn:Ec; [|done].
  destruct (parse_flags _ _ _) as [[v rest']|] eqn:Ep; [|done]. destruct (getB v "help") eqn:Eh; [done|].
  destruct (settings CmdName rest' v) as [[[]|[]| |] w] eqn:Es; try done. intros [= <- <-].
  exists cmd, v. split_and!; [done..|]. by eapply settings_configured.
Qed.
End host.

(* ---------------------------------------------------------------------- *)
(** ** Witnesses *)

Module Witness.
(** A host with two variables and a file. *)
#[local] Instance host : Host := {
  ParseDuration := λ s, if String.eqb s "1s" then Some Second else None;
  Getenv := λ e, if String.eqb e "KAFKA_BROKERS" then "k1:9092,k2:9092"
                 else if String.eqb e "KAFKA_ENABLE_TLS" then "true" else "";
  ReadFile := λ dir f, if String.eqb dir "/cfg" && String.eqb f "redis_host" then Some "redis" else None;
  base64_Decode := Some;
  pem_Decode := λ s, if String.eqb s "text" then None else Some s;
  ParseCertificate := Some;
}.

Definition line : list string :=
  ["kar"; "run"; "-app"; "hello"; "--actors=Cat,Dog"; "-config_dir"; "/cfg"; "-kafka_enable_tls=false";
   "-h2c"; "-app_port"; "0x1F90"; "--"; "python"; "-v"].

Definition started : vars * list string := match init line with inl r => r | inr _ => (vars0, []) end.

Example run_line : started.2 = ["python"; "-v"] ∧ getL started.1 "ActorTypes" = ["Cat"; "Dog"] ∧
  getL started.1 "KafkaConfig.Brokers" = ["k1:9092"; "k2:9092"] ∧ getS started.1 "RedisConfig.Host" = "redis" ∧
  getI started.1 "AppPort" = 8080 ∧ getS started.1 "ServiceName" = "kar.none" ∧ getB started.1 "H2C" = true.
Proof. vm_compute. split_and!; reflexivity. Qed.

(** A flag cannot switch off what the environment switches on. *)
Example explicit_false_overridden : getB started.1 "KafkaConfig.EnableTLS" = true.
Proof. vm_compute. reflexivity. Qed.

(** A certificate that is not in PEM crashes the process. *)
Example no_pem_block : init ["kar"; "purge"; "-app"; "a"; "-redis_host"; "r"; "-redis_ca_cert"; "text"] =
  inr (Crash "invalid memory address or nil pointer dereference").
Proof. vm_compute. reflexivity. Qed.

Lemma settings_precedence_witness : init line = inl started ∧
  ∃ cmd v, commandOptions "run" = Some cmd ∧
    parse_flags (flags_of cmd) (drop 2 line) (defaults cmd vars0) = inl (v, started.2) ∧ getB v "help" = false ∧
    configured v started.1.
Proof.
  assert (init line = inl started) as E by (vm_compute; reflexivity). split; [exact E|].
  apply (settings_precedence "kar" "run" (drop 2 line)). rewrite <-surjective_pairing. exact E.
Defined.
End Witness.
End Config.
