(* ===== verification/Injection.v ===== *)
(** * Injection: the sidecar of a Kubernetes pod

    Models src/core/internal/sidecar/injection.go and patch_operation.go: what the
    admission controller adds to a pod whose annotations name an application, as the
    operations of a JSON patch.  Of the objects of Kubernetes there are the fields
    that the source reads or writes; the rest of each is opaque.  The decoders of
    Kubernetes are the class [Codecs].  [apply_patch] is the API server's side,
    RFC 6902 on the paths that the patches have. *)

From S2P Require Import Prelude GoLib Config.
Import Config.
Open Scope string_scope.
Open Scope Z_scope.
Open Scope list_scope.
Open Scope go_scope.

Module Injection.

(* ---------------------------------------------------------------------- *)
(** ** Pods *)

Inductive EnvVar : Type := EnvValue (name value : string) | EnvField (name path : string).

Record VolumeMount : Type := mkMount { m_Name : string; MountPath : string; ReadOnly : bool }.

Record ContainerPort : Type := mkPort { port_number : Z; Protocol : string; port_Name : string }.

(** An HTTP GET of a probe or a hook. *)
Record HTTPGetAction : Type := mkGet { get_Path : string; get_Port : Z }.

Record Container : Type := mkContainer {
  c_Name : string;
  Image : string;
  Command : list string;
  Args : list string;
  Env : list EnvVar;
  Ports : list ContainerPort;
  LivenessProbe : option HTTPGetAction;
  PreStop : option HTTPGetAction;
  VolumeMounts : list VolumeMount;
  c_other : string;
}.

Inductive Volume : Type := SecretVolume (name secret : string) | OtherVolume (name other : string).

(** The slices and the map of labels are [None] when they are nil. *)
Record Pod : Type := mkPod {
  annotations : gmap string string;
  labels : option (gmap string string);
  containers : list Container;
  volumes : option (list Volume);
  imagePullSecrets : option (list string);
  p_other : string;
}.

#[export] Instance env_eq_dec : EqDecision EnvVar.
Proof. solve_decision. Defined.
#[export] Instance mount_eq_dec : EqDecision VolumeMount.
Proof. solve_decision. Defined.
#[export] Instance volume_eq_dec : EqDecision Volume.
Proof. solve_decision. Defined.

(** The values at the paths of the patches. *)
Inductive patch_value : Type :=
| Containers (l : list Container)
| Volumes (l : list Volume)
| OneVolume (v : Volume)
| Secrets (l : list string)
| OneSecret (s : string)
| Labels (m : gmap string string).

Record patchOperation : Type := mkPatch { Op : string; Path : string; Value : patch_value }.

Record AdmissionResponse : Type := mkResponse {
  Allowed : bool;
  Patch : option (list patchOperation);
  Message : string;
  UID : string;
}.

(* ---------------------------------------------------------------------- *)
(** ** Annotations *)

Definition actorAnnotation : string := "kar.ibm.com/actors".
Definition appNameAnnotation : string := "kar.ibm.com/app".
Definition sidecarAnnotation : string := "kar.ibm.com/sidecarContainer".
Definition serviceNameAnnotation : string := "kar.ibm.com/service".
Definition appPortAnnotation : string := "kar.ibm.com/appPort".
Definition runtimePortAnnotation : string := "kar.ibm.com/runtimePort".
Definition verboseAnnotation : string := "kar.ibm.com/verbose".
Definition extraArgsAnnotation : string := "kar.ibm.com/extraArgs".
Definition defaultAppPort : string := "8080".
Definition defaultRuntimePort : string := "3500".
Definition defaultSidecarContainer : string := "true".
Definition sidecarName : string := "kar".
Definition karImagePullSecret : string := "kar.ibm.com.image-pull".
Definition karRTConfigSecret : string := "kar.ibm.com.runtime-config".
Definition karRTConfigMount : string := "/var/run/secrets/kar.ibm.com".

(** [name value] for an annotation, if there is one. *)
Definition arg_of (m : gmap string string) (annotation flag : string) : list string :=
  match m !! annotation with Some value => [flag; value] | None => [] end.

Definition processAnnotations (m : gmap string string) : list string * list EnvVar * string * bool :=
  let appName := default "" (m !! appNameAnnotation) in
  let sidecarContainer := default defaultSidecarContainer (m !! sidecarAnnotation) in
  let appPort := default defaultAppPort (m !! appPortAnnotation) in
  let runtimePort := default defaultRuntimePort (m !! runtimePortAnnotation) in
  let inSidecar := String.eqb sidecarContainer "true" in
  let extraArgs :=
    ["-kubernetes_mode"; "-config_dir"; karRTConfigMount] ++
    (if inSidecar then ["-sidecar_mode"] else []) ++
    arg_of m serviceNameAnnotation "-service" ++ arg_of m actorAnnotation "-actors" ++
    ["-app_port"; appPort] ++ ["-runtime_port"; runtimePort] ++ arg_of m verboseAnnotation "-v" ++
    match m !! extraArgsAnnotation with Some moreArgs => Split "," moreArgs | None => [] end in
  let appEnv :=
    [EnvValue "KAR_APP" appName] ++
    (if inSidecar then [] else [EnvValue "KAR_SIDECAR_IN_CONTAINER" "true"]) ++
    [EnvValue "KAR_APP_PORT" appPort; EnvValue "KAR_RUNTIME_PORT" runtimePort] in
  (extraArgs, appEnv, runtimePort, inSidecar).

(* ---------------------------------------------------------------------- *)
(** ** Patches *)

Section inject.
Context (sidecarImage sidecarImageTag : string).

(** The conversion to [int32]. *)
Definition int32 (n : Z) : Z := (n + 2 ^ 31) mod 2 ^ 32 - 2 ^ 31.

Definition add_env (env : list EnvVar) (c : Container) : Container :=
  mkContainer (c_Name c) (Image c) (Command c) (Args c) (Env c ++ env) (Ports c) (LivenessProbe c) (PreStop c)
    (VolumeMounts c) (c_other c).

Definition add_mount (m : VolumeMount) (c : Container) : Container :=
  mkContainer (c_Name c) (Image c) (Command c) (Args c) (Env c) (Ports c) (LivenessProbe c) (PreStop c)
    (VolumeMounts c ++ [m]) (c_other c).

Definition config_mount : VolumeMount := mkMount "kar-ibm-com-config" karRTConfigMount true.
Definition configVolume : Volume := SecretVolume "kar-ibm-com-config" karRTConfigSecret.

(** The container of the sidecar. *)
Definition sidecar (appName : string) (extraArgs : list string) (runtimePort : Z) : Container :=
  mkContainer sidecarName (sidecarImage +:+ ":" +:+ sidecarImageTag) ["/kar/bin/kar"]
    (["run"; "-app"; appName] ++ extraArgs) [EnvField "KAR_POD_IP" "status.podIP"]
    [mkPort (int32 runtimePort) "TCP" "kar"]
    (Some (mkGet "kar/v1/system/health" (int32 runtimePort)))
    (Some (mkGet "kar/v1/system/shutdown" (int32 runtimePort)))
    [config_mount] "".

(** The containers of the pod with what they need. *)
Definition new_containers (appName : string) (m : gmap string string) (cs : list Container) : list Container :=
  let '(extraArgs, appEnv, runtimePortStr, enableSidecar) := processAnnotations m in
  let cs := add_env appEnv <$> cs in
  if enableSidecar then sidecar appName extraArgs (Atoi runtimePortStr).1 :: cs
  else (add_env [EnvValue "KAR_EXTRA_ARGS" (Join " " extraArgs)] ∘ add_mount config_mount) <$> cs.

Definition volume_patch (pod : Pod) : patchOperation :=
  match volumes pod with
  | None => mkPatch "replace" "/spec/volumes" (Volumes [configVolume])
  | Some _ => mkPatch "add" "/spec/volumes/-" (OneVolume configVolume)
  end.

Definition secret_patch (pod : Pod) : patchOperation :=
  match imagePullSecrets pod with
  | None => mkPatch "add" "/spec/imagePullSecrets" (Secrets [karImagePullSecret])
  | Some _ => mkPatch "add" "/spec/imagePullSecrets/-" (OneSecret karImagePullSecret)
  end.

Definition new_labels (appName : string) (pod : Pod) : gmap string string :=
  let m := <[appNameAnnotation := appName]> (default ∅ (labels pod)) in
  match annotations pod !! serviceNameAnnotation with
  | Some serviceName => <[serviceNameAnnotation := serviceName]> m
  | None => m
  end.

Definition label_patch (appName : string) (pod : Pod) : patchOperation :=
  mkPatch (if bool_decide (default ∅ (labels pod) = ∅) then "add" else "replace") "/metadata/labels"
    (Labels (new_labels appName pod)).

(** The patches of a pod; [None] is a response without a patch. *)
Definition patches (pod : Pod) : option (list patchOperation) :=
  match annotations pod !! appNameAnnotation with
  | None => None
  | Some appName =>
      if existsb (λ c, String.eqb (c_Name c) sidecarName) (containers pod) then None
      else
        let '(_, _, _, enableSidecar) := processAnnotations (annotations pod) in
        Some ([mkPatch "replace" "/spec/containers" (Containers (new_containers appName (annotations pod) (containers pod)));
               volume_patch pod] ++
              (if enableSidecar then [secret_patch pod] else []) ++ [label_patch appName pod])
  end.

(** The decoders of Kubernetes: of the body of a request, with the kind of the
    object when it is not a review; and of the pod in a review. *)
Record AdmissionReview : Type := mkReview { of_pods : bool; Raw : string; rq_UID : string }.

Class Codecs : Type := {
  decode_review : string → (AdmissionReview + string) + string;
  decode_pod : string → Pod + string;
}.

(** [None] is the nil pointer. *)
Definition possiblyInjectSidecar `{Codecs} (ar : AdmissionReview) : option AdmissionResponse :=
  if negb (of_pods ar) then None
  else match decode_pod (Raw ar) with
       | inr err => Some (mkResponse false None err "")
       | inl pod => Some (mkResponse true (patches pod) "" "")
       end.

(** The response of an answer, or an error, and the status. *)
Definition HandleAdmissionRequest `{Codecs} (body : string) : res ((AdmissionResponse + string) * Z) :=
  match decode_review body with
  | inr err => Ok (inr ("Request could not be decoded: " +:+ err), 400)
  | inl (inr gvk) => Ok (inr ("Unsupported group version kind: " +:+ gvk), 400)
  | inl (inl ar) =>
      match possiblyInjectSidecar ar with
      | None => Panic "invalid memory address or nil pointer dereference"
      | Some r => Ok (inl (mkResponse (Allowed r) (Patch r) (Message r) (rq_UID ar)), 200)
      end
  end.

(** The answer to a POST; its body is the review, or the text of an error. *)
Definition serve `{Codecs} (contentType body : string) : res ((AdmissionResponse + string) * Z) :=
  if negb (String.eqb contentType "application/json") then
    Ok (inr ("contentType=" +:+ contentType +:+ ", expect application/json"), 400)
  else HandleAdmissionRequest body.

(* ---------------------------------------------------------------------- *)
(** ** What the API server makes of the patches *)

Definition set_containers (l : list Container) (p : Pod) : Pod :=
  mkPod (annotations p) (labels p) l (volumes p) (imagePullSecrets p) (p_other p).
Definition set_volumes (l : list Volume) (p : Pod) : Pod :=
  mkPod (annotations p) (labels p) (containers p) (Some l) (imagePullSecrets p) (p_other p).
Definition set_secrets (l : list string) (p : Pod) : Pod :=
  mkPod (annotations p) (labels p) (containers p) (volumes p) (Some l) (p_other p).
Definition set_labels (m : gmap string string) (p : Pod) : Pod :=
  mkPod (annotations p) (Some m) (containers p) (volumes p) (imagePullSecrets p) (p_other p).

(** [replace] is an error when there is nothing to replace, and so is adding at the
    end of an array that does not exist; [add] of a member replaces it. *)
Definition apply_patch (o : patchOperation) (p : Pod) : option Pod :=
  let replaces {A} (old : option A) := String.eqb (Op o) "add" || bool_decide (is_Some old) in
  match Value o with
  | Containers l => Some (set_containers l p)
  | Volumes l => if replaces (volumes p) then Some (set_volumes l p) else None
  | OneVolume v => match volumes p with Some l => Some (set_volumes (l ++ [v]) p) | None => None end
  | Secrets l => if replaces (imagePullSecrets p) then Some (set_secrets l p) else None
  | OneSecret s => match imagePullSecrets p with Some l => Some (set_secrets (l ++ [s]) p) | None => None end
  | Labels m => if replaces (labels p) then Some (set_labels m p) else None
  end.

Definition apply_patches (os : list patchOperation) (p : Pod) : option Pod :=
  foldl (λ p o, p ≫= apply_patch o) (Some p) os.

(** The pod after admission. *)
Definition admitted (pod : Pod) : option Pod :=
  match patches pod with Some os => apply_patches os pod | None => Some pod end.

(* ---------------------------------------------------------------------- *)
(** ** Admission *)

(** The pod that an application asks for. *)
Definition injected (appName : string) (pod : Pod) : Pod :=
  let '(_, _, _, enableSidecar) := processAnnotations (annotations pod) in
  mkPod (annotations pod) (Some (new_labels appName pod))
    (new_containers appName (annotations pod) (containers pod))
    (Some (default [] (volumes pod) ++ [configVolume]))
    (if enableSidecar then Some (default [] (imagePullSecrets pod) ++ [karImagePullSecret]) else imagePullSecrets pod)
    (p_other pod).

Definition has_sidecar (pod : Pod) : bool := existsb (λ c, String.eqb (c_Name c) sidecarName) (containers pod).

Lemma label_patch_applies appName pod p : labels p = labels pod →
  apply_patch (label_patch appName pod) p = Some (set_labels (new_labels appName pod) p).
Proof.
  intros E. unfold apply_patch, label_patch. simpl. rewrite E. destruct (labels pod) as [m|].
  - rewrite (bool_decide_eq_true_2 (is_Some (Some m))) by eauto. by rewrite orb_true_r.
  - by rewrite (bool_decide_eq_true_2 (default ∅ None = ∅)).
Qed.

Lemma patches_Some pod os : patches pod = Some os →
  ∃ appName, annotations pod !! appNameAnnotation = Some appName ∧ has_sidecar pod = false.
Proof.
  unfold patches, has_sidecar. destruct (annotations pod !! appNameAnnotation) as [appName|]; [|done].
  destruct (existsb _ _); [done|]. by exists appName.
Qed.

(** Admission is what the annotations ask for: a pod without an application, or
    with a container called kar, is left as it is; any other pod with a list of
    volumes gets the containers, the volume, the secret and the labels, all
    patches applying; and a pod without volumes is refused by the API server. *)
Theorem admission pod :
  admitted pod =
    match annotations pod !! appNameAnnotation with
    | None => Some pod
    | Some appName =>
        if has_sidecar pod then Some pod
        else if bool_decide (is_Some (volumes pod)) then Some (injected appName pod) else None
    end.
Proof.
  unfold admitted, patches, has_sidecar. destruct (annotations pod !! appNameAnnotation) as [appName|]; [|done].
  destruct (existsb _ _); [done|].
  destruct (processAnnotations (annotations pod)) as [[[args env] rp] side] eqn:Ea.
  unfold injected. rewrite Ea. unfold apply_patches. cbn [app foldl mbind option_bind]. rewrite foldl_app.
  destruct pod as [an lb cs vs sec other]; cbn in *. unfold volume_patch, secret_patch; cbn.
  destruct vs as [vs|]; cbn.
  - destruct side, sec; cbn -[label_patch apply_patch];
      (etransitivity; [by apply label_patch_applies|]); reflexivity.
  - by destruct side.
Qed.

(** Reviewing a pod twice. *)
Lemma injected_has_sidecar appName pod : default defaultSidecarContainer (annotations pod !! sidecarAnnotation) = "true" →
  has_sidecar (injected appName pod) = true.
Proof.
  intros E. unfold injected, new_containers, has_sidecar.
  destruct (processAnnotations (annotations pod)) as [[[args env] rp] side] eqn:Ea.
  assert (side = true) as ->. { unfold processAnnotations in Ea. rewrite E in Ea. by injection Ea as _ _ _ <-. }
  reflexivity.
Qed.

(** A pod with the sidecar in a container of its own is not injected again when
    the API server reviews it a second time. *)
Theorem admission_idempotent pod pod' :
  default defaultSidecarContainer (annotations pod !! sidecarAnnotation) = "true" →
  admitted pod = Some pod' → admitted pod' = Some pod'.
Proof.
  intros Hs. rewrite !admission. destruct (annotations pod !! appNameAnnotation) as [appName|] eqn:Ea.
  - destruct (has_sidecar pod) eqn:Eh; [intros [= <-]; by rewrite Ea, Eh|].
    destruct (bool_decide (is_Some (volumes pod))); [|done]. intros [= <-].
    rewrite injected_has_sidecar by done. by destruct (annotations (injected appName pod) !! appNameAnnotation).
  - intros [= <-]. by rewrite Ea.
Qed.

(* ---------------------------------------------------------------------- *)
(** ** From annotations to settings *)

Section run.
Context `{Host}.

Definition run_options : list (string * flag) := default [] (commandOptions "run").

Definition opt_of (m : gmap string string) (annotation name : string) : list opt :=
  match m !! annotation with Some value => [Spaced name value] | None => [] end.

(** The options of the sidecar of a pod. *)
Definition options (appName : string) (m : gmap string string) : list opt :=
  [Spaced "app" appName; Plain "kubernetes_mode"; Spaced "config_dir" karRTConfigMount; Plain "sidecar_mode"] ++
  opt_of m serviceNameAnnotation "service" ++ opt_of m actorAnnotation "actors" ++
  [Spaced "app_port" (default defaultAppPort (m !! appPortAnnotation));
   Spaced "runtime_port" (default defaultRuntimePort (m !! runtimePortAnnotation))] ++
  opt_of m verboseAnnotation "v".

(** The arguments of the sidecar of a pod. *)
Definition sidecar_args (appName : string) (m : gmap string string) : list string :=
  ["run"; "-app"; appName] ++ (processAnnotations m).1.1.1.

Lemma sidecar_args_render appName m :
  default defaultSidecarContainer (m !! sidecarAnnotation) = "true" → m !! extraArgsAnnotation = None →
  sidecar_args appName m = "run" :: concat (render <$> options appName m).
Proof.
  intros Es Ex. unfold sidecar_args, processAnnotations, options, arg_of, opt_of. rewrite Es, Ex.
  by destruct (m !! serviceNameAnnotation), (m !! actorAnnotation), (m !! verboseAnnotation).
Qed.

Lemma options_written appName m : Forall (written_for (flags_of run_options)) (options appName m).
Proof.
  unfold options, opt_of.
  destruct (m !! serviceNameAnnotation), (m !! actorAnnotation), (m !! verboseAnnotation);
    repeat (apply Forall_cons; split); try (eexists; split; [vm_compute; reflexivity|done]); done.
Qed.

Lemma options_words appName m : Forall (flag_word ∘ opt_name) (options appName m).
Proof.
  unfold options, opt_of.
  destruct (m !! serviceNameAnnotation), (m !! actorAnnotation), (m !! verboseAnnotation);
    repeat (apply Forall_cons; split); done.
Qed.

(** What one option of the command does. *)
Lemma set_string name x d value opts v : flags_of run_options !! name = Some (StringVar x d) →
  set_opts (flags_of run_options) (Spaced name value :: opts) v = set_opts (flags_of run_options) opts (setS x value v).
Proof. intros E. cbn [set_opts opt_name]. by rewrite E. Qed.

Lemma set_switch name x d opts v : flags_of run_options !! name = Some (BoolVar x d) →
  set_opts (flags_of run_options) (Plain name :: opts) v = set_opts (flags_of run_options) opts (setB x true v).
Proof. intros E. cbn [set_opts opt_name]. by rewrite E. Qed.

Lemma set_int name x d value n opts v : flags_of run_options !! name = Some (IntVar x d) → ParseInt0 64 value = (n, None) →
  set_opts (flags_of run_options) (Spaced name value :: opts) v = set_opts (flags_of run_options) opts (setI x n v).
Proof. intros E En. cbn [set_opts opt_name]. rewrite E. unfold set_flag. cbn [opt_value]. by rewrite En. Qed.

Definition run_defaults : vars := defaults run_options vars0.

(** What the flags of the sidecar leave in the variables. *)
Record flagged (appName : string) (m : gmap string string) (n r : Z) (v : vars) : Prop := {
  fl_app : getS v "AppName" = appName;
  fl_service : getS v "ServiceName" = default "" (m !! serviceNameAnnotation);
  fl_actors : getS v "actorTypes" = default "" (m !! actorAnnotation);
  fl_dir : getS v "configDir" = karRTConfigMount;
  fl_ports : getI v "AppPort" = n ∧ getI v "RuntimePort" = r;
  fl_host : getS v "RedisConfig.Host" = "";
  fl_help : getB v "help" = false;
}.

Lemma options_set appName m n r :
  ParseInt0 64 (default defaultAppPort (m !! appPortAnnotation)) = (n, None) →
  ParseInt0 64 (default defaultRuntimePort (m !! runtimePortAnnotation)) = (r, None) →
  ∃ v, set_opts (flags_of run_options) (options appName m) run_defaults = Some v ∧ flagged appName m n r v.
Proof.
  intros En Er. unfold options, opt_of.
  destruct (m !! serviceNameAnnotation) as [sv|] eqn:E1, (m !! actorAnnotation) as [ac|] eqn:E2,
    (m !! verboseAnnotation) as [vb|] eqn:E3; cbn [app];
    rewrite (set_string "app" "AppName" "") by (vm_compute; reflexivity);
    rewrite (set_switch "kubernetes_mode" "KubernetesMode" false) by (vm_compute; reflexivity);
    rewrite (set_string "config_dir" "configDir" "") by (vm_compute; reflexivity);
    rewrite (set_switch "sidecar_mode" "SidecarMode" false) by (vm_compute; reflexivity);
    rewrite ?(set_string "service" "ServiceName" "") by (vm_compute; reflexivity);
    rewrite ?(set_string "actors" "actorTypes" "") by (vm_compute; reflexivity);
    rewrite (set_int "app_port" "AppPort" 8080 _ n) by (first [exact En|vm_compute; reflexivity]);
    rewrite (set_int "runtime_port" "RuntimePort" 0 _ r) by (first [exact Er|vm_compute; reflexivity]);
    rewrite ?(set_string "v" "verbosity" "error") by (vm_compute; reflexivity);
    (eexists; split; [reflexivity|]); (split; [..|split| |]); rewrite ?E1, ?E2; look; vm_compute; reflexivity.
Qed.

(** C30: A sidecar starts with what the annotations of its pod say: its arguments are
    accepted whatever text the annotations hold, as long as the ports are numbers,
    and the settings of a process that runs have the application, the service
    and the actors of the annotations, their ports unless the application's is
    the default, and the addresses of the mounted secret. *)
Theorem sidecar_runs_as_annotated appName m n r :
  default defaultSidecarContainer (m !! sidecarAnnotation) = "true" → m !! extraArgsAnnotation = None →
  ParseInt0 64 (default defaultAppPort (m !! appPortAnnotation)) = (n, None) →
  ParseInt0 64 (default defaultRuntimePort (m !! runtimePortAnnotation)) = (r, None) → r ≠ 0 →
  Getenv "KAR_APP_PORT" = "" → Getenv "REDIS_HOST" = "" →
  match init ("/kar/bin/kar" :: sidecar_args appName m) with
  | inl (v, rest) => rest = [] ∧ getS v "AppName" = appName ∧
      getS v "ServiceName" = first_text [default "" (m !! serviceNameAnnotation); "kar.none"] ∧
      getL v "ActorTypes" = split_list (default "" (m !! actorAnnotation)) ∧
      getI v "AppPort" = n ∧ getI v "RuntimePort" = r ∧
      Some (getS v "RedisConfig.Host") = ReadFile karRTConfigMount "redis_host"
  | inr (Exit _) => False
  | inr _ => True
  end.
Proof.
  intros Es Ex En Er Hr Hp Hh. rewrite sidecar_args_render by done.
  destruct (options_set appName m n r En Er) as (v & Hset & [Fa Fs Fc Fd [Fp Fr] Fh Fhelp]).
  unfold init. assert (bool_decide ("run" ∈ prints) = false) as -> by (vm_compute; reflexivity).
  assert (commandOptions "run" = Some run_options) as -> by (vm_compute; reflexivity).
  pose proof (parse_render (flags_of run_options) (options appName m) [] run_defaults
    (options_written appName m) (options_words appName m)) as Hparse.
  rewrite app_nil_r, Hset in Hparse. cbn [parse_flags] in Hparse. unfold run_defaults in Hparse. rewrite Hparse, Fhelp. clear Hparse Hset.
  destruct (settings "run" [] v) as [[[]|e|w|] v'] eqn:Erun; [|destruct e; exact I|exact I|exact I].
  apply settings_configured in Erun as [Ht _ (C1 & C2 & _) [C3 C4] [C5 _] Hreq].
  split_and!; [done|congruence|congruence|congruence| | |].
  - rewrite C2. unfold port. rewrite Hp, andb_false_r. done.
  - rewrite C1. unfold port. rewrite Fr. by destruct (Z.eqb_spec r 0).
  - apply (Forall_lookup_1 _ _ 4 ("RedisConfig.Host", "REDIS_HOST", "redis_host", "")) in Ht; [|done].
    simpl in Ht. unfold chosen in Ht. rewrite Fh, Hh, Fd in Ht.
    apply (Forall_lookup_1 _ _ 2 "RedisConfig.Host") in Hreq; [|done]. simpl in Hreq.
    rewrite Ht in Hreq |- *. unfold loadStringFromConfig in *. simpl in *.
    destruct (ReadFile karRTConfigMount "redis_host") as [s|]; simpl in *; [|done].
    rewrite !first_text_cons in *. destruct (String.eqb_spec s ""); simpl in *; done.
Qed.
End run.
End inject.

(* ---------------------------------------------------------------------- *)
(** ** Witnesses *)

Module Witness.
Definition app_container : Container := mkContainer "app" "cats" [] [] [EnvValue "A" "b"] [] None None [] "".

Definition cats : gmap string string :=
  <[appNameAnnotation := "hello"]> (<[actorAnnotation := "Cat,Dog"]> {[appPortAnnotation := "9090"]}).

Definition pod (m : gmap string string) (vs : option (list Volume)) : Pod :=
  mkPod m None [app_container] vs None "".

(** The two ways to run the sidecar. *)
Definition own : Pod := pod cats (Some [OtherVolume "token" ""]).
Definition shared : Pod := pod (<[sidecarAnnotation := "false"]> cats) (Some [OtherVolume "token" ""]).

Notation review := (admitted "kar" "latest").

Definition own' : Pod := default own (review own).

Example own_containers : c_Name <$> containers own' = ["kar"; "app"] ∧
  (Args <$> containers own') !! 0%nat = Some ["run"; "-app"; "hello"; "-kubernetes_mode"; "-config_dir";
    "/var/run/secrets/kar.ibm.com"; "-sidecar_mode"; "-actors"; "Cat,Dog"; "-app_port"; "9090"; "-runtime_port"; "3500"] ∧
  imagePullSecrets own' = Some ["kar.ibm.com.image-pull"].
Proof. vm_compute. split_and!; reflexivity. Qed.

Lemma admission_idempotent_witness : review own = Some own' ∧ review own' = Some own'.
Proof.
  assert (review own = Some own') as E by (vm_compute; reflexivity). split; [exact E|].
  apply (admission_idempotent "kar" "latest" own); [vm_compute; reflexivity|exact E].
Defined.

(** A pod that runs KAR in its own containers is injected again at each review, and
    two of its volumes then have the same name. *)
Example shared_injected_twice :
  ((review shared ≫= (λ p, review p)) ≫= (λ p, volumes p)) =
    Some [OtherVolume "token" ""; configVolume; configVolume].
Proof. vm_compute. reflexivity. Qed.

(** A pod without volumes: there is nothing to replace. *)
Example no_volumes_refused : review (pod cats None) = None.
Proof. vm_compute. reflexivity. Qed.

#[local] Instance codecs : Codecs := {
  decode_review := λ body, if String.eqb body "{}" then inl (inr "v1") else inl (inl (mkReview (String.eqb body "pods") body "u1"));
  decode_pod := λ raw, inl own;
}.

(** A review of another resource: the response is nil when its UID is set. *)
Example other_resource_panics : serve "kar" "latest" "application/json" "services" =
  Panic "invalid memory address or nil pointer dereference".
Proof. vm_compute. reflexivity. Qed.

Example other_kind_refused : serve "kar" "latest" "application/json" "{}" =
  Ok (inr "Unsupported group version kind: v1", 400).
Proof. vm_compute. reflexivity. Qed.

(** A port that is not a number ends the sidecar with status 2, and its probes are
    on port 0; a large one is cut to 32 bits. *)
Definition bad_port (p : string) : Pod := pod (<[runtimePortAnnotation := p]> cats) (Some []).

Example ports_not_checked :
  ([bad_port "http"; bad_port "4294967297"] ≫= λ p, take 1 (containers (default own (review p))) ≫= λ c,
    port_number <$> Ports c) = [0; 1].
Proof. vm_compute. reflexivity. Qed.



(** A host with the secret mounted. *)
#[local] Instance mounted : Host := {
  ParseDuration := λ _, None;
  Getenv := λ _, "";
  ReadFile := λ dir f,
    if String.eqb dir karRTConfigMount then
      if String.eqb f "redis_host" then Some "redis" else if String.eqb f "kafka_brokers" then Some "k1" else None
    else None;
  base64_Decode := Some;
  pem_Decode := Some;
  ParseCertificate := Some;
}.

Definition ran : vars * list string :=
  match init ("/kar/bin/kar" :: sidecar_args "hello" cats) with inl r => r | inr _ => (vars0, []) end.

Lemma sidecar_runs_witness : init ("/kar/bin/kar" :: sidecar_args "hello" cats) = inl ran ∧ ran.2 = [] ∧
  getS ran.1 "AppName" = "hello" ∧ getS ran.1 "ServiceName" = "kar.none" ∧ getL ran.1 "ActorTypes" = ["Cat"; "Dog"] ∧
  getI ran.1 "AppPort" = 9090 ∧ getI ran.1 "RuntimePort" = 3500 ∧ Some (getS ran.1 "RedisConfig.Host") = Some "redis".
Proof.
  assert (init ("/kar/bin/kar" :: sidecar_args "hello" cats) = inl ran) as E by (vm_compute; reflexivity).
  split; [exact E|].
  pose proof (sidecar_runs_as_annotated "hello" cats 9090 3500 ltac:(reflexivity) ltac:(reflexivity)
    ltac:(vm_compute; reflexivity) ltac:(vm_compute; reflexivity) ltac:(lia) ltac:(reflexivity) ltac:(reflexivity)) as Hx.
  rewrite E in Hx. revert Hx. generalize ran. intros [v rest] Hx. exact Hx.
Defined.
End Witness.
End Injection.
