(* ===== verification/Tickers.v ===== *)
(** * Tickers: what the runtime does over time

    Models the loops of src/core/internal/runtime/commands.go that wait for a ticker
    or for a rebalance (Collect, ProcessReminders, ManageBindings).  A loop is a
    function of what it is woken by until its context is done.  Between two rounds of
    reminders other goroutines add and cancel reminders, under the same mutex. *)

From Stdlib Require Import Sorted.
From S2P Require Import Prelude GoLib Store Heap Reminders Bindings.
Open Scope string_scope.
Open Scope Z_scope.
Open Scope list_scope.
Open Scope go_scope.

Module Tickers.
Import Store Reminders.

(* ---------------------------------------------------------------------- *)
(** ** The loops *)

Section loops.
Context {R T : Type} `{Redis R} `{TimeText}.
Context (MangleKey : string → string) (UnmangleKey : string → res string).
Context (TellActor : Actor → string → string → M T unit).

(** The ticks that are received before the context is done. *)
Fixpoint ProcessReminders (ticks : list Z) : M (@world R T) unit :=
  match ticks with
  | [] => ret tt
  | now :: ticks' => processReminders MangleKey TellActor now ;;* ProcessReminders ticks'
  end.

Context (LoadBinding : string → Actor → Z → string → M R unit).

(** The partitions at the start and after each rebalance; an error is fatal. *)
Fixpoint ManageBindings (rebalances : list (list Z)) : M R unit :=
  match rebalances with
  | [] => ret tt
  | partitions :: rebalances' =>
      Bindings.loadBindings MangleKey UnmangleKey LoadBinding partitions ;;* ManageBindings rebalances'
  end.

Context (ActorCollectorInterval : Z) (CollectInactiveSessions : Z → M T unit).

(** The collection runs in the loop itself, so the lock of the loop is always free
    when it is tried. *)
Fixpoint collect (ticks : list Z) : M T unit :=
  match ticks with
  | [] => ret tt
  | now :: ticks' => CollectInactiveSessions (now - ActorCollectorInterval) ;;* collect ticks'
  end.

Definition Collect (ticks : list Z) : M T unit :=
  if ActorCollectorInterval =? 0 then ret tt else collect ticks.
End loops.

(* ---------------------------------------------------------------------- *)
(** ** Reminders as timers *)

(** What happens to the reminders, one operation under the mutex at a time. *)
Inductive event : Type := Tick (now : Z) | Add (r : Reminder) | Cancel (actor : Actor) (id : string).

(** The times at which one reminder fires, independently of all the others. *)
Fixpoint fires (r : Reminder) (es : list event) : list (Z * Reminder) :=
  match es with
  | [] => []
  | Tick now :: es' =>
      if r_TargetTime r <? now then
        (now, r) :: (if 0 <? r_Period r then fires (at_time (now + r_Period r) r) es' else [])
      else fires r es'
  | Add _ :: es' => fires r es'
  | Cancel actor id :: es' => if named actor id r then [] else fires r es'
  end.

(** The reminders that are added, with what happens afterwards. *)
Fixpoint additions (es : list event) : list (Reminder * list event) :=
  match es with
  | [] => []
  | Add r :: es' => (r, es') :: additions es'
  | _ :: es' => additions es'
  end.

(** All that fires: the reminders of the queue and those that are added. *)
Definition all_fires (rs : list Reminder) (es : list event) : list (Z * Reminder) :=
  (rs ≫= λ r, fires r es) ++ (additions es ≫= λ p, fires p.1 p.2).

(** Between two firings of a reminder more than its period passes. *)
Lemma fires_after r es p : p ∈ fires r es → r_TargetTime r < p.1.
Proof.
  revert r. induction es as [|[now|r'|a i] es IH]; intros r; cbn [fires].
  - by intros ?%elem_of_nil.
  - destruct (Z.ltb_spec (r_TargetTime r) now) as [Hn|]; [|by apply IH]. intros [->|Hin]%elem_of_cons; [done|].
    destruct (Z.ltb_spec 0 (r_Period r)) as [Hp|]; [|by apply elem_of_nil in Hin].
    specialize (IH _ Hin). cbn [at_time r_TargetTime] in IH. lia.
  - apply IH.
  - destruct (named a i r); [by intros ?%elem_of_nil|apply IH].
Qed.

Lemma fires_apart r es i p q :
  fires r es !! i = Some p → fires r es !! S i = Some q → p.1 + r_Period r < q.1.
Proof.
  revert r i. induction es as [|[now|r'|a id] es IH]; intros r i; cbn [fires].
  - done.
  - destruct (r_TargetTime r <? now); [|apply IH]. destruct i as [|i]; cbn [lookup list_lookup].
    + intros [= <-]. destruct (0 <? r_Period r); [|done]. intros Hq%list_elem_of_lookup_2%fires_after. exact Hq.
    + destruct (0 <? r_Period r); [|done]. intros Hp Hq. by apply (IH (at_time (now + r_Period r) r) i).
  - apply IH.
  - destruct (named a id r); [done|apply IH].
Qed.

(** A reminder that is not cancelled fires at the first tick after its time. *)
Lemma fires_due r now es : r_TargetTime r < now → head (fires r (Tick now :: es)) = Some (now, r).
Proof. intros Hn. cbn [fires]. by destruct (Z.ltb_spec (r_TargetTime r) now); [|lia]. Qed.

(* ---------------------------------------------------------------------- *)
(** ** The queue over time *)

Section timers.
Context {R T : Type} `{RedisLaws R} `{TimeText}.
Context (MangleKey : string → string) (TellActor : Actor → string → string → M T unit).

Definition step (e : event) : M (@world R T) unit :=
  match e with
  | Tick now => processReminders MangleKey TellActor now
  | Add r => on_queue (add r) ;;* ret tt
  | Cancel actor id => on_queue (λ q, (Ok tt, (cancel actor id q).2))
  end.

Fixpoint run (es : list event) : M (@world R T) unit :=
  match es with [] => ret tt | e :: es' => step e ;;* run es' end.

Lemma run_ticks ticks : run (Tick <$> ticks) = ProcessReminders MangleKey TellActor ticks.
Proof. induction ticks as [|now ticks IH]; [done|]. cbn. by rewrite IH. Qed.

(** The keys of the reminders are hashes, if anything. *)
Definition hashes (es : list event) (w : @world R T) : Prop :=
  keys_ok MangleKey w ∧ ∀ r es', (r, es') ∈ additions es → is_Some (hash_at (rview (w_redis w)) (MangleKey (r_key r))).

(** What is told in a list of rounds, each with its tick. *)
Definition told (rounds : list (Z * list Reminder)) : list (Z * Reminder) :=
  rounds ≫= λ p, pair p.1 <$> p.2.

Definition ticks (es : list event) : list Z := omap (λ e, match e with Tick now => Some now | _ => None end) es.

Definition succeeds : Prop := ∀ a p d t, (TellActor a p d t).1 = Ok tt.

Lemma bind_perm {A B} (f : A → list B) (l l' : list A) : l ≡ₚ l' → l ≫= f ≡ₚ l' ≫= f.
Proof. by intros ->. Qed.

(** What the reminders that fired, and those that did not, do from then on. *)
Lemma fired_fires now es fired :
  Forall (λ r, r_TargetTime r < now) fired →
  fired ≫= (λ r, fires r (Tick now :: es)) ≡ₚ
  (pair now <$> fired) ++ (live (fired ≫= rescheduled now) ≫= λ r, fires r es).
Proof.
  induction 1 as [|r fired Hr _ IH]; [done|]. rewrite !bind_cons, IH, live_app, bind_app, fmap_cons. cbn [fires].
  destruct (Z.ltb_spec (r_TargetTime r) now); [|lia]. unfold rescheduled at 2. destruct (0 <? r_Period r).
  - cbn [live]. rewrite live_cons. cbn. rewrite app_nil_r. constructor. by rewrite !app_assoc, (Permutation_app_comm (fires _ _)).
  - done.
Qed.

Lemma kept_fires now es rest :
  Forall (λ c, ¬ r_TargetTime c.1 < now) rest →
  live rest ≫= (λ r, fires r (Tick now :: es)) = live rest ≫= λ r, fires r es.
Proof.
  induction 1 as [|[r b] rest Hr _ IH]; [done|]. rewrite live_cons. cbn [fst snd] in *. destruct b; [exact IH|].
  cbn [app]. rewrite !bind_cons, IH. cbn [fires]. by destruct (Z.ltb_spec (r_TargetTime r) now).
Qed.

Lemma live_dropped (P : Reminder * bool → Prop) dropped : Forall (λ c, c.2 = true ∧ P c) dropped → live dropped = [].
Proof. induction 1 as [|[r b] l [Hb _] _ IH]; [done|]. cbn in Hb. subst b. by rewrite live_cons. Qed.

Lemma live_alive fired : live ((λ r, (r, false)) <$> fired) = fired.
Proof. induction fired as [|r l IH]; [done|]. rewrite fmap_cons, live_cons. cbn. by rewrite IH. Qed.

Lemma persisted_hashes now fired v k : is_Some (hash_at v k) → is_Some (hash_at (persisted MangleKey now fired v) k).
Proof.
  revert v. induction fired as [|r fired IH]; intros v Hv; [done|]. apply IH. unfold persisted_one.
  destruct (0 <? r_Period r); [by apply hash_put|by apply hash_delete].
Qed.

(** One round. *)
Lemma tick_spec now es (w : @world R T) :
  connected → succeeds → wf (w_queue w) → hashes (Tick now :: es) w →
  ∃ w' fired, step (Tick now) w = (Ok tt, w') ∧ wf (w_queue w') ∧ hashes es w' ∧
    w_rpc w' = tell_all TellActor fired (w_rpc w) ∧
    StronglySorted (λ a b, r_TargetTime a ≤ r_TargetTime b) fired ∧
    live (contents (w_queue w)) ≫= (λ r, fires r (Tick now :: es)) ≡ₚ
      (pair now <$> fired) ++ (live (contents (w_queue w')) ≫= λ r, fires r es).
Proof.
  intros Hc Hs Hwf [Hk Ha].
  assert (Ht : tells TellActor) by (intros a p d t; by rewrite Hs).
  destruct (processReminders_round MangleKey TellActor now w Hc Ht Hwf Hk)
    as (w' & dropped & fired & failed & rest & E & [W K B A D F S RPC RD RS] & _).
  destruct failed as [r|]; [destruct RS as (_ & _ & e & He); unfold tell_of in He; by rewrite Hs in He|].
  assert (Hh : hashes es w') by (split; [done|]; intros r es' Hr; rewrite RD; by eapply persisted_hashes, Ha).
  exists w', fired. cbn [option_list] in RPC. rewrite app_nil_r in RPC. split_and!; [done..|].
  rewrite (live_perm _ _ B), (live_perm _ _ A), !live_app, live_alive, (live_dropped _ _ D), !bind_app.
    rewrite (kept_fires now es rest RS), (fired_fires now es fired F). cbn [mbind list_bind app]. by rewrite <-app_assoc.
Qed.

Lemma cancel_fires actor id es rs :
  rs ≫= (λ r, fires r (Cancel actor id :: es)) = filter (λ r, named actor id r = false) rs ≫= λ r, fires r es.
Proof.
  induction rs as [|r rs IH]; [done|]. rewrite bind_cons, IH, filter_cons. cbn [fires].
  by destruct (named actor id r).
Qed.

(** C13: The queue of reminders, with its heap, its lazy cancellations and its rounds,
    is a set of independent timers: over any interleaving of ticks with additions and
    cancellations by the other goroutines, what is told is what each reminder that was
    in the queue or is added tells by itself ([fires]): at the first tick after its
    time, again at the first tick after that tick plus its period when it is periodic,
    and nothing once it is cancelled; within a round in the order of their times.  All
    rounds end. *)
Theorem reminders_are_timers es (w : @world R T) :
  connected → succeeds → wf (w_queue w) → hashes es w →
  ∃ w' rounds, run es w = (Ok tt, w') ∧ wf (w_queue w') ∧ rounds.*1 = ticks es ∧
    w_rpc w' = tell_all TellActor (mjoin rounds.*2) (w_rpc w) ∧
    Forall (λ p, StronglySorted (λ a b, r_TargetTime a ≤ r_TargetTime b) p.2) rounds ∧
    told rounds ≡ₚ all_fires (live (contents (w_queue w))) es.
Proof.
  intros Hc Hs. revert w. induction es as [|e es IH]; intros w Hwf Hh.
  { exists w, []. split_and!; try done. unfold all_fires. cbn. rewrite app_nil_r.
    induction (live (contents (w_queue w))) as [|r l IHl]; [done|exact IHl]. }
  cbn [run]. destruct e as [now|r|actor id].
  - destruct (tick_spec now es w Hc Hs Hwf Hh) as (w1 & fired & E & Hwf1 & Hh1 & Erpc & Hsort & P).
    destruct (IH w1 Hwf1 Hh1) as (w' & rounds & E' & Hwf' & Ht & Er & Hss & Pt).
    exists w', ((now, fired) :: rounds). erewrite bind_ret by exact E. split_and!; try done.
    + cbn. by rewrite Ht.
    + rewrite Er, Erpc. unfold tell_all. cbn. by rewrite foldl_app.
    + by constructor.
    + unfold all_fires, told in *. cbn [additions]. rewrite bind_cons, P, Pt. cbn [fst snd]. by rewrite app_assoc.
  - destruct Hh as [Hk Ha]. destruct (add_spec r (w_queue w) Hwf) as (q & E & Hwf1 & P).
    set (w1 := mkWorld q (w_redis w) (w_rpc w)).
    assert (E1 : step (Add r) w = (Ok tt, w1)) by (cbn; unfold bind, on_queue; by rewrite E).
    destruct (IH w1 Hwf1) as (w' & rounds & E' & Hwf' & Ht & Er & Hss & Pt).
    { split; [|intros r' es' Hr'; apply (Ha r' es'); cbn [additions]; by apply elem_of_cons; right].
      intros c. cbn [w_queue w1]. rewrite P. intros [->|Hin]%elem_of_cons; [|by apply Hk].
      apply (Ha r es). cbn [additions]. by left. }
    exists w', rounds. erewrite bind_ret by exact E1. split_and!; try done.
    rewrite Pt. unfold all_fires. cbn [w_queue w1 additions]. rewrite (live_perm _ _ P), live_cons. cbn [fst snd app].
    rewrite !bind_cons. cbn [fst snd fires]. by rewrite !app_assoc, (Permutation_app_comm (fires r es)).
  - destruct Hh as [Hk Ha]. set (w1 := mkWorld (cancel actor id (w_queue w)).2 (w_redis w) (w_rpc w)).
    assert (E1 : step (Cancel actor id) w = (Ok tt, w1)) by done.
    destruct (IH w1 (cancel_wf actor id _ Hwf)) as (w' & rounds & E' & Hwf' & Ht & Er & Hss & Pt).
    { split; [|exact Ha]. intros c (b & Hin & _)%cancel_contents. by apply (Hk (c.1, b)). }
    exists w', rounds. erewrite bind_ret by exact E1. split_and!; try done.
    rewrite Pt. unfold all_fires. cbn [w_queue w1 additions]. by rewrite live_cancel, cancel_fires.
Qed.
End timers.

(* ---------------------------------------------------------------------- *)
(** ** Witnesses *)

Module Witness.
Import Reminders.Witness.
#[local] Existing Instance MiniRedis.
#[local] Existing Instance MiniRedis_laws.
#[local] Existing Instance decimal_text.

(** Reminders [a] at 30, [b] at 10 and every 5, [d] at 90; [e] is added later. *)
Definition history : list event :=
  [Tick 12; Tick 16; Add (rem "e" 20 0); Tick 40; Cancel acct "b"; Tick 60].

Lemma reminders_are_timers_witness :
  ∃ w' rounds, run (λ k, k) counting history w0 = (Ok tt, w') ∧ rounds.*1 = [12; 16; 40; 60] ∧
    told rounds ≡ₚ all_fires (live (contents (w_queue w0))) history.
Proof.
  destruct (reminders_are_timers (λ k, k) counting history w0) as (w' & rounds & E & _ & Ht & _ & _ & P).
  - by intros r.
  - by intros a p d t.
  - apply (cancel_wf acct "c" queue0), added_wf.
  - split; [intros c _; by exists ∅|intros r es _; by exists ∅].
  - exists w', rounds. split_and!; [exact E|exact Ht|exact P].
Defined.

(** The periodic reminder fires at the first tick after each period. *)
Example when_b_fires : (fires (rem "b" 10 5) history).*1 = [12; 40] ∧ (fires (rem "a" 30 0) history).*1 = [40] ∧
  (fires (rem "d" 90 0) history).*1 = [] ∧ (additions history ≫= λ p, (fires p.1 p.2).*1) = [40].
Proof. by vm_compute. Qed.
End Witness.
End Tickers.
