(* ===== verification/Keyspace.v ===== *)
(** * Keyspace: the types of the keys in Redis

    The runtime keeps the placement of actors and the redirections of responses in
    strings, the bindings and the state of actors in hashes, under keys of their
    own families.  This file states that as a typing of the keyspace and proves that
    every operation of [Routing], [ActorState] and [Bindings] keeps it, whatever the
    other sidecars do in between as long as they keep it too; so no command meets
    a key of another type.  It ends with what the commands purge and drain of
    src/core/internal/runtime/runtime-main.go leave of a typed keyspace. *)

From S2P Require Import Prelude GoLib Messages Store Kafka Json Routing Reminders Bindings ActorState.
Import Rpc Store Broker Routing.
Open Scope string_scope.
Open Scope Z_scope.
Open Scope list_scope.
Open Scope go_scope.

Module Keyspace.

(* ---------------------------------------------------------------------- *)
(** ** Types of keys *)

Inductive kind : Type := KStr | KHash | KZSet.

#[export] Instance kind_eq_dec : EqDecision kind.
Proof. solve_decision. Defined.

Definition kind_of (x : rvalue) : kind :=
  match x with VStr _ => KStr | VHash _ => KHash | VZSet _ => KZSet end.

(** The families of keys, by their first word. *)
Definition key_kind (key : string) : option kind :=
  if HasPrefix key "rpc_" || HasPrefix key "alt_" then Some KStr
  else if HasPrefix key "binding_" || HasPrefix key "main_" then Some KHash
  else None.

Lemma rpc_kind s : key_kind ("rpc_" ++ s)%string = Some KStr.
Proof. unfold key_kind. by rewrite ActorState.HasPrefix_app. Qed.
Lemma alt_kind s : key_kind ("alt_" ++ s)%string = Some KStr.
Proof. unfold key_kind. by rewrite ActorState.HasPrefix_app, orb_true_r. Qed.
Lemma binding_kind s : key_kind ("binding_" ++ s)%string = Some KHash.
Proof. unfold key_kind. by rewrite ActorState.HasPrefix_app. Qed.
Lemma main_kind s : key_kind ("main_" ++ s)%string = Some KHash.
Proof. unfold key_kind. by rewrite ActorState.HasPrefix_app, orb_true_r. Qed.

Lemma HasPrefix_split s p : HasPrefix s p = true → ∃ t, s = (p ++ t)%string.
Proof.
  revert s. induction p as [|c p IH]; intros s Hs; [by exists s|].
  destruct s as [|c' s]; [done|]. cbn [HasPrefix] in Hs.
  apply andb_prop in Hs as [->%bool_decide_eq_true Hs]. destruct (IH s Hs) as [t ->]. by exists t.
Qed.

Section typing.
Context (AppName : string).

Notation mangle := (KarMangleKey AppName).

(** Every key of the application belongs to a family and has its type. *)
Definition typed (v : gmap string rvalue) : Prop :=
  ∀ key x, v !! mangle key = Some x → key_kind key = Some (kind_of x).

(** A command of the runtime on a key of the right type. *)
Definition well_typed (c : cmd) : Prop :=
  match c with
  | GET k | SET k _ | SETNX k _ => key_kind k = Some KStr
  | HSET k _ | HGET k _ | HDEL k _ | HMGET k _ | HEXISTS k _ | HGETALL k | HSCAN k _ _ => key_kind k = Some KHash
  | DEL ks => length ks = 1%nat
  | KEYS _ => True
  | _ => False
  end.

Global Instance mangle_inj : Inj (=) (=) mangle.
Proof. intros k k'. unfold KarMangleKey. intros E. repeat apply (inj (String.append _)) in E. done. Qed.

(** Canonical forms: what a key of a family holds. *)
Lemma typed_str v key : typed v → key_kind key = Some KStr →
  v !! mangle key = None ∨ ∃ s, v !! mangle key = Some (VStr s).
Proof.
  intros Ht Hk. destruct (v !! mangle key) as [x|] eqn:E; [right|by left].
  apply Ht in E. rewrite Hk in E. destruct x; simplify_eq/=; eauto.
Qed.

Lemma typed_hash v key : typed v → key_kind key = Some KHash → ∃ h, hash_at v (mangle key) = Some h.
Proof.
  intros Ht Hk. unfold hash_at. destruct (v !! mangle key) as [x|] eqn:E; [|by eexists].
  apply Ht in E. rewrite Hk in E. destruct x; simplify_eq/=; eauto.
Qed.

Lemma typed_insert v key x : typed v → key_kind key = Some (kind_of x) → typed (<[mangle key := x]> v).
Proof. intros Ht Hk key' y [[<-%(inj mangle) <-]|[_ E]]%lookup_insert_Some; [done|by apply Ht]. Qed.

Lemma typed_delete v k : typed v → typed (delete k v).
Proof. intros Ht key x [_ E]%lookup_delete_Some. by apply Ht. Qed.

Lemma typed_put_hash v key h : typed v → key_kind key = Some KHash → typed (put_hash v (mangle key) h).
Proof. intros Ht Hk. unfold put_hash. case_decide; [by apply typed_delete|by apply typed_insert]. Qed.

(** Preservation, for a command with a documented effect. *)
Lemma redis_doc_typed c v rep v' : well_typed c → typed v →
  redis_doc (mangle_cmd mangle c) v = Some (rep, v') → typed v'.
Proof.
  intros Hc Ht. destruct c; simpl; try done; simpl in Hc.
  - destruct (v !! _) as [[]|]; intros; simplify_eq; done.
  - intros [= _ <-]. by apply typed_insert.
  - destruct (v !! _); intros [= _ <-]; [done|]. by apply typed_insert.
  - destruct ks as [|k [|]]; try done. intros [= _ <-]. by apply typed_delete.
  - destruct fvs; [by intros [= _ <-]|]. destruct (hash_at v _); [|done]. intros [= _ <-]. by apply typed_insert.
  - destruct (hash_at v _); [|done]. by intros [= _ <-].
  - destruct fs; [by intros [= _ <-]|]. destruct (hash_at v _); [|done]. intros [= _ <-]. by apply typed_put_hash.
  - destruct fs; [by intros [= _ <-]|]. destruct (hash_at v _); [|done]. by intros [= _ <-].
  - destruct (hash_at v _); [|done]. by intros [= _ <-].
Qed.

(** Progress: a command on a key of the right type has a documented effect, but for
    the three whose replies come in no fixed order. *)
Lemma redis_doc_defined c v : well_typed c → typed v →
  match c with HGETALL _ | KEYS _ | HSCAN _ _ _ => True | _ => is_Some (redis_doc (mangle_cmd mangle c) v) end.
Proof.
  intros Hc Ht. destruct c; simpl in *; try done;
    try (destruct (typed_hash v k Ht Hc) as [h ->]; repeat case_match; eauto; done).
  - destruct (typed_str v k Ht Hc) as [->|[s ->]]; eauto.
  - destruct (v !! _); eauto.
  - destruct ks as [|? [|]]; simpl; eauto.
Qed.

(* ---------------------------------------------------------------------- *)
(** ** Commands of the client *)

(** What else Redis documents: HSCAN only reads, and a pattern that starts with a
    plain text matches keys that start with it. *)
Class ReadLaws (R : Type) `{Redis R} : Prop := {
  hscan_view : ∀ k c pat r, rview (rexec (HSCAN k c pat) r).2 = rview r;
  glob_prefix : ∀ p pat k, glob_plain p = true → rglob (p ++ pat)%string k = true → HasPrefix k p = true;
}.

#[local] Hint Extern 1 (PreOrder _) => apply _ : frame.
#[local] Hint Extern 2 (preserves _ (match ?x with _ => _ end)) => destruct x : frame.

Section client.
Context {R : Type} `{RedisLaws R} `{!ReadLaws R}.

(** Calls keep the keyspace typed. *)
Definition keeps (r r' : R) : Prop := typed (rview r) → typed (rview r').

#[global] Instance keeps_preorder : PreOrder keeps.
Proof. split; [intros r Ht; exact Ht|]. intros r1 r2 r3 H1 H2 Ht. exact (H2 (H1 Ht)). Qed.

Lemma rexec_keeps c r : well_typed c → keeps r (rexec (mangle_cmd mangle c) r).2.
Proof.
  intros Hc Ht. pose proof (redis_doc_defined c (rview r) Hc Ht) as Hd.
  assert (∀ rep v, redis_doc (mangle_cmd mangle c) (rview r) = Some (rep, v) →
    typed (rview (rexec (mangle_cmd mangle c) r).2)) as Hx.
  { intros rep v E. destruct (rexec_doc _ _ _ _ E) as [_ ->]. by eapply redis_doc_typed. }
  destruct c; try (exfalso; exact Hc); try (destruct Hd as [[? ?] E]; by eapply Hx).
  - simpl. match goal with |- context [KEYS ?p] => destruct (rexec_keys p r) as [_ V] end. by rewrite V.
  - simpl in Hc |- *. destruct (typed_hash _ _ Ht Hc) as [h Eh].
    destruct (rexec_hgetall _ _ _ Eh) as [_ V]. by rewrite V.
  - simpl. by rewrite hscan_view.
Qed.

Lemma keeps_conn : preserves keeps (getValidConnection (R:=R)).
Proof.
  intros r. unfold getValidConnection. pose proof (rconn_view r) as V. unfold keeps.
  destruct (rconn r) as [[e|] r1]; simpl in *; by rewrite V.
Qed.

Lemma keeps_do c : well_typed c → preserves keeps (do mangle c).
Proof.
  intros Hc. unfold do, doRaw. apply preserves_bind; [apply _|exact keeps_conn|]. intros _ r.
  pose proof (rexec_keeps c r Hc). destruct (rexec (mangle_cmd mangle c) r) as [[] r']; done.
Qed.

Lemma keeps_String m : preserves keeps m → preserves keeps (redis_String (R:=R) m).
Proof. intros Hm. unfold redis_String. apply preserves_bind; [apply _|done|]. intros []; auto with frame. Qed.

Lemma keeps_Int m : preserves keeps m → preserves keeps (redis_Int (R:=R) m).
Proof. intros Hm. unfold redis_Int. apply preserves_bind; [apply _|done|]. intros []; auto with frame. Qed.

Lemma keeps_script (script : R → reply * R) : (∀ r, keeps r (script r).2) → preserves keeps (doEval script).
Proof.
  intros Hs. unfold doEval. apply preserves_bind; [apply _|exact keeps_conn|]. intros _ r. specialize (Hs r).
  destruct (script r) as [[] r']; done.
Qed.

Lemma keeps_CAS key e d : key_kind key = Some KStr → preserves keeps (CAS mangle key e d).
Proof.
  intros Hk. unfold CAS. apply preserves_bind; [apply _|..].
  - apply preserves_attempt, keeps_String, keeps_script. intros r. unfold script_cas.
    pose proof (rexec_keeps (GET key) r Hk) as Hg. simpl in Hg.
    destruct (rexec (GET (mangle key)) r) as [[] r1]; try exact Hg; (destruct (String.eqb _ _); [|exact Hg]);
      (etrans; [exact Hg|]); exact (rexec_keeps (SET key d) r1 Hk).
  - intros [v|err]; [auto with frame|]. destruct (decide _); auto with frame.
Qed.
End client.

(* ---------------------------------------------------------------------- *)
(** ** Routing *)

Section routing.
Context {R K : Type} `{RedisLaws R} `{!ReadLaws R} `{Kafka K} `{MapIter}.

(** Redis is typed, and what the other sidecars are about to do to it keeps it so. *)
Definition world_typed (w : Routing.world R K) : Prop :=
  typed (rview (w_redis w)) ∧ Forall (λ f, ∀ r, keeps r (f r)) (w_env w).

Definition world_keeps (w w' : Routing.world R K) : Prop := world_typed w → world_typed w'.

#[global] Instance world_keeps_preorder : PreOrder world_keeps.
Proof. split; [intros w Ht; exact Ht|]. intros w1 w2 w3 H1' H2' Ht. exact (H2' (H1' Ht)). Qed.

Lemma wk_same (w w' : Routing.world R K) : w_redis w' = w_redis w → w_env w' = w_env w → world_keeps w w'.
Proof. intros E1 E2. unfold world_keeps, world_typed. by rewrite E1, E2. Qed.

Lemma wk_store {A} (m : M R A) : preserves keeps m → preserves world_keeps (Routing.store m).
Proof.
  intros Hm w [Ht He]. unfold Routing.store. destruct (w_env w) as [|f fs].
  - specialize (Hm (w_redis w) Ht). by destruct (m (w_redis w)).
  - apply Forall_cons in He as [Hf He]. specialize (Hm (f (w_redis w)) (Hf _ Ht)).
    by destruct (m (f (w_redis w))).
Qed.

Lemma wk_ctxErr : preserves world_keeps ctxErr.
Proof. intros w. apply wk_same; unfold ctxErr; by destruct (w_polls w). Qed.
Lemma wk_Int31n n : preserves world_keeps (Int31n n).
Proof. intros w. apply wk_same; unfold Int31n; by destruct (w_rand w). Qed.
Lemma wk_tables : preserves world_keeps tables.
Proof. intros w. by apply wk_same. Qed.
Lemma wk_produce pm : preserves world_keeps (produce pm).
Proof. intros w. apply wk_same; unfold produce; by destruct (k_send pm (w_kafka w)). Qed.
Lemma wk_cache (c : Routing.world R K → gmap string placementCacheEntry) :
  preserves world_keeps (modify (λ w, with_tab (set_cache (c w) (w_tab w)) w)).
Proof. intros w. by apply wk_same. Qed.
Lemma wk_CAS key e d : key_kind key = Some KStr → preserves world_keeps (Routing.store (CAS mangle key e d)).
Proof. intros Hk. by apply wk_store, keeps_CAS. Qed.
Lemma wk_Get key : key_kind key = Some KStr → preserves world_keeps (Routing.store (Get mangle key)).
Proof. intros Hk. by apply wk_store, keeps_String, keeps_do. Qed.
Lemma wk_Set key x : key_kind key = Some KStr → preserves world_keeps (Routing.store (Set_ mangle key x)).
Proof. intros Hk. by apply wk_store, keeps_String, keeps_do. Qed.
Lemma wk_Del key : preserves world_keeps (Routing.store (Del mangle key)).
Proof. by apply wk_store, keeps_Int, keeps_do. Qed.

Lemma place_kind a b : key_kind (place [a; b]) = Some KStr.
Proof. exact (rpc_kind (a ++ "_" ++ b)). Qed.

#[local] Hint Resolve wk_ctxErr wk_Int31n wk_tables wk_produce wk_cache wk_CAS wk_Get wk_Set wk_Del
  place_kind alt_kind : frame.

Lemma wk_routeToService s : preserves world_keeps (routeToService s).
Proof. unfold routeToService, choose. auto 10 with frame. Qed.

Lemma wk_place_turn key node next : key_kind key = Some KStr →
  preserves world_keeps (place_turn mangle key node next).
Proof. intros Hk. unfold place_turn. auto 15 with frame. Qed.
#[local] Hint Resolve wk_place_turn : frame.

Lemma wk_place_loop fuel key node next : key_kind key = Some KStr →
  preserves world_keeps (place_loop mangle fuel key node next).
Proof. intros Hk. revert node. induction fuel as [|fuel IH]; intros node; simpl; auto 15 with frame. Qed.
#[local] Hint Resolve wk_routeToService wk_place_loop : frame.

Lemma wk_routeToSession fuel s i : preserves world_keeps (routeToSession mangle fuel s i).
Proof. unfold routeToSession, choose. auto 15 with frame. Qed.
#[local] Hint Resolve wk_routeToSession : frame.

Lemma wk_Send fuel msg : preserves world_keeps (Send mangle fuel msg).
Proof. unfold Send, route. auto 25 with frame. Qed.

Lemma wk_resend fuel q drop : preserves world_keeps (resend mangle fuel q drop).
Proof. unfold resend, resend_to. auto 25 with frame. Qed.

Lemma wk_delSession s : preserves world_keeps (delSession mangle s).
Proof. unfold delSession. auto with frame. Qed.
End routing.

(* ---------------------------------------------------------------------- *)
(** ** State of actors *)

Section state.
Context {R : Type} `{RedisLaws R} `{!ReadLaws R} `{Json} `{MapIter}.
Context (Error : gerror → string).
Context (UnmarshalMapOp : string → option ActorState.submapOp).
Context (UnmarshalUpdateOp : string → option ActorState.stateUpdateOp) (Sprint : any → string).
Context (MarshalUpdateOp : Z → Z → res string).

Lemma state_kind t i : key_kind (ActorState.stateKey t i) = Some KHash.
Proof. exact (main_kind ("state" ++ sep ++ t ++ sep ++ i)). Qed.

#[local] Hint Resolve state_kind keeps_do keeps_Int keeps_String : frame.

Lemma keeps_answering {A} (m : M R A) fail k : preserves keeps m → (∀ a, preserves keeps (k a)) →
  preserves keeps (ActorState.answering m fail k).
Proof. intros Hm Hk. unfold ActorState.answering. apply preserves_bind; [apply _|by apply preserves_attempt|]. intros []; auto with frame. Qed.
#[local] Hint Resolve keeps_answering : frame.

Lemma keeps_StringMap m : preserves keeps m → preserves keeps (redis_StringMap (R:=R) m).
Proof.
  intros Hm. unfold redis_StringMap. apply preserves_bind; [apply _|done|]. intros []; auto with frame.
Qed.

Lemma keeps_Strings m : preserves keeps m → preserves keeps (redis_Strings (R:=R) m).
Proof. intros Hm. unfold redis_Strings. apply preserves_bind; [apply _|done|]. intros []; auto with frame. Qed.

Lemma keeps_HDelMultiple key fs : key_kind key = Some KHash → preserves keeps (HDelMultiple mangle key fs).
Proof. intros Hk. by apply keeps_Int, keeps_do. Qed.

Lemma keeps_HSetMultiple key m : key_kind key = Some KHash → preserves keeps (HSetMultiple mangle key m).
Proof. intros Hk. unfold HSetMultiple. destruct (decide _); [auto with frame|]. by apply keeps_Int, keeps_do. Qed.
#[local] Hint Resolve keeps_HDelMultiple keeps_HSetMultiple : frame.

Lemma keeps_HScan key c pat : key_kind key = Some KHash → preserves keeps (HScan mangle key c pat).
Proof.
  intros Hk. unfold HScan. apply preserves_bind; [apply _|by apply keeps_do|]. intros []; auto with frame.

Qed.
#[local] Hint Resolve keeps_HScan : frame.

Lemma keeps_subMapScan {A} fuel key mapName op (acc : A) : key_kind key = Some KHash →
  preserves keeps (ActorState.subMapScan mangle fuel key mapName op acc).
Proof.
  intros Hk. unfold ActorState.subMapScan. generalize 0. revert acc.
  induction fuel as [|fuel IH]; intros acc cur; simpl; auto 15 with frame.
Qed.
#[local] Hint Resolve keeps_subMapScan : frame.
Notation ps := ActorState.Params.

Lemma keeps_state (p : ps) value nil fuel request :
  preserves keeps (ActorState.routeImplContainsKey mangle Error p) ∧
  preserves keeps (ActorState.routeImplSet mangle Error p value) ∧
  preserves keeps (ActorState.routeImplGet mangle Error p nil) ∧
  preserves keeps (ActorState.routeImplDel mangle Error p) ∧
  preserves keeps (ActorState.routeImplDelAll mangle Error p) ∧
  preserves keeps (ActorState.routeImplSubmapOps mangle Error UnmarshalMapOp fuel p request) ∧
  preserves keeps (ActorState.routeImplGetAll mangle Error p) ∧
  preserves keeps (ActorState.routeImplStateUpdate mangle Error Sprint UnmarshalUpdateOp MarshalUpdateOp p request).
Proof.
  assert (key_kind (ActorState.key_of p) = Some KHash) as Hk by apply state_kind.
  split_and!.
  - apply keeps_answering; [by apply keeps_Int, keeps_do|auto with frame].
  - apply keeps_answering; [by apply keeps_Int, keeps_do|auto with frame].
  - apply keeps_answering; [by apply keeps_String, keeps_do|auto with frame].
  - apply keeps_answering; [by apply keeps_Int, keeps_do|auto with frame].
  - apply keeps_answering; [by apply keeps_Int, keeps_do|auto with frame].
  - unfold ActorState.routeImplSubmapOps, ActorState.marshal_response, ActorState.send_json. auto 25 with frame.
  - apply keeps_answering; [|auto 10 with frame]. unfold ActorState.actorGetAllState.
    apply preserves_bind; [apply _|by apply keeps_StringMap, keeps_do|auto with frame].
  - unfold ActorState.routeImplStateUpdate, ActorState.send_json. auto 25 with frame.
Qed.
End state.

(* ---------------------------------------------------------------------- *)
(** ** Bindings *)

Section bindings.
Context {R Q B : Type} `{RedisLaws R} `{!ReadLaws R} `{MapIter} `{Bindings.Bindings Q B}.
Context (Happ : has_char Separator AppName = false) (Hplain : glob_plain AppName = true).

Notation unmangle := (KarUnmangleKey AppName).

Definition bindings_keep (w w' : @Bindings.world R Q) : Prop := keeps (Bindings.w_redis w) (Bindings.w_redis w').

#[global] Instance bindings_keep_preorder : PreOrder bindings_keep.
Proof. split; [intros w Ht; exact Ht|]. intros w1 w2 w3 H1' H2' Ht. exact (H2' (H1' Ht)). Qed.

Lemma bk_pair {A} (m : M Q A) : preserves bindings_keep (Bindings.on_pair m).
Proof. intros w. unfold Bindings.on_pair. destruct (m (Bindings.w_pair w)). intros Ht. exact Ht. Qed.

Lemma bk_redis {A} (m : M R A) : preserves keeps m → preserves bindings_keep (Bindings.on_redis m).
Proof.
  intros Hm w. specialize (Hm (Bindings.w_redis w)). unfold Bindings.on_redis.
  by destruct (m (Bindings.w_redis w)).
Qed.
#[local] Hint Resolve bk_pair bk_redis keeps_HSetMultiple : frame.

Lemma binding_key_kind kd a p i : key_kind (Bindings.bindingKey kd a p i) = Some KHash.
Proof. apply (binding_kind (p ++ sep ++ kd ++ sep ++ Reminders.a_Type a ++ sep ++ Reminders.a_ID a ++ sep ++ i)). Qed.
#[local] Hint Resolve binding_key_kind : frame.

(** The names that [Keys] returns are of keys that match. *)
Lemma Keys_match pat r ks r' : Keys mangle unmangle pat r = (Ok ks, r') →
  ∀ u, u ∈ ks → ∃ k, rglob (mangle pat) k = true ∧ unmangle k = Ok u.
Proof.
  intros E. apply bind_Ok in E as (l & r1 & E & Er). injection Er as Em _.
  unfold redis_Strings in E. apply bind_Ok in E as (rep & r2 & E & El).
  unfold do, doRaw in E. apply bind_Ok in E as ([] & r3 & _ & E). simpl in E.
  destruct (rexec_keys (mangle pat) r3) as [(l' & El' & Hp) _].
  destruct (rexec (KEYS (mangle pat)) r3) as [rep' r4]. simpl in El'. subst rep'. injection E as <- <-.
  injection El as <- _. clear -Em Hp. rewrite <-list_fmap_compose, list_fmap_id in Em.
  assert (∀ k, k ∈ l' → rglob (mangle pat) k = true) as Hl.
  { intros k Hk. rewrite Hp in Hk. by apply list_elem_of_filter in Hk as [? _]. }
  clear Hp. revert ks Em. induction l' as [|k l' IH]; intros ks; simpl; [by intros [= <-] u ?%not_elem_of_nil|].
  destruct (unmangle k) as [u|e|s|] eqn:Eu; try done. destruct (map_res unmangle l') as [us| | |]; try done.
  intros [= <-] u' [->|Hu]%elem_of_cons.
  - exists k. split; [|done]. apply Hl. by left.
  - apply (IH (λ k Hk, Hl k (list_elem_of_further _ _ _ Hk)) us eq_refl u' Hu).
Qed.

Lemma mangle_split k p : HasPrefix k (mangle p) = true → ∃ t, k = mangle (p ++ t)%string.
Proof.
  intros (t & ->)%HasPrefix_split. exists t. unfold KarMangleKey. by rewrite !append_assoc.
Qed.

Lemma glob_plain_app p q : glob_plain (p ++ q)%string = glob_plain p && glob_plain q.
Proof. induction p as [|c p IH]; [done|].
  change (negb (glob_special c) && glob_plain (p ++ q)%string = negb (glob_special c) && glob_plain p && glob_plain q).
  by rewrite IH, andb_assoc.
Qed.

Lemma mangle_plain p : glob_plain p = true → glob_plain (mangle p) = true.
Proof. intros Hp. unfold KarMangleKey. rewrite !glob_plain_app, Hplain, Hp. done. Qed.

Lemma found_kind kd a i r ks r' : Keys mangle unmangle (Bindings.bindingKey kd a "*" i) r = (Ok ks, r') →
  ∀ u, u ∈ ks → key_kind u = Some KHash.
Proof.
  intros E u Hu. destruct (Keys_match _ _ _ _ E u Hu) as (k & Hg & Eu).
  assert (HasPrefix k (mangle "binding_") = true) as Hp.
  { assert (mangle (Bindings.bindingKey kd a "*" i) = (mangle "binding_" ++ ("*" ++ sep ++ kd ++ sep ++
      Reminders.a_Type a ++ sep ++ Reminders.a_ID a ++ sep ++ i))%string) as Em
      by (unfold KarMangleKey; rewrite !append_assoc; reflexivity).
    rewrite Em in Hg. eapply glob_prefix; [by apply mangle_plain|exact Hg]. }
  apply mangle_split in Hp as [t ->]. rewrite unmangle_mangle in Eu by done. injection Eu as <-. apply binding_kind.
Qed.

Lemma keeps_Keys pat : preserves keeps (Keys mangle unmangle pat).
Proof. unfold Keys. apply preserves_bind; [apply _|by apply keeps_Strings, keeps_do|auto with frame]. Qed.

Lemma bk_del_all found : preserves bindings_keep (Bindings.del_all mangle found).
Proof.
  induction found as [|b found IH]; simpl; [auto with frame|].
  apply preserves_bind; [apply _| |auto]. apply preserves_attempt, bk_redis. by apply keeps_Int, keeps_do.
Qed.

Lemma bk_deleteBindings a i : preserves bindings_keep (Bindings.deleteBindings mangle a i).
Proof.
  unfold Bindings.deleteBindings. apply preserves_bind; [apply _|apply bk_pair|]. intros found.
  apply preserves_bind; [apply _|apply bk_del_all|auto with frame].
Qed.

Lemma bk_loadBinding kd a p i : preserves bindings_keep (Bindings.loadBinding mangle kd a p i).
Proof.
  unfold Bindings.loadBinding.
  assert (preserves bindings_keep (Bindings.on_redis (Q:=Q) (HGetAll mangle (Bindings.bindingKey kd a p i)))) as Hg
    by (apply bk_redis, keeps_StringMap, keeps_do; apply binding_key_kind).
  auto 20 with frame.
Qed.

Lemma bk_putBinding kd a i payload : preserves bindings_keep (Bindings.putBinding mangle unmangle kd a i payload).
Proof.
  intros w. unfold Bindings.putBinding. unfold bind at 1.
  assert (∀ key code (w' : @Bindings.world R Q), key_kind key = Some KHash →
    bindings_keep w' ((match Bindings.parse a i key payload with
      | inr err => ret (Bindings.StatusBadRequest, Some err)
      | inl (b, m) =>
          Bindings.on_pair (Bindings.cancel_m a i) ;;*
          let* added := Bindings.on_pair (Bindings.add b) in
          match added with
          | (code, Some err) => ret (code, Some err)
          | (_, None) =>
              attempt (Bindings.on_redis (HSetMultiple mangle key m)) ;;*
              ret (code, None)
          end
      end) w').2) as Hrest.
  { intros key code w' Hk. revert w'.
    match goal with |- ∀ w', bindings_keep w' (?m w').2 => change (preserves bindings_keep m) end.
    auto 20 with frame. }
  pose proof (preserves_attempt bindings_keep _ (bk_redis _ (keeps_Keys (Bindings.bindingKey kd a "*" i))) w) as Hk.
  destruct (attempt (Bindings.on_redis (Keys mangle unmangle (Bindings.bindingKey kd a "*" i))) w) as [[x|e|s|] w1] eqn:Ek;
    try exact Hk.
  etrans; [exact Hk|].
  assert (∀ u, (match x with inl keys => keys | inr _ => [] end) !! 0%nat = Some u → key_kind u = Some KHash) as Hu.
  { apply attempt_Ok in Ek. destruct x as [keys|]; [|done]. unfold Bindings.on_redis in Ek.
    destruct (Keys mangle unmangle _ (Bindings.w_redis w)) as [a' r'] eqn:Er. injection Ek as -> _.
    intros u Hu. eapply found_kind; [exact Er|]. by eapply list_elem_of_lookup_2. }
  destruct (match x with inl keys => keys | inr _ => [] end) as [|key keys].
  - apply Hrest. apply binding_key_kind.
  - apply Hrest. by apply Hu.
Qed.
End bindings.

(* ---------------------------------------------------------------------- *)
(** ** Purging *)

Section purging.
Context {R : Type} `{RedisLaws R} `{!ReadLaws R} `{!KeyScanLaws R}.
Context (Hplain : glob_plain AppName = true).

(** Draining an application deletes nothing: the runtime writes no key of the family
    that the pattern of drain stands for, so the placements and the redirections
    stay in Redis whatever the application has done. *)
Theorem drain_deletes_nothing r : connected → typed (rview r) →
  ∃ n, ∀ fuel, (n ≤ fuel)%nat → ∃ r',
    Purge mangle fuel ("pubsub" ++ sep ++ "*") r = (Ok (0, None), r') ∧ rview r' = rview r.
Proof.
  intros Hc Ht. destruct (Purge_spec mangle (KarUnmangleKey AppName) ("pubsub" ++ sep ++ "*")%string r Hc) as [n Hn].
  exists n. intros fuel Hf. destruct (Hn fuel Hf) as (r' & E & V). exists r'. rewrite E, V.
  assert (∀ k x, rview r !! k = Some x → rglob (mangle ("pubsub" ++ sep ++ "*")) k ≠ true) as Hno.
  { intros k x Hk Hg.
    assert (mangle ("pubsub" ++ sep ++ "*") = (mangle "pubsub_" ++ "*")%string) as Em
      by (unfold KarMangleKey; rewrite !append_assoc; reflexivity).
    rewrite Em in Hg. apply glob_prefix in Hg; [|by apply mangle_plain].
    apply mangle_split in Hg as [t ->]. apply Ht in Hk. done. }
  split.
  - assert (filter (λ kx, rglob (mangle ("pubsub" ++ sep ++ "*")) kx.1 = true) (rview r) = ∅) as ->; [|done].
    apply map_empty. intros k. apply map_lookup_filter_None. right. intros x Hk. by apply Hno with x.
  - apply map_filter_id. intros k x Hk. by apply Hno with x.
Qed.

(** Purging deletes every key of the application and no other. *)
Theorem purge_deletes_all r `{!ScanLaws R} : connected →
  ∃ n, ∀ fuel, (n ≤ fuel)%nat → ∃ r' count,
    Purge mangle fuel "*" r = (Ok (count, None), r') ∧
    ∀ k, rview r' !! k = if HasPrefix k (mangle "") then None else rview r !! k.
Proof.
  intros Hc. destruct (Purge_spec mangle (KarUnmangleKey AppName) "*" r Hc) as [n Hn].
  exists n. intros fuel Hf. destruct (Hn fuel Hf) as (r' & E & V). exists r'. eexists. split; [exact E|].
  intros k. rewrite V, map_lookup_filter.
  assert (rglob (mangle "*") k = HasPrefix k (mangle "")) as Hg.
  { rewrite <-(rglob_prefix (mangle "") k) by (by apply mangle_plain).
    assert (mangle "*" = (mangle "" ++ "*")%string) as -> by (unfold KarMangleKey; rewrite !append_assoc; reflexivity).
    reflexivity. }
  destruct (rview r !! k) as [x|]; simpl; [|by destruct (HasPrefix k (mangle ""))].
  rewrite Hg. destruct (HasPrefix k (mangle "")); [by rewrite option_guard_False by naive_solver|by rewrite option_guard_True by done].
Qed.
End purging.

(* ---------------------------------------------------------------------- *)
(** ** The typing *)

Section soundness.
Context {R K Q B : Type} `{RedisLaws R} `{!ReadLaws R} `{Kafka K} `{MapIter} `{Json} `{Bindings.Bindings Q B}.

(** The operations of a sidecar on Redis, with the worlds they run in. *)
Inductive operation : Type :=
| OSend (fuel : nat) (msg : Message) (w : Routing.world R K)
| OResend (fuel : nat) (q : Request) (drop : bool) (w : Routing.world R K)
| ODelSession (s : Session) (w : Routing.world R K)
| OSetState (ps : ActorState.Params) (text : string)
| ODelState (ps : ActorState.Params)
| ODelAllState (ps : ActorState.Params)
| OUpdateState (ps : ActorState.Params) (request : string)
| OSubmap (fuel : nat) (ps : ActorState.Params) (request : string)
| OPutBinding (kd : string) (a : Reminders.Actor) (id payload : string) (q : Q)
| OLoadBinding (kd : string) (a : Reminders.Actor) (p id : string) (q : Q)
| ODeleteBindings (a : Reminders.Actor) (id : string) (q : Q).

Context (Error : gerror → string) (Sprint : any → string).
Context (UnmarshalMapOp : string → option ActorState.submapOp).
Context (UnmarshalUpdateOp : string → option ActorState.stateUpdateOp) (MarshalUpdateOp : Z → Z → res string).

(** Redis after an operation. *)
Definition perform (o : operation) (r : R) : R :=
  match o with
  | OSend fuel msg w => w_redis (Send mangle fuel msg (with_redis r w)).2
  | OResend fuel q drop w => w_redis (resend mangle fuel q drop (with_redis r w)).2
  | ODelSession s w => w_redis (delSession mangle s (with_redis r w)).2
  | OSetState ps value => (ActorState.routeImplSet mangle Error ps value r).2
  | ODelState ps => (ActorState.routeImplDel mangle Error ps r).2
  | ODelAllState ps => (ActorState.routeImplDelAll mangle Error ps r).2
  | OUpdateState ps request =>
      (ActorState.routeImplStateUpdate mangle Error Sprint UnmarshalUpdateOp MarshalUpdateOp ps request r).2
  | OSubmap fuel ps request => (ActorState.routeImplSubmapOps mangle Error UnmarshalMapOp fuel ps request r).2
  | OPutBinding kd a id payload q =>
      Bindings.w_redis (Bindings.putBinding mangle (KarUnmangleKey AppName) kd a id payload (Bindings.mkWorld q r)).2
  | OLoadBinding kd a p id q => Bindings.w_redis (Bindings.loadBinding mangle kd a p id (Bindings.mkWorld q r)).2
  | ODeleteBindings a id q => Bindings.w_redis (Bindings.deleteBindings mangle a id (Bindings.mkWorld q r)).2
  end.

(** The interference that an operation meets keeps the typing. *)
Definition fair (o : operation) : Prop :=
  match o with
  | OSend _ _ w | OResend _ _ _ w | ODelSession _ w => Forall (λ f, ∀ r, keeps r (f r)) (w_env w)
  | _ => True
  end.

Lemma perform_keeps o r : has_char Separator AppName = false → glob_plain AppName = true →
  fair o → keeps r (perform o r).
Proof.
  intros Happ Hplain Hf Ht.
  destruct o; cbn [perform fair] in *;
    try (pose proof (keeps_state Error UnmarshalMapOp UnmarshalUpdateOp Sprint MarshalUpdateOp ps) as Hs).
  - by apply (wk_Send fuel msg (with_redis r w)).
  - by apply (wk_resend fuel q drop (with_redis r w)).
  - by apply (wk_delSession s (with_redis r w)).
  - by apply (Hs text "" 0%nat "").
  - by apply (Hs "" "" 0%nat "").
  - by apply (Hs "" "" 0%nat "").
  - by apply (Hs "" "" 0%nat request).
  - by apply (Hs "" "" fuel request).
  - by apply (bk_putBinding Happ Hplain kd a id payload (Bindings.mkWorld q r)).
  - by apply (bk_loadBinding kd a p id (Bindings.mkWorld q r)).
  - by apply (bk_deleteBindings a id (Bindings.mkWorld q r)).
Qed.

(** C11: The keyspace is well typed: however the sidecars operate on Redis, every key of
    the application stays in one of its families and holds a value of the type of
    its family, so a command on a key of a family finds either nothing or a value
    of its type. *)
Theorem keyspace_typed os r : has_char Separator AppName = false → glob_plain AppName = true →
  Forall fair os → typed (rview r) →
  typed (rview (foldl (λ r o, perform o r) r os)) ∧
  ∀ key kd, key_kind key = Some kd → match rview (foldl (λ r o, perform o r) r os) !! mangle key with
                                     | Some x => kind_of x = kd
                                     | None => True
                                     end.
Proof.
  intros Happ Hplain Hos Ht.
  assert (typed (rview (foldl (λ r o, perform o r) r os))) as Hx.
  { revert r Ht. induction Hos as [|o os Ho Hos IH]; intros r Ht; simpl; [done|].
    apply IH. by apply perform_keeps. }
  split; [exact Hx|]. intros key kd Hk. destruct (_ !! mangle key) as [x|] eqn:E; [|done].
  apply Hx in E. congruence.
Qed.
End soundness.
End typing.

(* ---------------------------------------------------------------------- *)
(** ** Witnesses *)

Lemma mini_glob_prefix p pat k : glob_plain p = true → glob (p ++ pat) k = true → HasPrefix k p = true.
Proof.
  revert k. induction p as [|c p IH]; intros k Hp Hg; [by destruct k|].
  simpl in Hp. apply andb_prop in Hp as [Hc Hp].
  change (glob (String c (p ++ pat)) k = true) in Hg. cbn [glob] in Hg.
  rewrite decide_False in Hg by (intros ->; done).
  destruct k as [|c' k]; [done|]. apply andb_prop in Hg as [Hcc Hg].
  cbn [HasPrefix]. rewrite Hcc. by apply IH.
Qed.

Lemma mini_hscan_view k c pat v : (mini_exec (HSCAN k c pat) v).2 = v.
Proof.
  unfold mini_exec. simpl. destruct pat as [pat|]; [|done]. destruct (hash_at v k); [|done]. by destruct (_ || _).
Qed.

Lemma MiniRedis_read : @ReadLaws _ MiniRedis.
Proof. split; [exact (λ k c pat r, mini_hscan_view k c pat r)|exact mini_glob_prefix]. Qed.

Module Witness.
#[local] Existing Instance MiniRedis.
#[local] Existing Instance MiniRedis_laws.
#[local] Existing Instance MiniRedis_read.
#[local] Existing Instance MiniRedis_key_scan.
#[local] Existing Instance MiniKafka.
#[local] Existing Instance canonical_iter.
#[local] Existing Instance MiniJson.MiniJson.
#[local] Existing Instance Reminders.Witness.decimal_text.
#[local] Instance reminders : Bindings.Bindings Reminders.reminderQueue Reminders.Reminder :=
  Bindings.reminder_bindings Bindings.Witness.Unmarshal0.

(** Another sidecar places the same actor while this one sends it a request. *)
Definition racing : Routing.world (gmap string rvalue) (gmap Z (list ProducerMessage)) :=
  mkWorld Routing.Witness.t0 ∅ ∅ [] [0] [λ r, (perform (Q:=Reminders.reminderQueue) "a"
    (λ _, "") (λ _, "") (λ _, None) (λ _, None) (λ _ _, Ok "")
    (OSend 2 (MRequest Routing.Witness.q0) (mkWorld Routing.Witness.t0 ∅ ∅ [] [1] [])) r)].

Definition ops : list (operation (R:=gmap string rvalue) (K:=gmap Z (list ProducerMessage)) (Q:=Reminders.reminderQueue)) := [
  OSend 3 (MRequest Routing.Witness.q0) racing;
  OSetState (ActorState.mkParams "svc" "x" "k" "") "1";
  OPutBinding "reminders" Bindings.Witness.acct "r" "once" Reminders.empty_queue].

Definition after : gmap string rvalue :=
  foldl (λ r o, perform "a" (λ _, "") (λ _, "") (λ _, None) (λ _, None) (λ _ _, Ok "") o r) ∅ ops.

Lemma fair_ops : Forall (fair "a") ops.
Proof.
  apply Forall_cons. split; [|by repeat (apply Forall_cons; split)].
  apply Forall_cons. split; [|by apply Forall_nil]. intros r. apply perform_keeps; [apply _|apply _|done|done|]. simpl. by apply Forall_nil.
Qed.

Lemma keyspace_typed_witness : typed "a" ∅ ∧ typed "a" after ∧
  (kind_of <$> [default (VStr "") (after !! "kar_a_rpc_svc_x"); default (VStr "") (after !! "kar_a_main_state_svc_x");
                default (VStr "") (after !! "kar_a_binding_0_reminders_Account_1_r")]) = [KStr; KHash; KHash].
Proof.
  assert (typed "a" ∅) as Ht by (intros k x E; by rewrite lookup_empty in E).
  split; [exact Ht|]. split; [|vm_compute; reflexivity].
  apply (keyspace_typed "a" (λ _, "") (λ _, "") (λ _, None) (λ _, None) (λ _ _, Ok "") ops ∅
    eq_refl eq_refl fair_ops Ht).
Defined.

(** After draining, the placement is where it was. *)
Lemma drain_witness : ∃ n, ∀ fuel, (n ≤ fuel)%nat →
  ∃ r', Purge (KarMangleKey "a") fuel "pubsub_*" {["kar_a_rpc_svc_x" := VStr "n1"]} = (Ok (0, None), r') ∧
    r' !! "kar_a_rpc_svc_x" = Some (VStr "n1").
Proof.
  destruct (drain_deletes_nothing "a" eq_refl {["kar_a_rpc_svc_x" := VStr "n1"]}) as [n Hn].
  - done.
  - intros k x Hk. simpl in Hk. apply lookup_singleton_Some in Hk as [E <-]. injection E as E. change ("rpc_svc_x" = k) in E. subst k. reflexivity.
  - exists n. intros fuel Hf. destruct (Hn fuel Hf) as (r' & E & V). exists r'. split; [exact E|]. simpl in V. by rewrite V.
Defined.

Example purge_run : Purge (KarMangleKey "a") 5 "*" {["kar_a_rpc_svc_x" := VStr "n1"; "kar_b_rpc_svc_x" := VStr "n1"]} =
  (Ok (1, None), {["kar_b_rpc_svc_x" := VStr "n1"]}).
Proof. vm_compute. reflexivity. Qed.
End Witness.

End Keyspace.
