(* ===== verification/LogAnalyzer.v ===== *)
(** * LogAnalyzer: what a failure cost

    Models src/core/cmd/kar-log-analyzer/main.go: the events read from the logs of
    the fault driver, of Kafka and of the sidecar, and their correlation.  A log is
    the list of its lines; the indexes that advance through the events are the
    events that are left.  [Parse] is [time.Parse]. *)

From S2P Require Import Prelude GoLib.
Open Scope string_scope.
Open Scope Z_scope.
Open Scope list_scope.
Open Scope go_scope.

Module LogAnalyzer.

(* ---------------------------------------------------------------------- *)
(** ** Events *)

Record rebalanceEvent : Type := mkRebalance { r_startTime : Z; endTime : Z }.
Record failureEvent : Type := mkFailure { f_startTime : Z; f_maximumOrder : Z }.

Record summary : Type := mkSummary {
  startTime : Z;
  totalDuration : Z;
  maximumOrder : Z;
  detection : Z;
  consensus : Z;
  reconciliation : Z;
  failureCount : Z;
}.

#[export] Instance summary_eq_dec : EqDecision summary.
Proof. solve_decision. Defined.

(** [t.Sub(u)], which saturates. *)
Definition Sub (t u : Z) : Z := Z.max (- 2 ^ 63) (Z.min (2 ^ 63 - 1) (t - u)).

(** [time.Duration(n) * time.Millisecond], in 64 bits. *)
Definition milliseconds (n : Z) : Z := (n * 1000000 + 2 ^ 63) mod 2 ^ 64 - 2 ^ 63.

Section reading.
Context (Parse : string → string → option Z).

(** The two parts of a line around its only [sep], if it is one of the lines that
    matter. *)
Definition two_parts (line sep : string) : option (string * string) :=
  match SplitStr line sep with [a; b] => Some (a, b) | _ => None end.

Definition parse_time (layout text : string) : res Z :=
  match Parse layout (TrimSpace text) with Some ts => Ok ts | None => Panic "Can't parse time" end.

Fixpoint readKarLog (lines : list string) (processing : list Z) : res (list Z) :=
  match lines with
  | [] => Ok processing
  | line :: lines' =>
      match two_parts line "[INFO]" with
      | None => readKarLog lines' processing
      | Some (time, text) =>
          match parse_time "2006/01/02 15:04:05" time with
          | Ok ts => readKarLog lines' (if Contains text "processing messages" then processing ++ [ts] else processing)
          | Err e => Err e | Panic s => Panic s | OutOfFuel => OutOfFuel
          end
      end
  end.

Fixpoint readKafkaLog (lines : list string) (prepare : Z) (rebalances : list rebalanceEvent)
    : res (list rebalanceEvent) :=
  match lines with
  | [] => Ok rebalances
  | line :: lines' =>
      match two_parts line " INFO " with
      | None => readKafkaLog lines' prepare rebalances
      | Some (time, text) =>
          match parse_time "[2006-01-02 15:04:05]" time with
          | Ok ts =>
              if Contains text "Preparing to rebalance group" then readKafkaLog lines' ts rebalances
              else if Contains text "Stabilized group" then
                readKafkaLog lines' zeroTime (rebalances ++ [mkRebalance prepare ts])
              else readKafkaLog lines' prepare rebalances
          | Err e => Err e | Panic s => Panic s | OutOfFuel => OutOfFuel
          end
      end
  end.

(** The orders since the last failure belong to it. *)
Definition close_failure (maxOrderLatency : Z) (failures : list failureEvent) : list failureEvent :=
  match reverse failures with
  | [] => []
  | f :: fs => reverse (mkFailure (f_startTime f) (milliseconds maxOrderLatency) :: fs)
  end.

Fixpoint read_app (lines : list string) (maxOrderLatency : Z) (failures : list failureEvent)
    : res (Z * list failureEvent) :=
  match lines with
  | [] => Ok (maxOrderLatency, failures)
  | line :: lines' =>
      if Contains line "k3d node stop" then
        let tmp := ReplaceOne (default "" (head (SplitStr line "k3d"))) ", 24:" ", 00:" in
        match parse_time "1/2/2006, 15:04:05" tmp with
        | Ok ts => read_app lines' 0 (close_failure maxOrderLatency failures ++ [mkFailure ts 0])
        | Err e => Err e | Panic s => Panic s | OutOfFuel => OutOfFuel
        end
      else if Contains line "child message:" then
        match SplitStr line "]" with
        | _ :: o :: _ =>
            match Atoi (TrimSpace o) with
            | (orderLatency, None) => read_app lines' (Z.max maxOrderLatency orderLatency) failures
            | _ => read_app lines' maxOrderLatency failures
            end
        | _ => Panic "index out of range"
        end
      else read_app lines' maxOrderLatency failures
  end.

Definition readAppLog (lines : list string) : res (list failureEvent) :=
  match read_app lines 0 [] with
  | Ok (_, []) => Panic "index out of range"
  | Ok (maxOrderLatency, failures) => Ok (close_failure maxOrderLatency failures)
  | Err e => Err e | Panic s => Panic s | OutOfFuel => OutOfFuel
  end.
End reading.

(* ---------------------------------------------------------------------- *)
(** ** Correlation *)

(** Advance to the first event that is not [before]; the loop indexes the slice
    without a test. *)
Fixpoint seek {A} (before : A → bool) (l : list A) : res (A * list A) :=
  match l with
  | [] => Panic "index out of range"
  | x :: l' => if before x then seek before l' else Ok (x, l)
  end.

(** The failures before the sidecars process messages again at [p] belong to the
    same outage. *)
Fixpoint merge (p maxOrder numFailures : Z) (failures : list failureEvent) : Z * Z * list failureEvent :=
  match failures with
  | sf :: fs =>
      if After p (f_startTime sf) then
        merge p (if maxOrder <? f_maximumOrder sf then f_maximumOrder sf else maxOrder) (numFailures + 1) fs
      else (maxOrder, numFailures, failures)
  | [] => (maxOrder, numFailures, failures)
  end.

(** An outage: its summary, or the number of failures that were skipped. *)
Abbreviation outage := (summary + Z)%type (only parsing).

Definition summarize (pf : failureEvent) (r : rebalanceEvent) (p maxOrder numFailures : Z) : summary :=
  mkSummary (f_startTime pf) (Sub p (f_startTime pf)) maxOrder (Sub (r_startTime r) (f_startTime pf))
    (Sub (endTime r) (r_startTime r)) (Sub p (endTime r)) numFailures.

(** [failureHisto] has ten counters, so ten failures are out of its range. *)
Definition count (histo : list Z) (numFailures : Z) : res (list Z) :=
  match histo !! Z.to_nat numFailures with
  | Some n => Ok (<[Z.to_nat numFailures := n + 1]> histo)
  | None => Panic "index out of range"
  end.

Fixpoint correlate (fuel : nat) (failures : list failureEvent) (rebalances : list rebalanceEvent)
    (processing : list Z) (histo : list Z) (outages : list outage) : res (list outage * list Z) :=
  match fuel, failures with
  | _, [] => Ok (outages, histo)
  | O, _ => OutOfFuel
  | S fuel', pf :: failures' =>
      match seek (λ r, Before (r_startTime r) (f_startTime pf)) rebalances with
      | Ok (r, rebalances') =>
          match seek (λ p, Before p (endTime r)) processing with
          | Ok (p, processing') =>
              let '(maxOrder, numFailures, rest) := merge p (f_maximumOrder pf) 1 failures' in
              if 10 <? numFailures then
                correlate fuel' rest rebalances' processing' histo (outages ++ [inr numFailures])
              else match count histo numFailures with
                   | Ok histo' =>
                       correlate fuel' rest rebalances' processing' histo'
                         (outages ++ [inl (summarize pf r p maxOrder numFailures)])
                   | Err e => Err e | Panic s => Panic s | OutOfFuel => OutOfFuel
                   end
          | Err e => Err e | Panic s => Panic s | OutOfFuel => OutOfFuel
          end
      | Err e => Err e | Panic s => Panic s | OutOfFuel => OutOfFuel
      end
  end.

Definition correlateLogs (failures : list failureEvent) (rebalances : list rebalanceEvent) (processing : list Z)
    : res (list outage * list Z) :=
  correlate (length failures) failures rebalances processing (replicate 10 0) [].

(* ---------------------------------------------------------------------- *)
(** ** Outages *)

Section outages.
Context (rebalances : list rebalanceEvent) (processing : list Z).

(** The failures [g] make the outage [o]: the first rebalance that starts after the
    first of them detects it, and messages are processed again after it. *)
Record covers (g : list failureEvent) (o : outage) (pf : failureEvent) (rest : list failureEvent)
    (r : rebalanceEvent) (p : Z) : Prop := {
  cov_group : g = pf :: rest;
  cov_events : r ∈ rebalances ∧ p ∈ processing;
  cov_order : f_startTime pf <= r_startTime r ∧ endTime r <= p;
  cov_merged : Forall (λ f, f_startTime f < p) rest;
  cov_outage : match o with
               | inl s => s = summarize pf r p (foldl (λ m f, Z.max m (f_maximumOrder f)) (f_maximumOrder pf) rest)
                                 (Z.of_nat (length g)) ∧ (length g < 10)%nat
               | inr n => n = Z.of_nat (length g) ∧ (10 < length g)%nat
               end;
}.

Definition covered (g : list failureEvent) (o : outage) : Prop := ∃ pf rest r p, covers g o pf rest r p.

(** How many outages had so many failures. *)
Definition had (n : Z) (o : outage) : bool := match o with inl s => failureCount s =? n | inr _ => false end.
Definition with_count (n : Z) (os : list outage) : Z := Z.of_nat (length (filter (had n) os)).

Lemma seek_Ok {A} (before : A → bool) l x l' : seek before l = Ok (x, l') →
  before x = false ∧ x ∈ l' ∧ ∀ y, y ∈ l' → y ∈ l.
Proof.
  induction l as [|y l IH]; [done|]. simpl. destruct (before y) eqn:Eb.
  - intros E. destruct (IH E) as (H1 & H2 & H3). split_and!; [done|done|]. intros z Hz. right. auto.
  - intros [= -> <-]. split_and!; [done|by left|done].
Qed.

(** An event that is not before stays ahead. *)
Lemma seek_found {A} (before : A → bool) l x : x ∈ l → before x = false →
  ∃ y l', seek before l = Ok (y, l') ∧ x ∈ l'.
Proof.
  induction l as [|y l IH]; [by intros ?%not_elem_of_nil|]. intros Hx Hb. simpl. destruct (before y) eqn:Ey.
  - apply elem_of_cons in Hx as [->|Hx]; [congruence|]. by apply IH.
  - by exists y, (y :: l).
Qed.

Lemma merge_spec p m n fs : ∃ merged rest,
  fs = merged ++ rest ∧ Forall (λ f, f_startTime f < p) merged ∧
  merge p m n fs = (foldl (λ m f, Z.max m (f_maximumOrder f)) m merged, n + Z.of_nat (length merged), rest).
Proof.
  revert m n. induction fs as [|f fs IH]; intros m n; simpl; [exists [], []; by rewrite Z.add_0_r|].
  unfold After. destruct (Z.ltb_spec (f_startTime f) p).
  - destruct (IH (if m <? f_maximumOrder f then f_maximumOrder f else m) (n + 1)) as (mg & rest & -> & Hm & E).
    exists (f :: mg), rest. split_and!; [done|by constructor|]. rewrite E. simpl.
    assert ((if m <? f_maximumOrder f then f_maximumOrder f else m) = Z.max m (f_maximumOrder f)) as ->
      by (destruct (Z.ltb_spec m (f_maximumOrder f)); lia).
    do 2 f_equal. lia.
  - exists [], (f :: fs). by rewrite Z.add_0_r.
Qed.

Lemma filter_had_app n os o : with_count n (os ++ [o]) = with_count n os + (if had n o then 1 else 0).
Proof.
  unfold with_count. rewrite filter_app, length_app, filter_cons, filter_nil.
  destruct (had n o) eqn:E; case_decide as D; simpl in *; lia || (rewrite ?E in D; done).
Qed.

(** The counters are those of the outages. *)
Definition counted (os : list outage) (histo : list Z) : Prop :=
  length histo = 10%nat ∧ ∀ i, (i < 10)%nat → histo !! i = Some (with_count (Z.of_nat i) os).

Lemma count_counted os histo s histo' : counted os histo → 0 <= failureCount s →
  count histo (failureCount s) = Ok histo' → failureCount s < 10 ∧ counted (os ++ [inl s]) histo'.
Proof.
  intros [Hl Hc] H0 E. unfold count in E. destruct (histo !! Z.to_nat (failureCount s)) as [n|] eqn:En; [|done].
  injection E as <-. pose proof (lookup_lt_Some _ _ _ En) as Hlt. split; [lia|]. split; [by rewrite length_insert|].
  intros i Hi. rewrite filter_had_app. simpl. destruct (decide (i = Z.to_nat (failureCount s))) as [->|Hne].
  - rewrite list_lookup_insert_eq by lia. rewrite Hc in En by lia. injection En as <-.
    rewrite Z2Nat.id by lia. by rewrite Z.eqb_refl.
  - rewrite list_lookup_insert_ne by done. rewrite Hc by lia. destruct (Z.eqb_spec (failureCount s) (Z.of_nat i)); [lia|].
    by rewrite Z.add_0_r.
Qed.

Lemma correlate_spec fuel fs rbs ps histo os os' histo' :
  (∀ r, r ∈ rbs → r ∈ rebalances) → (∀ p, p ∈ ps → p ∈ processing) → counted os histo →
  correlate fuel fs rbs ps histo os = Ok (os', histo') →
  ∃ groups news, fs = concat groups ∧ os' = os ++ news ∧ Forall2 covered groups news ∧ counted os' histo'.
Proof.
  revert fs rbs ps histo os. induction fuel as [|fuel IH]; intros [|pf fs] rbs ps histo os Hr Hp Hc; simpl; try done.
  1,2: intros [= <- <-]; exists [], []; rewrite app_nil_r; (split_and!; [done|done|constructor|done]).
  destruct (seek _ rbs) as [[r rbs']| | |] eqn:Er; try done. apply seek_Ok in Er as (Hrb & Hrin & Hrs).
  destruct (seek _ ps) as [[p ps']| | |] eqn:Ep; try done. apply seek_Ok in Ep as (Hpb & Hpin & Hps).
  destruct (merge_spec p (f_maximumOrder pf) 1 fs) as (mg & rest & -> & Hmg & ->).
  apply Z.ltb_ge in Hrb, Hpb.
  assert (∀ o os1 histo1, counted os1 histo1 → os1 = os ++ [o] →
    covered (pf :: mg) o → correlate fuel rest rbs' ps' histo1 os1 = Ok (os', histo') →
    ∃ groups news, pf :: mg ++ rest = concat groups ∧ os' = os ++ news ∧ Forall2 covered groups news ∧
      counted os' histo') as Hgo.
  { intros o os1 histo1 Hc1 -> Ho E. destruct (IH rest rbs' ps' histo1 _ ltac:(auto) ltac:(auto) Hc1 E)
      as (gs & news & -> & -> & Hf & Hc').
    exists ((pf :: mg) :: gs), (o :: news). split_and!; [done|by rewrite <-app_assoc|by constructor|done]. }
  destruct (Z.ltb_spec 10 (1 + Z.of_nat (length mg))).
  - apply (Hgo (inr (1 + Z.of_nat (length mg)))); [|done|].
    + destruct Hc as [Hl Hc]. split; [done|]. intros i Hi. rewrite filter_had_app, Hc by done. simpl. by rewrite Z.add_0_r.
    + exists pf, mg, r, p. split; [done|by auto|done|done|]. simpl. lia.
  - destruct (count histo (1 + Z.of_nat (length mg))) as [histo1| | |] eqn:Ec; try done.
    set (s := summarize _ _ _ _ _) in *.
    destruct (count_counted os histo s histo1 Hc) as [Hlt Hc1]; [simpl; lia|exact Ec|].
    apply (Hgo (inl s)); [done|done|]. exists pf, mg, r, p. split; [done|by auto|done|done|]. simpl in *. unfold s.
    split; [|lia]. do 2 f_equal. lia.
Qed.

(** Every failure belongs to exactly one outage, in order: a correlation that ends
    divides the failures into runs of consecutive ones; each run of fewer than ten
    is summarised with its number and its slowest order, from its first failure to
    the first processing after the rebalance that detected it, and each run of more
    is skipped; and the histogram counts the outages by their number of
    failures. *)
Theorem outages_partition failures out histo :
  correlateLogs failures rebalances processing = Ok (out, histo) →
  ∃ groups, failures = concat groups ∧ Forall2 covered groups out ∧
    length histo = 10%nat ∧ ∀ i, (i < 10)%nat → histo !! i = Some (with_count (Z.of_nat i) out).
Proof.
  intros E. apply (correlate_spec _ _ _ _ _ [] out histo) in E as (gs & news & -> & -> & Hf & Hl & Hc); [|done|done|].
  - by exists gs.
  - split; [done|]. intros i Hi. rewrite lookup_replicate_2 by done. done.
Qed.

(** An event that every failure precedes, and one that every rebalance precedes. *)
Lemma correlate_total fuel fs rbs ps histo os r p :
  (length fs ≤ fuel)%nat → (length fs < 10)%nat → length histo = 10%nat →
  r ∈ rbs → Forall (λ f, f_startTime f <= r_startTime r) fs →
  p ∈ ps → Forall (λ r, endTime r <= p) rbs →
  ∃ out, correlate fuel fs rbs ps histo os = Ok out.
Proof.
  revert fs rbs ps histo os. induction fuel as [|fuel IH]; intros [|pf fs] rbs ps histo os Hf Hn Hl Hr Hfs Hp Hrs;
    simpl in *; try lia; [by eexists..|].
  apply Forall_cons in Hfs as [Hpf Hfs].
  destruct (seek_found (λ r, Before (r_startTime r) (f_startTime pf)) rbs r Hr) as (r1 & rbs' & Er & Hr');
    [apply Z.ltb_ge; lia|]. rewrite Er. apply seek_Ok in Er as (_ & Hr1 & Hsub).
  assert (Forall (λ r, endTime r <= p) rbs') as Hrs'.
  { rewrite Forall_forall in Hrs |- *. auto. }
  destruct (seek_found (λ p, Before p (endTime r1)) ps p Hp) as (p1 & ps' & Ep & Hp').
  { apply Z.ltb_ge. rewrite Forall_forall in Hrs'. by apply Hrs'. }
  rewrite Ep. destruct (merge_spec p1 (f_maximumOrder pf) 1 fs) as (mg & rest & -> & _ & ->).
  rewrite length_app in *. apply Forall_app in Hfs as [_ Hfs].
  destruct (Z.ltb_spec 10 (1 + Z.of_nat (length mg))); [lia|].
  unfold count. destruct (lookup_lt_is_Some_2 histo (Z.to_nat (1 + Z.of_nat (length mg)))) as [n ->]; [lia|].
  apply IH; try done; [lia|lia|by rewrite length_insert].
Qed.

(** Fewer than ten failures are always analysed when the logs go on to the end: a
    rebalance starts after the last failure, and messages are processed after the
    last rebalance. *)
Theorem complete_logs_analysed failures r p :
  (length failures < 10)%nat → r ∈ rebalances → Forall (λ f, f_startTime f <= r_startTime r) failures →
  p ∈ processing → Forall (λ r, endTime r <= p) rebalances →
  ∃ out, correlateLogs failures rebalances processing = Ok out.
Proof. intros Hn Hr Hf Hp Hrs. by eapply correlate_total. Qed.
End outages.

Lemma Sub_exact t u : Z.abs t < 2 ^ 61 → Z.abs u < 2 ^ 61 → Sub t u = t - u.
Proof.
  unfold Sub. change (2 ^ 61) with 2305843009213693952. change (2 ^ 63) with 9223372036854775808. lia.
Qed.

(** The parts of an outage add up to it, and none is negative, for times that are
    less than 146 years apart. *)
Theorem outage_adds_up rebalances processing g s :
  covered rebalances processing g (inl s) →
  (∀ f, f ∈ g → Z.abs (f_startTime f) < 2 ^ 61) →
  Forall (λ r, r_startTime r <= endTime r ∧ Z.abs (r_startTime r) < 2 ^ 61 ∧ Z.abs (endTime r) < 2 ^ 61) rebalances →
  Forall (λ p, Z.abs p < 2 ^ 61) processing →
  totalDuration s = detection s + consensus s + reconciliation s ∧
  0 <= detection s ∧ 0 <= consensus s ∧ 0 <= reconciliation s.
Proof.
  intros (pf & rest & r & p & [-> [Hr Hp] [Ho1 Ho2] _ [-> _]]) Hg Hrs Hps.
  rewrite Forall_forall in Hrs. rewrite Forall_forall in Hps. destruct (Hrs r Hr) as (H1 & H2 & H3). specialize (Hps p Hp).
  specialize (Hg pf (list_elem_of_here _ _)). cbn [summarize totalDuration detection consensus reconciliation].
  rewrite !Sub_exact by done. clear -H1 Ho1 Ho2. lia.
Qed.

(* ---------------------------------------------------------------------- *)
(** ** Witnesses *)

Module Witness.
Definition parse0 (layout text : string) : option Z := match Atoi text with (n, None) => Some n | _ => None end.

Definition kafka : list string :=
  ["10 INFO Preparing to rebalance group"; "12 INFO Stabilized group"; "noise";
   "30 INFO Preparing to rebalance group"; "33 INFO Stabilized group"].
Definition kar : list string := ["15 [INFO] processing messages"; "20 [INFO] other"; "40 [INFO] processing messages"].
Definition app : list string :=
  ["8 k3d node stop"; "child message: ] 7"; "child message: ] x"; "9 k3d node stop"; "child message: ] 9";
   "29 k3d node stop"; "child message: ] 4"].

Definition rebalances : list rebalanceEvent := [mkRebalance 10 12; mkRebalance 30 33].
Definition processing : list Z := [15; 40].
Definition failures : list failureEvent := [mkFailure 8 7000000; mkFailure 9 9000000; mkFailure 29 4000000].

Example read_logs : readKafkaLog parse0 kafka zeroTime [] = Ok rebalances ∧ readKarLog parse0 kar [] = Ok processing ∧
  readAppLog parse0 app = Ok failures.
Proof. vm_compute. split_and!; reflexivity. Qed.

Definition out : list outage := [inl (mkSummary 8 7 9000000 2 2 3 2); inl (mkSummary 29 11 4000000 1 3 7 1)].

Lemma outages_partition_witness : correlateLogs failures rebalances processing = Ok (out, [0; 1; 1; 0; 0; 0; 0; 0; 0; 0]) ∧
  ∃ groups, failures = concat groups ∧ Forall2 (covered rebalances processing) groups out.
Proof.
  assert (correlateLogs failures rebalances processing = Ok (out, [0; 1; 1; 0; 0; 0; 0; 0; 0; 0])) as E
    by (vm_compute; reflexivity).
  split; [exact E|]. destruct (outages_partition rebalances processing failures out _ E) as (gs & Hg & Hf & _).
  by exists gs.
Defined.

Lemma complete_logs_witness : ∃ out, correlateLogs failures rebalances processing = Ok out.
Proof.
  apply (complete_logs_analysed rebalances processing failures (mkRebalance 30 33) 40).
  - simpl. lia.
  - right. left.
  - repeat constructor; simpl; lia.
  - right. left.
  - repeat constructor; simpl; lia.
Defined.

(** A log without failures, a log that ends before the sidecars recover, and an
    outage of ten failures crash the analyzer. *)
Example no_failures : readAppLog parse0 ["child message: ] 7"] = Panic "index out of range".
Proof. vm_compute. reflexivity. Qed.

Example cut_log : correlateLogs failures rebalances [15] = Panic "index out of range".
Proof. vm_compute. reflexivity. Qed.

Example ten_failures : correlateLogs (replicate 10 (mkFailure 8 0)) rebalances processing = Panic "index out of range".
Proof. vm_compute. reflexivity. Qed.

Example eleven_failures : correlateLogs (replicate 11 (mkFailure 8 0)) rebalances processing = Ok ([inr 11], replicate 10 0).
Proof. vm_compute. reflexivity. Qed.
End Witness.
End LogAnalyzer.
