(* ===== verification/Router.v ===== *)
(** * Router: the endpoints of the runtime

    Models the table of routes in src/core/internal/runtime/runtime-main.go
    (server).  The router is a third-party package: it is the class [HttpRouter],
    whose laws say what the package documents of the paths that a route matches
    (a parameter stands for one segment that is not empty, a catch-all for the rest
    of the path).  The handlers are named as in the source; they are modelled in
    [Routes], [ActorState] and [DebugRoutes]. *)

From S2P Require Import Prelude GoLib Store Json ActorState.
Open Scope string_scope.
Open Scope Z_scope.
Open Scope list_scope.
Open Scope go_scope.

Module Router.
Import Store ActorState.

(* ---------------------------------------------------------------------- *)
(** ** Patterns *)

(** A segment of a pattern: a text, [:name] or [*name]. *)
Inductive segment : Type := Text (s : string) | Param (name : string) | CatchAll (name : string).

Definition parse_segment (s : string) : segment :=
  match s with
  | String ":" name => Param name
  | String "*" name => CatchAll name
  | _ => Text s
  end.

Definition parse_pattern (s : string) : list segment := parse_segment <$> Split "/" s.

(** The parameters of a path that matches. *)
Fixpoint matches (pat : list segment) (path : list string) : option (list (string * string)) :=
  match pat, path with
  | [], [] => Some []
  | [CatchAll name], _ :: _ => Some [(name, "/" +:+ Join "/" path)]
  | Text s :: pat', x :: path' => if String.eqb s x then matches pat' path' else None
  | Param name :: pat', x :: path' =>
      if String.eqb x "" then None
      else match matches pat' path' with Some ps => Some ((name, x) :: ps) | None => None end
  | _, _ => None
  end.

Record route : Type := mkRoute { r_method : string; r_pattern : string; r_handler : string }.

Definition base : string := "/kar/v1".
Definition methods : list string := ["GET"; "HEAD"; "POST"; "PUT"; "PATCH"; "DELETE"; "OPTIONS"].

(** The routes, in the order of the source. *)
Definition server : list route :=
  let R m p h := mkRoute m (base +:+ p) h in
  [mkRoute "GET" "/metrics" "promhttp.Handler"] ++
  ((λ m, R m "/service/:service/call/*path" "routeImplCall") <$> methods) ++ [
   R "POST" "/await" "routeImplAwaitPromise";
   R "POST" "/actor/:type/:id/call/*path" "routeImplCall";
   R "GET" "/actor/:type/:id/reminders/:reminderId" "routeImplReminder";
   R "GET" "/actor/:type/:id/reminders" "routeImplReminder";
   R "PUT" "/actor/:type/:id/reminders/:reminderId" "routeImplReminder";
   R "DELETE" "/actor/:type/:id/reminders/:reminderId" "routeImplReminder";
   R "DELETE" "/actor/:type/:id/reminders" "routeImplReminder";
   R "GET" "/actor/:type/:id/events/:subscriptionId" "routeImplSubscription";
   R "GET" "/actor/:type/:id/events" "routeImplSubscription";
   R "PUT" "/actor/:type/:id/events/:subscriptionId" "routeImplSubscription";
   R "DELETE" "/actor/:type/:id/events/:subscriptionId" "routeImplSubscription";
   R "DELETE" "/actor/:type/:id/events" "routeImplSubscription";
   R "GET" "/actor/:type/:id/state/:key/:subkey" "routeImplGet";
   R "PUT" "/actor/:type/:id/state/:key/:subkey" "routeImplSet";
   R "DELETE" "/actor/:type/:id/state/:key/:subkey" "routeImplDel";
   R "HEAD" "/actor/:type/:id/state/:key/:subkey" "routeImplContainsKey";
   R "GET" "/actor/:type/:id/state/:key" "routeImplGet";
   R "PUT" "/actor/:type/:id/state/:key" "routeImplSet";
   R "DELETE" "/actor/:type/:id/state/:key" "routeImplDel";
   R "HEAD" "/actor/:type/:id/state/:key" "routeImplContainsKey";
   R "POST" "/actor/:type/:id/state/:key" "routeImplSubmapOps";
   R "GET" "/actor/:type/:id/state" "routeImplGetAll";
   R "POST" "/actor/:type/:id/state" "routeImplStateUpdate";
   R "DELETE" "/actor/:type/:id/state" "routeImplDelAll";
   R "DELETE" "/actor/:type/:id" "routeImplDelActor";
   R "GET" "/system/health" "routeImplHealth";
   R "POST" "/system/shutdown" "routeImplShutdown";
   R "GET" "/system/information/:component" "routeImplGetInformation";
   R "POST" "/event/:topic/publish" "routeImplPublish";
   R "DELETE" "/event/:topic" "routeImplDeleteTopic";
   R "PUT" "/event/:topic" "routeImplCreateTopic";
   R "GET" "/debug/register" "routeImplRegisterDebugger";
   R "POST" "/debug/register" "routeImplRegisterDebugger";
   R "PUT" "/debug/register" "routeImplRegisterDebugger"].

(** The parameters of a request that a route matches. *)
Definition matched (method path : string) (r : route) : option (list (string * string)) :=
  if String.eqb (r_method r) method then matches (parse_pattern (r_pattern r)) (Split "/" path) else None.

(** The router: the handler and the parameters of a request.  It finds a route that
    matches when there is one, and answers 404 or 405, or redirects, otherwise. *)
Class HttpRouter : Type := {
  Lookup : list route → string → string → option (string * list (string * string));
  Lookup_sound table method path h ps :
    Lookup table method path = Some (h, ps) →
    ∃ r, r ∈ table ∧ r_handler r = h ∧ matched method path r = Some ps;
  Lookup_complete table method path r ps :
    r ∈ table → matched method path r = Some ps → Lookup table method path ≠ None;
}.

(** [ps.ByName] *)
Definition ByName (ps : list (string * string)) (name : string) : string :=
  default "" (snd <$> head (filter (λ p, p.1 = name) ps)).

(** The parameters that the handlers of the state of actors read. *)
Definition state_params (ps : list (string * string)) : ActorState.Params :=
  ActorState.mkParams (ByName ps "type") (ByName ps "id") (ByName ps "key") (ByName ps "subkey").

(* ---------------------------------------------------------------------- *)
(** ** Routes do not overlap *)

(** Two patterns that some path may match. *)
Fixpoint overlap (p q : list segment) : bool :=
  match p, q with
  | [], [] => true
  | [CatchAll _], _ :: _ | _ :: _, [CatchAll _] => true
  | Text s :: p', Text t :: q' => String.eqb s t && overlap p' q'
  | Text s :: p', Param _ :: q' | Param _ :: p', Text s :: q' => negb (String.eqb s "") && overlap p' q'
  | Param _ :: p', Param _ :: q' => overlap p' q'
  | _, _ => false
  end.

Lemma overlap_sound p q path a b : matches p path = Some a → matches q path = Some b → overlap p q = true.
Proof.
  revert q path a b. induction p as [|x p IH]; intros [|y q] path a b Hp Hq.
  - done.
  - destruct path, y as [| |]; try done; by destruct q.
  - destruct path, x as [| |]; try done; by destruct p.
  - destruct path as [|z path]; [destruct x, y; try done; by destruct p|].
    destruct x as [s|n|n], y as [t|m|m]; cbn [matches overlap] in *.
    + destruct (String.eqb_spec s z), (String.eqb_spec t z); try done. subst. rewrite String.eqb_refl. by eapply IH.
    + destruct (String.eqb_spec s z); [|done]. destruct (String.eqb_spec z ""); [done|]. subst.
      destruct (matches q path) as [c|] eqn:Eq; [|done]. destruct (String.eqb_spec z ""); [done|]. by eapply IH.
    + by destruct q.
    + destruct (String.eqb_spec z ""); [done|]. destruct (String.eqb_spec t z); [|done]. subst.
      destruct (matches p path) as [c|] eqn:Eq; [|done]. destruct (String.eqb_spec z ""); [done|]. by eapply IH.
    + destruct (String.eqb z ""); [done|]. destruct (matches p path) as [c|] eqn:Ep; [|done].
      destruct (matches q path) as [d|] eqn:Eq; [|done]. by eapply IH.
    + by destruct q.
    + by destruct p.
    + by destruct p.
    + destruct p; [|done]. by destruct q.
Qed.

(** The routes after a route that share its method and overlap with it. *)
Fixpoint disjoint (table : list route) : bool :=
  match table with
  | [] => true
  | r :: rest =>
      forallb (λ r', negb (String.eqb (r_method r) (r_method r') &&
                           overlap (parse_pattern (r_pattern r)) (parse_pattern (r_pattern r')))) rest
      && disjoint rest
  end.

Lemma matched_overlap method path r r' a b :
  matched method path r = Some a → matched method path r' = Some b →
  String.eqb (r_method r) (r_method r') && overlap (parse_pattern (r_pattern r)) (parse_pattern (r_pattern r')) = true.
Proof.
  unfold matched. destruct (String.eqb_spec (r_method r) method) as [->|]; [|done].
  destruct (String.eqb_spec (r_method r') method) as [->|]; [|done]. intros Ha Hb.
  rewrite String.eqb_refl. exact (overlap_sound _ _ _ _ _ Ha Hb).
Qed.

Lemma disjoint_unique table method path r r' a b :
  disjoint table = true → r ∈ table → r' ∈ table →
  matched method path r = Some a → matched method path r' = Some b → r = r'.
Proof.
  intros D Hr Hr' Ma Mb. induction table as [|x table IH]; [by apply elem_of_nil in Hr|].
  cbn [disjoint] in D. apply andb_true_iff in D as [Dx D]. rewrite forallb_forall in Dx.
  apply elem_of_cons in Hr as [->|Hr], Hr' as [->|Hr']; [done| | |by apply IH].
  - apply list_elem_of_In, Dx in Hr'. by rewrite (matched_overlap _ _ _ _ _ _ Ma Mb) in Hr'.
  - apply list_elem_of_In, Dx in Hr. by rewrite (matched_overlap _ _ _ _ _ _ Mb Ma) in Hr.
Qed.

Lemma server_disjoint : disjoint server = true.
Proof. vm_compute. reflexivity. Qed.

(* ---------------------------------------------------------------------- *)
(** ** The path of a request *)

(** What net/http does with the target of a request before the router sees its path
    (url.ParseRequestURI, for a target that is not an absolute URL): a target with
    control characters, or that does not start with a slash, is refused; the path ends
    at a question mark, and its percent escapes are decoded, or refused. *)
Definition hex_val (c : Ascii.ascii) : option Z :=
  match digit_val36 c with Some d => if d <? 16 then Some d else None | None => None end.

Fixpoint unescape (s : string) : option string :=
  match s with
  | EmptyString => Some ""
  | String "%" (String h (String l s')) =>
      match hex_val h, hex_val l, unescape s' with
      | Some a, Some b, Some t => Some (String (Ascii.ascii_of_N (Z.to_N (16 * a + b))) t)
      | _, _, _ => None
      end
  | String "%" _ => None
  | String c s' => String c <$> unescape s'
  end.

Fixpoint all_chars (ok : Ascii.ascii → bool) (s : string) : bool :=
  match s with EmptyString => true | String c s' => ok c && all_chars ok s' end.

Definition printing (c : Ascii.ascii) : bool :=
  let n := Z.of_N (Ascii.N_of_ascii c) in (32 <=? n) && negb (n =? 127).

Definition before_query (target : string) : string := default "" (head (Split2 "?" target)).

Definition ParseRequestURI (target : string) : option string :=
  match target with
  | String "/" _ => if all_chars printing target then unescape (before_query target) else None
  | _ => None
  end.

(** The characters that the segment of a path holds unescaped (RFC 3986). *)
Definition pchar (c : Ascii.ascii) : bool :=
  match digit_val36 c with
  | Some _ => true
  | None => bool_decide (c ∈ ["-"; "."; "_"; "~"; "!"; "$"; "&"; "'"; "("; ")"; "*"; "+"; ","; ";"; "="; ":"; "@"]%char)
  end.

Definition path_char (c : Ascii.ascii) : bool := Ascii.eqb c "/" || pchar c.

Lemma all_chars_app ok a b : all_chars ok (a +:+ b) = all_chars ok a && all_chars ok b.
Proof. induction a as [|c a IH]; [done|]. simpl. by rewrite IH, andb_assoc. Qed.

Lemma all_chars_impl (P Q : Ascii.ascii → bool) s :
  (∀ c, P c = true → Q c = true) → all_chars P s = true → all_chars Q s = true.
Proof.
  intros HPQ. induction s as [|c s IH]; [done|]. simpl. intros [Hc Hs]%andb_true_iff.
  by rewrite HPQ, IH.
Qed.

(** A fact of all characters, by evaluation. *)
Lemma all_ascii (P : Ascii.ascii → bool) :
  forallb (λ n, P (Ascii.ascii_of_nat n)) (seq 0 256) = true → ∀ c, P c = true.
Proof.
  intros HP c. rewrite forallb_forall in HP. rewrite <-(Ascii.ascii_nat_embedding c).
  apply HP, in_seq. pose proof (Ascii.nat_ascii_bounded c). lia.
Qed.

Lemma path_char_plain c : path_char c = true →
  printing c = true ∧ Ascii.eqb c "?" = false ∧ Ascii.eqb c "%" = false.
Proof.
  intros Hc. pose proof (all_ascii (λ c, negb (path_char c) ||
    (printing c && negb (Ascii.eqb c "?") && negb (Ascii.eqb c "%")))) as A.
  specialize (A ltac:(vm_compute; reflexivity) c). cbv beta in A. rewrite Hc in A. cbn [negb orb] in A.
  apply andb_true_iff in A as [[? ?%negb_true_iff]%andb_true_iff ?%negb_true_iff]. done.
Qed.

Lemma pchar_no_slash s : all_chars pchar s = true → has_char "/" s = false.
Proof.
  induction s as [|c s IH]; [done|]. cbn [all_chars has_char]. intros [Hc Hs]%andb_true_iff.
  rewrite IH, orb_false_r by done. apply bool_decide_eq_false. by intros ->.
Qed.

Lemma unescape_path s : all_chars path_char s = true → unescape s = Some s.
Proof.
  induction s as [|c s IH]; [done|]. cbn [all_chars]. intros [Hc Hs]%andb_true_iff.
  destruct (path_char_plain c Hc) as (_ & _ & Hp).
  assert (unescape (String c s) = String c <$> unescape s) as ->; [|by rewrite IH].
  destruct c as [[] [] [] [] [] [] [] []]; try reflexivity. discriminate Hp.
Qed.

Lemma before_query_path s : all_chars path_char s = true → before_query s = s.
Proof.
  unfold before_query. induction s as [|c s IH]; [done|]. cbn [all_chars]. intros [Hc Hs]%andb_true_iff.
  destruct (path_char_plain c Hc) as (_ & Hq & _). apply Ascii.eqb_neq in Hq. cbn [Split2].
  rewrite decide_False by done. specialize (IH Hs). destruct (Split2 "?" s) as [|p ps]; simpl in *.
  - by subst s.
  - by subst p.
Qed.

(** A path without characters to escape is itself. *)
Lemma ParseRequestURI_path s :
  all_chars path_char (String "/" s) = true → ParseRequestURI (String "/" s) = Some (String "/" s).
Proof.
  intros Hs. unfold ParseRequestURI.
  rewrite (all_chars_impl path_char) by (done || by intros c []%path_char_plain).
  by rewrite before_query_path, unescape_path.
Qed.

#[global] Instance route_eq_dec : EqDecision route.
Proof. solve_decision. Defined.

Lemma server_in r : bool_decide (r ∈ server) = true → r ∈ server.
Proof. apply bool_decide_eq_true_1. Qed.

Section routing.
Context `{HttpRouter}.

(** A route that matches is the one that the router finds. *)
Lemma Lookup_matched method path r ps :
  r ∈ server → matched method path r = Some ps → Lookup server method path = Some (r_handler r, ps).
Proof.
  intros Hr M. destruct (Lookup server method path) as [[h ps']|] eqn:E; [|by destruct (Lookup_complete _ _ _ _ _ Hr M)].
  destruct (Lookup_sound _ _ _ _ _ E) as (r' & Hr' & <- & M').
  pose proof (disjoint_unique _ _ _ _ _ _ _ server_disjoint Hr Hr' M M') as <-. congruence.
Qed.

(** C39: The routes of the runtime leave the router no choice: every request matches
    at most one of them, so the handler that answers it and its parameters do not
    depend on the order in which the routes are declared or on how the router
    ranks them; a request is dispatched exactly when some route matches it. *)
Theorem routing_unambiguous method path h ps :
  Lookup server method path = Some (h, ps) ↔
  ∃ r, r ∈ server ∧ r_handler r = h ∧ matched method path r = Some ps ∧
       ∀ r' ps', r' ∈ server → matched method path r' = Some ps' → r' = r.
Proof.
  split.
  - intros E. destruct (Lookup_sound _ _ _ _ _ E) as (r & Hr & Hh & M). exists r. split_and!; try done.
    intros r' ps' Hr' M'. exact (disjoint_unique _ _ _ _ _ _ _ server_disjoint Hr' Hr M' M).
  - intros (r & Hr & <- & M & _). by apply Lookup_matched.
Qed.

(* ---------------------------------------------------------------------- *)
(** ** The location of an entry of an actor's state *)

(** A text that is a segment of a URL as it is: it is not empty, has no character to
    escape, and is not a dot segment, which clients resolve. *)
Definition plain (s : string) : Prop := s ≠ "" ∧ s ≠ "." ∧ s ≠ ".." ∧ all_chars pchar s = true.

Lemma plain_no_slash s : plain s → has_char "/" s = false.
Proof. intros (_ & _ & _ & Hs). by apply pchar_no_slash. Qed.

Lemma plain_path s : plain s → all_chars path_char s = true.
Proof. intros (_ & _ & _ & Hs). eapply all_chars_impl; [|done]. intros c Hc. unfold path_char. by rewrite Hc, orb_true_r. Qed.

Lemma matches_param name pat x path :
  x ≠ "" → matches (Param name :: pat) (x :: path) = ((name, x) ::.) <$> matches pat path.
Proof. intros Hx. cbn [matches]. apply String.eqb_neq in Hx. rewrite Hx. by destruct (matches pat path). Qed.

Definition well_formed (ps : ActorState.Params) : Prop :=
  plain (ActorState.p_type ps) ∧ plain (ActorState.p_id ps) ∧ plain (ActorState.p_key ps) ∧
  (ActorState.p_subkey ps = "" ∨ plain (ActorState.p_subkey ps)).

Lemma subkey_no_slash s : s = "" ∨ plain s → has_char "/" s = false.
Proof. by intros [->|?%plain_no_slash]. Qed.

(** The server reads a location whose parts are plain as it is written. *)
Lemma ParseRequestURI_location ps :
  well_formed ps → ParseRequestURI (ActorState.location ps) = Some (ActorState.location ps).
Proof.
  intros (Ht%plain_path & Hi%plain_path & Hk%plain_path & Hs).
  assert (all_chars path_char (ActorState.p_subkey ps) = true) as Hs' by (destruct Hs as [->|?%plain_path]; done).
  assert (all_chars path_char (ActorState.location ps) = true) as Hl.
  { unfold ActorState.location. rewrite !all_chars_app, Ht, Hi, Hk.
    destruct (negb _); rewrite ?all_chars_app, ?Hs'; reflexivity. }
  exact (ParseRequestURI_path _ Hl).
Qed.

Lemma split_location ps :
  well_formed ps →
  Split "/" (ActorState.location ps) =
  ["" : string; "kar"; "v1"; "actor"; ActorState.p_type ps; ActorState.p_id ps; "state"; ActorState.p_key ps] ++
  (if String.eqb (ActorState.p_subkey ps) "" then [] else [ActorState.p_subkey ps]).
Proof.
  intros (Ht%plain_no_slash & Hi%plain_no_slash & Hk%plain_no_slash & Hs%subkey_no_slash). set (sub := if String.eqb _ _ then _ else _).
  assert (E : ActorState.location ps =
    Join "/" (["" : string; "kar"; "v1"; "actor"; ActorState.p_type ps; ActorState.p_id ps; "state"; ActorState.p_key ps] ++ sub)).
  { subst sub. unfold ActorState.location. destruct (String.eqb (ActorState.p_subkey ps) ""); cbn [negb Join app].
    - by rewrite append_empty_r.
    - done. }
  rewrite E. apply Split_Join; [done|]. repeat constructor; try done. subst sub.
  by destruct (String.eqb (ActorState.p_subkey ps) ""); repeat constructor.
Qed.

(** The routes of the state of an actor, for a location and a method. *)
Lemma Lookup_location method h ps :
  well_formed ps →
  mkRoute method (base +:+ "/actor/:type/:id/state/:key") h ∈ server →
  mkRoute method (base +:+ "/actor/:type/:id/state/:key/:subkey") h ∈ server →
  ∃ params, Lookup server method (ActorState.location ps) = Some (h, params) ∧ state_params params = ps.
Proof.
  intros W H1 H2. pose proof (split_location ps W) as S. destruct W as ((Ht & _) & (Hi & _) & (Hk & _) & _).
  destruct ps as [t i k s]; cbn [ActorState.p_type ActorState.p_id ActorState.p_key ActorState.p_subkey] in *.
  destruct (String.eqb_spec s "") as [->|Hs].
  - exists [("type", t); ("id", i); ("key", k)]. split; [|done].
    apply (Lookup_matched _ _ _ _ H1). unfold matched. cbn [r_method r_pattern]. rewrite String.eqb_refl, S.
    cbn -[matches]. change (parse_pattern _) with
      [Text ""; Text "kar"; Text "v1"; Text "actor"; Param "type"; Param "id"; Text "state"; Param "key"].
    cbn [matches]. cbn [String.eqb Ascii.eqb Bool.eqb]. apply String.eqb_neq in Ht, Hi, Hk. by rewrite Ht, Hi, Hk.
  - exists [("type", t); ("id", i); ("key", k); ("subkey", s)]. split; [|done].
    apply (Lookup_matched _ _ _ _ H2). unfold matched. cbn [r_method r_pattern]. rewrite String.eqb_refl, S.
    cbn -[matches]. change (parse_pattern _) with
      [Text ""; Text "kar"; Text "v1"; Text "actor"; Param "type"; Param "id"; Text "state"; Param "key"; Param "subkey"].
    cbn [matches]. cbn [String.eqb Ascii.eqb Bool.eqb]. apply String.eqb_neq in Ht, Hi, Hk, Hs. by rewrite Ht, Hi, Hk, Hs.
Qed.
End routing.

(* ---------------------------------------------------------------------- *)
(** ** Entries of actors, from request to answer *)

Section entries.
Context {R : Type} `{RedisLaws R} `{!HttpRouter}.
Context (MangleKey : string → string) (Error : gerror → string).

(** The handler that a request on one entry is for, and its parameters. *)
Definition routed (method target : string) : option (string * Params) :=
  match ParseRequestURI target with
  | Some path =>
      match Lookup server method path with Some (h, params) => Some (h, state_params params) | None => None end
  | None => None
  end.

(** What answers a request on one entry. *)
Definition serve (method target body nilOnAbsent : string) : option (M R httpResponse) :=
  match routed method target with
  | Some (h, ps) =>
      if String.eqb h "routeImplGet" then Some (routeImplGet MangleKey Error ps nilOnAbsent)
      else if String.eqb h "routeImplSet" then Some (routeImplSet MangleKey Error ps body)
      else if String.eqb h "routeImplDel" then Some (routeImplDel MangleKey Error ps)
      else if String.eqb h "routeImplContainsKey" then Some (routeImplContainsKey MangleKey Error ps)
      else None
  | None => None
  end.

Lemma routed_location method h ps :
  well_formed ps →
  mkRoute method (base +:+ "/actor/:type/:id/state/:key") h ∈ server →
  mkRoute method (base +:+ "/actor/:type/:id/state/:key/:subkey") h ∈ server →
  routed method (location ps) = Some (h, ps).
Proof.
  intros W Hk Hs. unfold routed. rewrite ParseRequestURI_location by done.
  by destruct (Lookup_location method h ps W Hk Hs) as (params & -> & ->).
Qed.

Lemma serve_location ps body noa :
  well_formed ps →
  serve "GET" (location ps) body noa = Some (routeImplGet MangleKey Error ps noa) ∧
  serve "PUT" (location ps) body noa = Some (routeImplSet MangleKey Error ps body) ∧
  serve "DELETE" (location ps) body noa = Some (routeImplDel MangleKey Error ps) ∧
  serve "HEAD" (location ps) body noa = Some (routeImplContainsKey MangleKey Error ps).
Proof.
  intros W. unfold serve. rewrite !(routed_location _ "routeImplGet"), !(routed_location _ "routeImplSet"),
    !(routed_location _ "routeImplDel"), !(routed_location _ "routeImplContainsKey")
    by (done || (apply server_in; reflexivity)). done.
Qed.

(** C16: The location that the runtime answers when it creates an entry of an actor's
    state leads back to it, when the type, the identifier, the key and the subkey need
    no escape in a URL: a PUT whose target, however it is escaped, is routed to an entry that
    is new stores it and answers 201 with a location on which, parsed as the target of
    a request and through the table of routes, a HEAD then answers 200, a GET
    the value that was stored, a PUT replaces it without creating it again, and a
    DELETE removes it, which leaves the actor with the state it had. *)
Theorem created_entry_found ps target a value value' r :
  connected → actor_state MangleKey ps r a → entry_ok (entry_of ps) → a !! entry_of ps = None →
  well_formed ps → routed "PUT" target = Some ("routeImplSet", ps) →
  ∃ put r1 path get r2 head r3 replace r4 del r5,
    serve "PUT" target value "" = Some put ∧
    put r = (Ok (mkHttp 201 [("Location", path)] ""), r1) ∧
    serve "GET" path "" "" = Some get ∧ get r1 = (Ok (http_json value), r2) ∧
    serve "HEAD" path "" "" = Some head ∧ head r2 = (Ok (http_status 200), r3) ∧
    serve "PUT" path value' "" = Some replace ∧ replace r3 = (Ok (http_status 204), r4) ∧
    serve "DELETE" path "" "" = Some del ∧ del r4 = (Ok (http_text "1"), r5) ∧
    actor_state MangleKey ps r5 a.
Proof.
  intros Hc Ha Hx Hn W P.
  destruct (serve_location ps value' "" W) as (_ & P' & _). destruct (serve_location ps "" "" W) as (G & _ & D & Hd).
  destruct (Set_entry_spec MangleKey Error ps a value r Hc Ha Hx) as (r1 & E1 & S1 & _).
  destruct (Get_entry_spec MangleKey Error ps _ "" r1 Hc S1 Hx) as (r2 & E2 & V2).
  pose proof (actor_state_same MangleKey _ _ _ _ V2 S1) as S2.
  destruct (ContainsKey_spec MangleKey Error ps _ r2 Hc S2 Hx) as (r3 & E3 & V3).
  pose proof (actor_state_same MangleKey _ _ _ _ V3 S2) as S3.
  destruct (Set_entry_spec MangleKey Error ps _ value' r3 Hc S3 Hx) as (r4 & E4 & S4 & _).
  destruct (Del_entry_spec MangleKey Error ps _ r4 Hc S4 Hx) as (r5 & E5 & S5 & _).
  rewrite Hn in E1. rewrite lookup_insert_eq in E2, E3, E4. rewrite lookup_insert_eq in E5.
  rewrite insert_insert_eq, delete_insert_id in S5 by done.
  exists (routeImplSet MangleKey Error ps value), r1, (location ps), (routeImplGet MangleKey Error ps ""), r2,
    (routeImplContainsKey MangleKey Error ps), r3, (routeImplSet MangleKey Error ps value'), r4,
    (routeImplDel MangleKey Error ps), r5.
  split_and!; try done. unfold serve. by rewrite P.
Qed.
End entries.

(* ---------------------------------------------------------------------- *)
(** ** Witnesses *)

Module Witness.
Import ActorState.Witness.
#[local] Existing Instance MiniRedis.
#[local] Existing Instance MiniRedis_laws.

(** A router that tries the routes in their order. *)
Fixpoint first_match (table : list route) (method path : string) : option (string * list (string * string)) :=
  match table with
  | [] => None
  | r :: rest => match matched method path r with Some ps => Some (r_handler r, ps) | None => first_match rest method path end
  end.

#[local] Program Instance FirstMatch : HttpRouter := {| Lookup := first_match |}.
Next Obligation.
  intros table method path h ps. induction table as [|r table IH]; [done|]. cbn [first_match].
  destruct (matched method path r) as [q|] eqn:E.
  - intros [= <- <-]. exists r. split_and!; [apply elem_of_cons; by left|done|done].
  - intros (r' & Hr' & ? & ?)%IH. exists r'. split_and!; [apply elem_of_cons; by right|done|done].
Qed.
Next Obligation.
  intros table method path r ps Hr M. induction table as [|x table IH]; [by apply elem_of_nil in Hr|].
  cbn [first_match]. destruct (matched method path x) as [q|] eqn:E; [done|].
  apply elem_of_cons in Hr as [->|Hr]; [congruence|by apply IH].
Qed.

Lemma created_entry_found_witness :
  ∃ put r1 path get r2,
    serve mangle error_text "PUT" "/kar/v1/actor/Account/1/state/t%61gs/d?x=y" "4" "" = Some put ∧
    put r0 = (Ok (mkHttp 201 [("Location", path)] ""), r1) ∧
    serve mangle error_text "GET" path "" "" = Some get ∧ get r1 = (Ok (http_json "4"), r2).
Proof.
  destruct (created_entry_found mangle error_text (at_key "tags" "d")
              "/kar/v1/actor/Account/1/state/t%61gs/d?x=y" a0 "4" "5" r0)
    as (put & r1 & path & get & r2 & head & r3 & rep & r4 & del & r5 & P & E1 & G & E2 & _).
  - exact always_connected.
  - by apply a0_state.
  - done.
  - reflexivity.
  - unfold well_formed, plain. split_and!; [done..|]. right. split_and!; done.
  - vm_compute. reflexivity.
  - exists put, r1, path, get, r2. split_and!; [exact P|exact E1|exact G|exact E2].
Defined.

(** The handler does not escape the location: that of a key with a question mark
    leads to another key, that of a key with an escape to a subkey of another one, and
    that of a key with a percent sign may be no URL. *)
Example location_query :
  routed "PUT" "/kar/v1/actor/Account/1/state/a%3Fb" = Some ("routeImplSet", at_key "a?b" "") ∧
  routed "GET" (location (at_key "a?b" "")) = Some ("routeImplGet", at_key "a" "").
Proof. split; vm_compute; reflexivity. Qed.

Example location_escape :
  routed "PUT" "/kar/v1/actor/Account/1/state/a%252Fb" = Some ("routeImplSet", at_key "a%2Fb" "") ∧
  routed "GET" (location (at_key "a%2Fb" "")) = Some ("routeImplGet", at_key "a" "b").
Proof. split; vm_compute; reflexivity. Qed.

Example location_percent :
  routed "PUT" "/kar/v1/actor/Account/1/state/100%25" = Some ("routeImplSet", at_key "100%" "") ∧
  routed "GET" (location (at_key "100%" "")) = None.
Proof. split; vm_compute; reflexivity. Qed.

Lemma routing_unambiguous_witness :
  ∃ r, r ∈ server ∧ r_handler r = "routeImplCall" ∧
       matched "POST" "/kar/v1/actor/Account/1/call/deposit" r =
         Some [("type", "Account"); ("id", "1"); ("path", "/deposit")].
Proof.
  destruct (proj1 (routing_unambiguous "POST" "/kar/v1/actor/Account/1/call/deposit" "routeImplCall"
    [("type", "Account"); ("id", "1"); ("path", "/deposit")])) as (r & Hr & Hh & M & _); [reflexivity|].
  by exists r.
Defined.
End Witness.
End Router.
