(* ===== verification/HttpClient.v ===== *)
(** * HttpClient: the requests to the application

    Models src/core/internal/runtime/http_client.go: the request that is built from a
    message, the attempts to send it with exponential back-off, and the reply.  The
    client and the application behind it are the class [HttpOps]; [BodyLaws] is what
    net/http does with the body of a request.  The attempts are repeated by the
    interface of [Backoff]. *)

From S2P Require Import Prelude GoLib Json Backoff Commands.
Open Scope string_scope.
Open Scope Z_scope.
Open Scope list_scope.
Open Scope go_scope.

Module HttpClient.
Import Commands Backoff.

(* ---------------------------------------------------------------------- *)
(** ** net/http *)

(** A request, without its body; [rq_length] is its ContentLength. *)
Record Request : Type := mkRequest {
  rq_method : string;
  rq_url : string;
  rq_header : gmap string (list string);
  rq_length : Z;
}.

(** A response, whose body is still to be read. *)
Record Response : Type := mkResponse { rs_StatusCode : Z; rs_header : gmap string string }.

Definition valid_header_char (c : Ascii.ascii) : bool :=
  let n := Z.of_N (Ascii.N_of_ascii c) in
  ((48 <=? n) && (n <=? 57)) || ((65 <=? n) && (n <=? 90)) || ((97 <=? n) && (n <=? 122)) ||
  has_char c "!#$%&'*+-.^_`|~".

Fixpoint canonical_chars (upper : bool) (s : string) : string :=
  match s with
  | "" => ""
  | String c s' =>
      String (if upper then upper_ascii c else lower_ascii c) (canonical_chars (Ascii.eqb c "-") s')
  end.

(** [textproto.CanonicalMIMEHeaderKey] *)
Definition CanonicalHeaderKey (s : string) : string :=
  if forallb valid_header_char (String.list_ascii_of_string s) then canonical_chars true s else s.

(** [Header.Add] and [Header.Set] *)
Definition Header_Add (k v : string) (h : gmap string (list string)) : gmap string (list string) :=
  let k' := CanonicalHeaderKey k in <[k' := default [] (h !! k') ++ [v]]> h.
Definition Header_Set (k v : string) (h : gmap string (list string)) : gmap string (list string) :=
  <[CanonicalHeaderKey k := [v]]> h.

(** What the client does to the world [W] of the process and the application. *)
Class HttpOps (W : Type) : Type := {
  ctx_Err : W → option gerror;
  NewRequest_err : string → string → option gerror;
  (** the request, with what is left to read of its body; the result comes with what
      is left of the body then *)
  client_Do : Request → string → W → (Response + gerror) * string * W;
  ReadAll : Response → W → (string + gerror) * W;
  Timeout : gerror → bool;
  Observe : string → W → W;
  CloseIdleConnections : W → W;
}.

(* ---------------------------------------------------------------------- *)
(** ** Building the request *)

Section client.
Context {W : Type} `{HttpOps W} `{MapIter}.
Context (AppPort : Z).
Context (Error : gerror → string).
(** [json.Unmarshal] into a [map[string][]string]: an error is only logged. *)
Context (UnmarshalHeader : string → gmap string (list string)).
(** [config.RequestRetryLimit], in nanoseconds. *)
Context (RequestRetryLimit : Z).

Definition url : string := "http://127.0.0.1:" +:+ Itoa AppPort.

Definition add_values (h : gmap string (list string)) (field : string * list string) : gmap string (list string) :=
  foldl (λ h val, Header_Add field.1 val h) h field.2.

Definition headers (msg : gmap string string) : gmap string (list string) :=
  if negb (String.eqb (index_str msg "header") "") then
    foldl add_values ∅ (map_iter 90 (UnmarshalHeader (index_str msg "header")))
  else
    let h := if negb (String.eqb (index_str msg "content-type") "") then
               Header_Set "Content-Type" (index_str msg "content-type") ∅ else ∅ in
    if negb (String.eqb (index_str msg "accept") "") then
      Header_Set "Accept" (index_str msg "accept") h else h.

Definition request (method : string) (msg : gmap string string) : Request :=
  mkRequest method (url +:+ index_str msg "path") (headers msg)
    (Z.of_nat (String.length (index_str msg "payload"))).

(* ---------------------------------------------------------------------- *)
(** ** One attempt *)

(** The variables that the attempts share: the body of the request is read once, and
    [reply] is assigned by the attempt that ends them. *)
Record cstate : Type := mkCstate { c_world : W; c_unread : string; c_reply : option Reply }.

Definition answered (r : Reply) (s : cstate) : outcome * cstate :=
  (Done, mkCstate (c_world s) (c_unread s) (Some r)).

Definition timed_out (e : gerror) : Reply := mkReply 408 "text/plain" (Error e).

Definition failed (e : gerror) (s : cstate) : outcome * cstate :=
  if Timeout e then answered (timed_out e) s
  else if decide (ctx_Err (c_world s) = Some e) then (Permanent (Some e), s)
  else (Failed e, s).

(** A Content-Length that is a number is compared with the body that was read. *)
Definition bad_length (r : Response) (buf : string) : bool :=
  match Atoi (index_str (rs_header r) "Content-Length") with
  | (length, None) => negb (Z.of_nat (String.length buf) =? length)
  | _ => false
  end.

Definition reply_of (r : Response) (buf : string) : Reply :=
  mkReply (rs_StatusCode r) (index_str (rs_header r) "Content-Type") buf.

(** The histogram of durations, when the metric has a label. *)
Definition observed (metricLabel : string) (w : W) : W :=
  if negb (String.eqb metricLabel "") then Observe metricLabel w else w.

Definition try_once (rq : Request) (metricLabel : string) (s : cstate) : outcome * cstate :=
  let '(res, rest, w) := client_Do rq (c_unread s) (c_world s) in
  let w := observed metricLabel w in
  match res with
  | inr e => failed e (mkCstate w rest (c_reply s))
  | inl r =>
      let '(body, w') := ReadAll r w in
      let s' := mkCstate w' rest (c_reply s) in
      match body with
      | inr e => failed e s'
      | inl buf =>
          if bad_length r buf then (Failed (EMsg "unexpected content length"), s')
          else answered (reply_of r buf) s'
      end
  end.

(* ---------------------------------------------------------------------- *)
(** ** Repeating the attempt *)

(** Between two attempts the world goes on, and the transport may still read of the body;
    the back-off has the context of the request. *)
Definition world_goes_on (s s' : cstate) : Prop :=
  (∃ sent, c_unread s = sent +:+ c_unread s') ∧ c_reply s' = c_reply s.
Definition cancelled (s : cstate) : option gerror := ctx_Err (c_world s).

Context `{!BackoffOps cstate}.

(** The result of [invoke] in Go: a reply or nil, and an error or nil. *)
Definition invoke (method : string) (msg : gmap string string) (metricLabel : string) (w : W)
    : option Reply * option gerror * W :=
  match ctx_Err w with
  | Some e => (None, Some e, w)
  | None =>
      match NewRequest_err method (url +:+ index_str msg "path") with
      | Some e => (None, Some e, w)
      | None =>
          let '(err, s) := Retry (MaxElapsedTime RequestRetryLimit) (try_once (request method msg) metricLabel)
                             (mkCstate w (index_str msg "payload") None) in
          let w' := match ctx_Err (c_world s) with
                    | Some _ => CloseIdleConnections (c_world s)
                    | None => c_world s
                    end in
          (c_reply s, err, w')
      end
  end.

(** How the callers use it: they look at the error first, and then dereference the
    reply. *)
Definition invoked (method : string) (msg : gmap string string) (metricLabel : string) : M W Reply := λ w,
  match invoke method msg metricLabel w with
  | (_, Some e, w') => (Err e, w')
  | (Some r, None, w') => (Ok r, w')
  | (None, None, w') => (Panic "invalid memory address or nil pointer dereference", w')
  end.

(* ---------------------------------------------------------------------- *)
(** ** The reply *)

Context `{!BackoffLaws world_goes_on cancelled}.

#[local] Notation attempts := (Backoff.attempts world_goes_on).

(** How an attempt ends well, with the reply: the application answered completely, or
    it did not answer, or not completely, in time. *)
Inductive good_end (rq : Request) (label : string) (s : cstate) : Reply → Prop :=
| good_answer r rest w buf w' :
    client_Do rq (c_unread s) (c_world s) = (inl r, rest, w) → ReadAll r (observed label w) = (inl buf, w') →
    bad_length r buf = false → good_end rq label s (reply_of r buf)
| timeout_do e rest w :
    client_Do rq (c_unread s) (c_world s) = (inr e, rest, w) → Timeout e = true → good_end rq label s (timed_out e)
| timeout_read r rest w e w' :
    client_Do rq (c_unread s) (c_world s) = (inl r, rest, w) → ReadAll r (observed label w) = (inr e, w') →
    Timeout e = true → good_end rq label s (timed_out e).

(** What an attempt is, by its outcome. *)
Definition attempt_ok (rq : Request) (label : string) (s : cstate) (o : outcome) (s' : cstate) : Prop :=
  match o with
  | Done => ∃ r, c_reply s' = Some r ∧ good_end rq label s r
  | Failed _ => c_reply s' = c_reply s
  | Permanent e => c_reply s' = c_reply s ∧ ∃ x, e = Some x ∧ ctx_Err (c_world s') = Some x
  end.

Lemma failed_ok rq label s e s0 o s' : failed e s0 = (o, s') → c_reply s0 = c_reply s →
  (Timeout e = true → good_end rq label s (timed_out e)) → attempt_ok rq label s o s'.
Proof.
  unfold failed. intros E R G. destruct (Timeout e) eqn:T; [|case_decide]; injection E as <- <-; cbn; eauto.
Qed.

Lemma try_once_ok rq label s o s' : try_once rq label s = (o, s') → attempt_ok rq label s o s'.
Proof.
  unfold try_once. destruct (client_Do rq (c_unread s) (c_world s)) as [[[r|e] rest] w] eqn:D; intros E.
  - destruct (ReadAll r _) as [[buf|e] w'] eqn:B.
    + destruct (bad_length r buf) eqn:L; injection E as <- <-; cbn; [done|].
      eexists. split; [done|]. by eapply good_answer.
    + eapply failed_ok; [exact E|done|]. intros T. by eapply timeout_read.
  - eapply failed_ok; [exact E|done|]. intros T. by eapply timeout_do.
Qed.

(* ---------------------------------------------------------------------- *)
(** ** The body of the request *)

(** The client reads the reader of the body from where it is, as far as it likes. *)
Class BodyLaws : Prop := {
  Do_reads rq body w : ∃ sent, body = sent +:+ (client_Do rq body w).1.2;
}.

Context `{!BodyLaws}.

Lemma failed_unread e s : c_unread (failed e s).2 = c_unread s.
Proof. unfold failed. destruct (Timeout e); [done|]. by case_decide. Qed.

Lemma try_once_unread rq label s : ∃ sent, c_unread s = sent +:+ c_unread (try_once rq label s).2.
Proof.
  unfold try_once. destruct (Do_reads rq (c_unread s) (c_world s)) as [sent E].
  destruct (client_Do rq (c_unread s) (c_world s)) as [[res rest] w]. cbn in E. exists sent. rewrite E at 1. f_equal.
  destruct res as [r|e]; [|by rewrite failed_unread]. destruct (ReadAll r _) as [[buf|e] w'].
  - by destruct (bad_length r buf).
  - by rewrite failed_unread.
Qed.

(** Attempts that failed leave no reply, and a suffix of the body. *)
Lemma attempts_left rq label s t : attempts (try_once rq label) s t →
  c_reply t = c_reply s ∧ ∃ sent, c_unread s = sent +:+ c_unread t.
Proof.
  induction 1 as [s|s s' s2 e t E [[sent1 G] R] _ [IHr [sent IH]]]; [split; [done|by exists ""]|].
  destruct (try_once_unread rq label s) as [sent0 E0]. rewrite E in E0. cbn in E0. split.
  - rewrite IHr, R. exact (try_once_ok _ _ _ _ _ E).
  - exists (sent0 +:+ (sent1 +:+ sent)). by rewrite E0, G, IH, !append_assoc.
Qed.

Definition started (w : W) (msg : gmap string string) : cstate := mkCstate w (index_str msg "payload") None.

(** How the attempts end with an error: time was up after a failure, whose error it
    is; or the context was done, and it is the error of the context. *)
Inductive gave_up (rq : Request) (label : string) (s : cstate) (e : gerror) : Prop :=
| up s' : try_once rq label s = (Failed e, s') → gave_up rq label s e
| done_now o s' : try_once rq label s = (Permanent o, s') → ctx_Err (c_world s') = Some e → gave_up rq label s e
| done_later e0 s' s2 : try_once rq label s = (Failed e0, s') → world_goes_on s' s2 →
    ctx_Err (c_world s2) = Some e → gave_up rq label s e.

Lemma last_attempt_ends rq label s err t : c_reply s = None →
  last_attempt world_goes_on cancelled (try_once rq label) s err t →
  match err with
  | None => ∃ r, c_reply t = Some r ∧ good_end rq label s r
  | Some e => c_reply t = None ∧ gave_up rq label s e
  end.
Proof.
  intros R L. inversion L as [? ? E|? ? e E|? ? e E|? ? ? e e' E [G1 G2] C]; subst;
    pose proof (try_once_ok _ _ _ _ _ E) as Ok; cbn in Ok.
  - done.
  - destruct Ok as (Hr & x & -> & Hx). split; [by rewrite Hr|]. by eapply done_now.
  - split; [by rewrite Ok|]. by eapply up.
  - split; [by rewrite G2, Ok|]. by eapply done_later.
Qed.

(** C17: A request to the application ends with a reply or with an error, never with
    both or neither, so its callers do not dereference nil.  A reply is what one attempt
    of the message's request got, after attempts that all failed: the answer
    of the application, its body read completely and, when the answer announced a
    length, of that length; or the 408 of an attempt that timed out.  That attempt was
    given the reader of the payload as the earlier ones left it: a suffix of the payload,
    all of it if it was the first one.  An error comes from a context that was done, a
    request that could not be built, or an attempt that failed when time was up. *)
Theorem invoke_faithful method msg label w :
  let rq := request method msg in
  let '(reply, err, _) := invoke method msg label w in
  match reply, err with
  | Some r, None =>
      ∃ s sent, attempts (try_once rq label) (started w msg) s ∧
        index_str msg "payload" = sent +:+ c_unread s ∧ good_end rq label s r
  | None, Some e =>
      ctx_Err w = Some e ∨ NewRequest_err method (url +:+ index_str msg "path") = Some e ∨
      ∃ s, attempts (try_once rq label) (started w msg) s ∧ gave_up rq label s e
  | _, _ => False
  end.
Proof.
  cbv zeta. unfold invoke. destruct (ctx_Err w) eqn:Ec; [by left|].
  destruct (NewRequest_err _ _) eqn:En; [by right; left|].
  pose proof (Retry_retries _ _ (MaxElapsedTime RequestRetryLimit) (try_once (request method msg) label) (started w msg)) as Rt.
  unfold started in *. destruct (Retry _ _) as [err t]. cbn [fst snd] in Rt.
  destruct (retried_attempts _ _ _ _ _ _ Rt) as (s & A & L).
  destruct (attempts_left _ _ _ _ A) as [R [sent U]]. cbn in R, U.
  pose proof (last_attempt_ends _ _ _ _ _ R L) as Ends. destruct err as [e|].
  - destruct Ends as [-> G]. right. right. by exists s.
  - destruct Ends as (r & -> & G). by exists s, sent.
Qed.
End client.

(* ---------------------------------------------------------------------- *)
(** ** Witnesses *)

Module Witness.
#[local] Existing Instance canonical_iter.

(** An application whose first answer is cut: the world counts the attempts. *)
Definition App : HttpOps nat := {|
  ctx_Err := λ _, None;
  NewRequest_err := λ _ _, None;
  client_Do := λ rq body n,
    if Z.of_nat (String.length body) <? rq_length rq then
      (inr (EMsg "http: ContentLength=2 with Body length 0"), body, S n)
    else (inl (mkResponse 200 {["Content-Length" := if Nat.eqb n 0 then "5" else "2"; "Content-Type" := "text/plain"]}), "", S n);
  ReadAll := λ _ n, (inl "ok", n);
  Timeout := λ _, false;
  Observe := λ _ n, n;
  CloseIdleConnections := λ n, n;
|}.
#[local] Existing Instance App.

Fixpoint attempt_n (n : nat) (op : cstate (W:=nat) → outcome * cstate) (s : cstate) : option gerror * cstate :=
  match op s with
  | (Done, s') => (None, s')
  | (Permanent e, s') => (e, s')
  | (Failed e, s') => match n with O => (Some e, s') | S n' => attempt_n n' op s' end
  end.

#[local] Instance Three : BackoffOps (cstate (W:=nat)) := {| Retry := λ _, attempt_n 2 |}.

#[local] Instance Three_laws : BackoffLaws (world_goes_on (W:=nat)) cancelled.
Proof.
  constructor. intros limit op s. cbn [Retry Three]. generalize 2%nat. intros n. revert s.
  induction n as [|n IH]; intros s; cbn [attempt_n]; destruct (op s) as [[|e|e] s'] eqn:E;
    try (by constructor); try (by eapply retried_permanent); try (by eapply retried_up).
  eapply retried_again; [done|split; [by exists ""|done]|]. apply IH.
Qed.

#[local] Instance App_laws : BodyLaws (W:=nat).
Proof.
  constructor. intros rq body w. cbn. destruct (_ <? _); cbn; [by exists ""|]. exists body.
  by rewrite append_empty_r.
Qed.

Definition text (e : gerror) : string := match e with EMsg s => s | _ => "error" end.
Definition msg0 (payload : string) : gmap string string := {["path" := "/kar/impl/v1/actor/A/1/m"; "payload" := payload]}.

(** The answer to a request without a body is cut, and then complete. *)
Lemma invoke_faithful_witness :
  (invoke 8080 text (λ _, ∅) (-1) "GET" (msg0 "") "A:m" 0%nat).1 = (Some (mkReply 200 "text/plain" "ok"), None) ∧
  ∃ s sent, attempts world_goes_on (try_once text (request 8080 (λ _, ∅) "GET" (msg0 "")) "A:m") (started 0%nat (msg0 "")) s ∧
    "" = sent +:+ c_unread s ∧
    good_end text (request 8080 (λ _, ∅) "GET" (msg0 "")) "A:m" s (mkReply 200 "text/plain" "ok").
Proof.
  split; [vm_compute; reflexivity|].
  pose proof (invoke_faithful 8080 text (λ _, ∅) (-1) "GET" (msg0 "") "A:m" 0%nat) as F. cbv zeta in F.
  replace (invoke _ _ _ _ _ _ _ _) with (Some (mkReply 200 "text/plain" "ok"), @None gerror, 2%nat) in F
    by (vm_compute; reflexivity).
  exact F.
Defined.

(** Its second attempt answers; one with a body is given no body again, since all the
    attempts share its reader, and this client, which does not rewind it, gives up. *)
Example repeated : (invoke 8080 text (λ _, ∅) (-1) "GET" (msg0 "") "A:m" 0%nat) = (Some (mkReply 200 "text/plain" "ok"), None, 2%nat).
Proof. vm_compute. reflexivity. Qed.

Example shared_body : (invoke 8080 text (λ _, ∅) (-1) "POST" (msg0 "[]") "A:m" 0%nat) =
  (None, Some (EMsg "http: ContentLength=2 with Body length 0"), 3%nat).
Proof. vm_compute. reflexivity. Qed.
End Witness.
End HttpClient.
