(* ===== verification/Cli.v ===== *)
(** * Cli: the commands of kar

    Models the main function of the runtime and purging
    (src/core/internal/runtime/runtime-main.go), the commands invoke, rest and get
    (repl.go) and the exit status of the application (launcher.go).  What the process
    writes is a list of lines; the components that the commands call are the classes
    [StoreOps], [KafkaOps] and [ProcessOps].  The background tasks that [Main] starts
    and the waiting for them at its end are not modelled. *)

From S2P Require Import Prelude GoLib Json Store Reminders Commands Routes Config.
Open Scope string_scope.
Open Scope Z_scope.
Open Scope list_scope.
Open Scope go_scope.

Module Cli.
Import Store(sep).
Import Config.
Import Reminders(Actor, mkActor, a_Type, a_ID).
Import Commands(Reply, mkReply, StatusCode, ContentType, Payload, actorCallResult, cr_Value, cr_Error, cr_Message,
  cr_Stack, CommandJson, UnmarshalResult).
Import Routes(sidecarData, mkSidecarData, sd_Port, sd_Actors, sd_Services, newline).

(* ---------------------------------------------------------------------- *)
(** ** Interfaces *)

(** What the commands read from Redis. *)
Class StoreOps (W : Type) : Type := {
  actorGetAllState : string → string → M W (gmap string any);
  GetAllSessions : string → M W (gmap string (list string));
  store_Purge : string → M W Z;
}.

(** What needs the connection to Kafka. *)
Class KafkaOps (W : Type) : Type := {
  CallActor : Actor → string → string → string → string → M W Reply;
  CallService : string → string → string → string → string → M W Reply;
  GetTopology : M W (gmap string (list string));
  GetPorts : M W (gmap string Z);
  getAllActiveActors : string → M W (gmap string (list string));
  rpc_Connect : string → Z → list string → M W unit;
  NewPublisher : M W unit;
}.

(** How the process of the application ended. *)
Inductive wait : Type := Exited (code : Z) | Interrupted | WaitError.

Class ProcessOps (W : Type) : Type := {
  Listen : string → M W Z;
  store_Dial : M W unit;
  DeleteTopic : string → M W unit;
  start_server : M W unit;
  exec : list string → list string → M W wait;
  Environ : list string;
}.

(** The texts of values. *)
Class Texts : Type := {
  Error : gerror → string;
  Sprint : any → string;
  MarshalTopology : gmap string sidecarData → res string;
  MarshalState : gmap string any → res string;
  formatActorInstanceMap : gmap string (list string) → string → res string;
  show_strings : list string → string;
}.

(** A line of the standard output or of the error output, or of the log. *)
Inductive line : Type := Stdout (s : string) | Stderr (s : string) | Logged (severity s : string).

Record cworld (W : Type) : Type := mkCworld { cw_env : W; cw_out : list line }.
Arguments mkCworld {W}.
Arguments cw_env {W}.
Arguments cw_out {W}.

Section cli.
Context {W : Type}.

Definition env {A} (m : M W A) : M (cworld W) A := λ w,
  let '(r, e) := m (cw_env w) in (r, mkCworld e (cw_out w)).

Definition print (l : line) : M (cworld W) unit := λ w, (Ok tt, mkCworld (cw_env w) (cw_out w ++ [l])).

Fixpoint print_all (ls : list line) : M (cworld W) unit :=
  match ls with [] => ret tt | l :: ls' => print l ;;* print_all ls' end.

Definition index (args : list string) (i : nat) : M (cworld W) string :=
  match args !! i with Some a => ret a | None => of_res (Panic "index out of range") end.

(** [logger.Fatal], which ends the process. *)
Definition fatal {A} (what : string) `{Texts} (m : M W A) : M (cworld W) A :=
  let* x := attempt (env m) in
  match x with inl a => ret a | inr e => throw (EMsg (what ++ Error e)%string) end.

(** The command [log.Error] before a return with status 1. *)
Definition fails (what : string) : M (cworld W) Z := print (Logged "ERROR" what) ;;* ret 1.

Context `{SO : StoreOps W} `{KO : KafkaOps W} `{PO : ProcessOps W} `{Texts} `{Json} `{CommandJson} `{MapIter}.
(** The variables of the configuration. *)
Context (v : vars).

(* ---------------------------------------------------------------------- *)
(** ** The command invoke *)

Definition param_of (a : string) : any := match Unmarshal a with Some x => x | None => AString a end.

Definition warning_of (a : string) : list line :=
  match Unmarshal a with
  | Some _ => []
  | None => [Logged "WARNING" ("assuming argument " +:+ a +:+ " is a string")]
  end.

(** What is written of a reply. *)
Definition actor_reply (reply : Reply) : list line :=
  if StatusCode reply =? 204 then [Stdout "Method completed normally with void result."]
  else if StatusCode reply =? 200 then
    if HasPrefix (ContentType reply) "application/kar+json" then
      match UnmarshalResult (Payload reply) with
      | inr err => [Stderr ("[STDERR] Internal error: malformed method result: " +:+ Error err)]
      | inl result =>
          if cr_Error result then
            [Stderr ("[STDERR] Exception raised: " +:+ cr_Message result);
             Stderr ("[STDERR] Stacktrace: " +:+ cr_Stack result)]
          else [Stdout ("Method result: " +:+ Sprint (cr_Value result))]
      end
    else [Stdout (Payload reply)]
  else [Stderr ("[STDERR] HTTP status: " +:+ Itoa (StatusCode reply)); Stderr ("[STDERR] " +:+ Payload reply)].

Definition invokeActorMethod (args : list string) : M (cworld W) Z :=
  let* ty := index args 0 in
  let* id := index args 1 in
  let* method := index args 2 in
  print_all (mjoin (warning_of <$> drop 3 args)) ;;*
  let* p := attempt (of_res (Marshal (ASlice (param_of <$> drop 3 args)))) in
  match p with
  | inr err => fails ("error serializing the payload: " +:+ Error err)
  | inl payload =>
      let* x := attempt (env (CallActor (mkActor ty id) ("/" +:+ method) payload "" "")) in
      match x with
      | inr err => fails ("error invoking the actor: " +:+ Error err)
      | inl reply => print_all (actor_reply reply) ;;* ret 0
      end
  end.

(* ---------------------------------------------------------------------- *)
(** ** The command rest *)

Definition dq : string := String "034" "".

(** The content type is not escaped. *)
Definition service_header : string :=
  "{" +:+ dq +:+ "Content-Type" +:+ dq +:+ ": [" +:+ dq +:+ getS v "RestBodyContentType" +:+ dq +:+ "]}".

Definition service_reply (reply : Reply) : list line :=
  if negb (StatusCode reply =? 200) then
    [Stderr ("[STDERR] HTTP status: " +:+ Itoa (StatusCode reply)); Stderr ("[STDERR] " +:+ Payload reply)]
  else [Stdout (Payload reply)].

Definition invokeServiceEndpoint (args : list string) : M (cworld W) Z :=
  let* method := index args 0 in
  let* service := index args 1 in
  let* path := index args 2 in
  let '(header, body) := match args !! 3%nat with Some b => (service_header, b) | None => ("", "") end in
  let* x := attempt (env (CallService service ("/" +:+ path) body header (ToUpper method))) in
  match x with
  | inr err => fails ("error invoking the service: " +:+ Error err)
  | inl reply => print_all (service_reply reply) ;;* ret 0
  end.

(* ---------------------------------------------------------------------- *)
(** ** The command get *)

Definition is_json : bool :=
  String.eqb (getS v "GetOutputStyle") "json" || String.eqb (getS v "GetOutputStyle") "application/json".

(** A value whose error is dropped; the table is then nil. *)
Definition or_nil {A} (m : M W (gmap string A)) : M (cworld W) (gmap string A) :=
  let* x := attempt (env m) in ret (match x with inl a => a | inr _ => ∅ end).

Definition topology_text (karTopology : gmap string sidecarData) : string :=
  newline +:+ "Sidecar : host : port " +:+ newline +:+ " : Actors" +:+ newline +:+ " : Services" +:+
  String.concat "" ((λ kv, newline +:+ kv.1 +:+ ":" +:+ Itoa (sd_Port kv.2) +:+ newline +:+ " : " +:+
                           show_strings (sd_Actors kv.2) +:+ newline +:+ " : " +:+ show_strings (sd_Services kv.2))
                    <$> map_iter 92 karTopology).

Definition get_sidecars : M (cworld W) string :=
  let* topology := or_nil GetTopology in
  let* ports := or_nil GetPorts in
  let* entries := of_res (map_res (Routes.sidecar_data ports) (map_iter 91 topology)) in
  let karTopology := fill entries in
  if is_json then
    let* x := attempt (of_res (MarshalTopology karTopology)) in
    ret (match x with inl m => m | inr _ => "" end)
  else ret (topology_text karTopology).

(** The error of the store is assigned to a variable of the if, as is that of the
    encoding. *)
Definition get_state (ty id : string) : M (cworld W) string :=
  let* x := attempt (env (actorGetAllState ty id)) in
  match x with
  | inr _ => ret ""
  | inl actorState =>
      if decide (actorState = ∅) then ret ("Actor " +:+ ty +:+ "[" +:+ id +:+ "] has no persisted state")
      else
        let* b := attempt (of_res (MarshalState actorState)) in
        ret (match b with
             | inl bytes => "Persisted state of actor " +:+ ty +:+ "[" +:+ id +:+ "] is:" +:+ newline +:+ bytes
             | inr _ => ""
             end)
  end.

Definition known_prefix (ty : string) : string :=
  if negb (String.eqb ty "") then "Known instances of actor type " +:+ ty +:+ " are:" +:+ newline
  else "Listing all known actor instances:" +:+ newline.

Definition resident_prefix (ty : string) : string :=
  if negb (String.eqb ty "") then "Memory-resident instances of actor type " +:+ ty +:+ " are:" +:+ newline
  else "Listing all memory-resident actor instances:" +:+ newline.

(** The errors of finding the instances and of formatting them belong to a variable
    of the if: outside of it there is none. *)
Definition get_instances (prefix : string) (instances : M W (gmap string (list string))) : M (cworld W) string :=
  let* x := attempt (env instances) in
  match x with
  | inr _ => ret prefix
  | inl actorMap =>
      let* s := attempt (of_res (formatActorInstanceMap actorMap (getS v "GetOutputStyle"))) in
      ret (prefix +:+ match s with inl text => text | inr _ => "" end)
  end.

Definition get_actors : M (cworld W) string :=
  let ty := getS v "GetActorType" in
  if negb (String.eqb (getS v "GetActorInstanceID") "") then get_state ty (getS v "GetActorInstanceID")
  else if negb (getB v "GetResidentOnly") then get_instances (known_prefix ty) (GetAllSessions ty)
  else get_instances (resident_prefix ty) (getAllActiveActors ty).

Definition getInformation : M (cworld W) Z :=
  let option := ToLower (getS v "GetSystemComponent") in
  if String.eqb option "sidecar" || String.eqb option "sidecars" then
    let* str := get_sidecars in print (Stdout str) ;;* ret 0
  else if String.eqb option "actor" || String.eqb option "actors" then
    let* str := get_actors in print (Stdout str) ;;* ret 0
  else fails ("invalid argument <" +:+ option +:+ "> to call Inform").

(* ---------------------------------------------------------------------- *)
(** ** The main function *)

Definition purge (topic pattern : string) : M (cworld W) unit :=
  let* x := attempt (env (DeleteTopic topic)) in
  (match x with
   | inr err => print (Logged "ERROR" ("failed to delete Kafka topic: " +:+ Error err))
   | inl _ => ret tt
   end) ;;*
  let* y := attempt (env (store_Purge pattern)) in
  match y with
  | inr err => print (Logged "ERROR" ("failed to delete Redis keys: " +:+ Error err))
  | inl count => print (Logged "INFO" (Itoa count +:+ " deleted keys"))
  end.

(** The listings that need Redis only. *)
Definition requiresPubSub (CmdName : string) : bool :=
  negb (String.eqb CmdName "get" && String.eqb (getS v "GetSystemComponent") "actors" && negb (getB v "GetResidentOnly")).

Definition listenHost : string :=
  if getB v "KubernetesMode" then ":" +:+ Itoa (getI v "RuntimePort") else "127.0.0.1:" +:+ Itoa (getI v "RuntimePort").

(** launcher.go: the exit status of the application. *)
Definition Run (args environment : list string) : M (cworld W) Z :=
  let* st := fatal "failed to start service: " (exec args environment) in
  match st with
  | Exited 0 => print (Logged "INFO" "service exited normally") ;;* ret 0
  | Exited code => print (Logged "INFO" ("service exited with status code " +:+ Itoa code)) ;;* ret code
  | Interrupted => print (Logged "INFO" "service was interrupted") ;;* ret 0
  | WaitError => print (Logged "ERROR" "error waiting for service") ;;* ret 0
  end.

Definition app_environment (port : Z) : list string :=
  Environ ++ ["KAR_RUNTIME_PORT=" +:+ Itoa port; "KAR_APP_PORT=" +:+ Itoa (getI v "AppPort");
              "KAR_REQUEST_TIMEOUT=" +:+ Itoa (Z.quot (getI v "RequestRetryLimit") 1000000)].

(** The exit status of the process; [logger.Fatal] is an error. *)
Definition Main (CmdName : string) (args : list string) : M (cworld W) Z :=
  let* assigned := fatal "TCP listener failed: " (Listen listenHost) in
  let port := if getI v "RuntimePort" =? 0 then assigned else getI v "RuntimePort" in
  fatal "failed to connect to Redis: " store_Dial ;;*
  let topic := "kar" +:+ sep +:+ getS v "AppName" in
  if String.eqb CmdName "purge" then purge topic "*" ;;* ret 0
  else if String.eqb CmdName "drain" then purge topic ("pubsub" +:+ sep +:+ "*") ;;* ret 0
  else
    (if requiresPubSub CmdName then
       fatal "failed to connect to Kafka: " (rpc_Connect topic port (getS v "ServiceName" :: getL v "ActorTypes")) ;;*
       fatal "failed to create event publisher: " NewPublisher
     else ret tt) ;;*
    if String.eqb CmdName "invoke" then invokeActorMethod args
    else if String.eqb CmdName "rest" then invokeServiceEndpoint args
    else if String.eqb CmdName "get" then getInformation
    else
      env start_server ;;*
      match args with [] => ret 0 | _ => Run args (app_environment port) end.
End cli.

(* ---------------------------------------------------------------------- *)
(** ** Commands that need Redis only *)

(** The listing of the known actors needs Redis only: when [Main] takes the short
    cut, it neither connects to Kafka nor calls anything that does, so whatever state
    Kafka is in the command does the same. *)
Theorem offline_get {W} `{StoreOps W} `{ProcessOps W} `{Texts} `{Json} `{CommandJson} `{MapIter}
    (K K' : KafkaOps W) v CmdName args w :
  requiresPubSub v CmdName = false →
  Main (KO := K) v CmdName args w = Main (KO := K') v CmdName args w.
Proof.
  intros P. unfold Main. rewrite P. unfold requiresPubSub in P.
  destruct (String.eqb_spec CmdName "get") as [->|]; [|done].
  destruct (String.eqb_spec (getS v "GetSystemComponent") "actors") as [E|]; [|done].
  destruct (getB v "GetResidentOnly") eqn:R; [done|]. cbn [String.eqb Ascii.eqb Bool.eqb].
  unfold getInformation, get_actors. rewrite E, R. reflexivity.
Qed.

(* ---------------------------------------------------------------------- *)
(** ** No command panics *)

Definition quiet {W A} (m : M W A) : Prop := ∀ w s, (m w).1 ≠ Panic s.

Section quiet.
Context {W : Type}.

Lemma quiet_ret {A} (a : A) : quiet (W := W) (ret a).
Proof. done. Qed.

Lemma quiet_throw {A} e : quiet (W := W) (throw (A := A) e).
Proof. done. Qed.

Lemma quiet_bind_if {A B} (m : M W A) (k : A → M W B) :
  quiet m → (∀ w a w', m w = (Ok a, w') → quiet (k a)) → quiet (bind m k).
Proof.
  intros Hm Hk w s. unfold bind. specialize (Hm w). destruct (m w) as [[a|e|s'|] w'] eqn:E; try done; [by eapply Hk|].
  cbn in *. intros [= ->]. by destruct (Hm s).
Qed.

Lemma quiet_bind {A B} (m : M W A) (k : A → M W B) : quiet m → (∀ a, quiet (k a)) → quiet (bind m k).
Proof. intros Hm Hk. apply quiet_bind_if; [done|]. intros. apply Hk. Qed.

Lemma quiet_attempt {A} (m : M W A) : quiet m → quiet (attempt m).
Proof.
  intros Hm w s. unfold attempt. specialize (Hm w). destruct (m w) as [[a|e|s'|] w']; try done.
  cbn in *. intros [= ->]. by destruct (Hm s).
Qed.

Lemma quiet_of_res {A} (r : res A) : (∀ s, r ≠ Panic s) → quiet (W := W) (of_res r).
Proof. intros Hr w s. apply Hr. Qed.

Lemma quiet_env {A} (m : M W A) : quiet m → quiet (env m).
Proof. intros Hm w s. unfold env. specialize (Hm (cw_env w) s). by destruct (m (cw_env w)). Qed.

Lemma quiet_print l : quiet (W := cworld W) (print l).
Proof. done. Qed.
End quiet.

Create HintDb quiet.
#[local] Hint Resolve quiet_ret quiet_throw quiet_bind quiet_attempt quiet_of_res quiet_env quiet_print : quiet.

Lemma quiet_print_all {W} ls : quiet (W := cworld W) (print_all ls).
Proof. induction ls as [|l ls IH]; cbn; auto with quiet. Qed.

Lemma quiet_fatal {W} `{Texts} {A} what (m : M W A) : quiet m → quiet (fatal what m).
Proof. intros Hm. unfold fatal. apply quiet_bind; [auto with quiet|]. intros [a|e]; auto with quiet. Qed.

Lemma quiet_fails {W} what : quiet (W := cworld W) (fails what).
Proof. unfold fails. auto with quiet. Qed.

Lemma quiet_index {W} args i : (i < length args)%nat → quiet (W := cworld W) (index args i).
Proof. intros Hi. unfold index. apply lookup_lt_is_Some in Hi as [a ->]. apply quiet_ret. Qed.

#[local] Hint Resolve quiet_print_all quiet_fatal quiet_fails quiet_index : quiet.

(** What is called does not panic; a node of the topology offers its service at
    least, as the nodes that [rpc.Connect] registers do. *)
Class Sound {W} `{StoreOps W} `{KafkaOps W} `{ProcessOps W} `{Texts} `{Json} : Prop := {
  sound_state ty id : quiet (actorGetAllState ty id);
  sound_sessions ty : quiet (GetAllSessions ty);
  sound_purge pattern : quiet (store_Purge pattern);
  sound_actor a p b f i : quiet (CallActor a p b f i);
  sound_service s p b h m : quiet (CallService s p b h m);
  sound_topology : quiet GetTopology;
  sound_ports : quiet GetPorts;
  sound_active ty : quiet (getAllActiveActors ty);
  sound_connect t p l : quiet (rpc_Connect t p l);
  sound_publisher : quiet NewPublisher;
  sound_listen h : quiet (Listen h);
  sound_dial : quiet store_Dial;
  sound_topic t : quiet (DeleteTopic t);
  sound_server : quiet start_server;
  sound_exec a e : quiet (exec a e);
  sound_texts : (∀ t s, MarshalTopology t ≠ Panic s) ∧ (∀ a s, MarshalState a ≠ Panic s) ∧
    (∀ m f s, formatActorInstanceMap m f ≠ Panic s) ∧ (∀ a s, Marshal a ≠ Panic s);
  sound_nodes w t w' : GetTopology w = (Ok t, w') → ∀ n services, t !! n = Some services → services ≠ [];
}.

Section sound.
Context {W : Type} `{StoreOps W} `{KafkaOps W} `{ProcessOps W} `{Texts} `{Json} `{CommandJson} `{MapIter}.
Context `{!Sound}.
Context (v : vars).

#[local] Hint Extern 1 (quiet (actorGetAllState _ _)) => apply sound_state : quiet.
#[local] Hint Extern 1 (quiet (GetAllSessions _)) => apply sound_sessions : quiet.
#[local] Hint Extern 1 (quiet (store_Purge _)) => apply sound_purge : quiet.
#[local] Hint Extern 1 (quiet (CallActor _ _ _ _ _)) => apply sound_actor : quiet.
#[local] Hint Extern 1 (quiet (CallService _ _ _ _ _)) => apply sound_service : quiet.
#[local] Hint Extern 1 (quiet (getAllActiveActors _)) => apply sound_active : quiet.
#[local] Hint Extern 1 (quiet (rpc_Connect _ _ _)) => apply sound_connect : quiet.
#[local] Hint Extern 1 (quiet (NewPublisher)) => apply sound_publisher : quiet.
#[local] Hint Extern 1 (quiet (Listen _)) => apply sound_listen : quiet.
#[local] Hint Extern 1 (quiet (store_Dial)) => apply sound_dial : quiet.
#[local] Hint Extern 1 (quiet (DeleteTopic _)) => apply sound_topic : quiet.
#[local] Hint Extern 1 (quiet (start_server)) => apply sound_server : quiet.
#[local] Hint Extern 1 (quiet (exec _ _)) => apply sound_exec : quiet.

Lemma quiet_or_nil {A} (m : M W (gmap string A)) : quiet m → quiet (or_nil m).
Proof. intros Hm. unfold or_nil. auto with quiet. Qed.

Lemma or_nil_Ok {A} (m : M W (gmap string A)) w a w' : or_nil m w = (Ok a, w') →
  a = ∅ ∨ ∃ e e', m e = (Ok a, e').
Proof.
  unfold or_nil, bind, attempt, env. destruct (m (cw_env w)) as [[x|e|s|] e'] eqn:E; intros [= <- _]; [right|by left].
  by exists (cw_env w), e'.
Qed.

Lemma quiet_sidecar_data (ports : gmap string Z) (topology : gmap string (list string)) :
  (∀ n services, topology !! n = Some services → services ≠ []) →
  ∀ s, map_res (Routes.sidecar_data ports) (map_iter 91 topology) ≠ Panic s.
Proof.
  intros Ht s. rewrite (map_res_Ok _ (λ kv, (kv.1, mkSidecarData (default 0 (ports !! kv.1)) (tail kv.2) [hd "" kv.2]))); [done|].
  intros [k services] Hk. rewrite map_iter_perm, elem_of_map_to_list in Hk. apply Ht in Hk. by destruct services.
Qed.

Lemma quiet_sidecars : quiet (get_sidecars v).
Proof.
  unfold get_sidecars. apply quiet_bind_if; [apply quiet_or_nil, sound_topology|]. intros w t w' Et.
  apply quiet_bind; [apply quiet_or_nil, sound_ports|]. intros ports. apply quiet_bind.
  - apply quiet_of_res, quiet_sidecar_data. apply or_nil_Ok in Et as [->|(e & e' & Et)]; [done|]. by eapply sound_nodes.
  - intros entries. destruct (is_json v); [|auto with quiet]. apply quiet_bind; [|auto with quiet].
    apply quiet_attempt, quiet_of_res. apply sound_texts.
Qed.

Lemma quiet_instances prefix (m : M W (gmap string (list string))) : quiet m → quiet (get_instances v prefix m).
Proof.
  intros Hm. unfold get_instances. apply quiet_bind; [auto with quiet|]. intros [t|e]; [|auto with quiet].
  apply quiet_bind; [|auto with quiet]. apply quiet_attempt, quiet_of_res. apply sound_texts.
Qed.

Lemma quiet_state ty id : quiet (W := cworld W) (get_state ty id).
Proof.
  unfold get_state. apply quiet_bind; [auto with quiet|]. intros [t|e]; [|auto with quiet].
  destruct (decide _); [auto with quiet|]. apply quiet_bind; [|auto with quiet].
  apply quiet_attempt, quiet_of_res. apply sound_texts.
Qed.

Lemma quiet_get : quiet (W := cworld W) (getInformation v).
Proof.
  unfold getInformation. destruct (_ || _); [auto using quiet_sidecars with quiet|].
  destruct (_ || _); [|auto with quiet]. apply quiet_bind; [|auto with quiet]. unfold get_actors.
  destruct (negb _); [apply quiet_state|]. destruct (negb _); apply quiet_instances; auto with quiet.
Qed.

Lemma quiet_invoke args : (3 ≤ length args)%nat → quiet (W := cworld W) (invokeActorMethod args).
Proof.
  intros Hl. unfold invokeActorMethod. do 3 (apply quiet_bind; [apply quiet_index; lia|intros ?]).
  apply quiet_bind; [auto with quiet|]. intros _. apply quiet_bind; [apply quiet_attempt, quiet_of_res; apply sound_texts|].
  intros [p|e]; [|auto with quiet]. apply quiet_bind; [auto with quiet|]. intros [r|e]; auto with quiet.
Qed.

Lemma quiet_rest args : (3 ≤ length args)%nat → quiet (W := cworld W) (invokeServiceEndpoint v args).
Proof.
  intros Hl. unfold invokeServiceEndpoint. do 3 (apply quiet_bind; [apply quiet_index; lia|intros ?]).
  destruct (match args !! 3%nat with Some b => _ | None => _ end) as [h b].
  apply quiet_bind; [auto with quiet|]. intros [r|e]; auto with quiet.
Qed.

Lemma quiet_purge topic pattern : quiet (W := cworld W) (purge topic pattern).
Proof.
  unfold purge. apply quiet_bind; [auto with quiet|]. intros x. apply quiet_bind; [destruct x; auto with quiet|].
  intros _. apply quiet_bind; [auto with quiet|]. intros [c|e]; auto with quiet.
Qed.

Lemma quiet_Run args environment : quiet (W := cworld W) (Run args environment).
Proof.
  unfold Run. apply quiet_bind; [auto with quiet|]. intros [[|n|n]| |]; auto with quiet.
Qed.

Lemma quiet_Main CmdName args :
  ((CmdName = "invoke" ∨ CmdName = "rest") → (3 ≤ length args)%nat) → quiet (W := cworld W) (Main v CmdName args).
Proof.
  intros Ha. unfold Main. apply quiet_bind; [auto with quiet|]. intros assigned.
  apply quiet_bind; [auto with quiet|]. intros _.
  destruct (String.eqb CmdName "purge"); [auto using quiet_purge with quiet|].
  destruct (String.eqb CmdName "drain"); [auto using quiet_purge with quiet|].
  apply quiet_bind; [destruct (requiresPubSub v CmdName); auto with quiet|]. intros _.
  destruct (String.eqb_spec CmdName "invoke") as [E|]; [apply quiet_invoke; auto|].
  destruct (String.eqb_spec CmdName "rest") as [E|]; [apply quiet_rest; auto|].
  destruct (String.eqb CmdName "get"); [apply quiet_get|].
  apply quiet_bind; [auto with quiet|]. intros _. destruct args; [auto with quiet|apply quiet_Run].
Qed.

(** What [init] checks of the arguments. *)
Lemma settings_arguments `{Host} CmdName args u u' : settings CmdName args u = (Ok tt, u') →
  (CmdName = "invoke" ∨ CmdName = "rest") → (3 ≤ length args)%nat.
Proof.
  unfold settings. intros E Hc. inv_ok.
  repeat match goal with
  | H : (if String.eqb CmdName "invoke" && _ then _ else _) _ = _ |- _ => apply when_ok in H as [Hi _]
  | H : (if String.eqb CmdName "rest" && _ then _ else _) _ = _ |- _ => apply when_ok in H as [Hr _]
  end.
  destruct Hc as [->| ->]; cbn in Hi, Hr.
  - apply Nat.leb_gt in Hi. lia.
  - destruct (Nat.eqb_spec (length args) 3); [lia|]. destruct (Nat.eqb_spec (length args) 4); [lia|done].
Qed.

(** A command line that [init] accepts makes no command index out of its
    arguments or dereference nil: as long as what [Main] calls does not panic, neither
    does [Main], for every command, setting and outcome of the calls. *)
Theorem commands_never_panic `{Host} kar CmdName argv args w s :
  init (kar :: CmdName :: argv) = inl (v, args) → (Main (W := W) v CmdName args w).1 ≠ Panic s.
Proof.
  unfold init. destruct (bool_decide _); [done|]. destruct (commandOptions CmdName) as [cmd|]; [|done].
  destruct (parse_flags _ _ _) as [[u rest]|]; [|done]. destruct (getB u "help"); [done|].
  destruct (settings CmdName rest u) as [[[]|[]| |] u'] eqn:Es; try done. intros [= -> <-].
  apply quiet_Main. by eapply settings_arguments.
Qed.
End sound.

(* ---------------------------------------------------------------------- *)
(** ** Witnesses *)

Module Witness.
#[local] Existing Instance Config.Witness.host.
#[local] Existing Instance canonical_iter.

#[local] Instance Strings0 : Json := {|
  Marshal := λ a, match a with
    | ASlice l => Ok ("[" +:+ String.concat "," ((λ x, match x with AString s => MiniJson.quote s | _ => "null" end) <$> l) +:+ "]")
    | _ => Err (EMsg "unsupported value")
    end;
  Unmarshal := λ s, if String.eqb s "null" then Some ANil else None;
|}.

#[local] Instance Redis0 : StoreOps Z := {|
  actorGetAllState := λ _ _, ret ∅;
  GetAllSessions := λ ty, if String.eqb ty "Down" then throw EUnavailable else ret {["Account" := ["1"; "2"]]};
  store_Purge := λ _, ret 0;
|}.

(** The world counts the connections to Kafka. *)
#[local] Instance Kafka0 : KafkaOps Z := {|
  CallActor := λ _ _ _ _ _, ret (mkReply 200 "text/plain" "done");
  CallService := λ _ _ _ _ _, throw EUnavailable;
  GetTopology := ret {["n1" := ["svc"; "Account"]]};
  GetPorts := ret {["n1" := 8080]};
  getAllActiveActors := λ _, throw EUnavailable;
  rpc_Connect := λ _ _ _ n, (Ok tt, n + 1);
  NewPublisher := ret tt;
|}.

#[local] Instance Process0 : ProcessOps Z := {|
  Listen := λ _, ret 40000;
  store_Dial := ret tt;
  DeleteTopic := λ _, ret tt;
  start_server := ret tt;
  exec := λ _ _, ret (Exited 3);
  Environ := [];
|}.

#[local] Instance Texts0 : Texts := {|
  Error := λ e, match e with EMsg s => s | _ => "unavailable" end;
  Sprint := λ a, match a with AString s => s | _ => "value" end;
  MarshalTopology := λ _, Ok "{}";
  MarshalState := λ _, Ok "{}";
  formatActorInstanceMap := λ m _, Ok (String.concat "," (fst <$> map_to_list m));
  show_strings := String.concat " ";
|}.

#[local] Existing Instance CommandProps.CommandProps.Witness.replies.

#[local] Instance Sound0 : Sound (W := Z).
Proof.
  split; try done.
  - intros ty w s. cbn. by destruct (String.eqb ty "Down").
  - split_and!; try done. intros a s. by destruct a.
  - intros w t w' [= <- _] n services Hn. apply lookup_singleton_Some in Hn as [_ <-]. done.
Qed.

Definition common : list string := ["-app"; "a"; "-redis_host"; "r"].
Definition vars_of (argv : list string) : vars * list string :=
  match init argv with inl r => r | inr _ => (vars0, []) end.

Definition invoke_line : list string := ["kar"; "invoke"] ++ common ++ ["Account"; "1"; "deposit"; "null"; "x"].
Definition get_line : list string := ["kar"; "get"] ++ common.
Definition get_down : list string := ["kar"; "get"] ++ common ++ ["-t"; "Down"].

Lemma commands_never_panic_witness :
  init invoke_line = inl (vars_of invoke_line) ∧
  Main (vars_of invoke_line).1 "invoke" (vars_of invoke_line).2 (mkCworld 0 []) =
    (Ok 0, mkCworld 1 [Logged "WARNING" "assuming argument x is a string"; Stdout "done"]) ∧
  ∀ s, (Main (vars_of invoke_line).1 "invoke" (vars_of invoke_line).2 (mkCworld 0 [])).1 ≠ Panic s.
Proof.
  split_and!; [vm_compute; reflexivity..|]. intros s.
  apply (commands_never_panic _ "kar" "invoke" (common ++ ["Account"; "1"; "deposit"; "null"; "x"])).
  vm_compute. reflexivity.
Defined.

(** A Kafka that cannot be reached. *)
Definition NoKafka : KafkaOps Z := {|
  CallActor := λ _ _ _ _ _, throw EUnavailable;
  CallService := λ _ _ _ _ _, throw EUnavailable;
  GetTopology := throw EUnavailable;
  GetPorts := throw EUnavailable;
  getAllActiveActors := λ _, throw EUnavailable;
  rpc_Connect := λ _ _ _, throw EUnavailable;
  NewPublisher := throw EUnavailable;
|}.

Lemma offline_get_witness :
  requiresPubSub (vars_of get_line).1 "get" = false ∧
  Main (KO := NoKafka) (vars_of get_line).1 "get" [] (mkCworld 0 []) =
  (Ok 0, mkCworld 0 [Stdout ("Listing all known actor instances:" +:+ newline +:+ "Account")]).
Proof.
  split; [vm_compute; reflexivity|].
  rewrite (offline_get NoKafka Kafka0); vm_compute; reflexivity.
Defined.

(** An error of the listing is lost: the status is 0. *)
Example get_error_lost :
  Main (vars_of get_down).1 "get" [] (mkCworld 0 []) =
  (Ok 0, mkCworld 0 [Stdout ("Known instances of actor type Down are:" +:+ newline)]).
Proof. vm_compute. reflexivity. Qed.
End Witness.
End Cli.
