(* ===== verification/Checker.v ===== *)
(** * Checker: ordered checks of an output, and the connection of a test's client

    Models src/core/pkg/checker: checker.go, in which a test names texts that the
    output of a client or of a server contains in this order, and connect.go, with
    which a client connects to Redis ([Pool]) and Kafka ([Connect]).  An output is the
    list of its lines; the processes that are started are the class [ExecOps]. *)

From S2P Require Import Prelude GoLib Store Backoff Pool Connect.
Open Scope string_scope.
Open Scope list_scope.

Module Checker.

(** The fields of a check that its operations change. *)
Record Check : Type := mkCheck { checkClientOrdered : list string; checkServerOrdered : list string }.

Definition CheckClient (checkString : string) (c : Check) : Check :=
  mkCheck (checkClientOrdered c ++ [checkString]) (checkServerOrdered c).

Definition CheckServer (checkString : string) (c : Check) : Check :=
  mkCheck (checkClientOrdered c) (checkServerOrdered c ++ [checkString]).

(** A line matches the check of the index, if there is one left. *)
Definition found (fileChecks : list string) (checkIndex : nat) (outputLine : string) : bool :=
  match fileChecks !! checkIndex with Some check => Contains outputLine check | None => false end.

(** The loop over the lines: the index of the next check and the lines saved. *)
Fixpoint scan_lines (fileChecks lines : list string) (checkIndex : nat) (saved : list string) : nat * list string :=
  match lines with
  | [] => (checkIndex, saved)
  | outputLine :: lines' =>
      scan_lines fileChecks lines' (if found fileChecks checkIndex outputLine then S checkIndex else checkIndex)
        (saved ++ [outputLine])
  end.

(** The failure of the test: the check that is not found, and the output. *)
Definition runOrderedCheck (lines fileChecks : list string) : option (string * string) :=
  let '(checkIndex, saved) := scan_lines fileChecks lines 0 [] in
  match fileChecks !! checkIndex with
  | Some check => Some (check, Join (String "010" "") saved)
  | None => None
  end.

(** The texts occur in the lines in this order, each in a line of its own. *)
Inductive in_order : list string → list string → Prop :=
| in_order_none lines : in_order [] lines
| in_order_later checks line lines : in_order checks lines → in_order checks (line :: lines)
| in_order_here check checks line lines :
    Contains line check = true → in_order checks lines → in_order (check :: checks) (line :: lines).

Lemma in_order_tail check checks lines : in_order (check :: checks) lines → in_order checks lines.
Proof.
  induction lines as [|line lines IH]; intros I; inversion I; subst.
  - by apply in_order_later, IH.
  - by apply in_order_later.
Qed.

(** Taking the first line that matches never loses an occurrence. *)
Lemma in_order_first check checks line lines :
  Contains line check = true → in_order (check :: checks) (line :: lines) → in_order checks lines.
Proof. intros C I. inversion I; subst; [by eapply in_order_tail|done]. Qed.

Lemma in_order_skip check checks line lines :
  Contains line check = false → in_order (check :: checks) (line :: lines) → in_order (check :: checks) lines.
Proof. intros C I. inversion I; subst; [done|congruence]. Qed.

Lemma in_order_take n checks lines : in_order checks lines → in_order (take n checks) lines.
Proof.
  intros I. revert n. induction I as [lines|checks line lines _ IH|check checks line lines C _ IH]; intros n.
  - rewrite take_nil. constructor.
  - constructor. apply IH.
  - destruct n; [constructor|]. by apply in_order_here.
Qed.

Lemma scan_lines_spec checks lines i saved :
  (i ≤ length checks)%nat →
  ∃ n, scan_lines checks lines i saved = ((i + n)%nat, saved ++ lines) ∧ (i + n ≤ length checks)%nat ∧
    ∀ m, (m ≤ length checks - i)%nat → (m ≤ n)%nat ↔ in_order (take m (drop i checks)) lines.
Proof.
  revert i saved. induction lines as [|line lines IH]; intros i saved Hi; cbn [scan_lines].
  - exists 0%nat. rewrite Nat.add_0_r, app_nil_r. split_and!; [done|done|]. intros m Hm. split.
    + intros ?. assert (m = 0)%nat as -> by lia. constructor.
    + intros I. inversion I as [? E| |]; subst. destruct m; [done|].
      destruct (drop i checks) eqn:D; [|done]. apply (f_equal length) in D. rewrite length_drop in D. cbn in D. lia.
  - replace (saved ++ line :: lines) with ((saved ++ [line]) ++ lines) by (by rewrite <-app_assoc). unfold found. destruct (checks !! i) as [check|] eqn:Ec.
    + apply lookup_lt_Some in Ec as Hl. rewrite (drop_S _ _ _ Ec). destruct (Contains line check) eqn:C.
      * destruct (IH (S i) (saved ++ [line]) ltac:(lia)) as (n & E & Hn & Hin). exists (S n).
        cbv iota. rewrite E, Nat.add_succ_comm. split_and!; [done|lia|]. intros [|m] Hm; [split; [constructor|lia]|]. cbn [take].
        rewrite <-Nat.succ_le_mono, Hin by lia. split; [by apply in_order_here|by apply in_order_first].
      * destruct (IH i (saved ++ [line]) ltac:(lia)) as (n & E & Hn & Hin). exists n.
        cbv iota. rewrite E. split_and!; [done|done|]. intros [|m] Hm; [split; [constructor|lia]|].
        rewrite Hin by done. rewrite (drop_S _ _ _ Ec). cbn [take].
        split; [by apply in_order_later|by apply in_order_skip].
    + destruct (IH i (saved ++ [line]) Hi) as (n & E & Hn & Hin). exists n. rewrite E. split_and!; [done|done|].
      apply lookup_ge_None in Ec. intros m Hm. assert (m = 0)%nat as -> by lia. split; [constructor|lia].
Qed.

(** The check of an output is exact, although it never looks back: it passes when
    the texts occur in the lines in their order, each in a line of its own, and fails
    otherwise; it then reports the first text that does not occur after the others,
    with the whole output. *)
Theorem ordered_check_exact lines fileChecks :
  match runOrderedCheck lines fileChecks with
  | None => in_order fileChecks lines
  | Some (check, output) =>
      output = Join (String "010" "") lines ∧ ∃ before after, fileChecks = before ++ check :: after ∧
        in_order before lines ∧ ¬ in_order (before ++ [check]) lines
  end.
Proof.
  unfold runOrderedCheck. destruct (scan_lines_spec fileChecks lines 0 [] ltac:(lia)) as (n & E & Hn & Hin).
  rewrite E. cbn [Nat.add app] in *. rewrite drop_0, Nat.sub_0_r in Hin.
  destruct (fileChecks !! n) as [check|] eqn:Ec.
  - split; [done|]. apply lookup_lt_Some in Ec as Hl. exists (take n fileChecks), (drop (S n) fileChecks).
    split_and!; [by rewrite take_drop_middle|by apply Hin; lia|].
    rewrite <-(take_S_r _ _ _ Ec). intros I. apply Hin in I; lia.
  - apply lookup_ge_None in Ec. assert (n = length fileChecks) as -> by lia.
    rewrite <-(firstn_all fileChecks). by apply Hin.
Qed.

Example greedy : runOrderedCheck ["a b"; "c"; "b"] ["a"; "b"] = None ∧
  runOrderedCheck ["b"; "a"] ["a"; "b"] = Some ("b", "b" +:+ String "010" "a").
Proof. split; reflexivity. Qed.

(* ---------------------------------------------------------------------- *)
(** ** The processes of a test *)

(** A command that is run with go: the errors of its pipe and its start, and the lines
    it writes until it ends. *)
Class ExecOps : Type := {
  StderrPipe : list string → option gerror;
  Start : list string → option gerror;
  Stderr : list string → list string;
}.

(** A test: its checks, and the output of the server once it runs. *)
Record test : Type := mkTest { t_check : Check; serverOutput : list string; serverName : string }.

(** [t.Fatalf] ends a test with a text and, for the checks, their failure. *)
Inductive verdict : Type :=
| Passed
| NotStarted (what : string) (err : gerror)
| NotFound (check output : string).

Definition go_run (name : string) : list string := ["go"; "run"; name +:+ "/" +:+ name +:+ ".go"].

Definition checked (lines fileChecks : list string) : verdict :=
  match runOrderedCheck lines fileChecks with
  | None => Passed
  | Some (check, output) => NotFound check output
  end.

Section processes.
Context `{ExecOps}.

Definition started (what : string) (command : list string) : verdict :=
  match StderrPipe command with
  | Some err => NotStarted "pipe" err
  | None => match Start command with Some err => NotStarted what err | None => Passed end
  end.

Definition RunServer (name : string) (t : test) : verdict * test :=
  let t := mkTest (t_check t) (serverOutput t) name in
  match started "server" (go_run name) with
  | Passed => (Passed, mkTest (t_check t) (Stderr (go_run name)) name)
  | v => (v, t)
  end.

Definition RunServerCheck (t : test) : verdict := checked (serverOutput t) (checkServerOrdered (t_check t)).

Definition RunClientCheck (testClientName : string) (t : test) : verdict :=
  match started "client" (go_run testClientName) with
  | Passed => checked (Stderr (go_run testClientName)) (checkClientOrdered (t_check t))
  | v => v
  end.

(** A test of a client passes only if the client was started and the texts occur in
    the order in which they were added. *)
Lemma client_passes name t : RunClientCheck name t = Passed →
  Start (go_run name) = None ∧ in_order (checkClientOrdered (t_check t)) (Stderr (go_run name)).
Proof.
  unfold RunClientCheck, started, checked. destruct (StderrPipe _); [done|]. destruct (Start _); [done|].
  pose proof (ordered_check_exact (Stderr (go_run name)) (checkClientOrdered (t_check t))) as X.
  by destruct (runOrderedCheck _ _) as [[]|].
Qed.
End processes.

(* ---------------------------------------------------------------------- *)
(** ** The connection of a client *)

Section connection.
Context {B R K : Type} `{Pool.PoolOps B R} `{Redis R} `{!Backoff.BackoffOps (Pool.conn * (B * R))}.
Context `{Connect.SaramaOps K} `{!Backoff.BackoffOps K}.
Context (LookupEnv : string → option string).

(** The variable, or the empty string with a line in the log. *)
Definition variable (name : string) : string := default "" (LookupEnv name).

Definition redis_config (redisPortInteger : Z) : Pool.StoreConfig :=
  Pool.mkStoreConfig id (λ s, Ok s) (-1 * Pool.Second) (60 * Pool.Second) (variable "REDIS_HOST") redisPortInteger
    false false "" "" None.

Definition kafka_config : Connect.Config :=
  Connect.mkConfig (variable "KAFKA_VERSION") (Split "," (variable "KAFKA_BROKERS")) "" "" false false ∅ 0 false.

(** The client connects to the store and then to the group as a node of the service
    "client", or the process exits with status 1; [None] is a process that goes on. *)
Definition ConnectClient (appName : string) : M (B * R * Connect.process) (option Z) := λ '(store, p),
  match Atoi (variable "REDIS_PORT") with
  | (_, Some _) => (Ok (Some 1), (store, p))
  | (redisPortInteger, None) =>
      match Pool.Dial (redis_config redisPortInteger) store with
      | (Some _, store') => (Ok (Some 1), (store', p))
      | (None, store') =>
          match Connect.connect appName 0 kafka_config ["client"] p with
          | (Ok _, p') => (Ok None, (store', p'))
          | (Err _, p') => (Ok (Some 1), (store', p'))
          | (Panic why, p') => (Panic why, (store', p'))
          | (OutOfFuel, p') => (OutOfFuel, (store', p'))
          end
      end
  end.
End connection.
End Checker.
